(* ===== verification/_CoqProject ===== *)
-Q . S2P
Prelude.v
Errors.v
System.v
Config.v
Text.v
Runtime.v
User.v
Session.v
Seat.v
Auth.v
Timers.v
Lock.v
Idle.v
Elevation.v
Ipc.v
Protocol.v
Policy.v
Launcher.v
Autostart.v
Power.v
Daemon.v
Sessionctl.v
DaemonInv.v
DaemonSafety.v
DaemonPrompts.v
DaemonProcess.v
DaemonAudit.v
DaemonStates.v
DaemonReplies.v
Determinism.v
DaemonSettings.v
Locking.v
Prompting.v
DaemonEvents.v
Server.v
Replies.v
Progress.v
Provenance.v
Boot.v
Examples.v
UnitTests.v
Conformance.v
DaemonProps.v
SecurityProps.v
SystemProps.v
BoundaryProps.v
RunProps.v
