(* ===== verification/Prelude.v ===== *)
(** * mitos-session: a verification of the session daemon

    mitos-session is the login-session daemon of the MITOS desktop: a root
    process that starts, locks, unlocks and ends user sessions, tracks seats and
    idleness, suspends and powers off the machine, and asks a session's user for
    a password on behalf of a privileged service (an "elevation" prompt).  Its
    clients (the greeter, the compositor of each session, the elevation service,
    a command-line tool) talk to it over a Unix socket.  Connection threads parse
    requests and post them to a single event-loop thread, which owns all the
    state; the only other events are a one-second timer and signals.

    ** The parts, and where they are modelled

    - [Prelude]: Rust's [Result] ([result]), panics ([exec]), machine integers,
      time, [HashMap] iteration ([HashOrder]), the hint database [mitos].
    - [Errors]: [SessionError] (src/src/errors/error.rs).
    - [System]: the machine.  A [World] answers the system calls, file reads, PAM
      calls and clock readings made while one event is handled; [io] is fallible
      code that records the calls it makes ([SysCall]).
    - [Config]: the settings, their defaults and the choice of the file
      (src/src/config/).
    - [Text]: the [str] methods the parsers use, and when text is left as it is by
      trimming.
    - [Runtime]: the runtime directory of a user (src/src/session/runtime.rs), over
      a file system of names and inodes that other processes may change between
      any two calls; [triple] is a small program logic over the calls made.
    - [User]: accounts, /etc/group, dropping privileges, home directories, the
      /etc/shadow check
      (src/src/user/, [user_has_password] of src/src/main.rs).
    - [Session]: the state machine, environment, lifecycle and table of sessions
      (src/src/session/).
    - [Seat]: devices, hotplug events and the seat table (src/src/seat/), with
      the abstract queues [SeatSpec] it refines; the class [HotplugSink] is the
      trait of that name.
    - [Auth], [Timers], [Lock]: the PAM backend and the attempt counter
      (src/src/authentication/); lock state, lockouts, inhibitors (src/src/lock/).
    - [Idle]: activity and the dim/lock/suspend thresholds (src/src/idle/).
    - [Elevation]: the prompts (src/src/elevation/).
    - [Ipc], [Protocol]: the messages, the outbox registry, the framing and the
      loops over it (src/src/ipc/).
    - [Policy]: who may ask for what (src/src/policy/).
    - [Autostart]: XDG autostart entries (src/src/launcher/autostart.rs), with
      [render], the writer its parser inverts.
    - [Launcher], [Power]: starting processes (src/src/launcher/), suspend, power
      off, reboot and their three backends, signals (src/src/power/,
      src/src/signals/).
    - [Daemon]: src/src/main.rs.  The record [Daemon.t] is the struct [Daemon],
      each handler is a function of the same name from the state (and the
      [World]) to the effects it has, the reply and the state it leaves;
      [Daemon.handle] is one event, [Daemon.run] the event loop.
    - [Server]: src/src/ipc/server.rs.  The reader and writer thread of every
      connection, the channel to the event loop and the outboxes, as a transition
      system that interleaves them with [Daemon.handle]; [Replies] follows what the
      loop sends to the bytes on the socket.
    - [Boot]: [main] and [run] of src/src/main.rs and [spawn] of
      src/src/ipc/server.rs: the calls that set the process up, the event loop, the
      exit status; [Logging] is [init] of src/src/logging/mod.rs.
    - [Sessionctl]: the command-line tool (src/bin/mitos-sessionctl.rs).

    An effect ([Effect.t]) is a system call, a message put in the outbox of a
    connection, or an audit record; effects are listed in the order of the code.
    Where the order of an effect and of a change of state is what matters
    ([Power.suspend]), the code is in the monad [Traced], whose log has the state
    at every effect.
    A Rust module [m::Type] is a [Module Type] with the data type [t]; methods keep
    their names.  A [&mut self] method returns the new value.

    ** What is proved

    [DaemonInv] states the invariant of the daemon's state and shows that every
    handler preserves it; [DaemonSafety], [DaemonPrompts], [DaemonProcess],
    [DaemonAudit] (with the writer of src/src/logging/audit.rs), [DaemonStates],
    [DaemonReplies] and [DaemonSettings] say what an event may do to locks,
    replies, prompts, processes, the audit log, the states of sessions and the
    settings.  Seven files are about whole runs:

    - [Locking] has the abstract machine [LockSpec] of one session's lock, which the
      lock table refines, counts the passwords that can be tried on it, and says
      when an idle tick locks;
    - [Prompting] has the abstract machine [PromptSpec] of one session's prompts,
      counter and lockout, which the elevation manager refines, and counts the
      passwords that can be tried on them;
    - [DaemonEvents] says which connection is shown which event, and how a
      connection comes to display a session;
    - [Progress] counts the work left to the threads of [Server], says where they
      come to rest, and keeps the account of requests and replies;
    - [Provenance] traces every command the loop handles to the bytes and the
      credentials of one connection;
    - [Determinism] compares daemons that visit their maps in different orders;
    - [Replies] follows a message to the socket.

    The claims are stated in five files:

    - [DaemonProps] (C2-C10), the whole daemon, event by event: success is
      reported only for an accepted password (an [Unlock] may name any account);
      the invariant holds in every reachable state; handling never panics within
      the stated clock bounds; a closed prompt is always answered; a refused
      request changes nothing; one reply per request, besides those of the
      prompts it closes; processes run as the session's user; log-out and
      disconnection leave nothing behind.
    - [SecurityProps] (C11, C20, C37): the authorization table, the shadow
      check; and that locking again lifts a lockout.
    - [SystemProps] (C16, C21-C24, C28-C30, C33, C36, C39, C40): what a reload
      reads and changes; the session state machine and the part of it that is
      used, limits, the directories of a session, seats as queues, the order of
      suspend (which locks before the backend is called, without showing it) and
      power off, the wire protocol, privilege dropping, what the exit of a
      compositor starts and changes; the order in which the messages of a
      connection reach the loop, and when the end of one is reported.
    - [BoundaryProps] (C15, C25, C27, C31, C32, C34): what the audit log
      accounts for, and when a password's outcome is put on record; that replies
      reach a client in the order sent, in every interleaving; the runtime
      directory against other processes; readiness after listening; one run of
      the command-line tool against the daemon's reader; which autostart entries
      are started.
    - [RunProps] (C1, C12-C14, C17-C19, C26, C35, C38), whole runs: the lock of
      a session follows its machine, action by action, and so do its prompts; a
      session is unlocked only by the bytes of a peer that may, with a password
      PAM accepts; how many passwords can be tried on a lock, and on prompts,
      between two resets; a seat that goes idle has its session locked, at one
      tick; an event is only shown where its session is displayed; every request
      of a connection has had its reply or is an open prompt, and the reply is
      on the socket when the outbox is empty; the threads come to rest under
      every schedule, with nothing left in the channel; and the order of the
      maps changes neither the state nor what is done.

    [Examples] is a concrete machine and a daemon with a session on it; each claim
    with hypotheses is instantiated there or beside it ([..._witness]).
    [UnitTests] translates the [#[cfg(test)]] modules of the crate and runs them on
    the definitions; [Conformance] does so for the tests of src/tests/.

    ** Assumptions and bounds

    - A [HashMap] is a [gmap] and iterates in an order of which only [HashOrder]
      is known; the theorems hold for every order.
    - PAM, the passwd database, the file system, udev, bincode ([Codec],
      [CodecLaws]), serde_json ([SerdeJson]) and toml ([TomlSettings]) are
      parameters.
    - Within one event the [World] does not change; successive events (and
      successive [waitpid]s) each have their own.
    - Arithmetic on machine integers wraps, as the release profile of Cargo.toml
      builds it.  Session ids and prompt ids are 32- and 64-bit counters.  The
      invariant of the reachable states is stated for runs shorter than the room
      left in them ([DaemonInv.room]).
    - [Instant + Duration] panics past the range of the clock; [handle_completes]
      states the bounds on the clock and the configured timeouts that exclude it.
    - Fewer than [2^64] connections are accepted ([server_step]), and the channel to
      the event loop does not fail while the process runs.
    - [Protocol.read_loop] and [IpcClient.await] run on fuel: each turn consumes at
      least four bytes, so one more than the bytes available is enough
      ([read_loop_fuel]); no other definition needs fuel.
    - A connection's input is all its peer ever sends, then the end of it; a peer
      that is silent is a reader that is not scheduled.
    - Paths, and the home directory and shell of an account, are valid UTF-8: their
      [to_string_lossy] is the identity ([Environment.for_session],
      [Launcher.spawn_fallback_terminal]).
    - A [Command] says what a child is started with: its groups, gid and uid are
      fields, and the order in which [pre_exec] sets them is not represented; the
      same three calls are in order in [Permissions.drop_privileges].
    - [Autostart.to_command] takes the groups of the user as an argument: the field
      src/src/launcher/autostart.rs reads does not exist.
    - The kernel gives no two children that were not waited for the same id
      ([one_compositor], for [Determinism] only).

    - The file system of [Runtime] has names that lead to inodes; that the
      directories on the way can be traversed is part of a name being there.  A
      call that fails for a reason of its own ([fault]) changes nothing; what it may
      have done in part is up to [env].

    ** What is not modelled

    Logging through [tracing] beyond its set-up, and the panic hook: they change
    nothing the program reads.  The parsing of the command line
    by clap, and calloop itself: a batch of events is what one [dispatch] delivers.
    Nothing interprets the records of [Effect.Audit]: [Audit.audit_log] says what
    becomes of each.  src/src/session/runtime.rs, src/src/launcher/autostart.rs and
    src/src/seat/monitor.rs are modelled although no module declares them. *)

From stdpp Require Import base gmap sets strings pretty numbers fin_maps list.

#[global] Set Default Goal Selector "!".

(** ** Results and panics *)

(** Rust's [Result<A, E>]. *)
Inductive result (E A : Type) : Type :=
| Ok (a : A)
| Err (e : E).
Arguments Ok {E A} a.
Arguments Err {E A} e.

(** What a piece of code that may panic does: it completes with a value, or the
    thread unwinds.  Every handler of the daemon runs on one thread and nothing
    in the sources catches an unwind, so a panic ends the process and there is
    no state after it. *)
Inductive exec (A : Type) : Type :=
| Done (a : A)
| Panicked.
Arguments Done {A} a.
Arguments Panicked {A}.

#[global] Instance result_ret E : MRet (result E) := λ A a, Ok a.
#[global] Instance result_bind E : MBind (result E) := λ A B f r,
  match r with Ok a => f a | Err e => Err e end.
#[global] Instance result_fmap E : FMap (result E) := λ A B f r,
  match r with Ok a => Ok (f a) | Err e => Err e end.
#[global] Instance exec_ret : MRet exec := λ A a, Done a.
#[global] Instance exec_bind : MBind exec := λ A B f r,
  match r with Done a => f a | Panicked => Panicked end.

Definition is_ok {E A} (r : result E A) : bool :=
  match r with Ok _ => true | Err _ => false end.

Definition map_err {E F A} (f : E → F) (r : result E A) : result F A :=
  match r with Ok a => Ok a | Err e => Err (f e) end.

(** [Option::ok_or]. *)
Definition ok_or {E A} (e : E) (o : option A) : result E A :=
  match o with Some a => Ok a | None => Err e end.

(** ** Machine integers

    An unsigned integer of width [w] is an [N] below [2 ^ w].  The release
    profile leaves overflow checks off, so [+] and [-] wrap. *)

Definition wrap32 (x : N) : N := x `mod` 2 ^ 32.
Definition wrap64 (x : N) : N := x `mod` 2 ^ 64.
Definition u32_add (x y : N) : N := wrap32 (x + y).
Definition u32_sub (x y : N) : N := wrap32 (x + 2 ^ 32 - y).
Definition u64_add (x y : N) : N := wrap64 (x + y).
Definition is_u32 (x : N) : Prop := (x < 2 ^ 32)%N.
Definition is_u64 (x : N) : Prop := (x < 2 ^ 64)%N.
Definition u32_MAX : N := 2 ^ 32 - 1.
Definition u32_saturating_add (x y : N) : N := N.min (x + y) u32_MAX.

(** ** Time

    [std::time::Duration] is a number of nanoseconds.  An [Instant] is a
    reading of the monotonic clock, a [timespec] whose seconds are an [i64]; it
    is kept as nanoseconds since the clock's origin. *)

Abbreviation Duration := N (only parsing).
Abbreviation Instant := N (only parsing).
Definition NANOS_PER_SEC : N := 1000000000.

(** [Duration::from_secs] and [Duration::as_secs]. *)
Definition from_secs (s : N) : Duration := (s * NANOS_PER_SEC)%N.
Definition as_secs (d : Duration) : N := (d `div` NANOS_PER_SEC)%N.

(** [Instant + Duration]: panics when the sum's seconds exceed [i64::MAX]. *)
Definition instant_add (t : Instant) (d : Duration) : exec Instant :=
  if ((t + d) `div` NANOS_PER_SEC <? 2 ^ 63)%N then Done (t + d)%N else Panicked.

(** [Instant::saturating_duration_since]. *)
Definition saturating_duration_since (now earlier : Instant) : Duration := (now - earlier)%N.

(** ** HashMap iteration

    [std::collections::HashMap] iterates in an unspecified order.  A map is a
    [gmap], and every loop over one goes through [hash_entries], of which
    nothing is known but that it lists the entries, each once: the theorems
    hold whatever the order is. *)

Class HashOrder := {
  hash_entries : ∀ {K V : Type} `{Countable K}, gmap K V → list (K * V);
  hash_entries_perm : ∀ {K V : Type} `{Countable K} (m : gmap K V),
    hash_entries m ≡ₚ map_to_list m
}.

Definition hash_keys `{HashOrder} {K V} `{Countable K} (m : gmap K V) : list K :=
  (hash_entries m).*1.
Definition hash_values `{HashOrder} {K V} `{Countable K} (m : gmap K V) : list V :=
  (hash_entries m).*2.

(** One order, for evaluating the model on concrete inputs. *)
Definition trie_order : HashOrder :=
  {| hash_entries K V _ _ m := map_to_list m; hash_entries_perm K V _ _ m := reflexivity _ |}.

(** ** Automation *)

Create HintDb mitos.

(** Case analysis on the scrutinee of a [match] in the goal or in [H]. *)
Ltac split_match := repeat (case_match; simplify_eq/=).

(** Split the conjunctions of the goal and close what is immediate. *)
Ltac split_done := repeat split; try done; eauto with mitos.

(** ** Lemmas on results *)

Lemma triple_eta {A B C} (x : A * B * C) : x = (x.1.1, x.1.2, x.2).
Proof. by destruct x as [[]]. Qed.

Lemma ok_or_Err {E A} (e e' : E) (o : option A) : ok_or e o = Err e' ↔ o = None ∧ e = e'.
Proof. destruct o; naive_solver. Qed.

Lemma exec_bind_Done {A B} (f : A → exec B) (r : exec A) b :
  r ≫= f = Done b ↔ ∃ a, r = Done a ∧ f a = Done b.
Proof. destruct r; naive_solver. Qed.

(** ** Lemmas on machine integers *)

Lemma wrap32_small x : is_u32 x → wrap32 x = x.
Proof. unfold wrap32, is_u32. intros. by apply N.mod_small. Qed.

Lemma wrap64_small x : is_u64 x → wrap64 x = x.
Proof. unfold wrap64, is_u64. intros. by apply N.mod_small. Qed.

Lemma u32_add_small x y : is_u32 (x + y) → u32_add x y = (x + y)%N.
Proof. apply wrap32_small. Qed.

Lemma u64_add_small x y : is_u64 (x + y) → u64_add x y = (x + y)%N.
Proof. apply wrap64_small. Qed.

(** A subtraction the code guards with [y <= x] does not wrap. *)
Lemma u32_sub_guarded x y : is_u32 x → (y ≤ x)%N → u32_sub x y = (x - y)%N.
Proof.
  unfold is_u32, u32_sub, wrap32. intros Hx Hy.
  replace (x + 2 ^ 32 - y)%N with (x - y + 1 * 2 ^ 32)%N by lia.
  rewrite N.Div0.mod_add. apply N.mod_small. lia.
Qed.

Lemma as_secs_from_secs s : as_secs (from_secs s) = s.
Proof. unfold as_secs, from_secs. by rewrite N.div_mul. Qed.

Lemma instant_add_Done t d t' : instant_add t d = Done t' → t' = (t + d)%N.
Proof. unfold instant_add. case_match; naive_solver. Qed.

(** A clock within [2^62] seconds of its origin and a duration below as much
    never overflow the clock. *)
Lemma instant_add_total t d :
  (t < 2 ^ 62 * NANOS_PER_SEC)%N → (d < 2 ^ 62 * NANOS_PER_SEC)%N →
  instant_add t d = Done (t + d)%N.
Proof.
  unfold instant_add, NANOS_PER_SEC. intros Ht Hd.
  destruct (N.ltb_spec ((t + d) `div` 1000000000) (2 ^ 63)) as [|Hge]; [done|].
  exfalso. revert Hge. apply N.lt_nge, N.Div0.div_lt_upper_bound. lia.
Qed.

(** ** Reachability *)

(** What every step keeps holds in every reachable state. *)
Lemma rtc_invariant {A} (R : relation A) (P : A → Prop) x y :
  (∀ a b, R a b → P a → P b) → rtc R x y → P x → P y.
Proof. intros HR. induction 1; eauto. Qed.

(** ** Lemmas on lists *)

Lemma NoDup_fst_filter {A B} (P : A * B → Prop) `{!∀ x, Decision (P x)} (l : list (A * B)) :
  NoDup l.*1 → NoDup (filter P l).*1.
Proof.
  induction l as [|x l IH]; [done|]. rewrite fmap_cons, NoDup_cons. intros [Hx Hnd].
  rewrite filter_cons. case_decide; [|auto]. rewrite fmap_cons, NoDup_cons. split; [|auto].
  intros (y & Heq & [_ Hy]%list_elem_of_filter)%list_elem_of_fmap.
  apply Hx, list_elem_of_fmap. eauto.
Qed.

(** ** Lemmas on iteration *)

Section hash_order.
Context `{HashOrder} {K V : Type} `{Countable K}.
Implicit Types (m : gmap K V).

Lemma elem_of_hash_entries m k v : (k, v) ∈ hash_entries m ↔ m !! k = Some v.
Proof. rewrite hash_entries_perm. apply elem_of_map_to_list. Qed.

Lemma elem_of_hash_keys m k : k ∈ hash_keys m ↔ is_Some (m !! k).
Proof.
  unfold hash_keys. rewrite list_elem_of_fmap. split.
  - intros ([k' v] & -> & Hin). apply elem_of_hash_entries in Hin. by eexists.
  - intros [v Hv]. exists (k, v). by rewrite elem_of_hash_entries.
Qed.

Lemma elem_of_hash_values m v : v ∈ hash_values m ↔ ∃ k, m !! k = Some v.
Proof.
  unfold hash_values. rewrite list_elem_of_fmap. split.
  - intros ([k v'] & -> & Hin). exists k. by apply elem_of_hash_entries in Hin.
  - intros [k Hv]. exists (k, v). by rewrite elem_of_hash_entries.
Qed.

Lemma NoDup_hash_keys m : NoDup (hash_keys m).
Proof. unfold hash_keys. rewrite hash_entries_perm. apply NoDup_fst_map_to_list. Qed.

Lemma hash_values_perm m : hash_values m ≡ₚ (map_to_list m).*2.
Proof. unfold hash_values. by rewrite hash_entries_perm. Qed.

(** How many values satisfy [P]: the code's [values().filter(P).count()]. *)
Definition count_values (P : V → Prop) `{!∀ v, Decision (P v)} m : nat :=
  length (filter P (hash_values m)).

Lemma count_values_size P `{!∀ v, Decision (P v)} m :
  count_values P m = size (filter (λ kv, P kv.2) m).
Proof.
  unfold count_values. rewrite hash_values_perm.
  induction m as [|k v m Hk Hfirst IH] using map_first_key_ind.
  - by rewrite map_to_list_empty, map_filter_empty.
  - rewrite map_to_list_insert, fmap_cons by done. simpl. rewrite map_filter_insert. simpl.
    destruct (decide (P v)) as [HP|HP].
    + rewrite filter_cons_True by done. simpl. rewrite IH, map_size_insert_None; [done|].
      by apply map_lookup_filter_None; left.
    + rewrite filter_cons_False by done. rewrite IH. by rewrite delete_id.
Qed.

Lemma count_values_insert_new P `{!∀ v, Decision (P v)} m k v :
  m !! k = None →
  count_values P (<[k:=v]> m) = ((if decide (P v) then 1 else 0) + count_values P m)%nat.
Proof.
  intros Hk. rewrite !count_values_size, map_filter_insert. simpl. case_decide.
  - rewrite map_size_insert_None; [done|]. by apply map_lookup_filter_None; left.
  - by rewrite delete_id.
Qed.

Lemma count_values_le P `{!∀ v, Decision (P v)} m : (count_values P m ≤ size m)%nat.
Proof. rewrite count_values_size. apply map_subseteq_size, map_filter_subseteq. Qed.

Lemma count_values_delete_le P `{!∀ v, Decision (P v)} m k :
  (count_values P (delete k m) ≤ count_values P m)%nat.
Proof. rewrite !count_values_size, map_filter_delete. apply map_subseteq_size, delete_subseteq. Qed.

End hash_order.

(** ** Deleting a list of keys *)

Section delete_list.
Context {K V : Type} `{Countable K}.
Implicit Types (m : gmap K V) (ks : list K).

Definition delete_list ks m : gmap K V := foldl (λ m k, delete k m) m ks.

Lemma lookup_delete_list ks m k :
  delete_list ks m !! k = if decide (k ∈ ks) then None else m !! k.
Proof.
  unfold delete_list. revert m. induction ks as [|k' ks IH]; intros m; [done|].
  cbn [foldl].
  rewrite IH. repeat case_decide; set_unfold; simplify_map_eq; try done; try naive_solver.
  all: destruct (decide (k = k')); simplify_map_eq; naive_solver.
Qed.

End delete_list.

(** ** Counting along a run *)

Section tally.
Context {X A : Type} (step : X → A → X).
Implicit Types (x : X) (l : list A) (f : X → A → N).

Fixpoint tally f x l : N :=
  match l with
  | [] => 0
  | a :: l' => f x a + tally f (step x a) l'
  end.

Lemma tally_scale f k x l : tally (λ x a, f x a * k)%N x l = (tally f x l * k)%N.
Proof. revert x. induction l as [|a l IH]; intros x; simpl; [done|]. rewrite IH. lia. Qed.

Lemma tally_add f g x l : tally (λ x a, f x a + g x a)%N x l = (tally f x l + tally g x l)%N.
Proof. revert x. induction l as [|a l IH]; intros x; simpl; [done|]. rewrite IH. lia. Qed.

(** What every step pays for out of a potential, or of what it is given, is paid
    for along the run.  [inv n] is what holds with [n] steps to go. *)
Lemma tally_potential (inv : nat → X → Prop) (ok : A → Prop) (potential : X → N) cost given :
  (∀ n x a, ok a → inv (S n) x →
     inv n (step x a) ∧ (cost x a + potential (step x a) ≤ potential x + given x a)%N) →
  ∀ l x, Forall ok l → inv (length l) x →
    inv 0%nat (foldl step x l) ∧ (tally cost x l + potential (foldl step x l) ≤ potential x + tally given x l)%N.
Proof.
  intros Hstep. induction l as [|a l IH]; intros x Hl Hx; simpl; [split; [done|lia]|].
  apply Forall_cons in Hl as [Ha Hl]. destruct (Hstep _ x a Ha Hx) as [Hw Hg].
  destruct (IH _ Hl Hw) as [Hw' Hg']. split; [done|]. lia.
Qed.
End tally.
