(* ===== verification/Errors.v ===== *)
(** * Errors: the crate-wide error type (src/src/errors/error.rs) *)

From stdpp Require Import base strings pretty numbers.
From S2P Require Import Prelude.

(** [std::io::ErrorKind], as far as the sources tell kinds apart. *)
Module ErrorKind.
Inductive t : Type :=
| NotFound
| AlreadyExists
| UnexpectedEof
| Other.
#[global] Instance eq_dec : EqDecision t.
Proof. solve_decision. Defined.
End ErrorKind.

(** [std::io::Error]: its kind, and the text its [Display] prints. *)
Record IoError := {
  io_kind : ErrorKind.t;
  io_text : string
}.

(** [errors::SessionError]. *)
Module SessionError.
Inductive t : Type :=
| Io (e : IoError)
| Config (msg : string)
| UnknownUser (name : string)
| UnknownSeat (id : string)
| UnknownSession (id : N)
| UnknownInhibitor (id : N)
| UnknownElevationRequest (id : N)
| AuthFailed (msg : string)
| LockedOut (secs : N)
| Pam (msg : string)
| PermissionDenied (msg : string)
| Protocol (msg : string)
| Disconnected
| InvalidTransition (msg : string)
| Unsupported (msg : string)
| Cancelled
| Poisoned (msg : string).

(** The [#[error(...)]] texts: what [to_string] prints. *)
Definition to_string (e : t) : string :=
  match e with
  | Io e => "I/O error: " +:+ io_text e
  | Config m => "configuration error: " +:+ m
  | UnknownUser m => "no such user: " +:+ m
  | UnknownSeat m => "no such seat: " +:+ m
  | UnknownSession i => "no such session: " +:+ pretty i
  | UnknownInhibitor i => "no such inhibitor: " +:+ pretty i
  | UnknownElevationRequest i => "no such elevation request: " +:+ pretty i
  | AuthFailed m => "authentication failed: " +:+ m
  | LockedOut s => "account is temporarily locked out (" +:+ pretty s +:+ "s remaining)"
  | Pam m => "PAM error: " +:+ m
  | PermissionDenied m => "permission denied: " +:+ m
  | Protocol m => "ipc protocol error: " +:+ m
  | Disconnected => "ipc peer disconnected"
  | InvalidTransition m => "invalid state transition: " +:+ m
  | Unsupported m => "operation not supported: " +:+ m
  | Cancelled => "a background operation was cancelled"
  | Poisoned m => "internal lock was poisoned: " +:+ m
  end.

(** The [From] conversions; a [nix::Error] becomes the [io::Error] of its [errno]
    first. *)
Definition from_io (e : IoError) : t := Io e.
Definition from_nix (io_of : N → IoError) (errno : N) : t := Io (io_of errno).
Definition from_poison (text : string) : t := Poisoned text.
Definition from_bincode (text : string) : t := Protocol text.
Definition from_toml (text : string) : t := Config text.
End SessionError.

(** The crate's [Result] alias. *)
Abbreviation Result := (result SessionError.t).
