(* ===== verification/System.v ===== *)
(** * System: what the code asks of the operating system and of PAM

    Code that is not in the repository (the kernel, the file system, the
    account database, PAM, mitos-power) is a parameter: a [World] holds its
    answers while one event is handled.  The calls that change something
    outside the daemon are recorded, in the order they are made, as a list of
    [SysCall]. *)

From Stdlib Require Import Ascii.
From stdpp Require Import base gmap strings pretty numbers list.
From S2P Require Import Prelude Errors.

Abbreviation Path := string (only parsing).
Abbreviation Uid := N (only parsing).
Abbreviation Gid := N (only parsing).
Abbreviation Pid := N (only parsing).

(** The fields of [std::fs::Metadata] the sources read. *)
Record Metadata := {
  meta_uid : Uid;
  meta_gid : Gid;
  meta_mode : N;
  meta_is_dir : bool;
  meta_is_symlink : bool
}.

(** [nix::unistd::User], an entry of [/etc/passwd]. *)
Record NixUser := {
  nix_uid : Uid;
  nix_gid : Gid;
  nix_name : string;
  nix_dir : Path;
  nix_shell : Path
}.

(** A [std::process::Command] ready to be spawned, with what its [pre_exec] hook
    does: a session of its own if asked for, then supplementary groups, gid, uid. *)
Record Command := {
  cmd_program : string;
  cmd_args : list string;
  cmd_env : gmap string string;
  cmd_current_dir : Path;
  cmd_setsid : bool;
  cmd_setgroups : list Gid;
  cmd_setgid : Gid;
  cmd_setuid : Uid
}.

Module Signal.
Inductive t : Type := SIGTERM | SIGINT | SIGHUP | SIGCHLD | Unwatched (n : N).
#[global] Instance eq_dec : EqDecision t.
Proof. solve_decision. Defined.
End Signal.

Module RebootMode.
Inductive t : Type := RB_POWER_OFF | RB_AUTOBOOT.
End RebootMode.

Module NotifyState.
Inductive t : Type := Ready | Stopping.
End NotifyState.

Module SysCall.
Inductive t : Type :=
| CreateDirAll (p : Path)
| SetPermissions (p : Path) (mode : N)
| Chown (p : Path) (uid : Uid) (gid : Gid)
| RemoveFile (p : Path)
| WriteFile (p : Path) (content : string)
| Spawn (c : Command)
| KillChild (pid : Pid)
| WaitChild (pid : Pid)
| Sleep (d : Duration)
| Reboot (m : RebootMode.t)
| SendSignal (pid : Pid) (s : Signal.t)
| SocketWrite (p : Path) (line : string)
| AppendLine (p : Path) (line : string)
| Setgroups (gids : list Gid)
| Setgid (gid : Gid)
| Setuid (uid : Uid)
| BindSocket (p : Path)
| SpawnThread (name : string)
| NewEventLoop
| WatchSignals (signals : list Signal.t)
| InsertSource (source : string)
| SdNotify (s : NotifyState.t).
End SysCall.

(** The three [pam::Client] calls; an error is the text it prints. *)
Record PamStack := {
  pam_with_password : string → result string unit;
  pam_authenticate : string → string → string → result string unit;
  pam_open_session : string → string → string → result string unit
}.

(** One connection to mitos-power: how each call on the socket answers, and
    what the successive [read_line]s return (the end of the list is end of
    file). *)
Record PowerSocket := {
  ps_connect : result IoError unit;
  ps_set_read_timeout : result IoError unit;
  ps_try_clone : result IoError unit;
  ps_set_write_timeout : result IoError unit;
  ps_write : result IoError unit;
  ps_lines : list (result IoError string)
}.

Record World := {
  w_now : Instant;
  w_system_time : N;
  w_env_var : string → option string;
  w_from_name : string → result IoError (option NixUser);
  w_from_uid : Uid → result IoError (option NixUser);
  w_exists : Path → bool;
  w_read_to_string : Path → result IoError string;
  w_metadata : Path → result IoError Metadata;
  w_syscall : SysCall.t → result IoError unit;
  w_spawn : Command → result IoError Pid;
  w_pam : PamStack;
  w_power_socket : Path → PowerSocket
}.

(** Fallible code that makes system calls: the calls made, and the result. *)
Definition io (A : Type) : Type := World → list SysCall.t * Result A.

#[global] Instance io_ret : MRet io := λ A a w, ([], Ok a).
#[global] Instance io_bind : MBind io := λ A B f m w,
  match m w with
  | (calls, Ok a) => let '(calls', r) := f a w in (calls ++ calls', r)
  | (calls, Err e) => (calls, Err e)
  end.

(** Make one call, and fail with its I/O error if it fails. *)
Definition syscall (c : SysCall.t) : io unit := λ w,
  ([c], map_err SessionError.from_io (w_syscall w c)).

(** A computation that makes no call. *)
Definition io_lift {A} (f : World → Result A) : io A := λ w, ([], f w).

(** [Path::join]. *)
Definition path_join (base p : Path) : Path :=
  match p with
  | String "/"%char _ => p
  | _ => if String.eqb base "" then p
         else if String.eqb (String.substring (String.length base - 1) 1 base) "/"
         then base +:+ p else base +:+ "/" +:+ p
  end.

(** ** Lemmas *)

Lemma io_bind_Ok {A B} (m : io A) (f : A → io B) w calls b :
  (m ≫= f) w = (calls, Ok b) ↔
  ∃ c1 a c2, m w = (c1, Ok a) ∧ f a w = (c2, Ok b) ∧ calls = c1 ++ c2.
Proof.
  unfold mbind, io_bind. destruct (m w) as [c1 [a|e]].
  - destruct (f a w) as [c2 r] eqn:Hf. split.
    + intros ?; simplify_eq. eauto 10.
    + intros (x & y & z & H1 & H2 & ->). simplify_eq. by rewrite Hf in H2; simplify_eq.
  - split; [done|]. intros (? & ? & ? & ? & ? & ->). by simplify_eq.
Qed.

Lemma syscall_Ok c w calls u :
  syscall c w = (calls, Ok u) → calls = [c] ∧ w_syscall w c = Ok u.
Proof. unfold syscall. destruct (w_syscall w c); naive_solver. Qed.

(** Take a completed [io] computation apart into its steps. *)
Ltac inv_io :=
  repeat match goal with
  | H : (_ ≫= _) _ = (_, Ok _) |- _ =>
      let c1 := fresh "calls" in let a := fresh "a" in let c2 := fresh "calls" in
      let H1 := fresh "Hio" in let H2 := fresh "Hio" in
      apply io_bind_Ok in H as (c1 & a & c2 & H1 & H2 & ->)
  | H : syscall _ _ = (_, Ok _) |- _ =>
      let H2 := fresh "Hcall" in apply syscall_Ok in H as [-> H2]
  | H : mret _ _ = (_, Ok _) |- _ => injection H as <- <-
  end.
