(* ===== verification/Config.v ===== *)
(** * Config: the settings of [session.toml], their defaults, and loading them
    (src/src/config/) *)

From stdpp Require Import base gmap strings numbers list.
From S2P Require Import Prelude Errors System.

(** [power::PowerBackendKind], the type of [[power].backend]. *)
Module PowerBackendKind.
Inductive t : Type := MitosPower | Direct | Supervised.
#[global] Instance eq_dec : EqDecision t.
Proof. solve_decision. Defined.
End PowerBackendKind.

Module SessionSettings.
Record t := mk {
  runtime_dir : Path;
  max_sessions_per_user : N;
  default_session_type : string;
  compositor_binary : string;
  max_compositor_restarts : N
}.
Definition default : t :=
  mk "/run/mitos-session" 4 "wayland" "/usr/bin/mitos-gui" 3.
End SessionSettings.

Module SeatSettings.
Record t := mk { default_seat : string }.
Definition default : t := mk "seat0".
End SeatSettings.

Module LockSettings.
Record t := mk {
  enabled : bool;
  lock_on_idle : bool;
  lock_on_suspend : bool;
  grace_period_secs : N;
  max_auth_attempts : N;
  lockout_secs : N
}.
Definition default : t := mk true true true 5 3 30.
End LockSettings.

Module IdleSettings.
Record t := mk {
  dim_after_secs : N;
  lock_after_secs : N;
  suspend_after_secs : N
}.
Definition default : t := mk 60 300 600.
End IdleSettings.

Module AuthSettings.
Record t := mk {
  pam_service : string;
  allow_empty_password : bool
}.
Definition default : t := mk "mitos-session" false.
End AuthSettings.

Module ElevationSettings.
Record t := mk {
  enabled : bool;
  service_user : string;
  pam_service : string;
  allow_empty_password : bool;
  max_attempts : N;
  lockout_secs : N;
  prompt_timeout_secs : N;
  max_pending_per_session : N
}.
Definition default : t := mk true "mitos-service" "mitos-elevate" false 3 30 120 3.
End ElevationSettings.

Module PowerSettings.
Record t := mk {
  allow_suspend : bool;
  allow_reboot : bool;
  allow_poweroff : bool;
  suspend_inhibit_grace_secs : N;
  backend : PowerBackendKind.t;
  mitos_power_socket_path : Path
}.
Definition default : t := mk true true true 2 PowerBackendKind.MitosPower "/run/mitos/power.sock".
End PowerSettings.

Module IpcSettings.
Record t := mk {
  socket_path : Path;
  socket_mode : N
}.
(** [432] is [0o660]. *)
Definition default : t := mk "/run/mitos-session/session.sock" 432.
End IpcSettings.

Module LoggingSettings.
Record t := mk {
  level : string;
  json : bool;
  audit_log_path : option Path
}.
Definition default : t := mk "info" false (Some "/var/log/mitos/session-audit.log").
End LoggingSettings.

Module Settings.
Record t := mk {
  session : SessionSettings.t;
  seat : SeatSettings.t;
  lock : LockSettings.t;
  idle : IdleSettings.t;
  authentication : AuthSettings.t;
  elevation : ElevationSettings.t;
  power : PowerSettings.t;
  ipc : IpcSettings.t;
  logging : LoggingSettings.t
}.
Definition default : t :=
  mk SessionSettings.default SeatSettings.default LockSettings.default IdleSettings.default
     AuthSettings.default ElevationSettings.default PowerSettings.default IpcSettings.default
     LoggingSettings.default.
End Settings.

Module Config.
Definition SYSTEM_CONFIG_PATH : Path := "/etc/mitos/session.toml".
Definition CONFIG_ENV_VAR : string := "MITOS_SESSION_CONFIG".

(** The file to read: the explicit path, else the environment variable, else
    the system path. *)
Definition resolve_path (explicit_path : option Path) (w : World) : Path :=
  match explicit_path with
  | Some p => p
  | None => default SYSTEM_CONFIG_PATH (w_env_var w CONFIG_ENV_VAR)
  end.

Section load.
(** The [toml] crate's [from_str] at type [Settings]. *)
Context (toml_from_str : string → result string Settings.t).

Definition load (explicit_path : option Path) (w : World) : Result Settings.t :=
  let path := resolve_path explicit_path w in
  if negb (w_exists w path) then Ok Settings.default
  else
    raw ← map_err SessionError.from_io (w_read_to_string w path);
    map_err SessionError.from_toml (toml_from_str raw).
End load.
End Config.

(** The fields of [Settings] are machine integers: a parsed file satisfies
    this, and the bounds on the daemon's arithmetic rest on it. *)
Definition settings_in_range (s : Settings.t) : Prop :=
  is_u32 (SessionSettings.max_sessions_per_user (Settings.session s)) ∧
  is_u32 (SessionSettings.max_compositor_restarts (Settings.session s)) ∧
  is_u32 (LockSettings.max_auth_attempts (Settings.lock s)) ∧
  is_u64 (LockSettings.lockout_secs (Settings.lock s)) ∧
  is_u32 (ElevationSettings.max_attempts (Settings.elevation s)) ∧
  is_u64 (ElevationSettings.lockout_secs (Settings.elevation s)) ∧
  is_u64 (ElevationSettings.prompt_timeout_secs (Settings.elevation s)) ∧
  is_u32 (ElevationSettings.max_pending_per_session (Settings.elevation s)).

Lemma default_settings_in_range : settings_in_range Settings.default.
Proof. vm_compute. tauto. Qed.

(** Reading the configuration, branch by branch. *)
Section load_lemmas.
Context (toml_from_str : string → result string Settings.t).

Lemma load_absent p w :
  w_exists w (Config.resolve_path p w) = false → Config.load toml_from_str p w = Ok Settings.default.
Proof. unfold Config.load. by intros ->. Qed.

Lemma load_unreadable p w e :
  w_exists w (Config.resolve_path p w) = true →
  w_read_to_string w (Config.resolve_path p w) = Err e →
  Config.load toml_from_str p w = Err (SessionError.Io e).
Proof. unfold Config.load. by intros -> ->. Qed.

Lemma load_malformed p w raw text :
  w_exists w (Config.resolve_path p w) = true →
  w_read_to_string w (Config.resolve_path p w) = Ok raw → toml_from_str raw = Err text →
  Config.load toml_from_str p w = Err (SessionError.Config text).
Proof. unfold Config.load. intros -> -> Hp. simpl. by rewrite Hp. Qed.
End load_lemmas.
