(* ===== verification/Text.v ===== *)
(** * Text: the [str] methods of the Rust standard library the sources use

    A Rust string is its UTF-8 bytes, so a [string] is a list of bytes and
    [String.length] is [str::len]. *)

From Stdlib Require Import Ascii.
From stdpp Require Import base strings numbers list.
From S2P Require Import Prelude.

Definition byte_is (n : N) (a : ascii) : bool := (N_of_ascii a =? n)%N.
Definition byte_in (lo hi : N) (a : ascii) : bool :=
  ((lo <=? N_of_ascii a) && (N_of_ascii a <=? hi))%N.
Definition newline : ascii := ascii_of_N 10.
Definition carriage_return : ascii := ascii_of_N 13.

Definition starts_with (c : ascii) (s : string) : bool :=
  match s with String a _ => Ascii.eqb a c | EmptyString => false end.

(** [str::split(c)]: always at least one piece. *)
Fixpoint split (c : ascii) (s : string) : list string :=
  match s with
  | EmptyString => [""]
  | String a s' =>
      if Ascii.eqb a c then "" :: split c s'
      else match split c s' with
           | h :: t => String a h :: t
           | [] => [String a ""]
           end
  end.

(** [str::split_once(c)]. *)
Fixpoint split_once (c : ascii) (s : string) : option (string * string) :=
  match s with
  | EmptyString => None
  | String a s' =>
      if Ascii.eqb a c then Some ("", s')
      else '(k, v) ← split_once c s'; Some (String a k, v)
  end.

Fixpoint strip_suffix (c : ascii) (s : string) : string :=
  match s with
  | EmptyString => ""
  | String a EmptyString => if Ascii.eqb a c then "" else s
  | String a s' => String a (strip_suffix c s')
  end.

(** [str::lines]: pieces ended by a newline lose it and one carriage return
    before it; what follows the last newline is a line when it is not empty. *)
Fixpoint lines_of (pieces : list string) : list string :=
  match pieces with
  | [] => []
  | [l] => if String.eqb l "" then [] else [l]
  | l :: ls => strip_suffix carriage_return l :: lines_of ls
  end.
Definition lines (s : string) : list string := lines_of (split newline s).

(** Unicode [White_Space], one scalar value at the front of [s]: the rest. *)
Definition is_ascii_space (a : ascii) : bool := byte_in 9 13 a || byte_is 32 a.
Definition is_space2 (a b : ascii) : bool := byte_is 194 a && (byte_is 133 b || byte_is 160 b).
Definition is_space3 (a b c : ascii) : bool :=
  (byte_is 225 a && byte_is 154 b && byte_is 128 c)
  || (byte_is 226 a && byte_is 128 b
      && (byte_in 128 138 c || byte_is 168 c || byte_is 169 c || byte_is 175 c))
  || (byte_is 226 a && byte_is 129 b && byte_is 159 c)
  || (byte_is 227 a && byte_is 128 b && byte_is 128 c).

(** [flip] reads the bytes of a scalar value backwards, for the end of a string. *)
Definition strip_space (flip : bool) (s : string) : option string :=
  match s with
  | String a s1 =>
      if is_ascii_space a then Some s1
      else match s1 with
      | String b s2 =>
          if (if flip then is_space2 b a else is_space2 a b) then Some s2
          else match s2 with
          | String c s3 => if (if flip then is_space3 c b a else is_space3 a b c) then Some s3 else None
          | EmptyString => None
          end
      | EmptyString => None
      end
  | EmptyString => None
  end.
Fixpoint strip_spaces (fuel : nat) (flip : bool) (s : string) : string :=
  match fuel with
  | O => s
  | S n => match strip_space flip s with Some s' => strip_spaces n flip s' | None => s end
  end.
Fixpoint string_rev_onto (s acc : string) : string :=
  match s with EmptyString => acc | String a s' => string_rev_onto s' (String a acc) end.
Definition string_reverse (s : string) : string := string_rev_onto s "".
Definition trim_start (s : string) : string := strip_spaces (String.length s) false s.
Definition trim_end (s : string) : string :=
  string_reverse (strip_spaces (String.length s) true (string_reverse s)).
Definition trim (s : string) : string := trim_end (trim_start s).

(** [str::split_whitespace]: the maximal runs of non-space characters.  [word] is
    the word being read, backwards. *)
Fixpoint words (fuel : nat) (word s : string) : list string :=
  let flush := if String.eqb word "" then [] else [string_reverse word] in
  match fuel with
  | O => flush
  | S n =>
      match strip_space false s with
      | Some s' => flush ++ words n "" s'
      | None => match s with
                | EmptyString => flush
                | String a s' => words n (String a word) s'
                end
      end
  end.
Definition split_whitespace (s : string) : list string := words (String.length s) "" s.

(** [str::parse::<u32>]. *)
Definition digit (a : ascii) : option N :=
  if byte_in 48 57 a then Some (N_of_ascii a - 48)%N else None.
Fixpoint parse_digits (acc : N) (s : string) : option N :=
  match s with
  | EmptyString => Some acc
  | String a s' => d ← digit a; parse_digits (10 * acc + d) s'
  end.
Definition parse_u32 (s : string) : option N :=
  let ds := match s with String a s' => if byte_is 43 a then s' else s | _ => s end in
  if String.eqb ds "" then None
  else n ← parse_digits 0 ds; if (n <? 2 ^ 32)%N then Some n else None.

(** [str::replace(pat, to)] with a pattern that is not empty: the leftmost
    occurrences that do not overlap.  [skip] bytes belong to the occurrence just
    replaced. *)
Fixpoint replace_from (pat to : string) (skip : nat) (s : string) : string :=
  match s with
  | EmptyString => ""
  | String a s' =>
      match skip with
      | S n => replace_from pat to n s'
      | O => if String.prefix pat s then to +:+ replace_from pat to (String.length pat - 1) s'
             else String a (replace_from pat to 0 s')
      end
  end.
Definition replace (pat to s : string) : string := replace_from pat to 0 s.

(** [str::eq_ignore_ascii_case]. *)
Definition ascii_lower (a : ascii) : ascii :=
  if byte_in 65 90 a then ascii_of_N (N_of_ascii a + 32) else a.
Fixpoint eq_ignore_ascii_case (s t : string) : bool :=
  match s, t with
  | EmptyString, EmptyString => true
  | String a s', String b t' => Ascii.eqb (ascii_lower a) (ascii_lower b) && eq_ignore_ascii_case s' t'
  | _, _ => false
  end.

(** [str::trim_end_matches] with a list of characters. *)
Fixpoint strip_chars (p : ascii → bool) (s : string) : string :=
  match s with
  | EmptyString => ""
  | String a s' => if p a then strip_chars p s' else s
  end.
Definition trim_end_matches (cs : list ascii) (s : string) : string :=
  string_reverse (strip_chars (λ a, existsb (Ascii.eqb a) cs) (string_reverse s)).

(** [{:?}] of a string: quoted, with the escapes of [char::escape_debug] for
    ASCII.  A character outside ASCII is printed as it is. *)
Definition hex_digit (n : N) : string :=
  String (ascii_of_N (if (n <? 10)%N then n + 48 else n + 87)) "".
Definition hex (n : N) : string :=
  if (n <? 16)%N then hex_digit n else hex_digit (n `div` 16) +:+ hex_digit (n `mod` 16).
Definition double_quote : ascii := ascii_of_N 34.
Definition backslash : ascii := ascii_of_N 92.
Definition debug_char (a : ascii) : string :=
  if byte_is 34 a || byte_is 92 a then String backslash (String a "")
  else if byte_is 10 a then String backslash "n"
  else if byte_is 13 a then String backslash "r"
  else if byte_is 9 a then String backslash "t"
  else if byte_is 0 a then String backslash "0"
  else if byte_in 1 31 a || byte_is 127 a then String backslash ("u{" +:+ hex (N_of_ascii a) +:+ "}")
  else String a "".
Fixpoint debug_chars (s : string) : string :=
  match s with EmptyString => "" | String a s' => debug_char a +:+ debug_chars s' end.
Definition debug_str (s : string) : string :=
  String double_quote (debug_chars s +:+ String double_quote "").

(** [{:#o}]. *)
Fixpoint octal_digits (fuel : nat) (n : N) (acc : string) : string :=
  match fuel with
  | O => acc
  | S f => let acc := String (ascii_of_N (n `mod` 8 + 48)) acc in
           if (n <? 8)%N then acc else octal_digits f (n `div` 8) acc
  end.
Definition octal (n : N) : string := "0o" +:+ octal_digits 11 n "".

(** ** Lemmas *)

(** [+:+] does not reduce under [simpl]; these equations unfold it. *)
Lemma string_app_cons x (a b : string) : String x a +:+ b = String x (a +:+ b).
Proof. done. Qed.
Lemma string_app_nil (b : string) : "" +:+ b = b.
Proof. done. Qed.

Lemma string_app_assoc (a b c : string) : (a +:+ b) +:+ c = a +:+ (b +:+ c).
Proof. induction a as [|x a IH]; [done|]. by rewrite !string_app_cons, IH. Qed.

Lemma string_app_nil_r (a : string) : a +:+ "" = a.
Proof. induction a as [|x a IH]; [done|]. by rewrite string_app_cons, IH. Qed.

Lemma string_rev_onto_app s acc : string_rev_onto s acc = string_reverse s +:+ acc.
Proof.
  unfold string_reverse. revert acc. induction s as [|a s IH]; intros acc; simpl; [done|].
  rewrite (IH (String a acc)), (IH (String a "")). by rewrite string_app_assoc.
Qed.

Lemma string_reverse_cons a s : string_reverse (String a s) = string_reverse s +:+ String a "".
Proof. unfold string_reverse at 1. simpl. apply string_rev_onto_app. Qed.

Lemma string_reverse_app s t : string_reverse (s +:+ t) = string_reverse t +:+ string_reverse s.
Proof.
  induction s as [|a s IH]; [by rewrite string_app_nil_r|].
  by rewrite string_app_cons, !string_reverse_cons, IH, string_app_assoc.
Qed.

Lemma string_reverse_snoc s a : string_reverse (s +:+ String a "") = String a (string_reverse s).
Proof. by rewrite string_reverse_app. Qed.

Lemma string_reverse_involutive s : string_reverse (string_reverse s) = s.
Proof. induction s as [|a s IH]; [done|]. by rewrite string_reverse_cons, string_reverse_snoc, IH. Qed.

Lemma split_not_nil c s : split c s ≠ [].
Proof. destruct s; simpl; repeat case_match; done. Qed.

(** Gluing pieces with the separator, and splitting it back. *)
Fixpoint join (c : ascii) (l : list string) : string :=
  match l with
  | [] => ""
  | [x] => x
  | x :: l' => x +:+ String c (join c l')
  end.

Fixpoint has_char (c : ascii) (s : string) : bool :=
  match s with EmptyString => false | String a s' => Ascii.eqb a c || has_char c s' end.

Lemma split_clean c s : has_char c s = false → split c s = [s].
Proof.
  induction s as [|a s IH]; simpl; [done|].
  intros [-> Hs]%orb_false_iff. by rewrite IH.
Qed.

Lemma split_app c x y :
  has_char c x = false → split c (x +:+ String c y) = x :: split c y.
Proof.
  induction x as [|a x IH]; simpl; [by rewrite Ascii.eqb_refl|].
  intros [-> Hx]%orb_false_iff. by rewrite IH.
Qed.

Lemma split_join c l :
  l ≠ [] → Forall (λ x, has_char c x = false) l → split c (join c l) = l.
Proof.
  intros Hne Hl. induction Hl as [|x l Hx Hl IH]; [done|].
  destruct l as [|y l]; [by apply split_clean|].
  change (join c (x :: y :: l)) with (x +:+ String c (join c (y :: l))).
  rewrite split_app by done. by rewrite IH.
Qed.

Lemma split_once_app c k v :
  has_char c k = false → split_once c (k +:+ String c v) = Some (k, v).
Proof.
  induction k as [|a k IH]; simpl; [by rewrite Ascii.eqb_refl|].
  intros [-> Hk]%orb_false_iff. by rewrite IH.
Qed.

(** ** Trimmed text *)

Lemma string_app_length a b : String.length (a +:+ b) = (String.length a + String.length b)%nat.
Proof. induction a as [|x a IH]; [done|]. rewrite string_app_cons. simpl. by rewrite IH. Qed.

Lemma string_reverse_length s : String.length (string_reverse s) = String.length s.
Proof.
  induction s as [|a s IH]; [done|]. rewrite string_reverse_cons, string_app_length, IH. simpl. lia.
Qed.

Lemma strip_space_shorter flip s s' : strip_space flip s = Some s' → String.length s' < String.length s.
Proof. destruct s as [|a [|b [|c s]]]; simpl; repeat case_match; intros; simplify_eq; simpl; lia. Qed.

Lemma strip_spaces_length n flip s : String.length (strip_spaces n flip s) ≤ String.length s.
Proof.
  revert s. induction n as [|n IH]; intros s; simpl; [lia|].
  destruct (strip_space flip s) as [s'|] eqn:Hs; [|lia]. apply strip_space_shorter in Hs. specialize (IH s'). lia.
Qed.

(** Text is left alone exactly when there is no space at that end. *)
Lemma strip_spaces_fixed flip s :
  String.length s ≤ String.length (strip_spaces (String.length s) flip s) ↔ strip_space flip s = None.
Proof.
  destruct s as [|a s]; [simpl; done|].
  change (strip_spaces (String.length (String a s)) flip (String a s))
    with (match strip_space flip (String a s) with
          | Some s' => strip_spaces (String.length s) flip s' | None => String a s end).
  destruct (strip_space flip (String a s)) as [s'|] eqn:Hs; [|done]. split; [|done].
  apply strip_space_shorter in Hs. pose proof (strip_spaces_length (String.length s) flip s'). lia.
Qed.

Lemma strip_spaces_None n flip s : strip_space flip s = None → strip_spaces n flip s = s.
Proof. intros Hs. destruct n; simpl; [done|]. by rewrite Hs. Qed.

Lemma trim_fixed s :
  trim s = s ↔ strip_space false s = None ∧ strip_space true (string_reverse s) = None.
Proof.
  unfold trim, trim_end, trim_start. split.
  - intros Htrim. assert (Hlen := f_equal String.length Htrim).
    rewrite string_reverse_length in Hlen.
    pose proof (strip_spaces_length (String.length (strip_spaces (String.length s) false s)) true
      (string_reverse (strip_spaces (String.length s) false s))) as H1.
    rewrite string_reverse_length in H1.
    assert (Hstart : strip_space false s = None) by (apply strip_spaces_fixed; lia).
    split; [done|]. rewrite (strip_spaces_None _ false) in Hlen by done.
    apply strip_spaces_fixed. rewrite string_reverse_length. lia.
  - intros [H1 H2]. rewrite (strip_spaces_None _ _ s), strip_spaces_None by done.
    apply string_reverse_involutive.
Qed.

(** A visible ASCII character never takes part in a space. *)
Definition visible (a : ascii) : bool := byte_in 33 126 a.

Lemma byte_is_visible n a : visible a = true → (n < 33 ∨ 126 < n)%N → byte_is n a = false.
Proof.
  unfold visible, byte_in, byte_is. intros [H1%N.leb_le H2%N.leb_le]%andb_true_iff Hn. apply N.eqb_neq. lia.
Qed.

Lemma byte_in_visible lo hi a :
  visible a = true → (hi < 33 ∨ 126 < lo)%N → byte_in lo hi a = false.
Proof.
  unfold visible, byte_in. intros [H1%N.leb_le H2%N.leb_le]%andb_true_iff Hn.
  apply andb_false_iff. rewrite !N.leb_gt. lia.
Qed.

Lemma visible_not_space a : visible a = true → is_ascii_space a = false.
Proof.
  intros Ha. unfold is_ascii_space. by rewrite byte_in_visible, byte_is_visible by (done || lia).
Qed.

Lemma visible_space2 a b : visible a = true ∨ visible b = true → is_space2 a b = false.
Proof.
  unfold is_space2. intros [Ha|Hb].
  - by rewrite (byte_is_visible 194 a) by (done || lia).
  - rewrite (byte_is_visible 133 b), (byte_is_visible 160 b) by (done || lia). apply andb_false_r.
Qed.

Lemma visible_space3 a b c : visible a = true ∨ visible b = true ∨ visible c = true → is_space3 a b c = false.
Proof.
  unfold is_space3. intros [H|[H|H]];
    repeat (rewrite (byte_is_visible _ _ H) by lia); repeat (rewrite (byte_in_visible _ _ _ H) by lia);
    simpl; by rewrite ?andb_false_r, ?orb_false_r.
Qed.

Lemma strip_space_visible flip a s : visible a = true → strip_space flip (String a s) = None.
Proof.
  intros Ha. destruct s as [|b [|c s]]; simpl; rewrite visible_not_space by done; [done|..];
    destruct flip; rewrite visible_space2 by auto; rewrite ?visible_space3 by auto; done.
Qed.

(** More text after a visible character makes no difference to a space before it. *)
Lemma strip_space_app_visible flip s c t :
  visible c = true → strip_space flip s = None → strip_space flip (s +:+ String c t) = None.
Proof.
  intros Hc. destruct s as [|a [|b [|d s]]].
  - intros _. rewrite string_app_nil. by apply strip_space_visible.
  - rewrite !string_app_cons, string_app_nil. simpl. case_match; [done|]. intros _.
    destruct t; destruct flip; rewrite visible_space2 by auto; rewrite ?visible_space3 by auto; done.
  - rewrite !string_app_cons, string_app_nil. simpl. repeat case_match; try done;
      intros _; destruct flip; simplify_eq; by rewrite ?visible_space3 in * by auto.
  - rewrite !string_app_cons. simpl. repeat case_match; done.
Qed.

(** A line [key=value] is trimmed when its value is. *)
Lemma trim_key_value a k v :
  visible a = true → strip_space true (string_reverse v) = None →
  trim (String a (k +:+ String "=" v)) = String a (k +:+ String "=" v).
Proof.
  intros Ha Hv. apply trim_fixed. split; [by apply strip_space_visible|].
  rewrite string_reverse_cons, string_reverse_app, string_reverse_cons, !string_app_assoc.
  by apply strip_space_app_visible.
Qed.

Lemma strip_suffix_snoc c s a :
  strip_suffix c (s +:+ String a "") = if Ascii.eqb a c then s else s +:+ String a "".
Proof.
  induction s as [|b s IH]; [done|]. rewrite string_app_cons. simpl.
  destruct (s +:+ String a "") as [|x y] eqn:Hs; [by destruct s|]. rewrite IH. by case_match.
Qed.

Lemma strip_suffix_trimmed s :
  strip_space true (string_reverse s) = None → strip_suffix carriage_return s = s.
Proof.
  rewrite <- (string_reverse_involutive s) at 2 3. destruct (string_reverse s) as [|a t]; [done|].
  rewrite string_reverse_cons, strip_suffix_snoc. simpl.
  destruct (Ascii.eqb_spec a carriage_return) as [->|]; [|done]. done.
Qed.

Lemma has_char_app c a b : has_char c (a +:+ b) = has_char c a || has_char c b.
Proof. induction a as [|x a IH]; [done|]. rewrite string_app_cons. simpl. by rewrite IH, orb_assoc. Qed.

(** Lines that end in a newline each, and reading them back. *)
Fixpoint unlines (ls : list string) : string :=
  match ls with [] => "" | l :: ls' => l +:+ String newline (unlines ls') end.

Lemma lines_unlines ls :
  Forall (λ l, has_char newline l = false ∧ strip_space true (string_reverse l) = None) ls →
  lines (unlines ls) = ls.
Proof.
  unfold lines. induction 1 as [|l ls [Hl Htrim] _ IH]; [done|]. simpl. rewrite split_app by done.
  destruct (split newline (unlines ls)) as [|p ps] eqn:Hs; [by apply split_not_nil in Hs|].
  change (lines_of (l :: p :: ps)) with (strip_suffix carriage_return l :: lines_of (p :: ps)).
  by rewrite IH, strip_suffix_trimmed.
Qed.

(** A list closed by a separator after each item, as desktop files write them. *)
Fixpoint terminate (c : ascii) (l : list string) : string :=
  match l with [] => "" | x :: l' => x +:+ String c (terminate c l') end.

Lemma split_terminate c l :
  Forall (λ x, has_char c x = false) l → split c (terminate c l) = l ++ [""].
Proof. induction 1 as [|x l Hx _ IH]; [done|]. simpl. by rewrite split_app, IH. Qed.

Lemma parse_u32_is_u32 s n : parse_u32 s = Some n → is_u32 n.
Proof.
  unfold parse_u32. case_match; [done|].
  intros (m & _ & Hm)%bind_Some. case_match; simplify_eq. by apply N.ltb_lt.
Qed.

Example trim_both : trim "  a b 	" = "a b".
Proof. reflexivity. Qed.
Example lines_crlf : lines (String "a" (String carriage_return (String newline "b"))) = ["a"; "b"].
Proof. reflexivity. Qed.
Example parse_u32_range : parse_u32 "4294967295" = Some 4294967295%N ∧ parse_u32 "4294967296" = None.
Proof. split; reflexivity. Qed.
Example replace_nested : replace "%f" "" "a %f%%ff" = "a %f".
Proof. reflexivity. Qed.
Example octal_mode : octal 448 = "0o700".
Proof. reflexivity. Qed.
