(* ===== verification/Runtime.v ===== *)
(** * Runtime: the per-user runtime directory (src/src/session/runtime.rs)

    Here the order of the system calls against other processes matters: the code
    validates a directory through an open descriptor because a path can be
    swapped for a symbolic link at any time.  The file system is therefore a
    state (names that lead to inodes), and between any two calls an arbitrary
    [env] may change it. *)

From Stdlib Require Import Ascii.
From stdpp Require Import base gmap strings pretty numbers list.
From S2P Require Import Prelude Errors System Text.

(** [anyhow::Error]: its messages, the outermost context first. *)
Abbreviation AnyError := (list string) (only parsing).

Abbreviation Ino := N (only parsing).

(** A failed system call, with its [errno]. *)
Record OsError := {
  os_error : IoError;
  os_errno : N
}.

(** ** The file system

    A path names an inode; that directories on the way exist and can be
    traversed is part of the name being there.  Following a symbolic link gives
    the inode its target names, if there is one. *)
Module Fs.
Inductive kind : Type := Directory | File | Symlink (to : option Ino).
#[global] Instance kind_eq_dec : EqDecision kind.
Proof. solve_decision. Defined.

Record node := mk_node {
  node_kind : kind;
  node_uid : Uid;
  node_gid : Gid;
  node_mode : N
}.

Record t := mk {
  names : gmap Path Ino;
  nodes : gmap Ino node;
  fresh : Ino
}.

Definition ENOENT : OsError :=
  {| os_error := {| io_kind := ErrorKind.NotFound; io_text := "No such file or directory (os error 2)" |};
     os_errno := 2 |}.
Definition EEXIST : OsError :=
  {| os_error := {| io_kind := ErrorKind.AlreadyExists; io_text := "File exists (os error 17)" |};
     os_errno := 17 |}.
Definition ENOTDIR : OsError :=
  {| os_error := {| io_kind := ErrorKind.Other; io_text := "Not a directory (os error 20)" |};
     os_errno := 20 |}.
Definition EISDIR : OsError :=
  {| os_error := {| io_kind := ErrorKind.Other; io_text := "Is a directory (os error 21)" |};
     os_errno := 21 |}.
Definition EBADF : OsError :=
  {| os_error := {| io_kind := ErrorKind.Other; io_text := "Bad file descriptor (os error 9)" |};
     os_errno := 9 |}.

(** What a path names, without and with following a final symbolic link. *)
Definition lookup (p : Path) (fs : t) : option (Ino * node) :=
  i ← names fs !! p; n ← nodes fs !! i; Some (i, n).
Definition follow (p : Path) (fs : t) : option (Ino * node) :=
  '(i, n) ← lookup p fs;
  match node_kind n with
  | Symlink to => j ← to; m ← nodes fs !! j; Some (j, m)
  | _ => Some (i, n)
  end.

Definition with_node (i : Ino) (n : node) (fs : t) : t := mk (names fs) (<[i := n]> (nodes fs)) (fresh fs).

(** A new directory of root's. *)
Definition make_dir (p : Path) (fs : t) : t :=
  mk (<[p := fresh fs]> (names fs)) (<[fresh fs := mk_node Directory 0 0 493]> (nodes fs)) (fresh fs + 1).

(** [Path::exists], [fs::symlink_metadata], [fs::create_dir], [fs::create_dir_all],
    [fs::set_permissions]. *)
Definition exists_ (p : Path) (fs : t) : bool := bool_decide (is_Some (follow p fs)).
Definition lstat (p : Path) (fs : t) : result OsError node :=
  match lookup p fs with Some (_, n) => Ok n | None => Err ENOENT end.
Definition create_dir (p : Path) (fs : t) : result OsError () * t :=
  match lookup p fs with Some _ => (Err EEXIST, fs) | None => (Ok (), make_dir p fs) end.
Definition create_dir_all (p : Path) (fs : t) : result OsError () * t :=
  match lookup p fs with
  | None => (Ok (), make_dir p fs)
  | Some _ =>
      match follow p fs with
      | Some (_, n) => if decide (node_kind n = Directory) then (Ok (), fs) else (Err EEXIST, fs)
      | None => (Err EEXIST, fs)
      end
  end.
Definition set_mode (mode : N) (n : node) : node := mk_node (node_kind n) (node_uid n) (node_gid n) mode.
Definition set_owner (uid : Uid) (gid : Gid) (n : node) : node := mk_node (node_kind n) uid gid (node_mode n).
Definition chmod (p : Path) (mode : N) (fs : t) : result OsError () * t :=
  match follow p fs with
  | Some (i, n) => (Ok (), with_node i (set_mode mode n) fs)
  | None => (Err ENOENT, fs)
  end.

(** [open] with [O_DIRECTORY | O_NOFOLLOW]: a symbolic link is refused, with
    whichever error the kernel has for it. *)
Definition open_dir (refusal : OsError) (p : Path) (fs : t) : result OsError Ino :=
  match lookup p fs with
  | None => Err ENOENT
  | Some (i, n) => match node_kind n with
                   | Directory => Ok i
                   | File => Err ENOTDIR
                   | Symlink _ => Err refusal
                   end
  end.

(** The calls on a descriptor. *)
Definition fstat (i : Ino) (fs : t) : result OsError node :=
  match nodes fs !! i with Some n => Ok n | None => Err EBADF end.
Definition fupdate (i : Ino) (f : node → node) (fs : t) : result OsError () * t :=
  match nodes fs !! i with
  | Some n => (Ok (), with_node i (f n) fs)
  | None => (Err EBADF, fs)
  end.

(** [fs::remove_file] and [fs::remove_dir_all]. *)
Definition remove_file (p : Path) (fs : t) : result OsError () * t :=
  match lookup p fs with
  | None => (Err ENOENT, fs)
  | Some (_, n) => if decide (node_kind n = Directory) then (Err EISDIR, fs)
                   else (Ok (), mk (delete p (names fs)) (nodes fs) (fresh fs))
  end.
Definition below (p q : Path) : Prop := q = p ∨ String.prefix (p +:+ "/") q = true.
#[global] Instance below_dec p q : Decision (below p q).
Proof. unfold below. apply _. Defined.
Definition remove_dir_all (p : Path) (fs : t) : result OsError () * t :=
  match lookup p fs with
  | None => (Err ENOENT, fs)
  | Some (_, n) => match node_kind n with
                   | Directory => (Ok (), mk (filter (λ x, ¬ below p x.1) (names fs)) (nodes fs) (fresh fs))
                   | _ => (Err ENOTDIR, fs)
                   end
  end.
End Fs.

(** ** Running against other processes *)

(** A call that was made, and the file system it found. *)
Module FsCall.
Inductive t : Type :=
| CreateDirAll (p : Path)
| SetPermissions (p : Path) (mode : N)
| Lstat (p : Path)
| CreateDir (p : Path)
| OpenDir (p : Path) (i : Ino)
| Fstat (i : Ino)
| Fchown (i : Ino) (uid : Uid) (gid : Gid)
| Fchmod (i : Ino) (mode : N)
| RemoveDirAll (p : Path)
| RemoveFile (p : Path).
End FsCall.

Module Run.
Record t := mk {
  fs : Fs.t;
  clock : nat;
  trace : list (Fs.t * FsCall.t)
}.
Definition start (fs : Fs.t) : t := mk fs 0 [].
End Run.

(** Code that makes calls one after the other and may fail. *)
Definition fsio (A : Type) : Type := Run.t → result AnyError A * Run.t.
#[global] Instance fsio_ret : MRet fsio := λ A a s, (Ok a, s).
#[global] Instance fsio_bind : MBind fsio := λ A B f m s,
  match m s with
  | (Ok a, s) => f a s
  | (Err e, s) => (Err e, s)
  end.

Definition bail {A} (message : string) : fsio A := λ s, (Err [message], s).

(** [Result::context] on an [io::Error]. *)
Definition context {A} (message : string) (r : result OsError A) : result AnyError A :=
  map_err (λ e, [message; io_text (os_error e)]) r.

Module Runtime.
Section calls.
(** What other processes do before the [n]-th call, whether that call fails for
    a reason of its own, and how the kernel refuses a symbolic link. *)
Context (env : nat → Fs.t → Fs.t) (fault : nat → option OsError) (refusal : OsError).

(** The [n]-th call: it is recorded when it succeeds. *)
Definition sys {A} (c : A → FsCall.t) (f : Fs.t → result OsError A * Fs.t) (s : Run.t)
    : result OsError A * Run.t :=
  let fs := env (Run.clock s) (Run.fs s) in
  match fault (Run.clock s) with
  | Some e => (Err e, Run.mk fs (S (Run.clock s)) (Run.trace s))
  | None =>
      match f fs with
      | (Ok a, fs') => (Ok a, Run.mk fs' (S (Run.clock s)) (Run.trace s ++ [(fs, c a)]))
      | (Err e, fs') => (Err e, Run.mk fs' (S (Run.clock s)) (Run.trace s))
      end
  end.

(** [Path::exists]: an error counts as absent. *)
Definition path_exists (p : Path) (s : Run.t) : bool * Run.t :=
  let fs := env (Run.clock s) (Run.fs s) in
  (match fault (Run.clock s) with Some _ => false | None => Fs.exists_ p fs end,
   Run.mk fs (S (Run.clock s)) (Run.trace s)).

Definition or_context {A} (message : string) (m : Run.t → result OsError A * Run.t) : fsio A := λ s,
  let '(r, s) := m s in (context message r, s).

Definition fstat (i : Ino) : Run.t → result OsError Fs.node * Run.t :=
  sys (λ _, FsCall.Fstat i) (λ fs, (Fs.fstat i fs, fs)).

Definition create_base (base : Path) : fsio () := λ s,
  let '(present, s) := path_exists base s in
  if present then (Ok (), s)
  else or_context "failed to create runtime base directory"
         (sys (λ _, FsCall.CreateDirAll base) (Fs.create_dir_all base)) s.

Definition prepare_base (base : Path) : fsio () :=
  _ ← create_base base;
  meta ← or_context "failed to inspect runtime base directory"
           (sys (λ _, FsCall.Lstat base) (λ fs, (Fs.lstat base fs, fs)));
  match Fs.node_kind meta with
  | Fs.Symlink _ => bail ("runtime base " +:+ base +:+ " is a symlink; refusing")
  | Fs.File => bail ("runtime base " +:+ base +:+ " is not a directory")
  | Fs.Directory =>
      or_context "failed to set permissions on runtime base directory"
        (sys (λ _, FsCall.SetPermissions base 493) (Fs.chmod base 493))
  end.

(** [fs::create_dir], where a directory that exists already is as good. *)
Definition create_runtime_dir (runtime_dir : Path) : fsio () := λ s,
  match sys (λ _, FsCall.CreateDir runtime_dir) (Fs.create_dir runtime_dir) s with
  | (Ok _, s) => (Ok (), s)
  | (Err e, s) => if decide (io_kind (os_error e) = ErrorKind.AlreadyExists) then (Ok (), s)
                  else (context "failed to create runtime directory" (Err e), s)
  end.

Definition ELOOP : N := 40.

(** Opening the directory itself. *)
Definition open_dir (runtime_dir : Path) : fsio Ino := λ s,
  let '(r, s) := sys (FsCall.OpenDir runtime_dir) (λ fs, (Fs.open_dir refusal runtime_dir fs, fs)) s in
  (map_err (λ e, ["failed to open runtime directory securely";
     if decide (os_errno e = ELOOP) then "runtime directory path " +:+ runtime_dir +:+ " is a symlink; refusing"
     else io_text (os_error e)]) r, s).

Definition verify (runtime_dir : Path) (uid : Uid) (gid : Gid) (meta : Fs.node) : fsio Path :=
  if negb (Fs.node_uid meta =? uid)%N then
    bail ("runtime directory " +:+ runtime_dir +:+ " has uid " +:+ pretty (Fs.node_uid meta)
          +:+ ", expected " +:+ pretty uid)
  else if negb (Fs.node_gid meta =? gid)%N then
    bail ("runtime directory " +:+ runtime_dir +:+ " has gid " +:+ pretty (Fs.node_gid meta)
          +:+ ", expected " +:+ pretty gid)
  else if negb (N.land (Fs.node_mode meta) 511 =? 448)%N then
    bail ("runtime directory " +:+ runtime_dir +:+ " has mode " +:+ octal (N.land (Fs.node_mode meta) 511)
          +:+ ", expected 0700")
  else mret runtime_dir.

(** The directory is opened, given to the user and looked at again, all through
    the one descriptor. *)
Definition lock_down (runtime_dir : Path) (uid : Uid) (gid : Gid) : fsio Path :=
  dir ← open_dir runtime_dir;
  meta ← or_context "failed to fstat runtime directory" (fstat dir);
  if decide (Fs.node_kind meta ≠ Fs.Directory) then
    bail ("runtime path " +:+ runtime_dir +:+ " exists but is not a directory")
  else
    _ ← or_context "failed to fchown runtime directory"
          (sys (λ _, FsCall.Fchown dir uid gid) (Fs.fupdate dir (Fs.set_owner uid gid)));
    _ ← or_context "failed to fchmod runtime directory"
          (sys (λ _, FsCall.Fchmod dir 448) (Fs.fupdate dir (Fs.set_mode 448)));
    meta ← or_context "failed to re-stat runtime directory after permission fix" (fstat dir);
    verify runtime_dir uid gid meta.

Definition bad_name (name : string) : bool :=
  String.eqb name "" || String.eqb name "." || String.eqb name ".." || has_char "/" name.

Definition ensure_named_runtime_dir (base : Path) (name : string) (uid : Uid) (gid : Gid) : fsio Path :=
  if bad_name name then bail ("invalid runtime directory name: " +:+ debug_str name)
  else
    _ ← prepare_base base;
    _ ← create_runtime_dir (path_join base name);
    lock_down (path_join base name) uid gid.

Definition ensure_user_runtime_dir_in (base : Path) (uid : Uid) (gid : Gid) : fsio Path :=
  ensure_named_runtime_dir base (pretty uid) uid gid.
Definition ensure_user_runtime_dir (uid : Uid) (gid : Gid) : fsio Path :=
  ensure_user_runtime_dir_in "/run/user" uid gid.

(** [if p.exists() { ... .ok(); }] *)
Definition remove_if_present (p : Path) (c : FsCall.t) (f : Fs.t → result OsError () * Fs.t) (s : Run.t) : Run.t :=
  let '(present, s) := path_exists p s in
  if present then (sys (λ _, c) f s).2 else s.

Definition STALE : list string := ["wayland-0"; "wayland-0.lock"; "X0"; "X0-lock"; "mitos-session.sock"].

Definition scrub_session_artifacts (runtime_dir : Path) : fsio () := λ s,
  let mitos_dir := path_join runtime_dir "mitos-session" in
  let s := remove_if_present mitos_dir (FsCall.RemoveDirAll mitos_dir) (Fs.remove_dir_all mitos_dir) s in
  (Ok (), foldl (λ s sock, let p := path_join runtime_dir sock in
                           remove_if_present p (FsCall.RemoveFile p) (Fs.remove_file p) s) s STALE).
End calls.
End Runtime.

(** ** What the calls can touch, whatever other processes do *)

(** At the moment of a call, [p] was itself a directory, not a link to one. *)
Definition real_dir (fs : Fs.t) (p : Path) (i : Ino) : Prop :=
  ∃ n, Fs.lookup p fs = Some (i, n) ∧ Fs.node_kind n = Fs.Directory.

Definition opened_as (p : Path) (i : Ino) (tr : list (Fs.t * FsCall.t)) : Prop :=
  ∃ fs, (fs, FsCall.OpenDir p i) ∈ tr ∧ real_dir fs p i.

Lemma opened_as_snoc p i tr x : opened_as p i tr → opened_as p i (tr ++ [x]).
Proof. intros (fs & Hin & Hd). exists fs. split; [set_solver|done]. Qed.

Section traces.
Context (base dir : Path) (uid : Uid) (gid : Gid).

(** The calls that may be made on a file system [fs] after the calls [tr]: the
    base is the only path whose mode is changed, and only an inode that the
    directory's own name led to is given away. *)
Definition allowed (tr : list (Fs.t * FsCall.t)) (fs : Fs.t) (c : FsCall.t) : Prop :=
  match c with
  | FsCall.CreateDirAll p | FsCall.Lstat p => p = base
  | FsCall.SetPermissions p mode => p = base ∧ mode = 493%N
  | FsCall.CreateDir p => p = dir
  | FsCall.OpenDir p i => p = dir ∧ real_dir fs dir i
  | FsCall.Fstat i => opened_as dir i tr
  | FsCall.Fchown i u g => opened_as dir i tr ∧ u = uid ∧ g = gid
  | FsCall.Fchmod i mode => opened_as dir i tr ∧ mode = 448%N
  | FsCall.RemoveDirAll _ | FsCall.RemoveFile _ => False
  end.

Inductive safe_trace : list (Fs.t * FsCall.t) → Prop :=
| safe_nil : safe_trace []
| safe_snoc tr fs c : safe_trace tr → allowed tr fs c → safe_trace (tr ++ [(fs, c)]).

(** The last thing done: the open directory is seen to be the user's alone. *)
Definition seen_private (tr : list (Fs.t * FsCall.t)) : Prop :=
  ∃ tr' fs i n, tr = tr' ++ [(fs, FsCall.Fstat i)] ∧ opened_as dir i tr' ∧ Fs.nodes fs !! i = Some n ∧
    Fs.node_uid n = uid ∧ Fs.node_gid n = gid ∧ N.land (Fs.node_mode n) 511 = 448%N.

(** A Hoare triple on the calls made so far. *)
Definition triple {E A} (P : list (Fs.t * FsCall.t) → Prop) (m : Run.t → result E A * Run.t)
    (Q : A → list (Fs.t * FsCall.t) → Prop) : Prop :=
  ∀ s, safe_trace (Run.trace s) → P (Run.trace s) →
    safe_trace (Run.trace (m s).2) ∧ ∀ a, (m s).1 = Ok a → Q a (Run.trace (m s).2).

Lemma triple_bind {A B} P (m : fsio A) Q (f : A → fsio B) R :
  triple P m Q → (∀ a, triple (Q a) (f a) R) → triple P (m ≫= f) R.
Proof.
  intros Hm Hf s Hs HP. destruct (Hm s Hs HP) as [Hs' HQ].
  unfold mbind, fsio_bind. destruct (m s) as [[a|e] s']; simpl in *; [|done].
  apply (Hf a); eauto.
Qed.

Lemma triple_ret {A} P (a : A) (Q : A → _ → Prop) : (∀ tr, P tr → Q a tr) → triple P (mret a : fsio A) Q.
Proof. intros HQ s Hs HP. split; [done|]. intros a' [= <-]. by apply HQ. Qed.

Lemma triple_weaken {E A} P (m : Run.t → result E A * Run.t) (Q R : A → _ → Prop) :
  triple P m Q → (∀ a tr, Q a tr → R a tr) → triple P m R.
Proof. intros Hm HQ s Hs HP. destruct (Hm s Hs HP). eauto. Qed.

Lemma triple_bail {A} P message (Q : A → _ → Prop) : triple P (bail message) Q.
Proof. by intros s Hs HP. Qed.

Section with_env.
Context (env : nat → Fs.t → Fs.t) (fault : nat → option OsError) (refusal : OsError).

Lemma triple_sys {A} P (c : A → FsCall.t) f (Q : A → _ → Prop) :
  (∀ tr fs a fs', P tr → f fs = (Ok a, fs') → allowed tr fs (c a) ∧ Q a (tr ++ [(fs, c a)])) →
  triple P (Runtime.sys env fault c f) Q.
Proof.
  intros Hcall s Hs HP. unfold Runtime.sys. destruct (fault _); simpl; [done|].
  destruct (f _) as [[a|e] fs'] eqn:Hf; simpl; [|done].
  destruct (Hcall _ _ _ _ HP Hf) as [Hok HQ]. split; [by constructor|]. by intros a' [= <-].
Qed.

Lemma triple_or_context {A} P message (m : Run.t → result OsError A * Run.t) (Q : A → _ → Prop) :
  triple P m Q → triple P (Runtime.or_context message m) Q.
Proof.
  intros Hm s Hs HP. destruct (Hm s Hs HP) as [Hs' HQ]. unfold Runtime.or_context.
  destruct (m s) as [[a|e] s']; simpl in *; naive_solver.
Qed.

Lemma create_base_safe P :
  (∀ tr x, P tr → P (tr ++ [x])) → triple P (Runtime.create_base env fault base) (λ _, P).
Proof.
  intros Hmono s Hs HP. unfold Runtime.create_base, Runtime.path_exists; simpl.
  destruct (match fault _ with Some _ => _ | None => _ end); [done|].
  eapply triple_or_context; [|done..]. apply triple_sys. naive_solver.
Qed.

Lemma prepare_base_safe : triple (λ _, True) (Runtime.prepare_base env fault base) (λ _ _, True).
Proof.
  eapply triple_bind; [by apply create_base_safe|]. intros [].
  eapply (triple_bind _ _ (λ _ _, True)).
  { apply triple_or_context, triple_sys. naive_solver. }
  intros n. destruct (Fs.node_kind n); try apply triple_bail.
  apply triple_or_context, triple_sys. naive_solver.
Qed.

Lemma create_runtime_dir_safe :
  triple (λ _, True) (Runtime.create_runtime_dir env fault dir) (λ _ _, True).
Proof.
  intros s Hs HP.
  pose proof (triple_sys (λ _, True) (λ _, FsCall.CreateDir dir) (Fs.create_dir dir) (λ _ _, True)
    ltac:(naive_solver) s Hs HP) as [Hs' _].
  unfold Runtime.create_runtime_dir. destruct (Runtime.sys _ _ _ _ s) as [[a|e] s']; simpl in *; [done|].
  by case_decide.
Qed.

Lemma open_dir_real p fs i fs' : (Fs.open_dir refusal p fs, fs) = (Ok i, fs') → real_dir fs p i.
Proof.
  unfold Fs.open_dir, real_dir. intros [= Hopen _]. destruct (Fs.lookup p fs) as [[j n]|]; [|done].
  destruct (Fs.node_kind n) eqn:?; naive_solver.
Qed.

Lemma open_dir_safe :
  triple (λ _, True) (Runtime.open_dir env fault refusal dir) (λ i, opened_as dir i).
Proof.
  intros s Hs HP. assert (Hcall : triple (λ _, True) (Runtime.sys env fault (FsCall.OpenDir dir)
    (λ fs, (Fs.open_dir refusal dir fs, fs))) (λ i, opened_as dir i)).
  { apply triple_sys. intros tr fs i fs' _ Hopen%open_dir_real. split; [done|].
    exists fs. split; [set_solver|done]. }
  destruct (Hcall s Hs HP) as [Hs' HQ]. unfold Runtime.open_dir.
  destruct (Runtime.sys _ _ _ _ s) as [[a|e] s']; simpl in *; naive_solver.
Qed.

Lemma fstat_safe i :
  triple (opened_as dir i) (Runtime.fstat env fault i)
    (λ n tr, opened_as dir i tr ∧
       ∃ tr' fs, tr = tr' ++ [(fs, FsCall.Fstat i)] ∧ opened_as dir i tr' ∧ Fs.nodes fs !! i = Some n).
Proof.
  apply triple_sys. unfold Fs.fstat. intros tr fs n fs' Hopen Hf.
  destruct (Fs.nodes fs !! i) eqn:Hn; simplify_eq. eauto 10 using opened_as_snoc.
Qed.

Lemma fupdate_safe i c f :
  (∀ tr fs, opened_as dir i tr → allowed tr fs c) →
  triple (opened_as dir i) (Runtime.sys env fault (λ _, c) (Fs.fupdate i f)) (λ _, opened_as dir i).
Proof. intros Hc. apply triple_sys. eauto using opened_as_snoc. Qed.

Lemma verify_safe n (P : list (Fs.t * FsCall.t) → Prop) :
  triple P (Runtime.verify dir uid gid n)
    (λ p tr, p = dir ∧ P tr ∧ Fs.node_uid n = uid ∧ Fs.node_gid n = gid ∧
             N.land (Fs.node_mode n) 511 = 448%N).
Proof.
  unfold Runtime.verify.
  destruct (N.eqb_spec (Fs.node_uid n) uid); simpl; [|apply triple_bail].
  destruct (N.eqb_spec (Fs.node_gid n) gid); simpl; [|apply triple_bail].
  destruct (N.eqb_spec (N.land (Fs.node_mode n) 511) 448); simpl; [|apply triple_bail].
  apply triple_ret. naive_solver.
Qed.
End with_env.
End traces.

Lemma lock_down_safe env fault refusal base dir uid gid :
  triple base dir uid gid (λ _, True) (Runtime.lock_down env fault refusal dir uid gid)
    (λ p tr, p = dir ∧ seen_private dir uid gid tr).
Proof.
  eapply triple_bind; [apply open_dir_safe|]. intros i.
  eapply triple_bind; [apply triple_or_context, fstat_safe|]. intros n.
  case_decide; [apply triple_bail|].
  eapply (triple_bind _ _ _ _ _ _ (λ _, opened_as dir i)).
  { apply triple_or_context. intros s Hs [Hopen _]. by apply fupdate_safe. }
  intros []. eapply triple_bind; [by apply triple_or_context, fupdate_safe|]. intros [].
  eapply triple_bind; [apply triple_or_context, fstat_safe|]. intros n'.
  eapply triple_weaken; [apply verify_safe|]; simpl.
  intros p tr (-> & (_ & tr' & fs & -> & ? & ?) & ? & ? & ?).
  split; [done|]. by exists tr', fs, i, n'.
Qed.

Lemma ensure_safe env fault refusal base name uid gid :
  let dir := path_join base name in
  triple base dir uid gid (λ _, True)
    (Runtime.ensure_named_runtime_dir env fault refusal base name uid gid)
    (λ p tr, p = dir ∧ seen_private dir uid gid tr).
Proof.
  intros dir. unfold Runtime.ensure_named_runtime_dir. destruct (Runtime.bad_name name); [apply triple_bail|].
  eapply triple_bind; [apply prepare_base_safe|]. intros [].
  eapply triple_bind; [apply create_runtime_dir_safe|]. intros [].
  apply lock_down_safe.
Qed.

(** ** Undisturbed, and with no call failing for a reason of its own *)

Definition undisturbed : nat → Fs.t → Fs.t := λ _ fs, fs.
Definition no_fault : nat → option OsError := λ _, None.

Lemma sys_undisturbed {A} (c : A → FsCall.t) f s :
  ∃ tr, Runtime.sys undisturbed no_fault c f s
        = ((f (Run.fs s)).1, Run.mk (f (Run.fs s)).2 (S (Run.clock s)) tr).
Proof. unfold Runtime.sys; simpl. destruct (f _) as [[a|e] fs']; eauto. Qed.

(** Run the next call. *)
Ltac run_call :=
  match goal with
  | |- context [Runtime.sys undisturbed no_fault ?c ?f ?s] =>
      let tr := fresh "tr" in let H := fresh "Hrun" in
      destruct (sys_undisturbed c f s) as [tr H]; rewrite H; clear H; simpl
  end.

(** The base, as [prepare_base] leaves it. *)
Definition opened_up (bi : Ino) (bn : Fs.node) (fs : Fs.t) : Fs.t := Fs.with_node bi (Fs.set_mode 493 bn) fs.

Lemma prepare_base_undisturbed base bi bn s :
  Fs.lookup base (Run.fs s) = Some (bi, bn) → Fs.node_kind bn = Fs.Directory →
  ∃ clock tr, Runtime.prepare_base undisturbed no_fault base s
              = (Ok (), Run.mk (opened_up bi bn (Run.fs s)) clock tr).
Proof.
  intros Hbase Hkind. assert (Hfollow : Fs.follow base (Run.fs s) = Some (bi, bn)).
  { unfold Fs.follow. rewrite Hbase; simpl. by rewrite Hkind. }
  unfold Runtime.prepare_base, mbind, fsio_bind, Runtime.create_base, Runtime.path_exists; simpl.
  change (undisturbed _ (Run.fs s)) with (Run.fs s).
  unfold Fs.exists_. rewrite bool_decide_eq_true_2 by (rewrite Hfollow; eauto). simpl.
  unfold Runtime.or_context. run_call. unfold Fs.lstat. rewrite Hbase; simpl. rewrite Hkind.
  run_call. unfold Fs.chmod. rewrite Hfollow; simpl. by eauto.
Qed.

(** Nothing but a mode changes. *)
Lemma lookup_opened_up base bi bn p fs :
  Fs.lookup base fs = Some (bi, bn) →
  Fs.lookup p (opened_up bi bn fs)
  = (λ x, (x.1, if decide (x.1 = bi) then Fs.set_mode 493 bn else x.2)) <$> Fs.lookup p fs.
Proof.
  unfold Fs.lookup; simpl. intros Hbase.
  assert (Hbi : Fs.nodes fs !! bi = Some bn) by (destruct (Fs.names fs !! base); simplify_option_eq; done).
  destruct (Fs.names fs !! p) as [i|]; simpl; [|done].
  destruct (decide (i = bi)) as [->|Hne].
  - rewrite lookup_insert_eq, Hbi; simpl. by rewrite decide_True.
  - rewrite lookup_insert_ne by done. destruct (Fs.nodes fs !! i); simpl; [|done]. by rewrite decide_False.
Qed.

Lemma create_runtime_dir_undisturbed dir s :
  ∃ clock tr, Runtime.create_runtime_dir undisturbed no_fault dir s
              = (Ok (), Run.mk (Fs.create_dir dir (Run.fs s)).2 clock tr).
Proof.
  unfold Runtime.create_runtime_dir. run_call. unfold Fs.create_dir.
  destruct (Fs.lookup dir (Run.fs s)); simpl; eauto.
Qed.

Lemma lock_down_undisturbed refusal dir uid gid i n s :
  Fs.lookup dir (Run.fs s) = Some (i, n) → Fs.node_kind n = Fs.Directory →
  let r := Runtime.lock_down undisturbed no_fault refusal dir uid gid s in
  r.1 = Ok dir ∧ Run.fs r.2 = Fs.with_node i (Fs.mk_node Fs.Directory uid gid 448) (Run.fs s).
Proof.
  intros Hdir Hkind. assert (Hn : Fs.nodes (Run.fs s) !! i = Some n).
  { unfold Fs.lookup in Hdir. destruct (Fs.names _ !! _); simplify_option_eq; naive_solver. }
  unfold Runtime.lock_down, mbind, fsio_bind, Runtime.open_dir, Runtime.or_context, Runtime.fstat.
  run_call. unfold Fs.open_dir. rewrite Hdir, Hkind; simpl.
  run_call. unfold Fs.fstat. rewrite Hn; simpl. rewrite decide_False by naive_solver.
  run_call. unfold Fs.fupdate. rewrite Hn; simpl.
  run_call. rewrite lookup_insert_eq; simpl. run_call. rewrite lookup_insert_eq; simpl.
  unfold Runtime.verify; simpl. rewrite !N.eqb_refl; simpl. split; [done|].
  unfold Fs.with_node, Fs.set_mode, Fs.set_owner; simpl. by rewrite insert_insert_eq, Hkind.
Qed.

Lemma lock_down_refused refusal dir uid gid i n s :
  Fs.lookup dir (Run.fs s) = Some (i, n) → Fs.node_kind n ≠ Fs.Directory →
  let r := Runtime.lock_down undisturbed no_fault refusal dir uid gid s in
  (∃ e, r.1 = Err ("failed to open runtime directory securely" :: e)) ∧ Run.fs r.2 = Run.fs s.
Proof.
  intros Hdir Hkind. unfold Runtime.lock_down, mbind, fsio_bind, Runtime.open_dir. run_call.
  unfold Fs.open_dir. rewrite Hdir. destruct (Fs.node_kind n); simpl; by eauto.
Qed.

Lemma lookup_same_inode p q i n m fs :
  Fs.lookup p fs = Some (i, n) → Fs.lookup q fs = Some (i, m) → n = m.
Proof. unfold Fs.lookup. intros ??. simplify_option_eq. naive_solver. Qed.

(** What the call leaves behind. *)
Definition private_dir (uid : Uid) (gid : Gid) : Fs.node := Fs.mk_node Fs.Directory uid gid 448.

Lemma ensure_undisturbed refusal base name uid gid bi bn fs :
  Runtime.bad_name name = false →
  Fs.lookup base fs = Some (bi, bn) → Fs.node_kind bn = Fs.Directory →
  let dir := path_join base name in
  let fs1 := opened_up bi bn fs in
  let r := Runtime.ensure_named_runtime_dir undisturbed no_fault refusal base name uid gid (Run.start fs) in
  match Fs.lookup dir fs with
  | None => r.1 = Ok dir ∧ Run.fs r.2 = Fs.with_node (Fs.fresh fs) (private_dir uid gid) (Fs.make_dir dir fs1)
  | Some (i, n) =>
      if decide (Fs.node_kind n = Fs.Directory)
      then r.1 = Ok dir ∧ Run.fs r.2 = Fs.with_node i (private_dir uid gid) fs1
      else (∃ e, r.1 = Err ("failed to open runtime directory securely" :: e)) ∧ Run.fs r.2 = fs1
  end.
Proof.
  intros Hname Hbase Hkind dir fs1 r.
  destruct (prepare_base_undisturbed base bi bn (Run.start fs) Hbase Hkind) as (k & tr & Hprep).
  destruct (create_runtime_dir_undisturbed dir (Run.mk fs1 k tr)) as (k' & tr' & Hcreate).
  assert (Hr : r = Runtime.lock_down undisturbed no_fault refusal dir uid gid
                     (Run.mk (Fs.create_dir dir fs1).2 k' tr')).
  { subst r. unfold Runtime.ensure_named_runtime_dir, mbind, fsio_bind. rewrite Hname, Hprep.
    unfold fs1, dir in *; simpl in *. by rewrite Hcreate. }
  rewrite Hr; clear Hr Hprep Hcreate r.
  pose proof (lookup_opened_up base bi bn dir fs Hbase) as Hdir. fold fs1 in Hdir.
  unfold Fs.create_dir. destruct (Fs.lookup dir fs) as [[i n]|] eqn:Hi; simpl in Hdir; rewrite Hdir; simpl.
  - assert (Hk : Fs.node_kind (if decide (i = bi) then Fs.set_mode 493 bn else n) = Fs.node_kind n).
    { case_decide; [|done]. subst i. simpl. f_equal. eauto using lookup_same_inode. }
    revert Hdir Hk. generalize (if decide (i = bi) then Fs.set_mode 493 bn else n). intros m Hdir Hk.
    case_decide; [apply (lock_down_undisturbed _ _ _ _ _ _ (Run.mk _ _ _) Hdir)
                 |apply (lock_down_refused _ _ _ _ _ _ (Run.mk _ _ _) Hdir)]; congruence.
  - refine (lock_down_undisturbed _ _ _ _ _ (Fs.mk_node Fs.Directory 0 0 493) (Run.mk _ _ _) _ eq_refl).
    unfold Fs.lookup; simpl. rewrite lookup_insert_eq; simpl. by rewrite lookup_insert_eq.
Qed.

(** ** Stale artifacts *)

(** What [scrub_session_artifacts] may remove. *)
Definition stale_artifact (runtime_dir : Path) (c : FsCall.t) : Prop :=
  c = FsCall.RemoveDirAll (path_join runtime_dir "mitos-session") ∨
  ∃ sock, sock ∈ Runtime.STALE ∧ c = FsCall.RemoveFile (path_join runtime_dir sock).

Section scrub.
Context (env : nat → Fs.t → Fs.t) (fault : nat → option OsError).

Lemma remove_if_present_trace p c f s :
  ∃ tr, Run.trace (Runtime.remove_if_present env fault p c f s) = Run.trace s ++ tr ∧ ∀ fs c', (fs, c') ∈ tr → c' = c.
Proof.
  unfold Runtime.remove_if_present, Runtime.path_exists.
  destruct (match fault _ with Some _ => _ | None => _ end); simpl; [|exists []; rewrite app_nil_r; set_solver].
  unfold Runtime.sys; simpl. destruct (fault _); simpl; [exists []; rewrite app_nil_r; set_solver|].
  destruct (f _) as [[?|?] ?]; simpl; eexists; (split; [done || by rewrite app_nil_r|set_solver]).
Qed.

Lemma remove_all_trace dir socks s :
  ∃ tr, Run.trace (foldl (λ s sock, Runtime.remove_if_present env fault (path_join dir sock)
                            (FsCall.RemoveFile (path_join dir sock)) (Fs.remove_file (path_join dir sock)) s) s socks)
        = Run.trace s ++ tr ∧
    ∀ fs c, (fs, c) ∈ tr → ∃ sock, sock ∈ socks ∧ c = FsCall.RemoveFile (path_join dir sock).
Proof.
  revert s. induction socks as [|sock socks IH]; intros s; simpl.
  { exists []. rewrite app_nil_r. set_solver. }
  edestruct IH as (tr2 & -> & H2). edestruct remove_if_present_trace as (tr1 & -> & H1).
  exists (tr1 ++ tr2). rewrite (assoc_L (++)). split; [done|].
  intros fs c [Hc%H1|Hc%H2]%elem_of_app; set_solver.
Qed.

(** It cannot fail, and removes nothing but the listed artifacts. *)
Lemma scrub_only dir s :
  let r := Runtime.scrub_session_artifacts env fault dir s in
  r.1 = Ok () ∧ ∃ tr, Run.trace r.2 = Run.trace s ++ tr ∧ ∀ fs c, (fs, c) ∈ tr → stale_artifact dir c.
Proof.
  unfold Runtime.scrub_session_artifacts, stale_artifact. split; [done|]. cbn [snd].
  edestruct remove_all_trace as (tr2 & -> & H2). edestruct remove_if_present_trace as (tr1 & -> & H1).
  exists (tr1 ++ tr2). rewrite (assoc_L (++)). split; [done|].
  intros fs c [Hc%H1|Hc%H2]%elem_of_app; auto.
Qed.
End scrub.
