(* ===== verification/User.v ===== *)
(** * User: accounts, groups, home directories and the shadow check
    (src/src/user/, and [user_has_password] of src/src/main.rs) *)

From Stdlib Require Import Ascii.
From stdpp Require Import base gmap strings pretty numbers list.
From S2P Require Import Prelude Errors System Text.

Module User.
Record t := mk {
  uid : Uid;
  gid : Gid;
  name : string;
  home : Path;
  shell : Path
}.

Definition from_nix (entry : NixUser) : t :=
  mk (nix_uid entry) (nix_gid entry) (nix_name entry) (nix_dir entry) (nix_shell entry).

Definition by_name (name : string) (w : World) : Result t :=
  entry ← map_err SessionError.from_io (w_from_name w name);
  entry ← ok_or (SessionError.UnknownUser name) entry;
  Ok (from_nix entry).

Definition by_uid (uid : Uid) (w : World) : Result t :=
  entry ← map_err SessionError.from_io (w_from_uid w uid);
  entry ← ok_or (SessionError.UnknownUser (pretty uid)) entry;
  Ok (from_nix entry).

Definition is_root (u : t) : bool := (uid u =? 0)%N.
End User.

(** [user::account::Account]: counters kept beside a user record. *)
Module Account.
Record t := mk {
  user : User.t;
  last_login : option N;
  failed_attempts : N;
  locked_until : option N
}.
Definition new (u : User.t) : t := mk u None 0 None.
Definition is_locked_out (a : t) (now : N) : bool :=
  match locked_until a with Some until => (now <? until)%N | None => false end.
Definition record_success (a : t) (now : N) : t := mk (user a) (Some now) 0 None.
Definition record_failure (a : t) : t :=
  mk (user a) (last_login a) (u32_saturating_add (failed_attempts a) 1) (locked_until a).
End Account.

Module Groups.
Definition GROUP_FILE : Path := "/etc/group".

(** The gid one line of the group file contributes for [name]. *)
Definition group_line_gid (name line : string) : option Gid :=
  let line := trim line in
  if String.eqb line "" || starts_with "#" line then None
  else
    let fields := split ":" line in
    let gid_field := nth 2 fields "" in
    let members_field := nth 3 fields "" in
    if existsb (λ m, String.eqb m name) (split "," members_field)
    then parse_u32 gid_field else None.

Definition gids_from_group_file (path : Path) (name : string) (w : World) : Result (list Gid) :=
  match w_read_to_string w path with
  | Ok raw => Ok (omap (group_line_gid name) (lines raw))
  | Err e => if decide (io_kind e = ErrorKind.NotFound) then Ok []
             else Err (SessionError.from_io e)
  end.

(** The loop that pushes each gid not yet in the vector. *)
Definition push_new (gids : list Gid) (gid : Gid) : list Gid :=
  if decide (gid ∈ gids) then gids else gids ++ [gid].

Definition supplementary_gids (name : string) (w : World) : Result (list Gid) :=
  entry ← map_err SessionError.from_io (w_from_name w name);
  entry ← ok_or (SessionError.UnknownUser name) entry;
  more ← gids_from_group_file GROUP_FILE name w;
  Ok (foldl push_new [nix_gid entry] more).
End Groups.

(** [user::permissions]: the calling process gives up its privileges. *)
Module Permissions.
Definition drop_privileges (user : User.t) : io () :=
  gids ← io_lift (Groups.supplementary_gids (User.name user));
  _ ← syscall (SysCall.Setgroups gids);
  _ ← syscall (SysCall.Setgid (User.gid user));
  syscall (SysCall.Setuid (User.uid user)).
End Permissions.

Module Home.
(** [448] is [0o700]. *)
Definition ensure_home_ready (user : User.t) : io () := λ w,
  match w_metadata w (User.home user) with
  | Ok meta =>
      if negb (meta_uid meta =? User.uid user)%N then
        ([], Err (SessionError.PermissionDenied
          ("home directory " +:+ User.home user +:+ " is not owned by " +:+ User.name user)))
      else if negb (meta_is_dir meta) then
        ([], Err (SessionError.Config
          ("home directory " +:+ User.home user +:+ " is not a directory")))
      else ([], Ok ())
  | Err e =>
      if decide (io_kind e = ErrorKind.NotFound) then
        (_ ← syscall (SysCall.CreateDirAll (User.home user));
         _ ← syscall (SysCall.SetPermissions (User.home user) 448);
         _ ← syscall (SysCall.Chown (User.home user) (User.uid user) (User.gid user));
         mret ()) w
      else ([], Err (SessionError.from_io e))
  end.
End Home.

Module Shadow.
(** The hash fields the daemon takes for "no usable password". *)
Definition unusable (hash : string) : bool :=
  String.eqb hash "" || String.eqb hash "!" || String.eqb hash "*"
  || String.eqb hash "!!" || starts_with "!" hash.

Fixpoint scan (username : string) (ls : list string) : bool :=
  match ls with
  | [] => true
  | line :: ls' =>
      match split ":" line with
      | user :: hash :: _ => if String.eqb user username then negb (unusable hash) else scan username ls'
      | _ => scan username ls'
      end
  end.

(** [user_has_password]: whether [/etc/shadow] gives the user a usable
    password; true when the file cannot be read or does not list the user. *)
Definition user_has_password (username : string) (w : World) : bool :=
  match w_read_to_string w "/etc/shadow" with
  | Ok content => scan username (lines content)
  | Err _ => true
  end.
End Shadow.

(** ** Lemmas *)

Lemma by_name_Ok name w u :
  User.by_name name w = Ok u ↔ ∃ e, w_from_name w name = Ok (Some e) ∧ u = User.from_nix e.
Proof.
  unfold User.by_name. destruct (w_from_name w name) as [[e|]|e]; simpl; naive_solver.
Qed.

Lemma foldl_push_new_prefix gids more : gids `prefix_of` foldl Groups.push_new gids more.
Proof.
  revert gids. induction more as [|g more IH]; intros gids; simpl; [done|].
  etrans; [|apply IH]. unfold Groups.push_new. case_decide; [done|]. by apply prefix_app_r.
Qed.

Lemma foldl_push_new_NoDup gids more : NoDup gids → NoDup (foldl Groups.push_new gids more).
Proof.
  revert gids. induction more as [|g more IH]; intros gids Hnd; simpl; [done|].
  apply IH. unfold Groups.push_new. case_decide as Hin; [done|].
  apply list.NoDup_app. split; [done|]. split; [|apply NoDup_singleton].
  intros x Hx ->%list_elem_of_singleton. done.
Qed.

Lemma elem_of_foldl_push_new gids more g :
  g ∈ foldl Groups.push_new gids more ↔ g ∈ gids ∨ g ∈ more.
Proof.
  revert gids. induction more as [|g' more IH]; intros gids; simpl; [set_solver|].
  rewrite IH. unfold Groups.push_new. case_decide; set_solver.
Qed.

(** The shadow lookup as a specification: the hash of the first line for the
    user, if any. *)
Fixpoint shadow_entry (username : string) (ls : list string) : option string :=
  match ls with
  | [] => None
  | line :: ls' =>
      match split ":" line with
      | user :: hash :: _ => if String.eqb user username then Some hash else shadow_entry username ls'
      | _ => shadow_entry username ls'
      end
  end.

Lemma scan_shadow_entry username ls :
  Shadow.scan username ls = match shadow_entry username ls with
                            | Some h => negb (Shadow.unusable h) | None => true end.
Proof. induction ls as [|l ls IH]; simpl; [done|]. repeat case_match; done. Qed.

Lemma unusable_spec h :
  Shadow.unusable h = true ↔ h = "" ∨ h = "*" ∨ starts_with "!" h = true.
Proof.
  unfold Shadow.unusable. rewrite !orb_true_iff, !String.eqb_eq. split; [|tauto].
  intros [[[[->| ->]| ->]| ->]|]; auto.
Qed.

(** The shadow check fails closed: it says "no password" only for a user the
    readable shadow file lists with an empty, [*] or [!]-prefixed hash. *)
Lemma user_has_password_false username w :
  Shadow.user_has_password username w = false ↔
  ∃ content hash, w_read_to_string w "/etc/shadow" = Ok content ∧
    shadow_entry username (lines content) = Some hash ∧
    (hash = "" ∨ hash = "*" ∨ starts_with "!" hash = true).
Proof.
  unfold Shadow.user_has_password. split.
  - case_match eqn:Hr; [|done]. rewrite scan_shadow_entry. case_match eqn:He; [|done].
    intros Hu%negb_false_iff%unusable_spec. eauto 10.
  - intros (c & h & -> & He & Hu%unusable_spec). by rewrite scan_shadow_entry, He, Hu.
Qed.

(** A gid list the launcher installs starts with the primary group, has no
    duplicate, and holds the primary group and exactly the groups whose line
    names the user. *)
Lemma supplementary_gids_spec name w gids :
  Groups.supplementary_gids name w = Ok gids →
  ∃ e more, w_from_name w name = Ok (Some e) ∧
    Groups.gids_from_group_file Groups.GROUP_FILE name w = Ok more ∧
    head gids = Some (nix_gid e) ∧ NoDup gids ∧
    ∀ g, g ∈ gids ↔ g = nix_gid e ∨ g ∈ more.
Proof.
  unfold Groups.supplementary_gids.
  destruct (w_from_name w name) as [[e|]|] eqn:Hn; simpl; try done.
  destruct (Groups.gids_from_group_file _ _ _) as [more|] eqn:Hg; simpl; [|done].
  intros [= <-]. exists e, more. split_and!; try done.
  - destruct (foldl_push_new_prefix [nix_gid e] more) as [k ->]. done.
  - apply foldl_push_new_NoDup, NoDup_singleton.
  - intros g. rewrite elem_of_foldl_push_new. set_solver.
Qed.

(** An existing home directory is accepted only when the user owns it, and is
    never modified. *)
Lemma home_exists_untouched user w meta :
  w_metadata w (User.home user) = Ok meta →
  ∃ r, Home.ensure_home_ready user w = ([], r) ∧
    (r = Ok () ↔ meta_uid meta = User.uid user ∧ meta_is_dir meta = true).
Proof.
  unfold Home.ensure_home_ready. intros ->.
  destruct (N.eqb_spec (meta_uid meta) (User.uid user)); simpl; [|naive_solver].
  destruct (meta_is_dir meta); naive_solver.
Qed.

(** Supplementary groups first, then the gid, and the uid last; each only when
    the one before it succeeded. *)
Lemma drop_privileges_order user w gids calls r :
  Groups.supplementary_gids (User.name user) w = Ok gids →
  Permissions.drop_privileges user w = (calls, r) →
  let all := [SysCall.Setgroups gids; SysCall.Setgid (User.gid user); SysCall.Setuid (User.uid user)] in
  calls `prefix_of` all ∧ (is_ok r = true → calls = all).
Proof.
  intros Hg. unfold Permissions.drop_privileges, io_lift, mbind, io_bind, syscall. rewrite Hg. simpl.
  repeat (destruct (w_syscall w _); simpl); intros; simplify_eq; (split; [|done]); by eexists.
Qed.
