(* ===== verification/Session.v ===== *)
(** * Session: the lifecycle state machine, the per-session environment, and
    the registry of sessions (src/src/session/) *)

From stdpp Require Import base gmap strings pretty numbers sorting relations list.
From S2P Require Import Prelude Errors System Config User.

Abbreviation SessionId := N (only parsing).
Abbreviation ConnId := N (only parsing).

Module SessionType.
Inductive t : Type := Wayland | X11 | Tty.
#[global] Instance eq_dec : EqDecision t.
Proof. solve_decision. Defined.
Definition as_xdg_str (ty : t) : string :=
  match ty with Wayland => "wayland" | X11 => "x11" | Tty => "tty" end.
End SessionType.

Module SessionState.
Inductive t : Type := Starting | Active | Idle | Locked | Closing | Closed.
#[global] Instance eq_dec : EqDecision t.
Proof. solve_decision. Defined.

Definition can_transition_to (self next : t) : bool :=
  match self, next with
  | Starting, Active
  | Starting, Closing
  | Starting, Locked
  | Active, Idle
  | Active, Locked
  | Active, Closing
  | Active, Starting
  | Idle, Active
  | Idle, Locked
  | Idle, Closing
  | Idle, Starting
  | Locked, Active
  | Locked, Closing
  | Locked, Starting
  | Closing, Closed => true
  | _, _ => false
  end.

(** [{:?}]. *)
Definition debug (s : t) : string :=
  match s with
  | Starting => "Starting" | Active => "Active" | Idle => "Idle"
  | Locked => "Locked" | Closing => "Closing" | Closed => "Closed"
  end.

Definition transition (self next : t) : Result t :=
  if can_transition_to self next then Ok next
  else Err (SessionError.InvalidTransition (debug self +:+ " -> " +:+ debug next)).

Definition is_locked (s : t) : bool :=
  match s with Locked => true | _ => false end.
End SessionState.

(** [session::Session]. *)
Module Session.
Record t := mk {
  id : SessionId;
  uid : Uid;
  user_name : string;
  seat_id : string;
  session_type : SessionType.t;
  vt : option N;
  created_at : N
}.
End Session.

Module Environment.
Record t := mk { vars : gmap string string }.

Definition empty : t := mk ∅.
Definition set (key value : string) (e : t) : t := mk (<[key:=value]> (vars e)).
Definition get (key : string) (e : t) : option string := vars e !! key.

(** A [BTreeMap] iterates in key order. *)
Definition key_le (a b : string * string) : Prop := String.le a.1 b.1.
#[global] Instance key_le_dec : RelDecision key_le := λ a b, decide (String.le a.1 b.1).
Definition iter (e : t) : list (string * string) := merge_sort key_le (map_to_list (vars e)).

Definition for_session (user : User.t) (session_id : SessionId) (session_type : SessionType.t)
    (seat_id : string) (runtime_base : Path) : t * Path :=
  let runtime_dir := path_join runtime_base (pretty (User.uid user)) in
  let env := empty in
  let env := set "HOME" (User.home user) env in
  let env := set "USER" (User.name user) env in
  let env := set "LOGNAME" (User.name user) env in
  let env := set "SHELL" (User.shell user) env in
  let env := set "XDG_RUNTIME_DIR" runtime_dir env in
  let env := set "XDG_SESSION_ID" (pretty session_id) env in
  let env := set "XDG_SEAT" seat_id env in
  let env := set "XDG_SESSION_TYPE" (SessionType.as_xdg_str session_type) env in
  let env := set "PATH" "/usr/local/bin:/usr/bin:/bin" env in
  (env, runtime_dir).

(** [448] is [0o700]. *)
Definition ensure_runtime_dir (path : Path) (user : User.t) : io () :=
  _ ← syscall (SysCall.CreateDirAll path);
  _ ← syscall (SysCall.SetPermissions path 448);
  _ ← syscall (SysCall.Chown path (User.uid user) (User.gid user));
  mret ().
End Environment.

Module SessionContext.
Record t := mk {
  session : Session.t;
  user : User.t;
  state : SessionState.t;
  environment : Environment.t;
  compositor_conn : option ConnId;
  compositor_process : option Pid;
  compositor_restarts : N
}.

Definition id (c : t) : SessionId := Session.id (session c).

Definition with_state (s : SessionState.t) (c : t) : t :=
  mk (session c) (user c) s (environment c) (compositor_conn c) (compositor_process c)
     (compositor_restarts c).
Definition with_conn (o : option ConnId) (c : t) : t :=
  mk (session c) (user c) (state c) (environment c) o (compositor_process c)
     (compositor_restarts c).
Definition with_process (o : option Pid) (c : t) : t :=
  mk (session c) (user c) (state c) (environment c) (compositor_conn c) o
     (compositor_restarts c).
Definition with_restarts (n : N) (c : t) : t :=
  mk (session c) (user c) (state c) (environment c) (compositor_conn c) (compositor_process c) n.

(** [transition]: the result, and the context after the call. *)
Definition transition (next : SessionState.t) (c : t) : Result () * t :=
  match SessionState.transition (state c) next with
  | Ok s => (Ok (), with_state s c)
  | Err e => (Err e, c)
  end.

(** [let _ = ctx.transition(next)]: an invalid transition is ignored. *)
Definition try_transition (next : SessionState.t) (c : t) : t := (transition next c).2.
End SessionContext.

Module Lifecycle.
Definition begin (id : SessionId) (user : User.t) (seat_id : string)
    (session_type : SessionType.t) (settings : SessionSettings.t) : io SessionContext.t :=
  _ ← Home.ensure_home_ready user;
  let '(environment, runtime_dir) :=
    Environment.for_session user id session_type seat_id (SessionSettings.runtime_dir settings) in
  _ ← Environment.ensure_runtime_dir runtime_dir user;
  io_lift (λ w,
    let session := Session.mk id (User.uid user) (User.name user) seat_id session_type None
                     (w_system_time w) in
    Ok (SessionContext.mk session user SessionState.Starting environment None None 0)).

(** [end] is a keyword of Rocq. *)
Definition end_ (ctx : SessionContext.t) : list SysCall.t * SessionContext.t :=
  let calls := match SessionContext.compositor_process ctx with
               | Some child => [SysCall.KillChild child; SysCall.WaitChild child]
               | None => []
               end in
  let ctx := SessionContext.with_process None ctx in
  let next := match SessionState.transition (SessionContext.state ctx) SessionState.Closed with
              | Ok s => s
              | Err _ => SessionState.Closed
              end in
  (calls, SessionContext.with_state next ctx).
End Lifecycle.

Module SessionManager.
Record t := mk {
  sessions : gmap SessionId SessionContext.t;
  next_id : SessionId
}.

Definition new : t := mk ∅ 1.

Section ops.
Context `{HashOrder}.

(** How many registered sessions belong to [uid]. *)
Definition sessions_of (uid : Uid) (m : t) : nat :=
  count_values (λ c, User.uid (SessionContext.user c) = uid) (sessions m).

Definition create_session (user : User.t) (seat_id : string) (session_type : SessionType.t)
    (settings : SessionSettings.t) (w : World) (m : t) : list SysCall.t * Result SessionId * t :=
  let existing := wrap32 (N.of_nat (sessions_of (User.uid user) m)) in
  if (SessionSettings.max_sessions_per_user settings <=? existing)%N then
    ([], Err (SessionError.PermissionDenied
      (User.name user +:+ " already has " +:+ pretty existing +:+ " session(s) open (limit "
       +:+ pretty (SessionSettings.max_sessions_per_user settings) +:+ ")")), m)
  else
    let id := next_id m in
    let m := mk (sessions m) (u32_add (next_id m) 1) in
    match Lifecycle.begin id user seat_id session_type settings w with
    | (calls, Ok ctx) => (calls, Ok id, mk (<[id:=ctx]> (sessions m)) (next_id m))
    | (calls, Err e) => (calls, Err e, m)
    end.
End ops.

Definition terminate_session (id : SessionId) (m : t) : list SysCall.t * Result () * t :=
  match sessions m !! id with
  | None => ([], Err (SessionError.UnknownSession id), m)
  | Some ctx => ((Lifecycle.end_ ctx).1, Ok (), mk (delete id (sessions m)) (next_id m))
  end.

Definition get (id : SessionId) (m : t) : Result SessionContext.t :=
  ok_or (SessionError.UnknownSession id) (sessions m !! id).

(** Writing through the reference [get_mut] returns. *)
Definition update (id : SessionId) (f : SessionContext.t → SessionContext.t) (m : t) : t :=
  mk (alter f id (sessions m)) (next_id m).

(** A loop over [iter_mut] that applies [f] to every context. *)
Definition update_all (f : SessionContext.t → SessionContext.t) (m : t) : t :=
  mk (f <$> sessions m) (next_id m).

Definition set_state (id : SessionId) (next : SessionState.t) (m : t) : Result () * t :=
  match get id m with
  | Ok ctx => let '(r, ctx') := SessionContext.transition next ctx in
              (r, mk (<[id:=ctx']> (sessions m)) (next_id m))
  | Err e => (Err e, m)
  end.

Definition owner_uid (id : SessionId) (m : t) : Result Uid :=
  ctx ← get id m; Ok (Session.uid (SessionContext.session ctx)).

(** The values of the map, in the order [list] and [iter_mut] visit them. *)
Definition list `{HashOrder} (m : t) : list SessionContext.t := hash_values (sessions m).
End SessionManager.

(** ** The state machine *)

Definition lifecycle_step (s s' : SessionState.t) : Prop :=
  SessionState.transition s s' = Ok s'.

#[export] Instance lifecycle_step_dec : RelDecision lifecycle_step.
Proof.
  intros s s'. unfold lifecycle_step, SessionState.transition.
  destruct (SessionState.can_transition_to s s'); [by left|by right].
Defined.

Lemma transition_Ok s s' r :
  SessionState.transition s s' = Ok r ↔ SessionState.can_transition_to s s' = true ∧ r = s'.
Proof. unfold SessionState.transition. case_match; naive_solver. Qed.

Lemma lifecycle_step_closed s : ¬ lifecycle_step SessionState.Closed s.
Proof. by destruct s. Qed.

Lemma lifecycle_step_to_closed s :
  lifecycle_step s SessionState.Closed → s = SessionState.Closing.
Proof. by destruct s. Qed.

Lemma lifecycle_step_from_closing s :
  lifecycle_step SessionState.Closing s → s = SessionState.Closed.
Proof. by destruct s. Qed.

(** The table in words: [Closing] leads to [Closed] and nowhere else, [Closed]
    leads nowhere, and any other state leads to every other state but [Closed],
    except that only an active session becomes idle. *)
Lemma lifecycle_step_iff s s' :
  lifecycle_step s s' ↔
  (s = SessionState.Closing ∧ s' = SessionState.Closed) ∨
  (s ≠ SessionState.Closing ∧ s ≠ SessionState.Closed ∧ s' ≠ SessionState.Closed ∧ s ≠ s' ∧
   (s' = SessionState.Idle → s = SessionState.Active)).
Proof. unfold lifecycle_step. destruct s, s'; simpl; naive_solver. Qed.

(** The states one after the other of a session that only makes valid transitions. *)
Definition lifecycle_history (l : list SessionState.t) : Prop :=
  ∀ i s s', l !! i = Some s → l !! S i = Some s' → lifecycle_step s s'.

(** [Closed] comes directly after [Closing], and last. *)
Lemma history_closed l i :
  lifecycle_history l → l !! S i = Some SessionState.Closed →
  l !! i = Some SessionState.Closing ∧ l !! S (S i) = None.
Proof.
  intros Hl Hc. split.
  - destruct (lookup_lt_is_Some_2 l i) as [s Hs]; [by apply lookup_lt_Some in Hc; lia|].
    by rewrite Hs, (lifecycle_step_to_closed s (Hl _ _ _ Hs Hc)).
  - destruct (l !! S (S i)) as [s|] eqn:Hs; [|done]. by apply (Hl _ _ _ Hc), lifecycle_step_closed in Hs.
Qed.

Lemma closed_reachable s : rtc lifecycle_step s SessionState.Closed.
Proof.
  assert (rtc lifecycle_step SessionState.Closing SessionState.Closed) by by apply rtc_once.
  destruct s; try done; by apply rtc_l with SessionState.Closing.
Qed.

(** ** Contexts *)

(** What [try_transition] may change: the state, and nothing else. *)
Lemma try_transition_frame next c :
  let c' := SessionContext.try_transition next c in
  SessionContext.session c' = SessionContext.session c ∧
  SessionContext.user c' = SessionContext.user c ∧
  SessionContext.environment c' = SessionContext.environment c ∧
  SessionContext.compositor_conn c' = SessionContext.compositor_conn c ∧
  SessionContext.compositor_process c' = SessionContext.compositor_process c ∧
  SessionContext.compositor_restarts c' = SessionContext.compositor_restarts c.
Proof. unfold SessionContext.try_transition, SessionContext.transition. by case_match. Qed.

Lemma try_transition_state next c :
  SessionContext.state (SessionContext.try_transition next c) =
  if SessionState.can_transition_to (SessionContext.state c) next then next
  else SessionContext.state c.
Proof.
  unfold SessionContext.try_transition, SessionContext.transition, SessionState.transition.
  by destruct (SessionState.can_transition_to _ _).
Qed.

Lemma end_closed ctx : SessionContext.state (Lifecycle.end_ ctx).2 = SessionState.Closed.
Proof.
  unfold Lifecycle.end_. simpl. destruct (SessionState.transition _ _) eqn:Ht; [|done].
  by apply transition_Ok in Ht as [_ ->].
Qed.

(** ** Starting a session *)

(** What a fresh context holds. *)
Definition fresh_context (id : SessionId) (user : User.t) (seat_id : string)
    (session_type : SessionType.t) (settings : SessionSettings.t) (created : N)
    : SessionContext.t :=
  SessionContext.mk
    (Session.mk id (User.uid user) (User.name user) seat_id session_type None created)
    user SessionState.Starting
    (Environment.for_session user id session_type seat_id
       (SessionSettings.runtime_dir settings)).1
    None None 0.

Lemma begin_Ok id user seat ty settings w calls ctx :
  Lifecycle.begin id user seat ty settings w = (calls, Ok ctx) →
  ctx = fresh_context id user seat ty settings (w_system_time w).
Proof.
  unfold Lifecycle.begin. intros Hb. inv_io. simpl in *. inv_io. unfold io_lift in *. by simplify_eq.
Qed.

(** The runtime directory is created, restricted to its owner and handed to the
    user, in this order, whenever a session is started. *)
Lemma begin_runtime_dir id user seat ty settings w calls ctx :
  Lifecycle.begin id user seat ty settings w = (calls, Ok ctx) →
  let dir := path_join (SessionSettings.runtime_dir settings) (pretty (User.uid user)) in
  Environment.get "XDG_RUNTIME_DIR" (SessionContext.environment ctx) = Some dir ∧
  ∃ before, Home.ensure_home_ready user w = (before, Ok ()) ∧
    calls = before ++
      [SysCall.CreateDirAll dir; SysCall.SetPermissions dir 448;
       SysCall.Chown dir (User.uid user) (User.gid user)].
Proof.
  intros Hb. split; [by apply begin_Ok in Hb as ->|].
  unfold Lifecycle.begin in Hb. inv_io. simpl in *. inv_io.
  unfold Environment.ensure_runtime_dir, io_lift in *.
  inv_io. simplify_eq. eexists. rewrite app_nil_r. split; [|done].
  by repeat match goal with u : () |- _ => destruct u end.
Qed.

(** ** The registry *)

(** An edit of a context that leaves who it is alone. *)
Definition same_identity (f : SessionContext.t → SessionContext.t) : Prop :=
  ∀ c, SessionContext.session (f c) = SessionContext.session c ∧
       SessionContext.user (f c) = SessionContext.user c.

Lemma same_identity_try_transition s : same_identity (SessionContext.try_transition s).
Proof. intros c. pose proof (try_transition_frame s c). naive_solver. Qed.
Lemma same_identity_with_conn o : same_identity (SessionContext.with_conn o).
Proof. done. Qed.
Lemma same_identity_with_process o : same_identity (SessionContext.with_process o).
Proof. done. Qed.
Lemma same_identity_compose f g : same_identity f → same_identity g → same_identity (g ∘ f).
Proof. intros Hf Hg c. simpl. destruct (Hf c), (Hg (f c)). split; congruence. Qed.
#[export] Hint Resolve same_identity_try_transition same_identity_with_conn
  same_identity_with_process same_identity_compose : mitos.

Module SessionInv.
(** A registered context carries its own key and the identity of its user, and
    every key in use is below the next one to be handed out. *)
Definition ctx_ok (next : N) (id : SessionId) (c : SessionContext.t) : Prop :=
  SessionContext.id c = id ∧
  Session.uid (SessionContext.session c) = User.uid (SessionContext.user c) ∧
  Session.user_name (SessionContext.session c) = User.name (SessionContext.user c) ∧
  (id < next)%N.
Definition wf (m : SessionManager.t) : Prop :=
  map_Forall (ctx_ok (SessionManager.next_id m)) (SessionManager.sessions m).
End SessionInv.

Lemma new_sessions_wf : SessionInv.wf SessionManager.new.
Proof. apply map_Forall_empty. Qed.

Lemma wf_fresh m : SessionInv.wf m → SessionManager.sessions m !! SessionManager.next_id m = None.
Proof.
  intros Hwf. destruct (SessionManager.sessions m !! _) as [c|] eqn:Hc; [|done].
  apply Hwf in Hc as (_ & _ & _ & Hlt). lia.
Qed.

Lemma ctx_ok_edit f n id c : same_identity f → SessionInv.ctx_ok n id c → SessionInv.ctx_ok n id (f c).
Proof. intros Hf. destruct (Hf c) as [Hs Hu]. unfold SessionInv.ctx_ok, SessionContext.id. by rewrite Hs, Hu. Qed.

Lemma ctx_ok_mono n n' id c : (n ≤ n')%N → SessionInv.ctx_ok n id c → SessionInv.ctx_ok n' id c.
Proof. unfold SessionInv.ctx_ok. intros. destruct_and!. split_and!; try done. lia. Qed.

Lemma update_wf id f m : same_identity f → SessionInv.wf m → SessionInv.wf (SessionManager.update id f m).
Proof.
  intros Hf Hwf i c. simpl. rewrite lookup_alter. case_decide as Hi; [|apply Hwf].
  intros (c0 & Hc0 & ->)%fmap_Some. subst. by apply ctx_ok_edit, Hwf.
Qed.

Lemma update_all_wf f m : same_identity f → SessionInv.wf m → SessionInv.wf (SessionManager.update_all f m).
Proof.
  intros Hf Hwf i c. simpl. rewrite lookup_fmap. intros (c0 & Hc0 & ->)%fmap_Some.
  by apply ctx_ok_edit, Hwf.
Qed.

Lemma terminate_wf id m : SessionInv.wf m → SessionInv.wf (SessionManager.terminate_session id m).2.
Proof.
  unfold SessionManager.terminate_session. intros Hwf. case_match; [|done].
  by apply map_Forall_delete.
Qed.

Section session_registry.
Context `{HashOrder}.
Implicit Types (m : SessionManager.t).

(** What [create_session] does on each of its three outcomes. *)
Lemma create_session_cases user seat ty settings w m calls r m' :
  SessionManager.create_session user seat ty settings w m = (calls, r, m') →
  (∃ msg, r = Err (SessionError.PermissionDenied msg) ∧ calls = [] ∧ m' = m ∧
     (SessionSettings.max_sessions_per_user settings ≤
      wrap32 (N.of_nat (SessionManager.sessions_of (User.uid user) m)))%N) ∨
  ((wrap32 (N.of_nat (SessionManager.sessions_of (User.uid user) m)) <
    SessionSettings.max_sessions_per_user settings)%N ∧
   SessionManager.next_id m' = u32_add (SessionManager.next_id m) 1 ∧
   ((∃ e, r = Err e ∧ SessionManager.sessions m' = SessionManager.sessions m) ∨
    (r = Ok (SessionManager.next_id m) ∧
     SessionManager.sessions m' =
       <[SessionManager.next_id m :=
           fresh_context (SessionManager.next_id m) user seat ty settings (w_system_time w)]>
         (SessionManager.sessions m)))).
Proof.
  unfold SessionManager.create_session.
  destruct (N.leb_spec (SessionSettings.max_sessions_per_user settings)
    (wrap32 (N.of_nat (SessionManager.sessions_of (User.uid user) m)))) as [Hle|Hlt].
  { intros; simplify_eq. left. eauto 10. }
  right. split; [done|]. destruct (Lifecycle.begin _ _ _ _ _ _) as [c [ctx|e]] eqn:Hb; simplify_eq/=.
  - apply begin_Ok in Hb as ->. auto.
  - eauto 10.
Qed.

Lemma create_session_wf user seat ty settings w m calls r m' :
  SessionInv.wf m → is_u32 (SessionManager.next_id m + 1) →
  SessionManager.create_session user seat ty settings w m = (calls, r, m') → SessionInv.wf m'.
Proof.
  intros Hwf Hnw [(msg & _ & _ & -> & _)|(_ & Hn & Hr)]%create_session_cases; [done|].
  rewrite u32_add_small in Hn by done. unfold SessionInv.wf.
  assert (map_Forall (SessionInv.ctx_ok (SessionManager.next_id m')) (SessionManager.sessions m)) as Hold.
  { eapply map_Forall_impl; [apply Hwf|]. intros i c. apply ctx_ok_mono. lia. }
  destruct Hr as [(e & _ & ->)|(_ & ->)]; [done|].
  apply map_Forall_insert_2; [|done]. unfold SessionInv.ctx_ok. simpl. split_and!; try done. lia.
Qed.

(** Nobody holds more sessions than the configured limit. *)
Definition within_limit (max : N) m : Prop :=
  ∀ uid, (N.of_nat (SessionManager.sessions_of uid m) ≤ max)%N.

Lemma create_session_within_limit user seat ty settings w m calls r m' :
  SessionInv.wf m → is_u32 (SessionSettings.max_sessions_per_user settings) →
  within_limit (SessionSettings.max_sessions_per_user settings) m →
  SessionManager.create_session user seat ty settings w m = (calls, r, m') →
  within_limit (SessionSettings.max_sessions_per_user settings) m'.
Proof.
  intros Hwf Hmax Hlim Hc uid. pose proof (Hlim uid) as Huid.
  apply create_session_cases in Hc as [(msg & _ & _ & -> & _)|(Hlt & _ & Hr)]; [done|].
  unfold SessionManager.sessions_of in *. destruct Hr as [(e & _ & ->)|(_ & ->)]; [done|].
  rewrite count_values_insert_new by by apply wf_fresh. case_decide as Hu; simpl in Hu; [|lia].
  subst uid. rewrite wrap32_small in Hlt by (unfold is_u32 in *; lia). lia.
Qed.

Lemma terminate_within_limit max id m :
  within_limit max m → within_limit max (SessionManager.terminate_session id m).2.
Proof.
  intros Hlim uid. pose proof (Hlim uid). unfold SessionManager.terminate_session. case_match; [|done].
  simpl. unfold SessionManager.sessions_of in *. simpl.
  pose proof (count_values_delete_le (λ c, User.uid (SessionContext.user c) = uid)
    (SessionManager.sessions m) id). lia.
Qed.

(** Ending a session removes it and nothing else, and kills and reaps its
    compositor. *)
Lemma terminate_session_spec id m :
  match SessionManager.sessions m !! id with
  | Some c =>
      SessionManager.terminate_session id m =
        (match SessionContext.compositor_process c with
         | Some pid => [SysCall.KillChild pid; SysCall.WaitChild pid] | None => [] end,
         Ok (), SessionManager.mk (delete id (SessionManager.sessions m)) (SessionManager.next_id m))
  | None => SessionManager.terminate_session id m = ([], Err (SessionError.UnknownSession id), m)
  end.
Proof. unfold SessionManager.terminate_session. by case_match. Qed.

End session_registry.
