(* ===== verification/Seat.v ===== *)
(** * Seat: seats, the session queue of each, and device classification
    (src/src/seat/) *)

From stdpp Require Import base gmap strings numbers list.
From S2P Require Import Prelude Errors System Session.

(** ** Devices *)

Module DeviceKind.
Inductive t : Type := Keyboard | Pointer | Touch | Drm | Other.
#[global] Instance eq_dec : EqDecision t.
Proof. solve_decision. Defined.
End DeviceKind.

Module Device.
Record t := mk {
  syspath : string;
  kind : DeviceKind.t
}.

(** A device as the [udev] crate shows it. *)
Record udev_device := {
  udev_syspath : string;
  udev_property : string → option string
}.

(** The [udev] crate's enumerator: each of its calls may fail. *)
Record udev_enumerator := {
  enum_new : result IoError ();
  enum_match_subsystem : string → result IoError ();
  enum_scan_devices : string → result IoError (list udev_device)
}.

Definition has_property (name : string) (d : udev_device) : bool :=
  bool_decide (is_Some (udev_property d name)).

Definition classify (subsystem : string) (device : udev_device) : DeviceKind.t :=
  if String.eqb subsystem "drm" then DeviceKind.Drm
  else if has_property "ID_INPUT_KEYBOARD" device then DeviceKind.Keyboard
  else if has_property "ID_INPUT_TOUCHSCREEN" device then DeviceKind.Touch
  else if has_property "ID_INPUT_MOUSE" device || has_property "ID_INPUT_TOUCHPAD" device
  then DeviceKind.Pointer
  else DeviceKind.Other.

Definition enumerate_subsystem (u : udev_enumerator) (subsystem : string) : Result (list t) :=
  _ ← map_err SessionError.from_io (enum_new u);
  _ ← map_err SessionError.from_io (enum_match_subsystem u subsystem);
  ds ← map_err SessionError.from_io (enum_scan_devices u subsystem);
  Ok (map (λ d, mk (udev_syspath d) (classify subsystem d)) ds).

Definition enumerate (u : udev_enumerator) : Result (list t) :=
  inputs ← enumerate_subsystem u "input";
  drms ← enumerate_subsystem u "drm";
  Ok (inputs ++ drms).
End Device.

(** [seat::input::InputDevice]. *)
Module InputDevice.
Record t := mk {
  device : Device.t;
  name : string
}.
Definition is_pointer_or_keyboard (d : t) : bool :=
  match Device.kind (device d) with
  | DeviceKind.Keyboard | DeviceKind.Pointer | DeviceKind.Touch => true
  | _ => false
  end.
End InputDevice.

(** ** Hotplug events (src/src/seat/monitor.rs) *)

Module Monitor.
Inductive EventType : Type := Add | Remove | Change | Unhandled.
Inductive DeviceEvent : Type :=
| Added (d : Device.t)
| Removed (d : Device.t)
| Changed (d : Device.t).
Record HotplugEvent := mk {
  seat : string;
  event : DeviceEvent
}.

(** A [udev::Event]: a device with its subsystem, if any, and what happened. *)
Record udev_event := {
  ev_device : Device.udev_device;
  ev_subsystem : option string;
  ev_type : EventType
}.

Definition classify_input (event : udev_event) : DeviceKind.t :=
  let d := ev_device event in
  if Device.has_property "ID_INPUT_KEYBOARD" d then DeviceKind.Keyboard
  else if Device.has_property "ID_INPUT_TOUCHSCREEN" d then DeviceKind.Touch
  else if Device.has_property "ID_INPUT_MOUSE" d || Device.has_property "ID_INPUT_TOUCHPAD" d
  then DeviceKind.Pointer
  else DeviceKind.Other.

Definition classify_event (event : udev_event) (fallback_seat : string) : option HotplugEvent :=
  subsystem ← ev_subsystem event;
  if negb (String.eqb subsystem "input") && negb (String.eqb subsystem "drm") then None
  else
    let syspath := Device.udev_syspath (ev_device event) in
    kind ← (if String.eqb subsystem "drm" then Some DeviceKind.Drm
            else if String.eqb subsystem "input" then Some (classify_input event) else None);
    let device := Device.mk syspath kind in
    let seat := match Device.udev_property (ev_device event) "ID_SEAT" with
                | Some s => if String.eqb s "" then fallback_seat else s
                | None => fallback_seat
                end in
    ev ← match ev_type event with
         | Add => Some (Added device)
         | Remove => Some (Removed device)
         | Change => Some (Changed device)
         | Unhandled => None
         end;
    Some (mk seat ev).

(** What setting the monitor up asks of udev, of [fcntl] and of the event loop. *)
Record udev_monitor := {
  mon_new : result IoError ();
  mon_match_subsystem : string → result IoError ();
  mon_listen : result IoError ();
  mon_get_flags : result IoError N;
  mon_set_flags : N → result IoError ();
  mon_insert_source : result string ()
}.

Definition O_NONBLOCK : N := 2048.
Definition set_nonblocking (m : udev_monitor) : result IoError () :=
  flags ← mon_get_flags m;
  mon_set_flags m (N.lor flags O_NONBLOCK).

Definition register (m : udev_monitor) : Result () :=
  _ ← map_err SessionError.from_io (mon_new m);
  _ ← map_err SessionError.from_io (mon_match_subsystem m "input");
  _ ← map_err SessionError.from_io (mon_match_subsystem m "drm");
  _ ← map_err SessionError.from_io (mon_listen m);
  _ ← map_err SessionError.from_io (set_nonblocking m);
  map_err (λ e, SessionError.Protocol ("failed to register udev monitor: " +:+ e)) (mon_insert_source m).
End Monitor.

(** [trait HotplugSink]: whatever state takes the events. *)
Class HotplugSink (State : Type) := {
  handle_hotplug : Monitor.HotplugEvent → State → State
}.

(** The callback [register] installs: the events waiting on the socket, one after
    the other. *)
Definition on_readable {State} `{HotplugSink State} (events : list Monitor.udev_event) (fallback_seat : string)
    (state : State) : State :=
  foldl (λ state event,
    match Monitor.classify_event event fallback_seat with
    | Some hotplug => handle_hotplug hotplug state
    | None => state
    end) state events.

(** The sink sees exactly the events that classify, in order. *)
Lemma on_readable_classified {State} `{HotplugSink State} events fallback state :
  on_readable events fallback state
  = foldl (λ state h, handle_hotplug h state) state (omap (λ e, Monitor.classify_event e fallback) events).
Proof.
  unfold on_readable. revert state. induction events as [|e events IH]; intros state; [done|]. simpl.
  rewrite IH. by destruct (Monitor.classify_event e fallback).
Qed.

(** ** Displays (src/src/seat/display.rs) *)

Module Display.
Inductive DisplayBackend : Type := Drm | Nested.
Record t := mk {
  backend : DisplayBackend;
  wayland_socket : option string
}.
Definition new (backend : DisplayBackend) : t := mk backend None.
End Display.

(** ** Seats *)

Module Seat.
Record t := mk {
  id : string;
  active_session : option SessionId;
  queued_sessions : list SessionId;
  devices : list Device.t
}.

Definition new (id : string) : t := mk id None [] [].

(** All sessions of the seat, the active one first. *)
Definition sessions (s : t) : list SessionId := option_list (active_session s) ++ queued_sessions s.

Definition has_session (id : SessionId) (s : t) : bool :=
  bool_decide (active_session s = Some id) || bool_decide (id ∈ queued_sessions s).

Definition with_sessions (active : option SessionId) (queued : list SessionId) (s : t) : t :=
  mk (id s) active queued (devices s).
End Seat.

Module SeatManager.
Record t := mk { seats : gmap string Seat.t }.

Definition new : t := mk ∅.

(** [ensure_seat], and the write through the reference it returns. *)
Definition with_seat (id : string) (f : Seat.t → Seat.t) (m : t) : t :=
  mk (<[id := f (default (Seat.new id) (seats m !! id))]> (seats m)).
Definition ensure_seat (id : string) (m : t) : t := with_seat id (λ s, s) m.

Definition seat (id : string) (m : t) : Result Seat.t :=
  ok_or (SessionError.UnknownSeat id) (seats m !! id).

Definition set_devices (seat_id : string) (devices : list Device.t) (m : t) : t :=
  with_seat seat_id (λ s,
    Seat.mk (Seat.id s) (Seat.active_session s) (Seat.queued_sessions s) devices) m.

Definition attach_session (seat_id : string) (session : SessionId) (m : t) : t :=
  with_seat seat_id (λ s,
    match Seat.active_session s with
    | None => Seat.with_sessions (Some session) (Seat.queued_sessions s) s
    | Some a => Seat.with_sessions (Some a) (Seat.queued_sessions s ++ [session]) s
    end) m.

Definition detach_from (session : SessionId) (s : Seat.t) : Seat.t :=
  if bool_decide (Seat.active_session s = Some session) then
    Seat.with_sessions (head (Seat.queued_sessions s)) (tail (Seat.queued_sessions s)) s
  else
    Seat.with_sessions (Seat.active_session s)
      (filter (λ x, x ≠ session) (Seat.queued_sessions s)) s.

Definition detach_session (session : SessionId) (m : t) : t :=
  mk (detach_from session <$> seats m).

(** The switch itself, on a seat that has the session. *)
Definition switch_on (session : SessionId) (s : Seat.t) : Seat.t :=
  let previous := Seat.active_session s in
  if bool_decide (previous = Some session) then s
  else
    Seat.with_sessions (Some session)
      (filter (λ x, x ≠ session)
        (match previous with
         | Some prev => Seat.queued_sessions s ++ [prev]
         | None => Seat.queued_sessions s
         end)) s.

Definition switch_active (seat_id : string) (session : SessionId) (m : t)
    : Result (option SessionId) * t :=
  match seat seat_id m with
  | Err e => (Err e, m)
  | Ok s =>
      if negb (Seat.has_session session s) then (Err (SessionError.UnknownSession session), m)
      else
        let previous := Seat.active_session s in
        (Ok (match previous with
             | Some p => if bool_decide (p = session) then None else Some p
             | None => None
             end),
         mk (<[seat_id := switch_on session s]> (seats m)))
  end.

Definition active_session (seat_id : string) (m : t) : Result (option SessionId) :=
  s ← seat seat_id m; Ok (Seat.active_session s).
End SeatManager.

(** ** The abstract queue of a seat

    A seat promises a list of distinct sessions whose head is the active one:
    logging in appends, logging out removes, and switching brings a session to
    the front and sends the one it displaces to the back. *)

Module SeatSpec.
Definition attach (x : SessionId) (l : list SessionId) : list SessionId := l ++ [x].
Definition detach (x : SessionId) (l : list SessionId) : list SessionId := filter (λ y, y ≠ x) l.
Definition switch (x : SessionId) (l : list SessionId) : list SessionId :=
  match l with
  | [] => []
  | p :: q => if decide (p = x) then l else x :: filter (λ y, y ≠ x) q ++ [p]
  end.
(** Whom switching to [x] displaces. *)
Definition displaced (x : SessionId) (l : list SessionId) : option SessionId :=
  match l with
  | [] => None
  | p :: _ => if decide (p = x) then None else Some p
  end.

(** The abstraction: the queue of each seat, empty for a seat never heard of. *)
Definition queue (m : SeatManager.t) (seat : string) : list SessionId :=
  from_option Seat.sessions [] (SeatManager.seats m !! seat).
End SeatSpec.

(** The representation invariant: no session twice, and nobody waits for a free
    seat. *)
Module SeatInv.
Definition wf (s : Seat.t) : Prop :=
  NoDup (Seat.sessions s) ∧ (Seat.active_session s = None → Seat.queued_sessions s = []).

(** The seats of a manager: each filed under its own id, each well-formed, and
    no session on two seats. *)
Definition mgr_wf (m : SeatManager.t) : Prop :=
  map_Forall (λ id s, Seat.id s = id ∧ wf s) (SeatManager.seats m) ∧
  ∀ i j s s' x, SeatManager.seats m !! i = Some s → SeatManager.seats m !! j = Some s' →
    x ∈ Seat.sessions s → x ∈ Seat.sessions s' → i = j.

(** The session [x] is on no seat of [m]. *)
Definition absent (x : SessionId) (m : SeatManager.t) : Prop :=
  map_Forall (λ _ s, x ∉ Seat.sessions s) (SeatManager.seats m).
End SeatInv.

(** ** Device lemmas *)

(** The hotplug monitor and the startup enumeration agree on what an input
    device is. *)
Lemma classify_input_agrees event :
  Monitor.classify_input event = Device.classify "input" (Monitor.ev_device event).
Proof. reflexivity. Qed.

(** What the monitor reports: an event it forwards comes from the [input] or
    the [drm] subsystem, carries the kind the startup enumeration would have
    given the device, and goes to a seat that is not the empty name unless the
    fallback is. *)
Lemma classify_event_spec event fallback h :
  Monitor.classify_event event fallback = Some h →
  ∃ sub kind, Monitor.ev_subsystem event = Some sub ∧ (sub = "input" ∨ sub = "drm") ∧
    kind = Device.classify sub (Monitor.ev_device event) ∧
    Monitor.event h ∈ (λ c, c (Device.mk (Device.udev_syspath (Monitor.ev_device event)) kind)) <$>
      [Monitor.Added; Monitor.Removed; Monitor.Changed] ∧
    (Monitor.seat h = "" → fallback = "").
Proof.
  unfold Monitor.classify_event. destruct (Monitor.ev_subsystem event) as [sub|]; [|done]. simpl.
  destruct (String.eqb_spec sub "input") as [->|Hi]; simpl.
  - intros (ev & Hev & Hh)%bind_Some. simplify_eq/=. eexists _, _. split_and!; eauto.
    + destruct (Monitor.ev_type event); simplify_eq/=; set_solver.
    + repeat case_match; rewrite ?String.eqb_neq in *; naive_solver.
  - destruct (String.eqb_spec sub "drm") as [->|Hd]; simpl; [|done].
    intros (ev & Hev & Hh)%bind_Some. simplify_eq/=. eexists _, _. split_and!; eauto.
    + destruct (Monitor.ev_type event); simplify_eq/=; set_solver.
    + repeat case_match; rewrite ?String.eqb_neq in *; naive_solver.
Qed.

(** ** One seat refines the abstract queue *)

Lemma has_session_spec x s : Seat.has_session x s = true ↔ x ∈ Seat.sessions s.
Proof.
  unfold Seat.has_session, Seat.sessions. rewrite orb_true_iff, !bool_decide_eq_true, elem_of_app.
  destruct (Seat.active_session s); simpl; set_solver.
Qed.

Lemma filter_ne_id (x : N) (l : list N) : x ∉ l → filter (λ y, y ≠ x) l = l.
Proof.
  induction l as [|y l IH]; [done|]. intros [Hne Hx]%not_elem_of_cons.
  rewrite filter_cons_True by done. by rewrite IH.
Qed.

Lemma attach_on_abs s x :
  SeatInv.wf s →
  Seat.sessions (match Seat.active_session s with
    | None => Seat.with_sessions (Some x) (Seat.queued_sessions s) s
    | Some a => Seat.with_sessions (Some a) (Seat.queued_sessions s ++ [x]) s
    end) = SeatSpec.attach x (Seat.sessions s).
Proof.
  intros [_ Hq]. unfold Seat.sessions, SeatSpec.attach. destruct (Seat.active_session s); simpl; [done|].
  by rewrite Hq.
Qed.

Lemma detach_from_abs s x :
  SeatInv.wf s → Seat.sessions (SeatManager.detach_from x s) = SeatSpec.detach x (Seat.sessions s).
Proof.
  intros [Hnd Hq]. unfold SeatManager.detach_from, SeatSpec.detach, Seat.sessions in *.
  destruct (Seat.active_session s) as [a|]; simpl in *; last by rewrite Hq.
  apply NoDup_cons in Hnd as [Ha Hnd]. case_bool_decide as Hx; simplify_eq.
  - rewrite filter_cons_False by naive_solver. rewrite filter_ne_id by done.
    by destruct (Seat.queued_sessions s).
  - by rewrite filter_cons_True by naive_solver.
Qed.

Lemma switch_on_abs s x :
  SeatInv.wf s → x ∈ Seat.sessions s →
  Seat.sessions (SeatManager.switch_on x s) = SeatSpec.switch x (Seat.sessions s).
Proof.
  intros [Hnd Hq] Hin. unfold SeatManager.switch_on, SeatSpec.switch.
  unfold Seat.sessions in *. destruct (Seat.active_session s) as [a|] eqn:Ha; simpl in *.
  - case_bool_decide as Hx; simplify_eq.
    + rewrite decide_True by done. by rewrite Ha.
    + rewrite decide_False by naive_solver. simpl. f_equal.
      rewrite filter_app, filter_cons_True by naive_solver. done.
  - rewrite Hq in Hin by done. by apply not_elem_of_nil in Hin.
Qed.

(** The manager's operations are the abstract ones on the queue of the seat they
    name, and leave the other seats alone. *)

Lemma queue_wf m seat s :
  SeatInv.mgr_wf m → SeatManager.seats m !! seat = Some s → SeatInv.wf s.
Proof. intros [Hm _] Hs. apply (Hm _ _ Hs). Qed.

Lemma queue_NoDup m seat : SeatInv.mgr_wf m → NoDup (SeatSpec.queue m seat).
Proof.
  intros Hm. unfold SeatSpec.queue. destruct (SeatManager.seats m !! seat) as [s|] eqn:Hs; [|apply NoDup_nil_2].
  apply (queue_wf _ _ _ Hm Hs).
Qed.

Lemma queue_insert m seat s i :
  SeatSpec.queue (SeatManager.mk (<[seat := s]> (SeatManager.seats m))) i =
    if decide (i = seat) then Seat.sessions s else SeatSpec.queue m i.
Proof.
  unfold SeatSpec.queue. simpl. case_decide as Hi; [subst; by rewrite lookup_insert_eq|].
  by rewrite lookup_insert_ne.
Qed.

Lemma queue_attach m seat x i :
  SeatInv.mgr_wf m →
  SeatSpec.queue (SeatManager.attach_session seat x m) i =
    if decide (i = seat) then SeatSpec.attach x (SeatSpec.queue m i) else SeatSpec.queue m i.
Proof.
  intros Hm. unfold SeatManager.attach_session, SeatManager.with_seat. rewrite queue_insert.
  case_decide; [subst|done]. rewrite attach_on_abs.
  - unfold SeatSpec.queue. by destruct (SeatManager.seats m !! seat).
  - destruct (SeatManager.seats m !! seat) eqn:Hs; simpl; [by eapply queue_wf|].
    split; [apply NoDup_nil_2|done].
Qed.

Lemma queue_detach m x i :
  SeatInv.mgr_wf m →
  SeatSpec.queue (SeatManager.detach_session x m) i = SeatSpec.detach x (SeatSpec.queue m i).
Proof.
  intros Hm. unfold SeatSpec.queue. simpl. rewrite lookup_fmap.
  destruct (SeatManager.seats m !! i) eqn:Hs; simpl; [|done]. apply detach_from_abs. by eapply queue_wf.
Qed.

Lemma queue_switch m seat x :
  SeatInv.mgr_wf m → x ∈ SeatSpec.queue m seat →
  (SeatManager.switch_active seat x m).1 = Ok (SeatSpec.displaced x (SeatSpec.queue m seat)) ∧
  ∀ i, SeatSpec.queue (SeatManager.switch_active seat x m).2 i =
    if decide (i = seat) then SeatSpec.switch x (SeatSpec.queue m i) else SeatSpec.queue m i.
Proof.
  intros Hm Hx. unfold SeatManager.switch_active, SeatManager.seat.
  destruct (SeatManager.seats m !! seat) as [s|] eqn:Hs;
    [|unfold SeatSpec.queue in Hx; rewrite Hs in Hx; by apply not_elem_of_nil in Hx].
  assert (SeatSpec.queue m seat = Seat.sessions s) as Hq by (unfold SeatSpec.queue; by rewrite Hs).
  pose proof (queue_wf _ _ _ Hm Hs) as Hwf. rewrite Hq in *. simpl.
  rewrite (proj2 (has_session_spec x s)) by done. simpl. split.
  - f_equal. unfold Seat.sessions in *. destruct (Seat.active_session s) as [p|] eqn:Ha; simpl.
    + by case_bool_decide; case_decide.
    + rewrite (proj2 Hwf) in Hx by done. by apply not_elem_of_nil in Hx.
  - intros i. rewrite queue_insert. case_decide; [subst|done]. rewrite Hq. by apply switch_on_abs.
Qed.

Lemma switch_refused m seat x :
  x ∉ SeatSpec.queue m seat →
  is_ok (SeatManager.switch_active seat x m).1 = false ∧ (SeatManager.switch_active seat x m).2 = m.
Proof.
  unfold SeatSpec.queue, SeatManager.switch_active, SeatManager.seat. intros Hx.
  destruct (SeatManager.seats m !! seat) as [s|]; simpl in *; [|done].
  rewrite <- has_session_spec in Hx. by destruct (Seat.has_session x s).
Qed.

(** ** The abstract operations on distinct lists *)

Lemma spec_detach_NoDup x l : NoDup l → NoDup (SeatSpec.detach x l).
Proof. apply NoDup_filter. Qed.

Lemma elem_of_spec_detach x y l : y ∈ SeatSpec.detach x l ↔ y ∈ l ∧ y ≠ x.
Proof. unfold SeatSpec.detach. rewrite list_elem_of_filter. naive_solver. Qed.

Lemma filter_ne_perm (x : N) (l : list N) : NoDup l → x ∈ l → x :: filter (λ y, y ≠ x) l ≡ₚ l.
Proof.
  intros Hnd Hx. apply NoDup_Permutation; [|done|].
  - constructor; [|by apply NoDup_filter]. rewrite list_elem_of_filter. naive_solver.
  - intros y. rewrite elem_of_cons, list_elem_of_filter.
    destruct (decide (y = x)) as [->|]; naive_solver.
Qed.

(** Switching loses nobody and duplicates nobody. *)
Lemma spec_switch_perm x l : NoDup l → x ∈ l → SeatSpec.switch x l ≡ₚ l.
Proof.
  destruct l as [|p q]; [done|]. intros [Hp Hnd]%NoDup_cons Hx. simpl. case_decide as Hpx; [done|].
  apply elem_of_cons in Hx as [->|Hx]; [done|].
  rewrite <- (filter_ne_perm x q) at 2 by done. rewrite Permutation_app_comm. simpl.
  apply perm_swap.
Qed.

Lemma spec_switch_head x l : x ∈ l → head (SeatSpec.switch x l) = Some x.
Proof. destruct l as [|p q]; [by intros ?%not_elem_of_nil|]. simpl. case_decide; naive_solver. Qed.

(** ** Well-formedness is preserved *)

Lemma wf_of_sessions s s' :
  Seat.sessions s' = s → NoDup s → (Seat.active_session s' = None → Seat.queued_sessions s' = []) →
  SeatInv.wf s'.
Proof. by intros <- ? ?. Qed.

Lemma new_seat_wf id : SeatInv.wf (Seat.new id).
Proof. split; [apply NoDup_nil_2|done]. Qed.

Lemma detach_from_wf x s : SeatInv.wf s → SeatInv.wf (SeatManager.detach_from x s).
Proof.
  intros Hwf. eapply wf_of_sessions; [by apply detach_from_abs|apply spec_detach_NoDup, Hwf|].
  destruct Hwf as [_ Hq]. unfold SeatManager.detach_from. case_bool_decide; simpl.
  - by destruct (Seat.queued_sessions s).
  - intros Hn. by rewrite (Hq Hn).
Qed.

Lemma switch_on_wf x s : SeatInv.wf s → x ∈ Seat.sessions s → SeatInv.wf (SeatManager.switch_on x s).
Proof.
  intros Hwf Hin. eapply wf_of_sessions; [by apply switch_on_abs| |].
  - rewrite spec_switch_perm by (apply Hwf || done). apply Hwf.
  - unfold SeatManager.switch_on. case_bool_decide; [apply Hwf|done].
Qed.

Lemma new_seats_wf : SeatInv.mgr_wf SeatManager.new.
Proof. split; [apply map_Forall_empty|]. intros i j s s' x Hi. by simplify_map_eq. Qed.

(** Replace one seat by another: the manager stays well-formed if the new seat
    is, and shares no session with the seats that stay. *)
Lemma mgr_wf_insert i s m :
  SeatInv.mgr_wf m → Seat.id s = i → SeatInv.wf s →
  (∀ j s' x, j ≠ i → SeatManager.seats m !! j = Some s' → x ∈ Seat.sessions s → x ∉ Seat.sessions s') →
  SeatInv.mgr_wf (SeatManager.mk (<[i:=s]> (SeatManager.seats m))).
Proof.
  intros [Hf Hd] Hid Hwf Hsep. split; [by apply map_Forall_insert_2|]. simpl.
  intros j k t t' x. rewrite !lookup_insert. repeat case_decide; simplify_eq; naive_solver.
Qed.

Lemma seat_or_new_wf i m :
  SeatInv.mgr_wf m →
  let s := default (Seat.new i) (SeatManager.seats m !! i) in Seat.id s = i ∧ SeatInv.wf s.
Proof.
  intros [Hf _]. destruct (SeatManager.seats m !! i) eqn:Hi; simpl; [by apply Hf|].
  split; [done|]. apply new_seat_wf.
Qed.

Lemma seat_or_new_disjoint i j m s' x :
  SeatInv.mgr_wf m → j ≠ i → SeatManager.seats m !! j = Some s' →
  x ∈ Seat.sessions (default (Seat.new i) (SeatManager.seats m !! i)) → x ∉ Seat.sessions s'.
Proof.
  intros [_ Hd] Hne Hj. destruct (SeatManager.seats m !! i) eqn:Hi; simpl; [|set_solver]. naive_solver.
Qed.

Lemma attach_session_wf seat x m :
  SeatInv.mgr_wf m → SeatInv.absent x m → SeatInv.mgr_wf (SeatManager.attach_session seat x m).
Proof.
  intros Hm Habs. unfold SeatManager.attach_session, SeatManager.with_seat.
  destruct (seat_or_new_wf seat m Hm) as [Hid Hwf].
  assert (x ∉ Seat.sessions (default (Seat.new seat) (SeatManager.seats m !! seat))) as Hx.
  { destruct (SeatManager.seats m !! seat) eqn:Hs; simpl; [by eapply Habs|set_solver]. }
  apply mgr_wf_insert; [done|by case_match| |].
  - eapply wf_of_sessions; [by apply attach_on_abs| |by case_match].
    unfold SeatSpec.attach. apply list.NoDup_app. split; [apply Hwf|]. split; [set_solver|apply NoDup_singleton].
  - intros j s' y Hne Hj. rewrite attach_on_abs by done. unfold SeatSpec.attach. rewrite elem_of_app.
    intros [Hy| ->%list_elem_of_singleton]; [by eapply seat_or_new_disjoint|by eapply Habs].
Qed.

Lemma detach_session_wf x m : SeatInv.mgr_wf m → SeatInv.mgr_wf (SeatManager.detach_session x m).
Proof.
  intros [Hf Hd]. split; simpl.
  - apply map_Forall_fmap. eapply map_Forall_impl; [done|]. intros i s [Hid Hwf]. simpl. split.
    + rewrite <- Hid. unfold SeatManager.detach_from. by case_bool_decide.
    + by apply detach_from_wf.
  - intros i j s s' y. rewrite !lookup_fmap.
    intros (t & Hi & ->)%fmap_Some (t' & Hj & ->)%fmap_Some.
    rewrite !detach_from_abs by by eapply Hf. rewrite !elem_of_spec_detach. naive_solver.
Qed.

Lemma detach_session_absent x m : SeatInv.mgr_wf m → SeatInv.absent x (SeatManager.detach_session x m).
Proof.
  intros [Hf _] i s. simpl. rewrite lookup_fmap. intros (t & Hi & ->)%fmap_Some.
  rewrite detach_from_abs by by eapply Hf. rewrite elem_of_spec_detach. naive_solver.
Qed.

Lemma switch_active_wf seat x m r m' :
  SeatInv.mgr_wf m → SeatManager.switch_active seat x m = (r, m') → SeatInv.mgr_wf m'.
Proof.
  unfold SeatManager.switch_active, SeatManager.seat. intros Hm.
  destruct (SeatManager.seats m !! seat) as [s|] eqn:Hs; simpl; [|naive_solver].
  case_match eqn:Hh; [naive_solver|]. intros; simplify_eq. apply negb_false_iff, has_session_spec in Hh.
  destruct (proj1 Hm _ _ Hs) as [Hid Hwf]. apply mgr_wf_insert; [done| |by apply switch_on_wf|].
  - rewrite <- Hid. unfold SeatManager.switch_on. by case_bool_decide.
  - intros j s' y Hne Hj. rewrite switch_on_abs, spec_switch_perm by (done || apply Hwf).
    intros Hy Hy'. by apply Hne, (proj2 Hm j seat s' s y).
Qed.

(** ** Which sessions are on a seat *)

Definition seated (x : SessionId) (m : SeatManager.t) : Prop :=
  ∃ i s, SeatManager.seats m !! i = Some s ∧ x ∈ Seat.sessions s.

Lemma not_seated_absent x m : ¬ seated x m → SeatInv.absent x m.
Proof. intros Hx i s Hs Hin. apply Hx. by exists i, s. Qed.

Lemma seated_attach seat x y m :
  SeatInv.mgr_wf m → seated y (SeatManager.attach_session seat x m) → seated y m ∨ y = x.
Proof.
  intros Hm (i & s & Hi & Hy). simpl in Hi. apply lookup_insert_Some in Hi as [[<- <-]|[Hne Hi]].
  - rewrite attach_on_abs in Hy by by apply seat_or_new_wf. unfold SeatSpec.attach in Hy.
    apply elem_of_app in Hy as [Hy| ->%list_elem_of_singleton]; [|by right]. left.
    destruct (SeatManager.seats m !! seat) as [s|] eqn:Hs; simpl in Hy; [|set_solver]. by exists seat, s.
  - left. by exists i, s.
Qed.

Lemma seated_detach x y m :
  SeatInv.mgr_wf m → seated y (SeatManager.detach_session x m) → seated y m ∧ y ≠ x.
Proof.
  intros Hm (i & s & Hi & Hy). simpl in Hi. rewrite lookup_fmap in Hi.
  apply fmap_Some in Hi as (t & Hi & ->). rewrite detach_from_abs in Hy by by eapply Hm.
  apply elem_of_spec_detach in Hy as [Hy Hne]. split; [by exists i, t|done].
Qed.

(** Switching moves sessions within a seat; it neither adds nor loses one. *)
Lemma seated_switch seat x y m r m' :
  SeatInv.mgr_wf m → SeatManager.switch_active seat x m = (r, m') → seated y m' ↔ seated y m.
Proof.
  unfold SeatManager.switch_active, SeatManager.seat. intros Hm.
  destruct (SeatManager.seats m !! seat) as [s|] eqn:Hs; simpl; [|naive_solver].
  case_match eqn:Hh; [naive_solver|]. intros; simplify_eq. apply negb_false_iff, has_session_spec in Hh.
  destruct (proj1 Hm _ _ Hs) as [_ Hwf].
  assert (∀ z, z ∈ Seat.sessions (SeatManager.switch_on x s) ↔ z ∈ Seat.sessions s) as Hsw.
  { intros z. rewrite switch_on_abs, spec_switch_perm by (done || apply Hwf). done. }
  unfold seated. simpl. split.
  - intros (i & t & [[<- <-]|[Hne Hi]]%lookup_insert_Some & Hy); [|by exists i, t].
    exists seat, s. by rewrite Hsw in Hy.
  - intros (i & t & Hi & Hy). destruct (decide (seat = i)) as [<-|Hne].
    + simplify_eq. exists seat, (SeatManager.switch_on x s). by rewrite lookup_insert_eq, Hsw.
    + exists i, t. by rewrite lookup_insert_ne.
Qed.

(** The seat set up at startup, with or without devices, holds no session. *)
Lemma ensure_devices_wf seat :
  let empty m := SeatInv.mgr_wf m ∧ ∀ x, ¬ seated x m in
  let m := SeatManager.ensure_seat seat SeatManager.new in
  empty m ∧ ∀ ds, empty (SeatManager.set_devices seat ds m).
Proof.
  assert (∀ s, Seat.id s = seat → Seat.active_session s = None → Seat.queued_sessions s = [] →
    SeatInv.mgr_wf (SeatManager.mk {[seat := s]}) ∧ ∀ x, ¬ seated x (SeatManager.mk {[seat := s]})) as He.
  { intros s Hid Ha Hq. assert (Seat.sessions s = []) as Hs by (unfold Seat.sessions; by rewrite Ha, Hq).
    split; [split|].
    - simpl. apply map_Forall_singleton. split; [done|]. split; [rewrite Hs; constructor|done].
    - simpl. intros i j t t' x [<- <-]%lookup_singleton_Some [<- <-]%lookup_singleton_Some. done.
    - intros x (i & t & Hi & Hx). simpl in Hi. apply lookup_singleton_Some in Hi as [<- <-].
      rewrite Hs in Hx. by apply not_elem_of_nil in Hx. }
  simpl. split.
  - by apply (He (Seat.new seat)).
  - intros ds. unfold SeatManager.set_devices, SeatManager.ensure_seat, SeatManager.with_seat. simpl.
    rewrite lookup_insert_eq, insert_insert_eq. simpl. by apply (He (Seat.mk seat None [] ds)).
Qed.

(** ** The manager as a transition system *)

Inductive seat_step : SeatManager.t → SeatManager.t → Prop :=
| seat_step_ensure m seat : seat_step m (SeatManager.ensure_seat seat m)
| seat_step_devices m seat ds : seat_step m (SeatManager.set_devices seat ds m)
| seat_step_attach m seat x : ¬ seated x m → seat_step m (SeatManager.attach_session seat x m)
| seat_step_detach m x : seat_step m (SeatManager.detach_session x m)
| seat_step_switch m seat x r m' : SeatManager.switch_active seat x m = (r, m') → seat_step m m'.

(** An edit of a seat that leaves its sessions alone. *)
Lemma with_seat_same_wf seat f m :
  (∀ s, Seat.id (f s) = Seat.id s ∧ Seat.active_session (f s) = Seat.active_session s ∧
        Seat.queued_sessions (f s) = Seat.queued_sessions s) →
  SeatInv.mgr_wf m → SeatInv.mgr_wf (SeatManager.with_seat seat f m).
Proof.
  intros Hf Hm. unfold SeatManager.with_seat. set (s := default _ _).
  destruct (Hf s) as (Hid & Ha & Hq). destruct (seat_or_new_wf seat m Hm) as [Hsid Hs]. fold s in Hsid, Hs.
  assert (Seat.sessions (f s) = Seat.sessions s) as Hss by (unfold Seat.sessions; by rewrite Ha, Hq).
  apply mgr_wf_insert; [done|congruence| |].
  - unfold SeatInv.wf in *. by rewrite Hss, Ha, Hq.
  - intros j s' x Hne Hj. rewrite Hss. by apply (seat_or_new_disjoint seat j m).
Qed.

Lemma seat_step_wf m m' : seat_step m m' → SeatInv.mgr_wf m → SeatInv.mgr_wf m'.
Proof.
  destruct 1; intros Hm; eauto using detach_session_wf, switch_active_wf.
  - by apply with_seat_same_wf.
  - by apply with_seat_same_wf.
  - apply attach_session_wf; [done|]. by apply not_seated_absent.
Qed.
