(* ===== verification/Auth.v ===== *)
(** * Auth: credential checking and the attempt counter
    (src/src/authentication/) *)

From stdpp Require Import base gmap strings numbers list.
From S2P Require Import Prelude Errors System Config Text Session.

Module AuthOutcome.
Inductive t : Type :=
| Success
| Failure (attempts_remaining : N)
| LockedOut (retry_after_secs : N)
| Error (msg : string)
| Cancelled.
#[global] Instance eq_dec : EqDecision t.
Proof. solve_decision. Defined.

(** [{:?}]. *)
Definition debug (o : t) : string :=
  match o with
  | Success => "Success"
  | Failure n => "Failure { attempts_remaining: " +:+ pretty.pretty n +:+ " }"
  | LockedOut n => "LockedOut { retry_after_secs: " +:+ pretty.pretty n +:+ " }"
  | Error m => "Error(" +:+ debug_str m +:+ ")"
  | Cancelled => "Cancelled"
  end.
End AuthOutcome.

Module AuthRequest.
Record t := mk {
  session_id : SessionId;
  user_name : string;
  password : string
}.
End AuthRequest.

Module AuthPolicy.
Record t := mk {
  pam_service : string;
  allow_empty_password : bool;
  max_attempts : N;
  lockout : Duration
}.
Definition new (auth : AuthSettings.t) (lock : LockSettings.t) : t :=
  mk (AuthSettings.pam_service auth) (AuthSettings.allow_empty_password auth)
     (LockSettings.max_auth_attempts lock) (from_secs (LockSettings.lockout_secs lock)).
End AuthPolicy.

(** The trait [Authenticator]: anything that can check a credential. *)
Record Authenticator := {
  authenticate : AuthRequest.t → Result ()
}.

Module PamAuthenticator.
Record t := mk { service : string }.

Definition new (policy : AuthPolicy.t) : t := mk (AuthPolicy.pam_service policy).

Definition pam_authenticate (self : t) (pam : PamStack) (request : AuthRequest.t) : Result () :=
  if String.eqb (AuthRequest.password request) "" then Err (SessionError.AuthFailed "empty password")
  else
    let user := AuthRequest.user_name request in
    let password := AuthRequest.password request in
    _ ← map_err SessionError.Pam (pam_with_password pam (service self));
    _ ← map_err SessionError.AuthFailed (System.pam_authenticate pam (service self) user password);
    _ ← map_err SessionError.Pam (pam_open_session pam (service self) user password);
    Ok ().

(** The implementation of the trait for the PAM backend. *)
Definition authenticator (self : t) (pam : PamStack) : Authenticator :=
  {| authenticate := pam_authenticate self pam |}.
End PamAuthenticator.

Module Auth.
(** [check]: the outcome, and the caller's attempt counter after the call. *)
Definition check (authenticator : Authenticator) (request : AuthRequest.t) (policy : AuthPolicy.t)
    (attempts_so_far : N) : AuthOutcome.t * N :=
  match authenticate authenticator request with
  | Ok _ => (AuthOutcome.Success, 0%N)
  | Err _ =>
      let attempts_so_far := u32_add attempts_so_far 1 in
      if (AuthPolicy.max_attempts policy <=? attempts_so_far)%N then
        (AuthOutcome.LockedOut (as_secs (AuthPolicy.lockout policy)), attempts_so_far)
      else
        (AuthOutcome.Failure (u32_sub (AuthPolicy.max_attempts policy) attempts_so_far),
         attempts_so_far)
  end.
End Auth.

(** The daemon's record of who authenticated: [accepts a r] when the
    authenticator takes the credential. *)
Definition accepts (a : Authenticator) (r : AuthRequest.t) : bool := is_ok (authenticate a r).

Section check_lemmas.
Context (a : Authenticator) (r : AuthRequest.t) (p : AuthPolicy.t).

Lemma check_accepts n : accepts a r = true → Auth.check a r p n = (AuthOutcome.Success, 0%N).
Proof. unfold accepts, Auth.check. by destruct (authenticate a r). Qed.

(** A rejected credential: the counter goes up by one, and the outcome says
    how many attempts are left, or that there are none. *)
Lemma check_rejects n :
  accepts a r = false → is_u32 (AuthPolicy.max_attempts p) → is_u32 (n + 1) →
  Auth.check a r p n =
    (if decide (n + 1 < AuthPolicy.max_attempts p)%N
     then AuthOutcome.Failure (AuthPolicy.max_attempts p - (n + 1))
     else AuthOutcome.LockedOut (as_secs (AuthPolicy.lockout p)), (n + 1)%N).
Proof.
  unfold accepts, Auth.check. destruct (authenticate a r); [done|]. intros _ Hm Hn. simpl.
  rewrite u32_add_small by done.
  destruct (N.leb_spec (AuthPolicy.max_attempts p) (n + 1)).
  - by rewrite decide_False by lia.
  - rewrite decide_True by lia. rewrite u32_sub_guarded; [done..|lia].
Qed.

(** Only an accepted credential yields [Success]; [Error] and [Cancelled] are
    never produced. *)
Lemma check_outcome n :
  let o := (Auth.check a r p n).1 in
  (o = AuthOutcome.Success ↔ accepts a r = true) ∧
  o ≠ AuthOutcome.Cancelled ∧ ∀ m, o ≠ AuthOutcome.Error m.
Proof.
  unfold accepts, Auth.check. destruct (authenticate a r); simpl; [done|]. by case_match.
Qed.

(** The counter leaves the call reset, or one higher (wrapping at 32 bits). *)
Lemma check_counter n :
  (Auth.check a r p n).2 = if accepts a r then 0%N else u32_add n 1.
Proof. unfold accepts, Auth.check. destruct (authenticate a r); simpl; [done|]. by case_match. Qed.

End check_lemmas.

(** A run of attempts against one counter, oldest first. *)
Fixpoint check_run (a : Authenticator) (p : AuthPolicy.t) (n : N) (rs : list AuthRequest.t)
    : list AuthOutcome.t * N :=
  match rs with
  | [] => ([], n)
  | r :: rs' =>
      let '(o, n') := Auth.check a r p n in
      let '(os, n'') := check_run a p n' rs' in (o :: os, n'')
  end.

(** [k] wrong passwords in a row, from a counter at [n]: every outcome before
    the limit is a failure that counts down by one, and every outcome at or
    after it is a lockout. *)
Lemma check_run_rejected a p n rs :
  Forall (λ r, accepts a r = false) rs → is_u32 (AuthPolicy.max_attempts p) →
  is_u32 (n + N.of_nat (length rs)) →
  check_run a p n rs =
    ((λ i, let k := (n + N.of_nat i + 1)%N in
           if decide (k < AuthPolicy.max_attempts p)%N
           then AuthOutcome.Failure (AuthPolicy.max_attempts p - k)
           else AuthOutcome.LockedOut (as_secs (AuthPolicy.lockout p))) <$> seq 0 (length rs),
     (n + N.of_nat (length rs))%N).
Proof.
  intros Hrs Hm. revert n. induction Hrs as [|r rs Hr _ IH]; intros n Hn; simpl.
  { f_equal. lia. }
  unfold is_u32 in *. simpl in Hn. rewrite check_rejects by (done || unfold is_u32; lia).
  rewrite IH by lia. rewrite <- fmap_S_seq, <- list_fmap_compose. simpl. f_equal; [|lia].
  f_equal; [by replace (n + N.of_nat 0 + 1)%N with (n + 1)%N by lia|].
  apply list_fmap_ext. intros i x _. unfold compose.
  by replace (n + 1 + N.of_nat x + 1)%N with (n + N.of_nat (S x) + 1)%N by lia.
Qed.

(** ** PAM *)

(** The PAM backend accepts a credential exactly when the password is not empty
    and PAM accepts it under the backend's service in all three calls. *)
Lemma pam_accepts s pam r :
  accepts (PamAuthenticator.authenticator s pam) r = true ↔
  AuthRequest.password r ≠ "" ∧
  is_ok (pam_with_password pam (PamAuthenticator.service s)) = true ∧
  is_ok (pam_authenticate pam (PamAuthenticator.service s)
           (AuthRequest.user_name r) (AuthRequest.password r)) = true ∧
  is_ok (pam_open_session pam (PamAuthenticator.service s)
           (AuthRequest.user_name r) (AuthRequest.password r)) = true.
Proof.
  unfold accepts. simpl. unfold PamAuthenticator.pam_authenticate.
  destruct (String.eqb_spec (AuthRequest.password r) ""); simpl; [naive_solver|].
  destruct (pam_with_password _ _); simpl; [|naive_solver].
  destruct (pam_authenticate _ _ _ _); simpl; [|naive_solver].
  destruct (pam_open_session _ _ _ _); naive_solver.
Qed.
