(* ===== verification/Timers.v ===== *)
(** * Timers: the expiry sweep shared by the lock and elevation timers
    (src/src/lock/timeout.rs and src/src/elevation/timeout.rs) *)

From stdpp Require Import base gmap numbers list.
From S2P Require Import Prelude.

Module Timers.
Section drain.
Context `{HashOrder} {K : Type} `{Countable K}.

(** The keys whose instant has been reached, and the map without them. *)
Definition drain_expired (map : gmap K Instant) (now : Instant) : list K * gmap K Instant :=
  let expired := (filter (λ e, e.2 ≤ now)%N (hash_entries map)).*1 in
  (expired, delete_list expired map).
End drain.
End Timers.

Section drain_lemmas.
Context `{HashOrder} {K : Type} `{Countable K}.
Implicit Types (m : gmap K Instant).

Lemma elem_of_drain m now k :
  k ∈ (Timers.drain_expired m now).1 ↔ ∃ t, m !! k = Some t ∧ (t ≤ now)%N.
Proof.
  simpl. rewrite list_elem_of_fmap. split.
  - intros ([k' t] & -> & [Ht Hin]%list_elem_of_filter). exists t.
    by rewrite elem_of_hash_entries in Hin.
  - intros (t & Hk & Ht). exists (k, t). rewrite list_elem_of_filter, elem_of_hash_entries. auto.
Qed.

(** What is left is what has not expired, untouched. *)
Lemma lookup_drain m now k t :
  (Timers.drain_expired m now).2 !! k = Some t ↔ m !! k = Some t ∧ (now < t)%N.
Proof.
  simpl. rewrite lookup_delete_list. case_decide as Hin.
  - apply (elem_of_drain m now k) in Hin as (t' & Hk & Ht). split; [done|].
    intros [? ?]. simplify_eq. lia.
  - split; [|naive_solver]. intros Hk. split; [done|].
    destruct (N.lt_ge_cases now t) as [|Hle]; [done|]. destruct Hin.
    apply (elem_of_drain m now k). eauto.
Qed.

Lemma drain_rest m now k :
  (Timers.drain_expired m now).2 !! k =
  match m !! k with
  | Some t => if decide (t ≤ now)%N then None else Some t
  | None => None
  end.
Proof.
  apply option_eq. intros t. rewrite lookup_drain. destruct (m !! k) as [t'|]; [|naive_solver].
  case_decide; split; intros; destruct_and?; simplify_eq; try done; [lia|]. split; [done|lia].
Qed.
End drain_lemmas.
