(* ===== verification/Lock.v ===== *)
(** * Lock: inhibitors, lock timers and the lock state of every session
    (src/src/lock/) *)

From stdpp Require Import base gmap strings numbers list.
From S2P Require Import Prelude Errors System Config Session Auth Timers.

(** ** Inhibitors (src/src/lock/inhibitor.rs) *)

Module InhibitWhat.
Inductive t : Type := Idle | Lock | Suspend | Shutdown.
#[global] Instance eq_dec : EqDecision t.
Proof. solve_decision. Defined.
End InhibitWhat.

Module InhibitMode.
Inductive t : Type := Block | Delay.
#[global] Instance eq_dec : EqDecision t.
Proof. solve_decision. Defined.
End InhibitMode.

Module Inhibitor.
Record t := mk {
  id : N;
  what : InhibitWhat.t;
  who : string;
  why : string;
  mode : InhibitMode.t
}.
Definition holds (w : InhibitWhat.t) (m : InhibitMode.t) (i : t) : Prop := what i = w ∧ mode i = m.
#[global] Instance holds_dec w m i : Decision (holds w m i).
Proof. unfold holds. apply _. Defined.
End Inhibitor.

Module InhibitorRegistry.
Record t := mk {
  inhibitors : gmap N Inhibitor.t;
  next_id : N
}.

Definition new : t := mk ∅ 0.

Definition add (what : InhibitWhat.t) (who why : string) (mode : InhibitMode.t) (r : t) : N * t :=
  let next_id := u64_add (next_id r) 1 in
  let id := next_id in
  (id, mk (<[id := Inhibitor.mk id what who why mode]> (inhibitors r)) next_id).

Definition remove (id : N) (r : t) : Result () * t :=
  match inhibitors r !! id with
  | Some _ => (Ok (), mk (delete id (inhibitors r)) (next_id r))
  | None => (Err (SessionError.UnknownInhibitor id), r)
  end.

Section queries.
Context `{HashOrder}.

Definition blocks (what : InhibitWhat.t) (r : t) : bool :=
  existsb (λ i, bool_decide (Inhibitor.holds what InhibitMode.Block i)) (hash_values (inhibitors r)).

Definition delays (what : InhibitWhat.t) (r : t) : list Inhibitor.t :=
  filter (Inhibitor.holds what InhibitMode.Delay) (hash_values (inhibitors r)).
End queries.

Definition list `{HashOrder} (r : t) : list Inhibitor.t := hash_values (inhibitors r).
End InhibitorRegistry.

(** ** Timers and policy *)

Module LockTimeouts.
Record t := mk {
  grace_expiry : gmap SessionId Instant;
  lockout_expiry : gmap SessionId Instant
}.

Definition new : t := mk ∅ ∅.

Definition start_grace (session : SessionId) (now : Instant) (grace : Duration) (x : t) : exec t :=
  at_ ← instant_add now grace; Done (mk (<[session:=at_]> (grace_expiry x)) (lockout_expiry x)).

Definition cancel_grace (session : SessionId) (x : t) : t :=
  mk (delete session (grace_expiry x)) (lockout_expiry x).

Definition start_lockout (session : SessionId) (now : Instant) (lockout : Duration) (x : t) : exec t :=
  at_ ← instant_add now lockout; Done (mk (grace_expiry x) (<[session:=at_]> (lockout_expiry x))).

Section sweeps.
Context `{HashOrder}.

Definition expired_grace (now : Instant) (x : t) : list SessionId * t :=
  let '(ids, rest) := Timers.drain_expired (grace_expiry x) now in (ids, mk rest (lockout_expiry x)).

Definition expired_lockouts (now : Instant) (x : t) : list SessionId * t :=
  let '(ids, rest) := Timers.drain_expired (lockout_expiry x) now in (ids, mk (grace_expiry x) rest).
End sweeps.
End LockTimeouts.

Module LockPolicy.
Record t := mk {
  enabled : bool;
  lock_on_idle : bool;
  lock_on_suspend : bool;
  grace_period : Duration
}.
Definition from (s : LockSettings.t) : t :=
  mk (LockSettings.enabled s) (LockSettings.lock_on_idle s) (LockSettings.lock_on_suspend s)
     (from_secs (LockSettings.grace_period_secs s)).
End LockPolicy.

(** ** The lock manager (src/src/lock/lock.rs, src/src/lock/state.rs) *)

Module LockReason.
Inductive t : Type := Manual | Idle | Suspend.
End LockReason.

Module LockState.
Inductive t : Type := Unlocked | Locked | LockedOut.
#[global] Instance eq_dec : EqDecision t.
Proof. solve_decision. Defined.
Definition default : t := Unlocked.
End LockState.

Module SessionLock.
Record t := mk {
  state : LockState.t;
  attempts : N
}.
Definition default : t := mk LockState.default 0.
End SessionLock.

Module LockManager.
Record t := mk {
  locks : gmap SessionId SessionLock.t;
  inhibitors : InhibitorRegistry.t;
  timeouts : LockTimeouts.t
}.

Definition new : t := mk ∅ InhibitorRegistry.new LockTimeouts.new.

(** [self.locks.entry(session).or_default()]. *)
Definition entry (session : SessionId) (m : t) : SessionLock.t :=
  default SessionLock.default (locks m !! session).
Definition with_entry (session : SessionId) (l : SessionLock.t) (m : t) : t :=
  mk (<[session:=l]> (locks m)) (inhibitors m) (timeouts m).

Definition is_locked (session : SessionId) (m : t) : bool :=
  match SessionLock.state <$> locks m !! session with
  | Some LockState.Locked | Some LockState.LockedOut => true
  | _ => false
  end.

Section ops.
Context `{HashOrder}.

Definition lock (session : SessionId) (policy : LockPolicy.t) (m : t) : Result () * t :=
  if negb (LockPolicy.enabled policy) then
    (Err (SessionError.Unsupported "locking is disabled in config"), m)
  else if InhibitorRegistry.blocks InhibitWhat.Lock (inhibitors m) then
    (Err (SessionError.PermissionDenied "an application is inhibiting the lock screen"), m)
  else
    (Ok (), with_entry session (SessionLock.mk LockState.Locked (SessionLock.attempts (entry session m))) m).
End ops.

Definition unlock (session : SessionId) (m : t) : t :=
  mk (alter (λ _, SessionLock.mk LockState.Unlocked 0) session (locks m)) (inhibitors m)
     (LockTimeouts.cancel_grace session (timeouts m)).

Definition attempt_unlock (authenticator : Authenticator) (request : AuthRequest.t)
    (auth_policy : AuthPolicy.t) (now : Instant) (m : t) : exec (AuthOutcome.t * t) :=
  let session := AuthRequest.session_id request in
  let e := entry session m in
  let m := with_entry session e m in
  if bool_decide (SessionLock.state e = LockState.LockedOut) then
    Done (AuthOutcome.LockedOut (as_secs (AuthPolicy.lockout auth_policy)), m)
  else
    let '(outcome, attempts) := Auth.check authenticator request auth_policy (SessionLock.attempts e) in
    match outcome with
    | AuthOutcome.Success =>
        Done (outcome, with_entry session (SessionLock.mk LockState.Unlocked attempts) m)
    | AuthOutcome.LockedOut _ =>
        let m := with_entry session (SessionLock.mk LockState.LockedOut attempts) m in
        timeouts ← LockTimeouts.start_lockout session now (AuthPolicy.lockout auth_policy) (timeouts m);
        Done (outcome, mk (locks m) (inhibitors m) timeouts)
    | AuthOutcome.Failure _ | AuthOutcome.Error _ | AuthOutcome.Cancelled =>
        Done (outcome, with_entry session (SessionLock.mk (SessionLock.state e) attempts) m)
    end.

Definition clear_lockout (session : SessionId) (m : t) : t :=
  mk (alter (λ l, if bool_decide (SessionLock.state l = LockState.LockedOut)
                  then SessionLock.mk LockState.Locked 0 else l) session (locks m))
     (inhibitors m) (timeouts m).

Definition add_inhibitor (what : InhibitWhat.t) (who why : string) (mode : InhibitMode.t) (m : t)
    : N * t :=
  let '(id, r) := InhibitorRegistry.add what who why mode (inhibitors m) in
  (id, mk (locks m) r (timeouts m)).

Definition release_inhibitor (id : N) (m : t) : Result () * t :=
  let '(res, r) := InhibitorRegistry.remove id (inhibitors m) in (res, mk (locks m) r (timeouts m)).

(** The loop of [Daemon::on_idle_tick] over [timeouts.expired_lockouts]. *)
Definition sweep_lockouts `{HashOrder} (now : Instant) (m : t) : t :=
  let '(ids, timeouts) := LockTimeouts.expired_lockouts now (timeouts m) in
  foldl (λ m id, clear_lockout id m) (mk (locks m) (inhibitors m) timeouts) ids.
End LockManager.

(** ** Inhibitor lemmas *)

Module InhibitInv.
(** Every inhibitor is filed under its own id, and no id in use is above the
    last one handed out. *)
Definition wf (r : InhibitorRegistry.t) : Prop :=
  map_Forall (λ i x, Inhibitor.id x = i ∧ (i ≤ InhibitorRegistry.next_id r)%N)
    (InhibitorRegistry.inhibitors r).
End InhibitInv.

Lemma new_inhibitors_wf : InhibitInv.wf InhibitorRegistry.new.
Proof. apply map_Forall_empty. Qed.

Lemma add_wf what who why mode r :
  InhibitInv.wf r → is_u64 (InhibitorRegistry.next_id r + 1) →
  InhibitInv.wf (InhibitorRegistry.add what who why mode r).2.
Proof.
  intros Hwf Hn. unfold InhibitInv.wf, InhibitorRegistry.add. simpl. rewrite u64_add_small by done.
  apply map_Forall_insert_2; [simpl; split; [done|lia]|]. eapply map_Forall_impl; [done|].
  simpl. intros i x [? ?]. split; [done|lia].
Qed.

Lemma remove_wf id r : InhibitInv.wf r → InhibitInv.wf (InhibitorRegistry.remove id r).2.
Proof. unfold InhibitorRegistry.remove. intros Hwf. case_match; [|done]. by apply map_Forall_delete. Qed.

(** Ids are fresh, so releasing what was just taken restores the registry's
    contents. *)
Lemma add_fresh what who why mode r :
  InhibitInv.wf r → is_u64 (InhibitorRegistry.next_id r + 1) →
  InhibitorRegistry.inhibitors r !! (InhibitorRegistry.add what who why mode r).1 = None.
Proof.
  intros Hwf Hn. simpl. rewrite u64_add_small by done.
  destruct (InhibitorRegistry.inhibitors r !! _) eqn:Hi; [|done].
  apply Hwf in Hi as [_ Hle]. lia.
Qed.

Lemma add_remove_contents what who why mode r :
  InhibitInv.wf r → is_u64 (InhibitorRegistry.next_id r + 1) →
  let '(id, r') := InhibitorRegistry.add what who why mode r in
  (InhibitorRegistry.remove id r').1 = Ok () ∧
  InhibitorRegistry.inhibitors (InhibitorRegistry.remove id r').2 = InhibitorRegistry.inhibitors r.
Proof.
  intros Hwf Hn. pose proof (add_fresh what who why mode r Hwf Hn) as Hfresh.
  unfold InhibitorRegistry.add, InhibitorRegistry.remove in *. simpl in *. rewrite lookup_insert_eq. simpl.
  split; [done|]. by apply delete_insert_id.
Qed.

Section inhibitor_queries.
Context `{HashOrder}.

Lemma blocks_spec what r :
  InhibitorRegistry.blocks what r = true ↔
  ∃ i x, InhibitorRegistry.inhibitors r !! i = Some x ∧ Inhibitor.holds what InhibitMode.Block x.
Proof.
  unfold InhibitorRegistry.blocks. rewrite existsb_exists. setoid_rewrite <- list_elem_of_In.
  setoid_rewrite bool_decide_eq_true. setoid_rewrite elem_of_hash_values. naive_solver.
Qed.

Lemma blocks_add what what' who why mode r :
  InhibitInv.wf r → is_u64 (InhibitorRegistry.next_id r + 1) →
  InhibitorRegistry.blocks what (InhibitorRegistry.add what' who why mode r).2 =
  InhibitorRegistry.blocks what r || bool_decide (what' = what ∧ mode = InhibitMode.Block).
Proof.
  intros Hwf Hn. pose proof (add_fresh what' who why mode r Hwf Hn) as Hfresh. simpl in Hfresh.
  apply eq_true_iff_eq. rewrite orb_true_iff, !blocks_spec, bool_decide_eq_true. simpl. split.
  - intros (i & x & Hi & Hx). apply lookup_insert_Some in Hi as [[<- <-]|[_ Hi]]; [right; done|eauto].
  - intros [(i & x & Hi & Hx)|Hb].
    + exists i, x. split; [|done]. apply lookup_insert_Some. right. split; [congruence|done].
    + eexists _, _. split; [apply lookup_insert_eq|done].
Qed.
End inhibitor_queries.

(** ** Lock lemmas *)

Lemma is_locked_spec s m :
  LockManager.is_locked s m = true ↔
  ∃ l, LockManager.locks m !! s = Some l ∧ SessionLock.state l ≠ LockState.Unlocked.
Proof.
  unfold LockManager.is_locked. destruct (LockManager.locks m !! s) as [[[] n]|]; simpl; naive_solver.
Qed.

Lemma lookup_with_entry s s' l m :
  LockManager.locks (LockManager.with_entry s l m) !! s' =
  if decide (s = s') then Some l else LockManager.locks m !! s'.
Proof. unfold LockManager.with_entry. simpl. apply lookup_insert. Qed.

Lemma entry_state_eq s m l :
  LockManager.locks m !! s = Some l → LockManager.entry s m = l.
Proof. unfold LockManager.entry. by intros ->. Qed.

Section lock_ops.
Context `{HashOrder}.

(** When [lock] succeeds, and what it then does. *)
Lemma lock_Ok s p m :
  LockPolicy.enabled p = true →
  InhibitorRegistry.blocks InhibitWhat.Lock (LockManager.inhibitors m) = false →
  LockManager.lock s p m =
    (Ok (), LockManager.with_entry s
       (SessionLock.mk LockState.Locked (SessionLock.attempts (LockManager.entry s m))) m).
Proof. unfold LockManager.lock. by intros -> ->. Qed.

Lemma lock_Ok_inv s p m m' :
  LockManager.lock s p m = (Ok (), m') →
  m' = LockManager.with_entry s
         (SessionLock.mk LockState.Locked (SessionLock.attempts (LockManager.entry s m))) m.
Proof. unfold LockManager.lock. repeat case_match; naive_solver. Qed.

Lemma lock_Err_inv s p m e m' : LockManager.lock s p m = (Err e, m') → m' = m.
Proof. unfold LockManager.lock. repeat case_match; naive_solver. Qed.

Lemma lock_locks s p m m' :
  LockManager.lock s p m = (Ok (), m') → LockManager.is_locked s m' = true.
Proof.
  intros ->%lock_Ok_inv. apply is_locked_spec. eexists. rewrite lookup_with_entry, decide_True by done.
  done.
Qed.

Lemma lock_keeps_locked s s' p m :
  LockManager.is_locked s' m = true → LockManager.is_locked s' (LockManager.lock s p m).2 = true.
Proof.
  intros Hl. destruct (LockManager.lock s p m) as [[[]|e] m'] eqn:Hm; simpl.
  - destruct (decide (s = s')) as [->|Hne]; [by eapply lock_locks|].
    apply lock_Ok_inv in Hm as ->. apply is_locked_spec in Hl as (l & Hl & ?). apply is_locked_spec.
    exists l. by rewrite lookup_with_entry, decide_False by done.
  - by apply lock_Err_inv in Hm as ->.
Qed.

End lock_ops.

(** *** Unlock attempts *)

(** While a session is locked out its password is not looked at: the answer and
    the state after it do not depend on the authenticator, nor on the request
    but for its session. *)
Lemma attempt_locked_out a r p now m l :
  LockManager.locks m !! AuthRequest.session_id r = Some l →
  SessionLock.state l = LockState.LockedOut →
  LockManager.attempt_unlock a r p now m =
    Done (AuthOutcome.LockedOut (as_secs (AuthPolicy.lockout p)), m).
Proof.
  intros Hl Hs. unfold LockManager.attempt_unlock. rewrite (entry_state_eq _ _ _ Hl).
  rewrite bool_decide_true by done. do 2 f_equal. unfold LockManager.with_entry.
  rewrite insert_id by done. by destruct m.
Qed.

Lemma locked_out_refuses a r p now m :
  SessionLock.state (LockManager.entry (AuthRequest.session_id r) m) = LockState.LockedOut →
  LockManager.attempt_unlock a r p now m =
    Done (AuthOutcome.LockedOut (as_secs (AuthPolicy.lockout p)), m).
Proof.
  unfold LockManager.entry. destruct (LockManager.locks m !! _) as [l|] eqn:Hl; simpl; [|done].
  by apply attempt_locked_out.
Qed.

Lemma attempt_accepted a r p now m :
  SessionLock.state (LockManager.entry (AuthRequest.session_id r) m) ≠ LockState.LockedOut →
  accepts a r = true →
  ∃ m', LockManager.attempt_unlock a r p now m = Done (AuthOutcome.Success, m') ∧
    LockManager.locks m' =
      <[AuthRequest.session_id r := SessionLock.mk LockState.Unlocked 0]> (LockManager.locks m) ∧
    LockManager.inhibitors m' = LockManager.inhibitors m ∧
    LockManager.timeouts m' = LockManager.timeouts m.
Proof.
  intros Hs Ha. unfold LockManager.attempt_unlock. rewrite bool_decide_false by done.
  rewrite check_accepts by done. eexists. split; [done|]. simpl. by rewrite insert_insert_eq.
Qed.

(** A wrong password short of the limit costs one attempt and changes nothing
    else. *)
Lemma attempt_failed a r p now m :
  let e := LockManager.entry (AuthRequest.session_id r) m in
  SessionLock.state e ≠ LockState.LockedOut → accepts a r = false →
  is_u32 (AuthPolicy.max_attempts p) → (SessionLock.attempts e + 1 < AuthPolicy.max_attempts p)%N →
  ∃ m', LockManager.attempt_unlock a r p now m =
      Done (AuthOutcome.Failure (AuthPolicy.max_attempts p - (SessionLock.attempts e + 1)), m') ∧
    LockManager.locks m' =
      <[AuthRequest.session_id r := SessionLock.mk (SessionLock.state e) (SessionLock.attempts e + 1)]>
        (LockManager.locks m) ∧
    LockManager.inhibitors m' = LockManager.inhibitors m ∧
    LockManager.timeouts m' = LockManager.timeouts m.
Proof.
  intros e Hs Ha Hm Hlt. subst e. unfold LockManager.attempt_unlock. rewrite bool_decide_false by done.
  unfold is_u32 in *. rewrite check_rejects by (done || unfold is_u32; lia).
  rewrite decide_True by done. eexists. split; [done|]. simpl. by rewrite insert_insert_eq.
Qed.

(** The wrong password that reaches the limit locks the session out and starts
    the countdown; the clock must be able to represent its end. *)
Lemma attempt_locks_out a r p now m :
  let e := LockManager.entry (AuthRequest.session_id r) m in
  SessionLock.state e ≠ LockState.LockedOut → accepts a r = false →
  is_u32 (AuthPolicy.max_attempts p) → is_u32 (SessionLock.attempts e + 1) →
  (AuthPolicy.max_attempts p ≤ SessionLock.attempts e + 1)%N →
  instant_add now (AuthPolicy.lockout p) = Done (now + AuthPolicy.lockout p)%N →
  ∃ m', LockManager.attempt_unlock a r p now m =
      Done (AuthOutcome.LockedOut (as_secs (AuthPolicy.lockout p)), m') ∧
    LockManager.locks m' =
      <[AuthRequest.session_id r := SessionLock.mk LockState.LockedOut (SessionLock.attempts e + 1)]>
        (LockManager.locks m) ∧
    LockManager.inhibitors m' = LockManager.inhibitors m ∧
    LockTimeouts.lockout_expiry (LockManager.timeouts m') =
      <[AuthRequest.session_id r := (now + AuthPolicy.lockout p)%N]>
        (LockTimeouts.lockout_expiry (LockManager.timeouts m)).
Proof.
  intros e Hs Ha Hm Hn Hle Hi. subst e. unfold LockManager.attempt_unlock. rewrite bool_decide_false by done.
  rewrite check_rejects by done. rewrite decide_False by lia.
  unfold LockTimeouts.start_lockout. rewrite Hi. eexists. split; [done|]. simpl. by rewrite insert_insert_eq.
Qed.

(** A panic of an unlock attempt is the clock overflowing, never anything else. *)
Lemma attempt_panics a r p now m :
  LockManager.attempt_unlock a r p now m = Panicked → instant_add now (AuthPolicy.lockout p) = Panicked.
Proof.
  unfold LockManager.attempt_unlock, LockTimeouts.start_lockout. case_match; [done|].
  case_match. case_match; try done. by destruct (instant_add _ _).
Qed.

(** What any attempt, whatever its outcome, leaves alone: the other sessions and
    the inhibitors. *)
Lemma attempt_frame a r p now m o m' s :
  LockManager.attempt_unlock a r p now m = Done (o, m') → s ≠ AuthRequest.session_id r →
  LockManager.locks m' !! s = LockManager.locks m !! s ∧
  LockManager.inhibitors m' = LockManager.inhibitors m.
Proof.
  unfold LockManager.attempt_unlock, LockTimeouts.start_lockout. intros Ha Hs.
  repeat case_match; simplify_eq/=; rewrite ?lookup_insert_ne by done; try done.
  destruct (instant_add _ _); simplify_eq/=. by rewrite !lookup_insert_ne by done.
Qed.

Lemma attempt_inhibitors a r p now m o m' :
  LockManager.attempt_unlock a r p now m = Done (o, m') →
  LockManager.inhibitors m' = LockManager.inhibitors m.
Proof.
  unfold LockManager.attempt_unlock, LockTimeouts.start_lockout. intros Ha.
  repeat case_match; simplify_eq/=; try done. by destruct (instant_add _ _); simplify_eq/=.
Qed.

(** A locked session stays locked unless the attempt succeeds. *)
Lemma attempt_keeps_locked a r p now m o m' s :
  LockManager.attempt_unlock a r p now m = Done (o, m') → o ≠ AuthOutcome.Success →
  LockManager.is_locked s m = true → LockManager.is_locked s m' = true.
Proof.
  intros Ha Ho (l & Hl & Hns)%is_locked_spec. destruct (decide (s = AuthRequest.session_id r)) as [->|Hs].
  - revert Ha. unfold LockManager.attempt_unlock, LockTimeouts.start_lockout.
    rewrite (entry_state_eq _ _ _ Hl). intros Ha. apply is_locked_spec.
    repeat case_match; simplify_eq/=; try (eexists; split; [apply lookup_insert_eq|done]).
    destruct (instant_add _ _); simplify_eq/=. eexists; split; [apply lookup_insert_eq|done].
  - destruct (attempt_frame _ _ _ _ _ _ _ _ Ha Hs) as [Hsame _]. apply is_locked_spec.
    rewrite Hsame. eauto.
Qed.

(** [Success] is answered exactly when the session is not locked out and the
    authenticator accepts the credential. *)
Lemma attempt_success_iff a r p now m o m' :
  LockManager.attempt_unlock a r p now m = Done (o, m') →
  o = AuthOutcome.Success ↔
  SessionLock.state (LockManager.entry (AuthRequest.session_id r) m) ≠ LockState.LockedOut ∧
  accepts a r = true.
Proof.
  intros Ha. unfold LockManager.attempt_unlock in Ha. case_bool_decide as Hs.
  { simplify_eq. naive_solver. }
  pose proof (check_outcome a r p
    (SessionLock.attempts (LockManager.entry (AuthRequest.session_id r) m))) as (Hiff & _).
  destruct (Auth.check _ _ _ _) as [o' n]. simpl in Hiff.
  assert (o = o') as ->.
  { destruct o'; simplify_eq/=; try done. unfold LockTimeouts.start_lockout in Ha.
    destruct (instant_add _ _); by simplify_eq/=. }
  naive_solver.
Qed.

(** *** Lockouts end *)

Module LockInv.
(** Every session that is locked out has a countdown running. *)
Definition timed (m : LockManager.t) : Prop :=
  map_Forall (λ s l, SessionLock.state l = LockState.LockedOut →
    is_Some (LockTimeouts.lockout_expiry (LockManager.timeouts m) !! s)) (LockManager.locks m).
Definition wf (m : LockManager.t) : Prop :=
  InhibitInv.wf (LockManager.inhibitors m) ∧ timed m.
End LockInv.

Definition clear_lock (l : SessionLock.t) : SessionLock.t :=
  if bool_decide (SessionLock.state l = LockState.LockedOut) then SessionLock.mk LockState.Locked 0 else l.

Lemma clear_lock_idemp l : clear_lock (clear_lock l) = clear_lock l.
Proof. unfold clear_lock. destruct l as [[] n]; done. Qed.

Lemma foldl_clear_lockout ids m s :
  let m' := foldl (λ m id, LockManager.clear_lockout id m) m ids in
  LockManager.locks m' !! s =
    (if decide (s ∈ ids) then clear_lock <$> LockManager.locks m !! s else LockManager.locks m !! s) ∧
  LockManager.inhibitors m' = LockManager.inhibitors m ∧
  LockManager.timeouts m' = LockManager.timeouts m.
Proof.
  revert m. induction ids as [|i ids IH]; intros m; [done|]. cbn [foldl].
  destruct (IH (LockManager.clear_lockout i m)) as (Hl & Hi & Ht). rewrite Hl, Hi, Ht.
  split; [|done]. unfold LockManager.clear_lockout. simpl. rewrite lookup_alter.
  repeat case_decide; set_unfold; subst; try done; try naive_solver.
  all: destruct (LockManager.locks m !! s) as [l|]; simpl; [|done].
  all: change (if bool_decide _ then _ else _) with (clear_lock l).
  all: by rewrite ?clear_lock_idemp.
Qed.

Section sweep.
Context `{HashOrder}.

Lemma sweep_lookup now m s :
  LockManager.locks (LockManager.sweep_lockouts now m) !! s =
  match LockTimeouts.lockout_expiry (LockManager.timeouts m) !! s with
  | Some t => if decide (t ≤ now)%N then clear_lock <$> LockManager.locks m !! s
              else LockManager.locks m !! s
  | None => LockManager.locks m !! s
  end.
Proof.
  unfold LockManager.sweep_lockouts, LockTimeouts.expired_lockouts.
  destruct (Timers.drain_expired _ now) as [ids rest] eqn:Hd.
  destruct (foldl_clear_lockout ids (LockManager.mk (LockManager.locks m) (LockManager.inhibitors m)
    (LockTimeouts.mk (LockTimeouts.grace_expiry (LockManager.timeouts m)) rest)) s) as [-> _]. simpl.
  pose proof (elem_of_drain (LockTimeouts.lockout_expiry (LockManager.timeouts m)) now s) as Hin.
  rewrite Hd in Hin. simpl in Hin.
  destruct (_ !! s) as [t|]; repeat case_decide; naive_solver.
Qed.

(** The sweep ends a lockout when, and only when, its time has come: the session
    goes back to plain [Locked] with a clean counter. *)
Lemma sweep_lockout s l t now m :
  LockManager.locks m !! s = Some l → SessionLock.state l = LockState.LockedOut →
  LockTimeouts.lockout_expiry (LockManager.timeouts m) !! s = Some t →
  LockManager.locks (LockManager.sweep_lockouts now m) !! s =
    Some (if decide (t ≤ now)%N then SessionLock.mk LockState.Locked 0 else l).
Proof.
  intros Hl Hs Ht. rewrite sweep_lookup, Ht, Hl. case_decide; [|done]. simpl. unfold clear_lock.
  by rewrite bool_decide_true.
Qed.

Lemma sweep_keeps_locked s now m :
  LockManager.is_locked s (LockManager.sweep_lockouts now m) = LockManager.is_locked s m.
Proof.
  apply eq_true_iff_eq. rewrite !is_locked_spec. setoid_rewrite sweep_lookup.
  destruct (_ !! s) as [t|]; [|done]. case_decide; [|done].
  destruct (LockManager.locks m !! s) as [[[] n]|]; simpl; [..|done]; naive_solver.
Qed.

Lemma new_locks_wf : LockInv.wf LockManager.new.
Proof. split; [apply new_inhibitors_wf|apply map_Forall_empty]. Qed.

Lemma lock_wf s p m : LockInv.wf m → LockInv.wf (LockManager.lock s p m).2.
Proof.
  intros [Hi Ht]. destruct (LockManager.lock s p m) as [[[]|e] m'] eqn:Hm; simpl.
  - apply lock_Ok_inv in Hm as ->. split; [done|]. by apply map_Forall_insert_2.
  - by apply lock_Err_inv in Hm as ->.
Qed.

Lemma attempt_wf a r p now m o m' :
  LockManager.attempt_unlock a r p now m = Done (o, m') → LockInv.wf m → LockInv.wf m'.
Proof.
  intros Ha [Hi Ht]. unfold LockManager.attempt_unlock, LockTimeouts.start_lockout in Ha.
  case_bool_decide as Hs.
  { simplify_eq. split; [done|]. apply map_Forall_insert_2; [|done]. intros _. revert Hs.
    unfold LockManager.entry. destruct (LockManager.locks m !! _) as [l|] eqn:Hl; [|done]. intros. by eapply Ht. }
  destruct (Auth.check _ _ _ _) as [[] n]; simplify_eq/=.
  3: { destruct (instant_add _ _); simplify_eq/=. split; [done|]. unfold LockInv.timed. simpl.
       rewrite insert_insert_eq. apply map_Forall_insert_2; [by rewrite lookup_insert_eq|].
       eapply map_Forall_impl; [done|]. intros i l Hl Hlo. apply lookup_insert_is_Some'. right. auto. }
  all: split; [done|]; unfold LockInv.timed; simpl; rewrite insert_insert_eq; by apply map_Forall_insert_2.
Qed.

Lemma sweep_wf now m : LockInv.wf m → LockInv.wf (LockManager.sweep_lockouts now m).
Proof.
  intros [Hi Ht]. unfold LockInv.wf, LockInv.timed, map_Forall. setoid_rewrite sweep_lookup.
  unfold LockManager.sweep_lockouts, LockTimeouts.expired_lockouts.
  destruct (Timers.drain_expired _ now) as [ids rest] eqn:Hd.
  destruct (foldl_clear_lockout ids (LockManager.mk (LockManager.locks m) (LockManager.inhibitors m)
    (LockTimeouts.mk (LockTimeouts.grace_expiry (LockManager.timeouts m)) rest)) 0%N) as (_ & -> & ->).
  split; [done|]. simpl. intros s l Hl Hlo.
  destruct (LockTimeouts.lockout_expiry (LockManager.timeouts m) !! s) as [t|] eqn:Hst.
  - case_decide as Hle.
    + apply fmap_Some in Hl as (l0 & _ & ->). by destruct l0 as [[] n].
    + exists t. change rest with (ids, rest).2. rewrite <- Hd. apply lookup_drain. split; [done|lia].
  - destruct (Ht _ _ Hl Hlo) as [t Hst']. naive_solver.
Qed.
End sweep.
