(* ===== verification/Idle.v ===== *)
(** * Idle: per-seat activity and the dim / lock / suspend thresholds
    (src/src/idle/) *)

From stdpp Require Import base gmap strings numbers list.
From S2P Require Import Prelude Config.

Module IdleStage.
Inductive t : Type := Active | Dimmed | LockRequested | SuspendRequested.
#[global] Instance eq_dec : EqDecision t.
Proof. solve_decision. Defined.
(** The derived [Ord]: declaration order. *)
Definition rank (s : t) : nat :=
  match s with Active => 0 | Dimmed => 1 | LockRequested => 2 | SuspendRequested => 3 end.
End IdleStage.

Module IdlePolicy.
Record t := mk {
  dim_after : Duration;
  lock_after : Duration;
  suspend_after : Duration
}.
Definition from (s : IdleSettings.t) : t :=
  mk (from_secs (IdleSettings.dim_after_secs s)) (from_secs (IdleSettings.lock_after_secs s))
     (from_secs (IdleSettings.suspend_after_secs s)).

Definition reaches (idle_for threshold : Duration) : bool :=
  (0 <? threshold)%N && (threshold <=? idle_for)%N.

Definition stage_for (p : t) (idle_for : Duration) : IdleStage.t :=
  if reaches idle_for (suspend_after p) then IdleStage.SuspendRequested
  else if reaches idle_for (lock_after p) then IdleStage.LockRequested
  else if reaches idle_for (dim_after p) then IdleStage.Dimmed
  else IdleStage.Active.
End IdlePolicy.

Module IdleTracker.
Record t := mk { last_activity : gmap string Instant }.
Definition new : t := mk ∅.
Definition record_activity (seat_id : string) (now : Instant) (x : t) : t :=
  mk (<[seat_id:=now]> (last_activity x)).
Definition idle_for (seat_id : string) (now : Instant) (x : t) : Duration :=
  match last_activity x !! seat_id with
  | Some last => saturating_duration_since now last
  | None => 0
  end.
Definition seats `{HashOrder} (x : t) : list string := hash_keys (last_activity x).
End IdleTracker.

Module IdleDetector.
Record t := mk {
  tracker : IdleTracker.t;
  stages : gmap string IdleStage.t
}.
Definition new : t := mk IdleTracker.new ∅.

Definition record_activity (seat_id : string) (now : Instant) (d : t) : t :=
  mk (IdleTracker.record_activity seat_id now (tracker d)) (<[seat_id:=IdleStage.Active]> (stages d)).

(** One turn of the loop of [tick]. *)
Definition tick_seat (x : IdleTracker.t) (now : Instant) (policy : IdlePolicy.t)
    (acc : list (string * IdleStage.t) * gmap string IdleStage.t) (seat_id : string)
    : list (string * IdleStage.t) * gmap string IdleStage.t :=
  let '(changes, stages) := acc in
  let idle_for := IdleTracker.idle_for seat_id now x in
  let new_stage := IdlePolicy.stage_for policy idle_for in
  let entry := default IdleStage.Active (stages !! seat_id) in
  let stages := <[seat_id:=entry]> stages in
  if bool_decide (entry ≠ new_stage) then
    (changes ++ [(seat_id, new_stage)], <[seat_id:=new_stage]> stages)
  else (changes, stages).

Definition tick `{HashOrder} (now : Instant) (policy : IdlePolicy.t) (d : t)
    : list (string * IdleStage.t) * t :=
  let '(changes, stages) :=
    foldl (tick_seat (tracker d) now policy) ([], stages d) (IdleTracker.seats (tracker d)) in
  (changes, mk (tracker d) stages).

Definition stage (seat_id : string) (d : t) : IdleStage.t :=
  default IdleStage.Active (stages d !! seat_id).
End IdleDetector.

(** ** Thresholds *)

Lemma reaches_spec d t : IdlePolicy.reaches d t = true ↔ (0 < t ∧ t ≤ d)%N.
Proof. unfold IdlePolicy.reaches. by rewrite andb_true_iff, N.ltb_lt, N.leb_le. Qed.

Lemma reaches_mono d d' t :
  (d ≤ d')%N → IdlePolicy.reaches d t = true → IdlePolicy.reaches d' t = true.
Proof. rewrite !reaches_spec. lia. Qed.

(** The longer a seat is idle the further its stage, however the thresholds are
    configured. *)
Lemma stage_for_mono p d d' :
  (d ≤ d')%N →
  (IdleStage.rank (IdlePolicy.stage_for p d) ≤ IdleStage.rank (IdlePolicy.stage_for p d'))%nat.
Proof.
  intros Hd. unfold IdlePolicy.stage_for.
  pose proof (reaches_mono d d' (IdlePolicy.suspend_after p) Hd).
  pose proof (reaches_mono d d' (IdlePolicy.lock_after p) Hd).
  pose proof (reaches_mono d d' (IdlePolicy.dim_after p) Hd).
  repeat case_match; simpl; naive_solver lia.
Qed.

(** With increasing thresholds each stage holds on its own interval. *)
Lemma stage_for_intervals p d :
  (0 < IdlePolicy.dim_after p < IdlePolicy.lock_after p)%N →
  (IdlePolicy.lock_after p < IdlePolicy.suspend_after p)%N →
  IdlePolicy.stage_for p d =
    if decide (d < IdlePolicy.dim_after p)%N then IdleStage.Active
    else if decide (d < IdlePolicy.lock_after p)%N then IdleStage.Dimmed
    else if decide (d < IdlePolicy.suspend_after p)%N then IdleStage.LockRequested
    else IdleStage.SuspendRequested.
Proof.
  intros H1 H2. unfold IdlePolicy.stage_for, IdlePolicy.reaches.
  repeat case_decide; repeat case_match;
    rewrite ?andb_true_iff, ?andb_false_iff, ?N.ltb_lt, ?N.ltb_ge, ?N.leb_le, ?N.leb_gt in *;
    try done; lia.
Qed.

(** A threshold of zero switches its stage off. *)
Lemma stage_for_disabled p d :
  (IdlePolicy.dim_after p = 0%N → IdlePolicy.stage_for p d ≠ IdleStage.Dimmed) ∧
  (IdlePolicy.lock_after p = 0%N → IdlePolicy.stage_for p d ≠ IdleStage.LockRequested) ∧
  (IdlePolicy.suspend_after p = 0%N → IdlePolicy.stage_for p d ≠ IdleStage.SuspendRequested).
Proof.
  unfold IdlePolicy.stage_for, IdlePolicy.reaches.
  split_and!; intros Hz; rewrite Hz; simpl; repeat case_match; done.
Qed.

(** ** The detector *)

Section tick_lemmas.
Context `{HashOrder}.
Implicit Types (d : IdleDetector.t) (s : string).

(** The stage a tracked seat has at [now]. *)
Definition stage_at (p : IdlePolicy.t) (now : Instant) (x : IdleTracker.t) s : IdleStage.t :=
  IdlePolicy.stage_for p (IdleTracker.idle_for s now x).

Lemma tick_seat_eq x now p ch st s :
  IdleDetector.tick_seat x now p (ch, st) s =
    (ch ++ (if decide (default IdleStage.Active (st !! s) = stage_at p now x s) then []
            else [(s, stage_at p now x s)]),
     <[s := stage_at p now x s]> st).
Proof.
  unfold IdleDetector.tick_seat, stage_at. case_bool_decide as Hne.
  - rewrite decide_False by done. by rewrite insert_insert_eq.
  - rewrite decide_True by done. rewrite app_nil_r. by rewrite <- Hne.
Qed.

Lemma foldl_tick_seat x now p seats ch st ch' st' :
  NoDup seats → foldl (IdleDetector.tick_seat x now p) (ch, st) seats = (ch', st') →
  (∀ s, st' !! s = if decide (s ∈ seats) then Some (stage_at p now x s) else st !! s) ∧
  (∀ s g, (s, g) ∈ ch' ↔ (s, g) ∈ ch ∨
     (s ∈ seats ∧ g = stage_at p now x s ∧ default IdleStage.Active (st !! s) ≠ g)) ∧
  (NoDup ch.*1 → (∀ s, s ∈ seats → s ∉ ch.*1) → NoDup ch'.*1).
Proof.
  intros Hnd. revert ch st. induction Hnd as [|s seats Hs Hnd IH]; intros ch st Hf.
  { simplify_eq/=. set_solver. }
  cbn [foldl] in Hf. rewrite tick_seat_eq in Hf. apply IH in Hf as (Hst & Hch & Hno). split_and!.
  - intros s'. rewrite Hst. destruct (decide (s' = s)) as [->|Hne].
    + rewrite decide_False by done. rewrite decide_True by set_solver. apply lookup_insert_eq.
    + rewrite lookup_insert_ne by done. repeat case_decide; set_solver.
  - intros s' g. rewrite Hch, elem_of_app, elem_of_cons. clear Hch Hst Hno IH Hnd.
    destruct (decide (s' = s)) as [->|Hne].
    + case_decide; rewrite ?elem_of_nil, ?list_elem_of_singleton; naive_solver.
    + rewrite lookup_insert_ne by done.
      case_decide; rewrite ?elem_of_nil, ?list_elem_of_singleton; naive_solver.
  - intros Hc Hd. apply Hno.
    + rewrite fmap_app. apply list.NoDup_app. split; [done|]. case_decide; simpl.
      * split; [by intros; apply not_elem_of_nil|apply NoDup_nil_2].
      * split; [|apply NoDup_singleton]. intros y Hy ->%list_elem_of_singleton.
        by apply (Hd s); [apply elem_of_cons; left|].
    + intros s' Hs'. rewrite fmap_app, elem_of_app. clear Hch Hst Hno IH.
      case_decide; simpl; rewrite ?elem_of_nil, ?list_elem_of_singleton;
        pose proof (Hd s') as Hd'; rewrite elem_of_cons in Hd'; naive_solver.
Qed.

(** What a tick reports and leaves behind.  A tracked seat is reported exactly
    when the stage it is in at [now] is not the one on record; afterwards the
    record says the stage it is in. *)
Lemma tick_spec now p d ch d' :
  IdleDetector.tick now p d = (ch, d') →
  let tracked s := is_Some (IdleTracker.last_activity (IdleDetector.tracker d) !! s) in
  let now_in s := stage_at p now (IdleDetector.tracker d) s in
  IdleDetector.tracker d' = IdleDetector.tracker d ∧ NoDup ch.*1 ∧
  (∀ s g, (s, g) ∈ ch ↔ tracked s ∧ g = now_in s ∧ IdleDetector.stage s d ≠ g) ∧
  (∀ s, IdleDetector.stage s d' = if decide (tracked s) then now_in s else IdleDetector.stage s d).
Proof.
  unfold IdleDetector.tick. destruct (foldl _ _ _) as [ch' st'] eqn:Hf. intros ?; simplify_eq.
  apply foldl_tick_seat in Hf as (Hst & Hch & Hno); [|apply NoDup_hash_keys].
  unfold IdleTracker.seats in *. split_and!; [done| |..].
  - apply Hno; [apply NoDup_nil_2|set_solver].
  - intros s g. rewrite Hch, elem_of_hash_keys. unfold IdleDetector.stage. set_solver.
  - intros s. unfold IdleDetector.stage at 1. simpl. rewrite Hst.
    pose proof (elem_of_hash_keys (IdleTracker.last_activity (IdleDetector.tracker d)) s).
    repeat case_decide; try done; naive_solver.
Qed.
End tick_lemmas.
