(* ===== verification/Elevation.v ===== *)
(** * Elevation: password prompts asked for by a trusted service
    (src/src/elevation/)

    A service asks for a prompt, a compositor shows and answers it, the daemon
    checks the password.  [ElevationManager] keeps the open prompts, their
    deadlines, and the attempt counter and lockout flag of every session. *)

From stdpp Require Import base gmap strings pretty numbers list.
From S2P Require Import Prelude Errors System Config Session Auth Timers.

Abbreviation ElevationRequestId := N (only parsing).

Module ElevationRisk.
Inductive t : Type := Elevated | Critical.
End ElevationRisk.

Module ElevationAction.
Record t := mk {
  requesting_app : string;
  description : string;
  risk : ElevationRisk.t;
  duration_label : string
}.

Definition MAX_LABEL_LEN : nat := 256.

Definition validate (self : t) : result string () :=
  if String.eqb (requesting_app self) "" then Err "requesting_app must not be empty"
  else if decide (MAX_LABEL_LEN < String.length (requesting_app self))%nat then
    Err "requesting_app exceeds the maximum label length"
  else if String.eqb (description self) "" then Err "description must not be empty"
  else if decide (MAX_LABEL_LEN < String.length (description self))%nat then
    Err "description exceeds the maximum label length"
  else if decide (MAX_LABEL_LEN < String.length (duration_label self))%nat then
    Err "duration_label exceeds the maximum label length"
  else Ok ().
End ElevationAction.

Module ElevationResponse.
Inductive t : Type := Password (p : string) | Cancelled.
End ElevationResponse.

Module ElevationPolicy.
Record t := mk {
  enabled : bool;
  prompt_timeout : Duration;
  max_pending_per_session : N
}.
Definition from (s : ElevationSettings.t) : t :=
  mk (ElevationSettings.enabled s) (from_secs (ElevationSettings.prompt_timeout_secs s))
     (ElevationSettings.max_pending_per_session s).
End ElevationPolicy.

Module ElevationTimeouts.
Record t := mk {
  prompt_expiry : gmap ElevationRequestId Instant;
  lockout_expiry : gmap SessionId Instant
}.

Definition new : t := mk ∅ ∅.

Definition start_prompt (id : ElevationRequestId) (now : Instant) (timeout : Duration) (x : t) : exec t :=
  at_ ← instant_add now timeout; Done (mk (<[id:=at_]> (prompt_expiry x)) (lockout_expiry x)).

Definition cancel_prompt (id : ElevationRequestId) (x : t) : t :=
  mk (delete id (prompt_expiry x)) (lockout_expiry x).

Definition start_lockout (session : SessionId) (now : Instant) (lockout : Duration) (x : t) : exec t :=
  at_ ← instant_add now lockout; Done (mk (prompt_expiry x) (<[session:=at_]> (lockout_expiry x))).

Section sweeps.
Context `{HashOrder}.

Definition expired_prompts (now : Instant) (x : t) : list ElevationRequestId * t :=
  let '(ids, rest) := Timers.drain_expired (prompt_expiry x) now in (ids, mk rest (lockout_expiry x)).

Definition expired_lockouts (now : Instant) (x : t) : list SessionId * t :=
  let '(ids, rest) := Timers.drain_expired (lockout_expiry x) now in (ids, mk (prompt_expiry x) rest).
End sweeps.
End ElevationTimeouts.

Module SessionElevationAuth.
Record t := mk {
  locked_out : bool;
  attempts : N
}.
Definition default : t := mk false 0.
End SessionElevationAuth.

Module PendingElevation.
Record t := mk {
  session_id : SessionId;
  compositor_conn : ConnId;
  requester_conn : ConnId
}.
End PendingElevation.

Module PendingElevationInfo.
Record t := mk {
  session_id : SessionId;
  compositor_conn : ConnId
}.
End PendingElevationInfo.

Module ElevationOutcome.
Record t := mk {
  session_id : SessionId;
  compositor_conn : ConnId;
  requester_conn : ConnId;
  outcome : AuthOutcome.t;
  terminal : bool
}.
End ElevationOutcome.

Module AbandonedElevation.
Record t := mk {
  request_id : ElevationRequestId;
  session_id : SessionId;
  compositor_conn : ConnId;
  requester_conn : ConnId
}.
(** The report of pending request [id]. *)
Definition of_pending (id : ElevationRequestId) (p : PendingElevation.t) : t :=
  mk id (PendingElevation.session_id p) (PendingElevation.compositor_conn p)
     (PendingElevation.requester_conn p).
End AbandonedElevation.

Module ElevationManager.
Record t := mk {
  pending : gmap ElevationRequestId PendingElevation.t;
  next_id : N;
  session_auth : gmap SessionId SessionElevationAuth.t;
  timeouts : ElevationTimeouts.t;
  requester_uid : option Uid
}.

Definition new : t := mk ∅ 0 ∅ ElevationTimeouts.new None.

Definition set_requester_uid (uid : option Uid) (m : t) : t :=
  mk (pending m) (next_id m) (session_auth m) (timeouts m) uid.

Definition is_authorized_requester (uid : Uid) (m : t) : bool :=
  bool_decide (requester_uid m = Some uid).

Definition peek (id : ElevationRequestId) (m : t) : option PendingElevationInfo.t :=
  (λ p, PendingElevationInfo.mk (PendingElevation.session_id p) (PendingElevation.compositor_conn p))
    <$> pending m !! id.

Definition compositor_conn_for (id : ElevationRequestId) (m : t) : option ConnId :=
  PendingElevation.compositor_conn <$> pending m !! id.

Definition is_locked_out (session : SessionId) (m : t) : bool :=
  match session_auth m !! session with
  | Some a => SessionElevationAuth.locked_out a
  | None => false
  end.

(** [self.session_auth.entry(session).or_default()]. *)
Definition auth_entry (session : SessionId) (m : t) : SessionElevationAuth.t :=
  default SessionElevationAuth.default (session_auth m !! session).

Definition with_auth (session : SessionId) (a : SessionElevationAuth.t) (m : t) : t :=
  mk (pending m) (next_id m) (<[session:=a]> (session_auth m)) (timeouts m) (requester_uid m).

Definition with_timeouts (x : ElevationTimeouts.t) (m : t) : t :=
  mk (pending m) (next_id m) (session_auth m) x (requester_uid m).

(** Forget pending request [id] and its deadline. *)
Definition drop (id : ElevationRequestId) (m : t) : t :=
  mk (delete id (pending m)) (next_id m) (session_auth m)
     (ElevationTimeouts.cancel_prompt id (timeouts m)) (requester_uid m).

Section ops.
Context `{HashOrder}.

Definition pending_for_session (session : SessionId) (m : t) : nat :=
  count_values (λ p, PendingElevation.session_id p = session) (pending m).

Definition begin (session : SessionId) (compositor_conn requester_conn : ConnId)
    (policy : ElevationPolicy.t) (auth_policy : AuthPolicy.t) (now : Instant) (m : t)
    : exec (Result ElevationRequestId * t) :=
  if is_locked_out session m then
    Done (Err (SessionError.LockedOut (as_secs (AuthPolicy.lockout auth_policy))), m)
  else
    let n := pending_for_session session m in
    if (ElevationPolicy.max_pending_per_session policy <=? N.of_nat n)%N then
      Done (Err (SessionError.PermissionDenied
        ("session " +:+ pretty session +:+ " already has " +:+ pretty n +:+
         " elevation prompt(s) pending")), m)
    else
      let id := u64_add (next_id m) 1 in
      let p := PendingElevation.mk session compositor_conn requester_conn in
      x ← ElevationTimeouts.start_prompt id now (ElevationPolicy.prompt_timeout policy) (timeouts m);
      Done (Ok id, mk (<[id:=p]> (pending m)) id (session_auth m) x (requester_uid m)).

Definition attempt (id : ElevationRequestId) (authenticator : Authenticator) (request : AuthRequest.t)
    (auth_policy : AuthPolicy.t) (now : Instant) (m : t) : exec (option ElevationOutcome.t * t) :=
  match pending m !! id with
  | None => Done (None, m)
  | Some p =>
      let session := PendingElevation.session_id p in
      let e := auth_entry session m in
      let '(outcome, attempts) :=
        Auth.check authenticator request auth_policy (SessionElevationAuth.attempts e) in
      '(terminal, m) ←
        match outcome with
        | AuthOutcome.Success =>
            Done (true, with_auth session
              (SessionElevationAuth.mk (SessionElevationAuth.locked_out e) 0) m)
        | AuthOutcome.LockedOut _ =>
            x ← ElevationTimeouts.start_lockout session now (AuthPolicy.lockout auth_policy) (timeouts m);
            Done (true, with_timeouts x
              (with_auth session (SessionElevationAuth.mk true attempts) m))
        | AuthOutcome.Failure _ =>
            Done (false, with_auth session
              (SessionElevationAuth.mk (SessionElevationAuth.locked_out e) attempts) m)
        | AuthOutcome.Error _ | AuthOutcome.Cancelled =>
            Done (true, with_auth session
              (SessionElevationAuth.mk (SessionElevationAuth.locked_out e) attempts) m)
        end;
      Done (Some (ElevationOutcome.mk session (PendingElevation.compositor_conn p)
                    (PendingElevation.requester_conn p) outcome terminal),
            if terminal : bool then drop id m else m)
  end.

Definition cancel (id : ElevationRequestId) (m : t) : option ElevationOutcome.t * t :=
  match pending m !! id with
  | None => (None, m)
  | Some p =>
      (Some (ElevationOutcome.mk (PendingElevation.session_id p) (PendingElevation.compositor_conn p)
               (PendingElevation.requester_conn p) AuthOutcome.Cancelled true), drop id m)
  end.

Definition clear_expired_lockouts (now : Instant) (m : t) : t :=
  let '(ids, x) := ElevationTimeouts.expired_lockouts now (timeouts m) in
  foldl (λ m id, mk (pending m) (next_id m)
                    (alter (λ _, SessionElevationAuth.mk false 0) id (session_auth m))
                    (timeouts m) (requester_uid m))
        (with_timeouts x m) ids.

Definition take_abandoned (id : ElevationRequestId) (m : t) : option AbandonedElevation.t * t :=
  (AbandonedElevation.of_pending id <$> pending m !! id, drop id m).

(** [ids.into_iter().filter_map(|id| self.take_abandoned(id)).collect()]. *)
Fixpoint take_all_abandoned (ids : list ElevationRequestId) (m : t) : list AbandonedElevation.t * t :=
  match ids with
  | [] => ([], m)
  | id :: ids' =>
      let '(a, m) := take_abandoned id m in
      let '(rest, m) := take_all_abandoned ids' m in
      (match a with Some a => a :: rest | None => rest end, m)
  end.

Definition expire_pending (now : Instant) (m : t) : list AbandonedElevation.t * t :=
  let '(ids, x) := ElevationTimeouts.expired_prompts now (timeouts m) in
  take_all_abandoned ids (with_timeouts x m).

Definition abandon_where (predicate : PendingElevation.t → bool) (m : t)
    : list AbandonedElevation.t * t :=
  take_all_abandoned (filter (λ e, predicate e.2 = true) (hash_entries (pending m))).*1 m.

Definition abandon_session (session : SessionId) (m : t) : list AbandonedElevation.t * t :=
  abandon_where (λ p, bool_decide (PendingElevation.session_id p = session)) m.

Definition abandon_connection (conn_id : ConnId) (m : t) : list AbandonedElevation.t * t :=
  abandon_where (λ p, bool_decide (PendingElevation.compositor_conn p = conn_id)
                      || bool_decide (PendingElevation.requester_conn p = conn_id)) m.
End ops.
End ElevationManager.

(** ** Lemmas *)

(** A label the daemon forwards is non-empty where it must be and bounded. *)
Lemma validate_Ok a :
  ElevationAction.validate a = Ok () ↔
  (1 ≤ String.length (ElevationAction.requesting_app a) ≤ 256)%nat ∧
  (1 ≤ String.length (ElevationAction.description a) ≤ 256)%nat ∧
  (String.length (ElevationAction.duration_label a) ≤ 256)%nat.
Proof.
  unfold ElevationAction.validate, ElevationAction.MAX_LABEL_LEN.
  destruct a as [app d r l]; simpl. destruct app as [|c app]; simpl; [split; [done|lia]|].
  case_decide; [split; [done|lia]|]. destruct d as [|c' d]; simpl; [split; [done|lia]|].
  repeat case_decide; split; (done || lia).
Qed.

Section abandon_lemmas.
Context `{HashOrder}.
Implicit Types (m : ElevationManager.t) (ids : list ElevationRequestId).

Lemma take_all_state ids m :
  (ElevationManager.take_all_abandoned ids m).2 =
  ElevationManager.mk (delete_list ids (ElevationManager.pending m)) (ElevationManager.next_id m)
    (ElevationManager.session_auth m)
    (ElevationTimeouts.mk (delete_list ids (ElevationTimeouts.prompt_expiry (ElevationManager.timeouts m)))
       (ElevationTimeouts.lockout_expiry (ElevationManager.timeouts m)))
    (ElevationManager.requester_uid m).
Proof.
  revert m. induction ids as [|id ids IH]; intros m; simpl.
  { by destruct m as [? ? ? []]. }
  specialize (IH (ElevationManager.drop id m)).
  destruct (ElevationManager.take_all_abandoned ids _) as [l m']. simpl in *. by rewrite IH.
Qed.

Lemma elem_of_take_all ids m a :
  a ∈ (ElevationManager.take_all_abandoned ids m).1 ↔
  ∃ id p, id ∈ ids ∧ ElevationManager.pending m !! id = Some p ∧ a = AbandonedElevation.of_pending id p.
Proof.
  revert m. induction ids as [|i ids IH]; intros m; simpl; [set_solver|].
  specialize (IH (ElevationManager.drop i m)).
  destruct (ElevationManager.take_all_abandoned ids _) as [l m']. simpl in *.
  assert (a ∈ l ↔ ∃ id p, id ≠ i ∧ id ∈ ids ∧ ElevationManager.pending m !! id = Some p ∧
    a = AbandonedElevation.of_pending id p) as Hl.
  { rewrite IH. setoid_rewrite lookup_delete_Some. naive_solver. }
  clear IH. setoid_rewrite elem_of_cons.
  destruct (ElevationManager.pending m !! i) as [p|] eqn:Hi; simpl; rewrite ?elem_of_cons, Hl.
  - split; [naive_solver|]. intros (id & p' & [->|Hin] & Hp & ->); [naive_solver|].
    destruct (decide (id = i)) as [->|]; naive_solver.
  - split; [naive_solver|]. intros (id & p' & [->|Hin] & Hp & ->); [naive_solver|].
    destruct (decide (id = i)) as [->|]; naive_solver.
Qed.

(** No request is reported twice. *)
Lemma NoDup_take_all ids m :
  NoDup (AbandonedElevation.request_id <$> (ElevationManager.take_all_abandoned ids m).1).
Proof.
  revert m. induction ids as [|i ids IH]; intros m; simpl; [constructor|].
  pose proof (elem_of_take_all ids (ElevationManager.drop i m)) as Hin.
  specialize (IH (ElevationManager.drop i m)).
  destruct (ElevationManager.take_all_abandoned ids _) as [l m']. simpl in *.
  destruct (ElevationManager.pending m !! i) as [p|]; simpl; [|done]. constructor; [|done].
  intros (a & Ha & (id & p' & _ & Hp & ->)%Hin)%list_elem_of_fmap. simpl in Ha. subst id.
  by rewrite lookup_delete_eq in Hp.
Qed.

(** [abandon_where] reports each matching prompt, exactly once, and closes
    exactly those. *)
Lemma abandon_where_reports f m a :
  a ∈ (ElevationManager.abandon_where f m).1 ↔
  ∃ id p, ElevationManager.pending m !! id = Some p ∧ f p = true ∧ a = AbandonedElevation.of_pending id p.
Proof.
  unfold ElevationManager.abandon_where. rewrite elem_of_take_all.
  setoid_rewrite list_elem_of_fmap. setoid_rewrite list_elem_of_filter. split.
  - intros (id & p & ([i q] & -> & Hq & Hin) & Hp & ->). rewrite elem_of_hash_entries in Hin.
    simpl in *. simplify_eq. eauto.
  - intros (id & p & Hp & Hf & ->). exists id, p. split_and!; [|done..]. exists (id, p).
    by rewrite elem_of_hash_entries.
Qed.

Lemma take_all_reports (l : list (ElevationRequestId * PendingElevation.t)) m :
  NoDup l.*1 → Forall (λ e, ElevationManager.pending m !! e.1 = Some e.2) l →
  (ElevationManager.take_all_abandoned l.*1 m).1 = map (λ e, AbandonedElevation.of_pending e.1 e.2) l.
Proof.
  revert m. induction l as [|[id p] l IH]; intros m; [done|]. rewrite fmap_cons, NoDup_cons, Forall_cons. simpl.
  intros [Hid Hnd] [Hp Hl]. specialize (IH (ElevationManager.drop id m)).
  destruct (ElevationManager.take_all_abandoned l.*1 _) as [ab m']. rewrite Hp. simpl in *. f_equal.
  apply IH; [done|]. apply Forall_forall. intros [i q] Hin. eapply Forall_forall in Hl; [|exact Hin]. simpl in *.
  rewrite lookup_delete_ne; [done|]. intros ->. apply Hid, list_elem_of_fmap. by exists (i, q).
Qed.

(** The prompts [abandon_where] closes, in the order it visits them. *)
Definition matching (f : PendingElevation.t → bool) m : list (ElevationRequestId * PendingElevation.t) :=
  filter (λ e, f e.2 = true) (hash_entries (ElevationManager.pending m)).

Lemma elem_of_matching f m id p :
  (id, p) ∈ matching f m ↔ ElevationManager.pending m !! id = Some p ∧ f p = true.
Proof. unfold matching. rewrite list_elem_of_filter, elem_of_hash_entries. simpl. tauto. Qed.

Lemma NoDup_matching f m : NoDup (matching f m).*1.
Proof.
  unfold matching. pose proof (NoDup_hash_keys (ElevationManager.pending m)) as Hnd. unfold hash_keys in Hnd.
  induction (hash_entries _) as [|e l IH]; [constructor|]. rewrite fmap_cons, NoDup_cons in Hnd.
  destruct Hnd as [He Hnd]. rewrite filter_cons. case_decide; [|by apply IH].
  rewrite fmap_cons. constructor; [|by apply IH]. intros (x & Hx & [_ Hin]%list_elem_of_filter)%list_elem_of_fmap.
  apply He. rewrite Hx. by apply list_elem_of_fmap_2.
Qed.

Lemma abandon_where_matching f m :
  (ElevationManager.abandon_where f m).1 = map (λ e, AbandonedElevation.of_pending e.1 e.2) (matching f m).
Proof.
  apply take_all_reports; [apply NoDup_matching|]. apply Forall_forall. intros [id p] Hin.
  by apply elem_of_matching in Hin as [? _].
Qed.

Lemma abandon_where_pending f m id p :
  ElevationManager.pending (ElevationManager.abandon_where f m).2 !! id = Some p ↔
  ElevationManager.pending m !! id = Some p ∧ f p = false.
Proof.
  unfold ElevationManager.abandon_where. rewrite take_all_state. simpl. rewrite lookup_delete_list.
  assert (id ∈ (filter (λ e, f e.2 = true) (hash_entries (ElevationManager.pending m))).*1 ↔
    ∃ q, ElevationManager.pending m !! id = Some q ∧ f q = true) as Hin.
  { rewrite list_elem_of_fmap. setoid_rewrite list_elem_of_filter. split.
    - intros ([i q] & -> & Hq & Hin). rewrite elem_of_hash_entries in Hin. eauto.
    - intros (q & Hq & Hf). exists (id, q). by rewrite elem_of_hash_entries. }
  case_decide as Hd; rewrite Hin in Hd.
  - split; [done|]. destruct Hd as (q & Hq & Hf). naive_solver congruence.
  - split; [|naive_solver]. intros Hp. split; [done|]. destruct (f p) eqn:Hf; naive_solver.
Qed.

Lemma abandon_where_frame f m :
  let m' := (ElevationManager.abandon_where f m).2 in
  ElevationManager.session_auth m' = ElevationManager.session_auth m ∧
  ElevationManager.next_id m' = ElevationManager.next_id m ∧
  ElevationManager.requester_uid m' = ElevationManager.requester_uid m ∧
  ElevationTimeouts.lockout_expiry (ElevationManager.timeouts m') =
    ElevationTimeouts.lockout_expiry (ElevationManager.timeouts m).
Proof. unfold ElevationManager.abandon_where. by rewrite take_all_state. Qed.

End abandon_lemmas.

(** ** Invariant *)

Module ElevationInv.
(** A prompt is open exactly when its deadline is running. *)
Definition deadlines (m : ElevationManager.t) : Prop :=
  ∀ id, is_Some (ElevationManager.pending m !! id) ↔
        is_Some (ElevationTimeouts.prompt_expiry (ElevationManager.timeouts m) !! id).
(** Every open prompt has an identifier already handed out. *)
Definition issued (m : ElevationManager.t) : Prop :=
  map_Forall (λ id _, (1 ≤ id ≤ ElevationManager.next_id m)%N) (ElevationManager.pending m).
(** Every session locked out has a countdown running. *)
Definition timed (m : ElevationManager.t) : Prop :=
  map_Forall (λ s a, SessionElevationAuth.locked_out a = true →
    is_Some (ElevationTimeouts.lockout_expiry (ElevationManager.timeouts m) !! s))
    (ElevationManager.session_auth m).
Definition wf (m : ElevationManager.t) : Prop := deadlines m ∧ issued m ∧ timed m.
End ElevationInv.

Lemma new_elevations_wf : ElevationInv.wf ElevationManager.new.
Proof. split_and!; [|apply map_Forall_empty..]. intros id. simpl. by rewrite !lookup_empty. Qed.

Lemma drop_wf id m : ElevationInv.wf m → ElevationInv.wf (ElevationManager.drop id m).
Proof.
  intros (Hd & Hi & Ht). split_and!; [|by apply map_Forall_delete|done]. intros i. simpl.
  destruct (decide (i = id)) as [->|]; simplify_map_eq; [|apply Hd].
  by split; intros []%is_Some_None.
Qed.

Lemma set_requester_wf uid m : ElevationInv.wf m → ElevationInv.wf (ElevationManager.set_requester_uid uid m).
Proof. done. Qed.

Section elevation_ops.
Context `{HashOrder}.
Implicit Types (m : ElevationManager.t).

(** *** Opening a prompt *)

(** Everything [begin] can do. *)
Lemma begin_cases s c q p ap now m r m' :
  ElevationManager.begin s c q p ap now m = Done (r, m') →
  (ElevationManager.is_locked_out s m = true ∧ m' = m ∧
     r = Err (SessionError.LockedOut (as_secs (AuthPolicy.lockout ap)))) ∨
  (ElevationManager.is_locked_out s m = false ∧ m' = m ∧
     (ElevationPolicy.max_pending_per_session p ≤
        N.of_nat (ElevationManager.pending_for_session s m))%N ∧
     ∃ msg, r = Err (SessionError.PermissionDenied msg)) ∨
  (ElevationManager.is_locked_out s m = false ∧
     (N.of_nat (ElevationManager.pending_for_session s m) <
        ElevationPolicy.max_pending_per_session p)%N ∧
     ∃ id, id = u64_add (ElevationManager.next_id m) 1 ∧ r = Ok id ∧
       m' = ElevationManager.mk (<[id := PendingElevation.mk s c q]> (ElevationManager.pending m)) id
         (ElevationManager.session_auth m)
         (ElevationTimeouts.mk
            (<[id := (now + ElevationPolicy.prompt_timeout p)%N]>
               (ElevationTimeouts.prompt_expiry (ElevationManager.timeouts m)))
            (ElevationTimeouts.lockout_expiry (ElevationManager.timeouts m)))
         (ElevationManager.requester_uid m)).
Proof.
  unfold ElevationManager.begin, ElevationTimeouts.start_prompt.
  destruct (ElevationManager.is_locked_out s m); [naive_solver|].
  destruct (N.leb_spec (ElevationPolicy.max_pending_per_session p)
    (N.of_nat (ElevationManager.pending_for_session s m))); [naive_solver|].
  destruct (instant_add _ _) as [t|] eqn:Ht; [|done]. apply instant_add_Done in Ht as ->.
  intros; simplify_eq/=. right. right. split_and!; [done..|]. by eexists.
Qed.

(** Identifiers are never reused while an older one can still be open. *)
Lemma begin_fresh m :
  ElevationInv.wf m → is_u64 (ElevationManager.next_id m + 1) →
  ElevationManager.pending m !! u64_add (ElevationManager.next_id m) 1 = None.
Proof.
  intros (_ & Hi & _) Hu. rewrite u64_add_small by done.
  destruct (_ !! _) as [p|] eqn:Hp; [|done]. apply Hi in Hp. lia.
Qed.

Lemma begin_wf s c q p ap now m r m' :
  ElevationManager.begin s c q p ap now m = Done (r, m') →
  is_u64 (ElevationManager.next_id m + 1) → ElevationInv.wf m → ElevationInv.wf m'.
Proof.
  intros [(_ & -> & _)|[(_ & -> & _)|(_ & _ & id & Hid & -> & ->)]]%begin_cases Hu Hwf; [done..|].
  destruct Hwf as (Hd & Hi & Ht). rewrite u64_add_small in Hid by done. split_and!; [| |done].
  - intros i. simpl. rewrite !lookup_insert_is_Some. by rewrite (Hd i).
  - apply map_Forall_insert_2; [simpl; lia|]. eapply map_Forall_impl; [done|]. simpl. lia.
Qed.

(** *** Answering a prompt *)

(** Everything [attempt] can do with an open prompt: accept and close, refuse
    and leave open, or lock out and close.  The answer is addressed to the two
    connections recorded when the prompt was opened. *)
Lemma attempt_cases id a r ap now m p o m' :
  ElevationManager.pending m !! id = Some p →
  ElevationManager.attempt id a r ap now m = Done (o, m') →
  let s := PendingElevation.session_id p in
  let e := ElevationManager.auth_entry s m in
  let n := SessionElevationAuth.attempts e in
  let answer out term := Some (ElevationOutcome.mk s (PendingElevation.compositor_conn p)
                                 (PendingElevation.requester_conn p) out term) in
  (accepts a r = true ∧ o = answer AuthOutcome.Success true ∧
     m' = ElevationManager.drop id (ElevationManager.with_auth s
            (SessionElevationAuth.mk (SessionElevationAuth.locked_out e) 0) m)) ∨
  (accepts a r = false ∧ (u32_add n 1 < AuthPolicy.max_attempts ap)%N ∧
     o = answer (AuthOutcome.Failure (u32_sub (AuthPolicy.max_attempts ap) (u32_add n 1))) false ∧
     m' = ElevationManager.with_auth s
            (SessionElevationAuth.mk (SessionElevationAuth.locked_out e) (u32_add n 1)) m) ∨
  (accepts a r = false ∧ (AuthPolicy.max_attempts ap ≤ u32_add n 1)%N ∧
     o = answer (AuthOutcome.LockedOut (as_secs (AuthPolicy.lockout ap))) true ∧
     m' = ElevationManager.drop id (ElevationManager.with_timeouts
            (ElevationTimeouts.mk (ElevationTimeouts.prompt_expiry (ElevationManager.timeouts m))
               (<[s := (now + AuthPolicy.lockout ap)%N]>
                  (ElevationTimeouts.lockout_expiry (ElevationManager.timeouts m))))
            (ElevationManager.with_auth s (SessionElevationAuth.mk true (u32_add n 1)) m))).
Proof.
  intros Hp Ha s e n answer. subst s e n answer. unfold ElevationManager.attempt in Ha. rewrite Hp in Ha.
  unfold Auth.check, accepts in *. destruct (authenticate a r) as [[]|err]; simpl in *.
  { left. by simplify_eq. }
  right. destruct (N.leb_spec (AuthPolicy.max_attempts ap)
    (u32_add (SessionElevationAuth.attempts
       (ElevationManager.auth_entry (PendingElevation.session_id p) m)) 1)); simpl in *.
  - right. unfold ElevationTimeouts.start_lockout in Ha.
    destruct (instant_add _ _) as [t|] eqn:Ht; [|done]. apply instant_add_Done in Ht as ->.
    by simplify_eq/=.
  - left. by simplify_eq.
Qed.

Lemma attempt_elevation_panics id a r ap now m :
  ElevationManager.attempt id a r ap now m = Panicked → instant_add now (AuthPolicy.lockout ap) = Panicked.
Proof.
  unfold ElevationManager.attempt, ElevationTimeouts.start_lockout. repeat case_match; try done.
  by destruct (instant_add _ _).
Qed.

Lemma begin_panics s c q p ap now m :
  ElevationManager.begin s c q p ap now m = Panicked →
  instant_add now (ElevationPolicy.prompt_timeout p) = Panicked.
Proof.
  unfold ElevationManager.begin, ElevationTimeouts.start_prompt. repeat case_match; try done.
  by destruct (instant_add _ _).
Qed.

Lemma with_auth_wf s a m :
  (SessionElevationAuth.locked_out a = true →
     is_Some (ElevationTimeouts.lockout_expiry (ElevationManager.timeouts m) !! s)) →
  ElevationInv.wf m → ElevationInv.wf (ElevationManager.with_auth s a m).
Proof. intros Ha (Hd & Hi & Ht). split_and!; [done..|]. by apply map_Forall_insert_2. Qed.

Lemma attempt_elevation_wf id a r ap now m o m' :
  ElevationManager.attempt id a r ap now m = Done (o, m') → ElevationInv.wf m → ElevationInv.wf m'.
Proof.
  intros Ha Hwf. destruct (ElevationManager.pending m !! id) as [p|] eqn:Hp.
  2: { unfold ElevationManager.attempt in Ha. rewrite Hp in Ha. by simplify_eq. }
  assert (SessionElevationAuth.locked_out (ElevationManager.auth_entry (PendingElevation.session_id p) m) = true →
    is_Some (ElevationTimeouts.lockout_expiry (ElevationManager.timeouts m) !! PendingElevation.session_id p)) as Hlo.
  { unfold ElevationManager.auth_entry. destruct Hwf as (_ & _ & Ht).
    destruct (_ !! PendingElevation.session_id p) as [e|] eqn:He; [|done]. apply (Ht _ _ He). }
  destruct (attempt_cases _ _ _ _ _ _ _ _ _ Hp Ha) as [(_ & _ & ->)|[(_ & _ & _ & ->)|(_ & _ & _ & ->)]].
  - by apply drop_wf, with_auth_wf.
  - by apply with_auth_wf.
  - apply drop_wf. destruct Hwf as (Hd & Hi & Ht). split_and!; [done..|].
    apply map_Forall_insert_2; [simpl; by rewrite lookup_insert_eq|].
    eapply map_Forall_impl; [done|]. intros i x Hx Hxo. apply lookup_insert_is_Some'. right. auto.
Qed.

Lemma cancel_wf id m : ElevationInv.wf m → ElevationInv.wf (ElevationManager.cancel id m).2.
Proof. unfold ElevationManager.cancel. case_match; [apply drop_wf|done]. Qed.

(** *** Closing prompts *)

Lemma take_all_wf ids m :
  ElevationInv.wf m → ElevationInv.wf (ElevationManager.take_all_abandoned ids m).2.
Proof.
  revert m. induction ids as [|id ids IH]; intros m Hwf; simpl; [done|].
  specialize (IH (ElevationManager.drop id m) (drop_wf _ _ Hwf)).
  by destruct (ElevationManager.take_all_abandoned ids _).
Qed.

Lemma abandon_where_wf f m : ElevationInv.wf m → ElevationInv.wf (ElevationManager.abandon_where f m).2.
Proof. apply take_all_wf. Qed.

(** The state after [expire_pending], in one piece. *)
Lemma expire_state now m :
  let ids := (ElevationTimeouts.expired_prompts now (ElevationManager.timeouts m)).1 in
  (ElevationManager.expire_pending now m).2 = (ElevationManager.take_all_abandoned ids m).2.
Proof.
  unfold ElevationManager.expire_pending, ElevationTimeouts.expired_prompts. simpl.
  rewrite !take_all_state. simpl. do 2 f_equal. apply map_eq. intros i.
  rewrite !lookup_delete_list. by repeat case_decide.
Qed.

Lemma expire_wf now m : ElevationInv.wf m → ElevationInv.wf (ElevationManager.expire_pending now m).2.
Proof. rewrite expire_state. apply take_all_wf. Qed.

(** [expire_pending] reports, once each, the prompts whose deadline has come ... *)
Lemma expire_reports now m a :
  ElevationInv.wf m →
  a ∈ (ElevationManager.expire_pending now m).1 ↔
  ∃ id p t, ElevationManager.pending m !! id = Some p ∧
    ElevationTimeouts.prompt_expiry (ElevationManager.timeouts m) !! id = Some t ∧ (t ≤ now)%N ∧
    a = AbandonedElevation.of_pending id p.
Proof.
  intros (Hd & _). unfold ElevationManager.expire_pending, ElevationTimeouts.expired_prompts.
  pose proof (elem_of_drain (ElevationTimeouts.prompt_expiry (ElevationManager.timeouts m)) now) as Hin.
  destruct (Timers.drain_expired _ now) as [ids rest]. simpl in *. rewrite elem_of_take_all.
  setoid_rewrite Hin. simpl. naive_solver.
Qed.

(** ... and leaves the others open. *)
Lemma expire_pending_rest now m id p :
  ElevationInv.wf m →
  ElevationManager.pending (ElevationManager.expire_pending now m).2 !! id = Some p ↔
  ElevationManager.pending m !! id = Some p ∧
  ∃ t, ElevationTimeouts.prompt_expiry (ElevationManager.timeouts m) !! id = Some t ∧ (now < t)%N.
Proof.
  intros (Hd & _). rewrite expire_state, take_all_state. simpl. rewrite lookup_delete_list.
  pose proof (elem_of_drain (ElevationTimeouts.prompt_expiry (ElevationManager.timeouts m)) now id) as Hin.
  simpl in Hin. specialize (Hd id). case_decide as Hdec; rewrite Hin in Hdec; clear Hin.
  - split; [done|]. intros (_ & t & Ht & Hlt). destruct Hdec as (t' & ? & ?). simplify_eq. lia.
  - split; [|naive_solver]. intros Hp. split; [done|]. rewrite Hp in Hd.
    destruct (proj1 Hd) as [t Ht]; [by eexists|]. exists t. split; [done|].
    destruct (N.lt_ge_cases now t); naive_solver.
Qed.

(** *** Ending lockouts *)

Lemma foldl_clear_auth ids m :
  let m' := foldl (λ m id, ElevationManager.mk (ElevationManager.pending m) (ElevationManager.next_id m)
      (alter (λ _, SessionElevationAuth.mk false 0) id (ElevationManager.session_auth m))
      (ElevationManager.timeouts m) (ElevationManager.requester_uid m)) m ids in
  (∀ s, ElevationManager.session_auth m' !! s =
     if decide (s ∈ ids) then (λ _, SessionElevationAuth.mk false 0) <$> ElevationManager.session_auth m !! s
     else ElevationManager.session_auth m !! s) ∧
  ElevationManager.pending m' = ElevationManager.pending m ∧
  ElevationManager.next_id m' = ElevationManager.next_id m ∧
  ElevationManager.timeouts m' = ElevationManager.timeouts m ∧
  ElevationManager.requester_uid m' = ElevationManager.requester_uid m.
Proof.
  revert m. induction ids as [|i ids IH]; intros m; [done|]. cbn [foldl].
  edestruct IH as (Hs & Hp & Hn & Ht & Hr). rewrite Hp, Hn, Ht, Hr. simpl. split; [|done].
  intros s. rewrite Hs. simpl. rewrite lookup_alter. clear.
  repeat case_decide; set_unfold; subst; try done; try (exfalso; naive_solver).
  all: by destruct (ElevationManager.session_auth m !! s).
Qed.

Lemma clear_expired_auth now m s :
  ElevationManager.session_auth (ElevationManager.clear_expired_lockouts now m) !! s =
  match ElevationTimeouts.lockout_expiry (ElevationManager.timeouts m) !! s with
  | Some t => if decide (t ≤ now)%N
              then (λ _, SessionElevationAuth.mk false 0) <$> ElevationManager.session_auth m !! s
              else ElevationManager.session_auth m !! s
  | None => ElevationManager.session_auth m !! s
  end.
Proof.
  unfold ElevationManager.clear_expired_lockouts, ElevationTimeouts.expired_lockouts.
  pose proof (elem_of_drain (ElevationTimeouts.lockout_expiry (ElevationManager.timeouts m)) now s) as Hin.
  destruct (Timers.drain_expired _ now) as [ids rest]. simpl in Hin.
  edestruct (foldl_clear_auth ids) as [Hs _]. rewrite Hs. simpl.
  destruct (_ !! s) as [t|]; repeat case_decide; naive_solver.
Qed.

Lemma clear_expired_frame now m :
  let m' := ElevationManager.clear_expired_lockouts now m in
  ElevationManager.pending m' = ElevationManager.pending m ∧
  ElevationManager.next_id m' = ElevationManager.next_id m ∧
  ElevationManager.requester_uid m' = ElevationManager.requester_uid m ∧
  ElevationTimeouts.prompt_expiry (ElevationManager.timeouts m') =
    ElevationTimeouts.prompt_expiry (ElevationManager.timeouts m).
Proof.
  unfold ElevationManager.clear_expired_lockouts, ElevationTimeouts.expired_lockouts.
  destruct (Timers.drain_expired _ now) as [ids rest].
  edestruct (foldl_clear_auth ids) as (_ & Hp & Hn & Ht & Hr). simpl. by rewrite Hp, Hn, Ht, Hr.
Qed.

Lemma clear_expired_wf now m :
  ElevationInv.wf m → ElevationInv.wf (ElevationManager.clear_expired_lockouts now m).
Proof.
  intros (Hd & Hi & Ht). destruct (clear_expired_frame now m) as (Hp & Hn & _ & Hpe).
  split_and!.
  - intros id. by rewrite Hp, Hpe.
  - unfold ElevationInv.issued. by rewrite Hp, Hn.
  - intros s e. rewrite clear_expired_auth. intros He Hlo.
    unfold ElevationManager.clear_expired_lockouts, ElevationTimeouts.expired_lockouts.
    destruct (Timers.drain_expired _ now) as [ids rest] eqn:Hdr.
    edestruct (foldl_clear_auth ids) as (_ & _ & _ & -> & _). simpl.
    destruct (ElevationTimeouts.lockout_expiry (ElevationManager.timeouts m) !! s) as [t|] eqn:Hst.
    + case_decide; [apply fmap_Some in He as (? & _ & ->); done|]. exists t.
      change rest with (ids, rest).2. rewrite <- Hdr. apply lookup_drain. split; [done|lia].
    + destruct (Ht _ _ He Hlo) as [t Ht']. naive_solver.
Qed.

End elevation_ops.
