(* ===== verification/Ipc.v ===== *)
(** * Ipc: message shapes, the connection registry, audit events
    (src/src/ipc/messages.rs, src/src/ipc/server.rs, src/src/ipc/permissions.rs,
    src/src/logging/audit.rs) *)

From stdpp Require Import base gmap strings pretty numbers list.
From S2P Require Import Prelude Errors System Session Auth Lock Elevation.

Module Request.
Inductive t : Type :=
| CreateSession (user_name : string) (seat_id session_type : option string)
| TerminateSession (session_id : SessionId)
| RegisterCompositor (session_id : SessionId)
| ListSessions
| SessionStatus (session_id : SessionId)
| LockSession (session_id : SessionId)
| Unlock (session_id : SessionId) (user_name password : string)
| ReportActivity (seat_id : string)
| SwitchSession (seat_id : string) (session_id : SessionId)
| Inhibit (what : InhibitWhat.t) (who why : string) (mode : InhibitMode.t)
| ReleaseInhibit (inhibit_id : N)
| ListInhibitors
| Suspend
| Reboot
| PowerOff
| RequestElevation (session_id : SessionId) (action : ElevationAction.t)
| RespondElevation (request_id : ElevationRequestId) (response : ElevationResponse.t).
End Request.

Module SessionInfo.
Record t := mk {
  id : SessionId;
  uid : Uid;
  user_name : string;
  seat_id : string;
  session_type : SessionType.t;
  state : string;
  locked : bool;
  created_at : N
}.
End SessionInfo.

Module InhibitorInfo.
Record t := mk {
  id : N;
  what : InhibitWhat.t;
  who : string;
  why : string;
  mode : InhibitMode.t
}.
End InhibitorInfo.

Module Response.
Inductive t : Type :=
| Ok
| Sessions (l : list SessionInfo.t)
| Session (i : SessionInfo.t)
| AuthResult (o : AuthOutcome.t)
| InhibitGranted (inhibit_id : N)
| Inhibitors (l : list InhibitorInfo.t)
| Error (msg : string).
End Response.

Module Event.
Inductive t : Type :=
| ShowLockScreen (session_id : SessionId) (reason : LockReason.t)
| HideLockScreen (session_id : SessionId)
| AuthFeedback (session_id : SessionId) (outcome : AuthOutcome.t)
| Dim (seat_id : string)
| Undim (seat_id : string)
| PrepareForSleep
| ResumedFromSleep
| SessionActivated (seat_id : string) (session_id : SessionId)
| ShowElevationPrompt (request_id : ElevationRequestId) (session_id : SessionId)
    (action : ElevationAction.t)
| ElevationFeedback (request_id : ElevationRequestId) (outcome : AuthOutcome.t)
| HideElevationPrompt (request_id : ElevationRequestId).
End Event.

Module Message.
Inductive t : Type := Response (r : Response.t) | Event (e : Event.t).
End Message.

Module PeerCred.
Record t := mk {
  uid : Uid;
  gid : Gid;
  pid : Z
}.
Definition is_root (cred : t) : bool := (uid cred =? 0)%N.

(** [peer_credentials]: what [SO_PEERCRED] says of the socket. *)
Definition peer_credentials (getsockopt : result string (Uid * Gid * Z)) : Result t :=
  '(uid, gid, pid) ← map_err (λ e, SessionError.Protocol ("SO_PEERCRED failed: " +:+ e)) getsockopt;
  Ok (mk uid gid pid).
End PeerCred.

Module AuditEvent.
Record t := mk {
  timestamp_unix : N;
  actor_uid : Uid;
  action : string;
  target : option string;
  detail : option string;
  outcome : string
}.
(** [SystemTime::now()] is a number of nanoseconds since the epoch, and none
    before it ([unwrap_or_default]). *)
Definition new (actor_uid : Uid) (action outcome : string) (w : World) : t :=
  mk (as_secs (w_system_time w)) actor_uid action None None outcome.
Definition with_target (target : string) (e : t) : t :=
  mk (timestamp_unix e) (actor_uid e) (action e) (Some target) (detail e) (outcome e).
Definition with_detail (detail : string) (e : t) : t :=
  mk (timestamp_unix e) (actor_uid e) (action e) (target e) (Some detail) (outcome e).
End AuditEvent.

(** ** Effects

    What handling an event does to the outside, in order: system calls, messages
    put into the outbox of a connection, and audit records, each with the audit
    path configured when it was written ([None] sends it to the general log). *)
Module Effect.
Inductive t : Type :=
| Sys (c : SysCall.t)
| Sent (conn : ConnId) (m : Message.t)
| Audit (path : option Path) (e : AuditEvent.t).
End Effect.

(** The sending half of a connection's outbox. *)
Abbreviation Sender := N (only parsing).

Module ConnRegistry.
Record t := mk { outboxes : gmap ConnId Sender }.

Definition new : t := mk ∅.

Definition register (id : ConnId) (outbox : Sender) (r : t) : t := mk (<[id:=outbox]> (outboxes r)).

Definition unregister (id : ConnId) (r : t) : t := mk (delete id (outboxes r)).

(** A send to a connection that is not registered is dropped; a send to one that
    is goes into its outbox, and an error of the channel is ignored. *)
Definition send (id : ConnId) (m : Message.t) (r : t) : list Effect.t :=
  match outboxes r !! id with
  | Some _ => [Effect.Sent id m]
  | None => []
  end.
Definition send_response (id : ConnId) (response : Response.t) (r : t) : list Effect.t :=
  send id (Message.Response response) r.
Definition send_event (id : ConnId) (event : Event.t) (r : t) : list Effect.t :=
  send id (Message.Event event) r.
End ConnRegistry.

(** One parsed request on its way to the daemon's thread, and everything the
    connection threads hand to it. *)
Module ManagerCommand.
Record t := mk {
  conn_id : ConnId;
  peer : PeerCred.t;
  request : Request.t
}.
End ManagerCommand.

Module ManagerMessage.
Inductive t : Type :=
| Connected (conn_id : ConnId) (peer : PeerCred.t) (outbox : Sender)
| Command (cmd : ManagerCommand.t)
| Disconnected (conn_id : ConnId).
End ManagerMessage.

(** ** Reading a list of effects *)

(** The replies put into outboxes, in order, each with its connection. *)
Fixpoint responses (l : list Effect.t) : list (ConnId * Response.t) :=
  match l with
  | [] => []
  | Effect.Sent c (Message.Response r) :: l' => (c, r) :: responses l'
  | _ :: l' => responses l'
  end.

(** The replies to [conn] among them. *)
Definition replies_to (conn : ConnId) (l : list Effect.t) : list Response.t :=
  (filter (λ x, x.1 = conn) (responses l)).*2.

(** The commands started, in order. *)
Fixpoint spawned (l : list Effect.t) : list Command :=
  match l with
  | [] => []
  | Effect.Sys (SysCall.Spawn c) :: l' => c :: spawned l'
  | _ :: l' => spawned l'
  end.

Create Rewrite HintDb mitos_effects.

Lemma responses_app l1 l2 : responses (l1 ++ l2) = responses l1 ++ responses l2.
Proof. induction l1 as [|[|c []|] l1 IH]; simpl; try done. by f_equal. Qed.

Lemma responses_sys (l : list SysCall.t) : responses (map Effect.Sys l) = [].
Proof. by induction l. Qed.

Lemma responses_event c e r : responses (ConnRegistry.send_event c e r) = [].
Proof. unfold ConnRegistry.send_event, ConnRegistry.send. by case_match. Qed.

Lemma responses_response c x r :
  responses (ConnRegistry.send_response c x r) =
    if decide (is_Some (ConnRegistry.outboxes r !! c)) then [(c, x)] else [].
Proof.
  unfold ConnRegistry.send_response, ConnRegistry.send.
  destruct (ConnRegistry.outboxes r !! c); case_decide as Hd; try done; by destruct Hd.
Qed.

Lemma elem_of_responses l c x :
  (c, x) ∈ responses l ↔ Effect.Sent c (Message.Response x) ∈ l.
Proof.
  induction l as [|[|k []|] l IH]; simpl; [set_solver|..]; rewrite elem_of_cons, ?elem_of_cons, IH;
    naive_solver.
Qed.

Lemma elem_of_spawned l cmd : cmd ∈ spawned l ↔ Effect.Sys (SysCall.Spawn cmd) ∈ l.
Proof.
  induction l as [|[[]| |] l IH]; simpl; [set_solver|..]; rewrite elem_of_cons, ?elem_of_cons, IH;
    naive_solver.
Qed.

Lemma spawned_app l1 l2 : spawned (l1 ++ l2) = spawned l1 ++ spawned l2.
Proof. induction l1 as [|[[]| |] l1 IH]; simpl; try done. by f_equal. Qed.

Lemma spawned_send c m r : spawned (ConnRegistry.send c m r) = [].
Proof. unfold ConnRegistry.send. by case_match. Qed.

Lemma spawned_event c e r : spawned (ConnRegistry.send_event c e r) = [].
Proof. apply spawned_send. Qed.

Lemma spawned_response c x r : spawned (ConnRegistry.send_response c x r) = [].
Proof. apply spawned_send. Qed.

(** None of these calls starts a process. *)
Definition no_spawn (l : list SysCall.t) : Prop := Forall (λ c, ∀ cmd, c ≠ SysCall.Spawn cmd) l.

Lemma spawned_no_spawn l : no_spawn l → spawned (map Effect.Sys l) = [].
Proof. induction 1 as [|c l Hc _ IH]; simpl; [done|]. destruct c; try done. by destruct (Hc c). Qed.

#[export] Hint Rewrite responses_app responses_sys responses_event spawned_app spawned_event
  spawned_response : mitos_effects.
