(* ===== verification/Protocol.v ===== *)
(** * Protocol: the framing of messages on a socket
    (src/src/ipc/protocol.rs, and the loops over it of src/src/ipc/client.rs and
    src/src/ipc/server.rs)

    A frame is a 4-byte little-endian length and that many bytes of bincode.
    bincode is not in the repository: it is the class [Codec], and what the
    daemon and its clients rely on, that decoding inverts encoding, is the class
    [CodecLaws]. *)

From Stdlib Require Import Strings.Byte.
From stdpp Require Import base strings pretty numbers list.
From S2P Require Import Prelude Errors Session Auth Lock Elevation Ipc.

Class Codec (T : Type) := {
  serialize : T → result string (list byte);
  deserialize : list byte → result string T
}.

Class CodecLaws (T : Type) `{Codec T} := {
  deserialize_serialize : ∀ (x : T) bs, serialize x = Ok bs → deserialize bs = Ok x
}.

(** ** Sockets as sources and sinks of bytes *)

(** The reading end: the bytes that will arrive, and what follows them, the end
    of the stream or an I/O error. *)
Module Reader.
Record t := mk {
  bytes : list byte;
  ending : option IoError
}.
Definition eof : IoError := {| io_kind := ErrorKind.UnexpectedEof; io_text := "failed to fill whole buffer" |}.

(** [Read::read_exact] on a buffer of [n] bytes. *)
Definition read_exact (n : nat) (r : t) : result IoError (list byte) * t :=
  if decide (n ≤ length (bytes r))%nat
  then (Ok (take n (bytes r)), mk (drop n (bytes r)) (ending r))
  else (Err (default eof (ending r)), mk [] (ending r)).
End Reader.

(** The writing end: the bytes accepted so far, and how many more it takes
    before it fails. *)
Module Writer.
Record t := mk {
  out : list byte;
  room : option (nat * IoError)
}.

(** [Write::write_all]. *)
Definition write_all (bs : list byte) (w : t) : result IoError () * t :=
  match room w with
  | None => (Ok (), mk (out w ++ bs) None)
  | Some (k, e) =>
      if decide (length bs ≤ k)%nat
      then (Ok (), mk (out w ++ bs) (Some ((k - length bs)%nat, e)))
      else (Err e, mk (out w ++ take k bs) (Some (0%nat, e)))
  end.
End Writer.

(** ** Framing *)

Module Protocol.
Definition MAX_MESSAGE_LEN : N := 16 * 1024 * 1024.

Definition byte_of (n : N) : byte := default x00 (Byte.of_N (n `mod` 256)).

(** [u32::to_le_bytes] and [u32::from_le_bytes]. *)
Definition to_le_bytes (n : N) : list byte :=
  [byte_of n; byte_of (n `div` 2 ^ 8); byte_of (n `div` 2 ^ 16); byte_of (n `div` 2 ^ 24)].
Definition from_le_bytes (l : list byte) : N :=
  foldr (λ b n, (Byte.to_N b + 256 * n)%N) 0%N l.

Section framing.
Context {T : Type} `{Codec T}.

Definition write_message (msg : T) (w : Writer.t) : Result () * Writer.t :=
  match serialize msg with
  | Err e => (Err (SessionError.from_bincode e), w)
  | Ok payload =>
      let len := N.of_nat (length payload) in
      if (len <=? u32_MAX)%N then
        match Writer.write_all (to_le_bytes len) w with
        | (Err e, w) => (Err (SessionError.from_io e), w)
        | (Ok _, w) =>
            match Writer.write_all payload w with
            | (Err e, w) => (Err (SessionError.from_io e), w)
            | (Ok _, w) => (Ok (), w)
            end
        end
      else (Err (SessionError.Protocol "message too large to frame"), w)
  end.

Definition read_message (r : Reader.t) : Result T * Reader.t :=
  match Reader.read_exact 4 r with
  | (Err e, r) =>
      (Err (if decide (io_kind e = ErrorKind.UnexpectedEof) then SessionError.Disconnected
            else SessionError.Io e), r)
  | (Ok len_buf, r) =>
      let len := from_le_bytes len_buf in
      if (MAX_MESSAGE_LEN <? len)%N then
        (Err (SessionError.Protocol
          ("message of " +:+ pretty len +:+ " bytes exceeds the " +:+ pretty MAX_MESSAGE_LEN
           +:+ " byte limit")), r)
      else
        match Reader.read_exact (N.to_nat len) r with
        | (Err e, r) => (Err (SessionError.from_io e), r)
        | (Ok payload, r) => (map_err SessionError.from_bincode (deserialize payload), r)
        end
  end.

(** A loop that reads until [read_message] fails: the messages, and the error
    that ended it.  Each turn takes at least four bytes, so the number of bytes
    is fuel enough. *)
Fixpoint read_loop (fuel : nat) (r : Reader.t) : list T * SessionError.t * Reader.t :=
  match fuel with
  | O => ([], SessionError.Disconnected, r)
  | S fuel' =>
      match read_message r with
      | (Ok x, r) => let '(xs, e, r) := read_loop fuel' r in (x :: xs, e, r)
      | (Err e, r) => ([], e, r)
      end
  end.
End framing.
End Protocol.

(** The reading half of [handle_connection]: the requests forwarded to the
    daemon, and the error that closes the connection. *)
Module Connection.
Definition forwarded `{Codec Request.t} (r : Reader.t) : list Request.t * SessionError.t :=
  (Protocol.read_loop (S (length (Reader.bytes r))) r).1.
End Connection.

(** The one-shot client. *)
Module IpcClient.
Section client.
Context `{Codec Request.t} `{Codec Message.t}.

Fixpoint await (fuel : nat) (r : Reader.t) : Result Response.t * Reader.t :=
  match fuel with
  | O => (Err SessionError.Disconnected, r)
  | S fuel' =>
      match Protocol.read_message (T:=Message.t) r with
      | (Err e, r) => (Err e, r)
      | (Ok (Message.Response resp), r) => (Ok resp, r)
      | (Ok (Message.Event _), r) => await fuel' r
      end
  end.

Definition call (request : Request.t) (w : Writer.t) (r : Reader.t)
    : Result Response.t * Writer.t * Reader.t :=
  match Protocol.write_message request w with
  | (Err e, w) => (Err e, w, r)
  | (Ok _, w) => let '(res, r) := await (S (length (Reader.bytes r))) r in (res, w, r)
  end.
End client.
End IpcClient.

(** ** Lemmas *)

Lemma to_N_byte_of n : Byte.to_N (Protocol.byte_of n) = (n `mod` 256)%N.
Proof.
  unfold Protocol.byte_of. assert (n `mod` 256 < 256)%N as Hlt by by apply N.mod_lt.
  destruct (Byte.of_N (n `mod` 256)) as [b|] eqn:Hb; simpl.
  - by apply Byte.to_of_N.
  - apply Byte.of_N_None_iff in Hb. lia.
Qed.

Lemma le_bytes_roundtrip n : is_u32 n → Protocol.from_le_bytes (Protocol.to_le_bytes n) = n.
Proof.
  unfold is_u32. intros Hn. unfold Protocol.from_le_bytes, Protocol.to_le_bytes. simpl.
  rewrite !to_N_byte_of. change (2 ^ 8)%N with 256%N.
  change (2 ^ 16)%N with (256 * 256)%N. change (2 ^ 24)%N with (256 * 256 * 256)%N.
  rewrite <- !N.Div0.div_div.
  assert ((((n `div` 256) `div` 256) `div` 256) < 256)%N.
  { rewrite !N.Div0.div_div. apply N.Div0.div_lt_upper_bound. lia. }
  rewrite (N.mod_small ((((n `div` 256) `div` 256) `div` 256))) by done.
  pose proof (N.div_mod' n 256). pose proof (N.div_mod' (n `div` 256) 256).
  pose proof (N.div_mod' ((n `div` 256) `div` 256) 256). lia.
Qed.

(** The bytes of one message on the wire. *)
Definition frame (payload : list byte) : list byte :=
  Protocol.to_le_bytes (N.of_nat (length payload)) ++ payload.

Lemma length_to_le_bytes n : length (Protocol.to_le_bytes n) = 4%nat.
Proof. done. Qed.

Lemma read_exact_app n bs rest e :
  length bs = n → Reader.read_exact n (Reader.mk (bs ++ rest) e) = (Ok bs, Reader.mk rest e).
Proof.
  intros <-. unfold Reader.read_exact. simpl. rewrite decide_True by (rewrite length_app; lia).
  by rewrite take_app_length, drop_app_length.
Qed.

Lemma read_exact_short n bs e :
  (length bs < n)%nat →
  Reader.read_exact n (Reader.mk bs e) = (Err (default Reader.eof e), Reader.mk [] e).
Proof. intros. unfold Reader.read_exact. simpl. by rewrite decide_False by lia. Qed.

#[local] Opaque Protocol.to_le_bytes.

Section framing_lemmas.
Context {T : Type} `{Codec T}.
Implicit Types (x : T) (payload : list byte).

(** What a writer that does not fail receives. *)
Lemma write_message_frame x payload o :
  serialize x = Ok payload → (N.of_nat (length payload) ≤ u32_MAX)%N →
  Protocol.write_message x (Writer.mk o None) = (Ok (), Writer.mk (o ++ frame payload) None).
Proof.
  intros Hs Hl. unfold Protocol.write_message. rewrite Hs.
  destruct (N.leb_spec (N.of_nat (length payload)) u32_MAX); [|lia]. simpl. unfold frame.
  by rewrite (assoc_L app).
Qed.

(** Whatever happens, what reached the sink is a prefix of one frame. *)
Lemma write_message_prefix x w r w' :
  Protocol.write_message x w = (r, w') →
  ∃ sent, Writer.out w' = Writer.out w ++ sent ∧
    ∀ payload, serialize x = Ok payload → sent `prefix_of` frame payload ∧ (r = Ok () → sent = frame payload).
Proof.
  unfold Protocol.write_message. intros Hw. destruct (serialize x) as [payload|e].
  2: { simplify_eq. exists []. by rewrite app_nil_r. }
  destruct (N.leb_spec (N.of_nat (length payload)) u32_MAX).
  2: { simplify_eq. exists []. rewrite app_nil_r. split; [done|]. intros ? [= <-]. split; [apply prefix_nil|done]. }
  unfold Writer.write_all in Hw. unfold frame. destruct w as [o [[k e]|]]; simpl in *.
  2: { simplify_eq/=. eexists. rewrite <- (assoc_L app). split; [done|]. by intros ? [= <-]. }
  case_decide as Hk; simplify_eq/=.
  - case_decide as Hk'; simplify_eq/=.
    + eexists. rewrite <- (assoc_L app). split; [done|]. by intros ? [= <-].
    + eexists. rewrite <- (assoc_L app). split; [done|]. intros ? [= <-]. split; [|done].
      apply prefix_app. apply prefix_take.
  - eexists. split; [done|]. intros ? [= <-]. split; [|done].
    etrans; [apply prefix_take|]. by apply prefix_app_r.
Qed.

Lemma read_frame payload rest e :
  (N.of_nat (length payload) ≤ Protocol.MAX_MESSAGE_LEN)%N →
  Protocol.read_message (T:=T) (Reader.mk (frame payload ++ rest) e) =
    (map_err SessionError.from_bincode (deserialize payload), Reader.mk rest e).
Proof.
  intros Hl. unfold Protocol.read_message, frame. rewrite <- (assoc_L app).
  rewrite read_exact_app by apply length_to_le_bytes.
  rewrite le_bytes_roundtrip by (unfold is_u32, Protocol.MAX_MESSAGE_LEN in *; lia).
  destruct (N.ltb_spec Protocol.MAX_MESSAGE_LEN (N.of_nat (length payload))); [lia|].
  by rewrite Nat2N.id, read_exact_app.
Qed.

(** A frame longer than the limit is written without complaint and refused by
    every reader. *)
Lemma read_oversized payload rest e :
  (Protocol.MAX_MESSAGE_LEN < N.of_nat (length payload) ≤ u32_MAX)%N →
  ∃ msg, Protocol.read_message (T:=T) (Reader.mk (frame payload ++ rest) e) =
    (Err (SessionError.Protocol msg), Reader.mk (payload ++ rest) e).
Proof.
  intros Hl. unfold Protocol.read_message, frame. rewrite <- (assoc_L app).
  rewrite read_exact_app by apply length_to_le_bytes.
  rewrite le_bytes_roundtrip by (unfold is_u32, u32_MAX in *; lia).
  destruct (N.ltb_spec Protocol.MAX_MESSAGE_LEN (N.of_nat (length payload))); [|lia]. by eexists.
Qed.

(** A reader never takes more than the limit for one message. *)
Lemma read_message_bounded r y r' :
  Protocol.read_message (T:=T) r = (y, r') → is_ok y = true →
  (N.of_nat (length (Reader.bytes r)) ≤
     N.of_nat (length (Reader.bytes r')) + 4 + Protocol.MAX_MESSAGE_LEN)%N ∧
  (length (Reader.bytes r') + 4 ≤ length (Reader.bytes r))%nat.
Proof.
  unfold Protocol.read_message, Reader.read_exact. case_decide; [|naive_solver].
  destruct (N.ltb_spec Protocol.MAX_MESSAGE_LEN
    (Protocol.from_le_bytes (take 4 (Reader.bytes r)))) as [|Hle]; [naive_solver|].
  simpl. case_decide as Hd; [|naive_solver]. intros; simplify_eq/=.
  rewrite !length_drop in *. lia.
Qed.

(** A truncated frame is never accepted. *)
Lemma read_truncated payload bs :
  (N.of_nat (length payload) ≤ Protocol.MAX_MESSAGE_LEN)%N →
  bs `prefix_of` frame payload → bs ≠ frame payload →
  ∃ e, (Protocol.read_message (T:=T) (Reader.mk bs None)).1 = Err e ∧
    (e = SessionError.Disconnected ↔ (length bs < 4)%nat).
Proof.
  intros Hl [rest Hf] Hne. destruct (decide (length bs < 4)%nat) as [Hlt|Hge].
  - unfold Protocol.read_message. rewrite read_exact_short by done. simpl. eexists. by split.
  - assert (∃ p', bs = Protocol.to_le_bytes (N.of_nat (length payload)) ++ p' ∧ payload = p' ++ rest)
      as (p' & -> & Hp).
    { exists (drop 4 bs). unfold frame in Hf. rewrite <- (take_drop 4 bs), <- (assoc_L app) in Hf.
      apply app_inj_1 in Hf as [Ht Hd]; [|rewrite length_take, length_to_le_bytes; lia].
      by rewrite Ht, take_drop. }
    unfold Protocol.read_message.
    rewrite read_exact_app by apply length_to_le_bytes.
    rewrite le_bytes_roundtrip by (unfold is_u32, Protocol.MAX_MESSAGE_LEN in *; lia).
    destruct (N.ltb_spec Protocol.MAX_MESSAGE_LEN (N.of_nat (length payload))); [lia|].
    assert (length rest ≠ 0%nat).
    { intros Hz%nil_length_inv. subst rest. rewrite app_nil_r in Hp. by subst p'. }
    rewrite read_exact_short by (rewrite Nat2N.id, Hp, length_app; lia).
    simpl. eexists. split; [done|]. split; [done|]. intros. lia.
Qed.

End framing_lemmas.

(** ** Conversations *)

Section conversations.
Context {T : Type} `{!Codec T} `{!CodecLaws T}.
Implicit Types (x : T) (xs : list T).

(** The message can be sent and the peer will accept its size. *)
Definition sendable x (payload : list byte) : Prop :=
  serialize x = Ok payload ∧ (N.of_nat (length payload) ≤ Protocol.MAX_MESSAGE_LEN)%N.

(** Writing messages one after the other. *)
Fixpoint write_messages xs (w : Writer.t) : Result () * Writer.t :=
  match xs with
  | [] => (Ok (), w)
  | x :: xs' => match Protocol.write_message x w with
                | (Ok _, w) => write_messages xs' w
                | (Err e, w) => (Err e, w)
                end
  end.

Lemma read_written x payload rest e :
  sendable x payload →
  Protocol.read_message (Reader.mk (frame payload ++ rest) e) = (Ok x, Reader.mk rest e).
Proof.
  intros [Hs Hl]. rewrite read_frame by done. by rewrite (deserialize_serialize _ _ Hs).
Qed.

Lemma write_messages_frames xs payloads o :
  Forall2 sendable xs payloads →
  write_messages xs (Writer.mk o None) = (Ok (), Writer.mk (o ++ concat (frame <$> payloads)) None).
Proof.
  intros Hxs. revert o. induction Hxs as [|x p xs ps [Hs Hl] _ IH]; intros o; simpl.
  { by rewrite app_nil_r. }
  rewrite (write_message_frame x p) by (done || unfold u32_MAX, Protocol.MAX_MESSAGE_LEN in *; lia).
  rewrite IH. by rewrite (assoc_L app).
Qed.

Lemma frames_length ps : (length ps ≤ length (concat (frame <$> ps)))%nat.
Proof.
  induction ps as [|p ps IH]; simpl; [done|]. rewrite length_app.
  assert (4 ≤ length (frame p))%nat by (unfold frame; rewrite length_app, length_to_le_bytes; lia).
  unfold fmap in IH. lia.
Qed.

Lemma read_loop_frames xs ps fuel rest e :
  Forall2 sendable xs ps → (length xs ≤ fuel)%nat →
  Protocol.read_loop fuel (Reader.mk (concat (frame <$> ps) ++ rest) e) =
  let '(ys, err, r) := Protocol.read_loop (fuel - length xs) (Reader.mk rest e) in (xs ++ ys, err, r).
Proof.
  intros Hxs. revert fuel. induction Hxs as [|x p xs ps Hx _ IH]; intros fuel Hf; simpl.
  { rewrite Nat.sub_0_r. by destruct (Protocol.read_loop _ _) as [[]]. }
  destruct fuel as [|fuel]; simpl in *; [lia|]. rewrite <- (assoc_L app), (read_written x) by done.
  rewrite IH by lia. by destruct (Protocol.read_loop _ _) as [[]].
Qed.

(** More fuel than bytes is as good as any. *)
Lemma read_loop_fuel fuel fuel' r :
  (length (Reader.bytes r) < fuel)%nat → (length (Reader.bytes r) < fuel')%nat →
  Protocol.read_loop (T:=T) fuel r = Protocol.read_loop fuel' r.
Proof.
  revert fuel' r. induction fuel as [|fuel IH]; intros [|fuel'] r Hf Hf'; simpl; try lia.
  destruct (Protocol.read_message r) as [[y|e] r'] eqn:Hr; [|done].
  destruct (read_message_bounded r (Ok y) r' Hr) as [_ Hb]; [done|].
  rewrite (IH fuel' r') by lia. done.
Qed.

End conversations.

(** What one side writes is what the other side reads, in order, and then it
    sees the disconnection. *)
Lemma conversation_roundtrip {T} `{!Codec T, !CodecLaws T} (xs : list T) ps :
  Forall2 sendable xs ps →
  let w := (write_messages xs (Writer.mk [] None)).2 in
  (Protocol.read_loop (S (length (Writer.out w))) (Reader.mk (Writer.out w) None)).1 =
    (xs, SessionError.Disconnected).
Proof.
  intros Hxs. rewrite (write_messages_frames xs ps) by done. cbn [snd Writer.out app].
  pose proof (frames_length ps) as Hlen. pose proof (Forall2_length _ _ _ Hxs) as Hl.
  replace (Reader.mk (concat (frame <$> ps)) None)
    with (Reader.mk (concat (frame <$> ps) ++ []) None) by by rewrite app_nil_r.
  rewrite (read_loop_frames xs) by (done || lia).
  destruct (S _ - _)%nat as [|n] eqn:Hn; [lia|]. simpl. by rewrite app_nil_r.
Qed.

Section client_lemmas.
Context `{!Codec Request.t, !Codec Message.t, !CodecLaws Message.t}.

Lemma await_events evs ps fuel rest e :
  Forall2 sendable (Message.Event <$> evs) ps → (length evs ≤ fuel)%nat →
  IpcClient.await fuel (Reader.mk (concat (frame <$> ps) ++ rest) e) =
  IpcClient.await (fuel - length evs) (Reader.mk rest e).
Proof.
  revert ps fuel. induction evs as [|ev evs IH]; intros ps fuel Hxs Hf.
  { apply Forall2_nil_inv_l in Hxs as ->. by rewrite Nat.sub_0_r. }
  apply Forall2_cons_inv_l in Hxs as (p & ps' & Hx & Hxs & ->). simpl in Hf.
  destruct fuel as [|fuel]; [lia|]. simpl. rewrite <- (assoc_L app), (read_written (Message.Event ev)) by done.
  apply IH; [done|lia].
Qed.

(** [call] sends its request and returns the first reply, however many events
    arrive before it, leaving what follows unread. *)
Lemma call_first_reply req payload evs ps resp p rest e :
  serialize req = Ok payload → (N.of_nat (length payload) ≤ u32_MAX)%N →
  Forall2 sendable (Message.Event <$> evs) ps → sendable (Message.Response resp) p →
  IpcClient.call req (Writer.mk [] None) (Reader.mk (concat (frame <$> ps) ++ frame p ++ rest) e) =
    (Ok resp, Writer.mk (frame payload) None, Reader.mk rest e).
Proof.
  intros Hs Hl Hevs Hresp. unfold IpcClient.call. rewrite (write_message_frame req payload) by done.
  pose proof (frames_length ps). pose proof (Forall2_length _ _ _ Hevs) as Hlen. rewrite length_fmap in Hlen.
  cbn [Reader.bytes]. rewrite (await_events evs) by (done || rewrite length_app; lia).
  destruct (S _ - _)%nat as [|n] eqn:Hn; [rewrite length_app in Hn; lia|].
  simpl. by rewrite (read_written (Message.Response resp)).
Qed.

End client_lemmas.
