(* ===== verification/Policy.v ===== *)
(** * Policy: who may ask what, and policies built from the configuration
    (src/src/policy/) *)

From stdpp Require Import base gmap strings pretty numbers list.
From S2P Require Import Prelude Errors System Config User Session Auth Lock Idle Elevation Ipc.

Module SessionPolicy.
Record t := mk {
  max_sessions_per_user : N;
  default_session_type : SessionType.t
}.

Definition parse_session_type (s : string) : SessionType.t :=
  if String.eqb s "x11" then SessionType.X11
  else if String.eqb s "tty" then SessionType.Tty
  else SessionType.Wayland.

Definition from (s : SessionSettings.t) : t :=
  mk (SessionSettings.max_sessions_per_user s)
     (parse_session_type (SessionSettings.default_session_type s)).
End SessionPolicy.

Module LockChainPolicy.
Record t := mk {
  lock : LockPolicy.t;
  idle : IdlePolicy.t
}.
Definition new (l : LockSettings.t) (i : IdleSettings.t) : t := mk (LockPolicy.from l) (IdlePolicy.from i).
End LockChainPolicy.

Module Policy.
Definition auth_policy (auth : AuthSettings.t) (lock : LockSettings.t) : AuthPolicy.t :=
  AuthPolicy.new auth lock.

Definition elevation_auth_policy (elevation : ElevationSettings.t) : AuthPolicy.t :=
  AuthPolicy.mk (ElevationSettings.pam_service elevation)
    (ElevationSettings.allow_empty_password elevation) (ElevationSettings.max_attempts elevation)
    (from_secs (ElevationSettings.lockout_secs elevation)).

(** The closure [owns] of [authorize]. *)
Definition owns (peer : PeerCred.t) (sessions : SessionManager.t) (session_id : SessionId) : Result () :=
  match SessionManager.owner_uid session_id sessions with
  | Ok uid =>
      if bool_decide (uid = PeerCred.uid peer) then Ok ()
      else Err (SessionError.PermissionDenied
             ("uid " +:+ pretty (PeerCred.uid peer) +:+ " does not own session " +:+ pretty session_id))
  | Err e => Err e
  end.

Definition authorize (peer : PeerCred.t) (conn_id : ConnId) (request : Request.t)
    (sessions : SessionManager.t) (elevation : ElevationManager.t) (w : World) : Result () :=
  if bool_decide (PeerCred.uid peer = 0%N) then Ok ()
  else
    match request with
    | Request.CreateSession user_name _ _ =>
        let self_uid := match User.by_name user_name w with
                        | Ok u => Some (User.uid u)
                        | Err _ => None
                        end in
        if bool_decide (self_uid = Some (PeerCred.uid peer)) then Ok ()
        else Err (SessionError.PermissionDenied "only root may start a session for another user")
    | Request.TerminateSession session_id
    | Request.RegisterCompositor session_id
    | Request.SessionStatus session_id
    | Request.LockSession session_id
    | Request.SwitchSession _ session_id => owns peer sessions session_id
    | Request.Unlock session_id _ _ => owns peer sessions session_id
    | Request.ListSessions | Request.ReportActivity _ | Request.Inhibit _ _ _ _
    | Request.ReleaseInhibit _ | Request.ListInhibitors | Request.Suspend | Request.Reboot
    | Request.PowerOff => Ok ()
    | Request.RequestElevation _ _ =>
        if ElevationManager.is_authorized_requester (PeerCred.uid peer) elevation then Ok ()
        else Err (SessionError.PermissionDenied
               "only the configured elevation service may open an elevation prompt")
    | Request.RespondElevation request_id _ =>
        match ElevationManager.compositor_conn_for request_id elevation with
        | Some expected =>
            if bool_decide (expected = conn_id) then Ok ()
            else Err (SessionError.UnknownElevationRequest request_id)
        | None => Err (SessionError.UnknownElevationRequest request_id)
        end
    end.
End Policy.

(** ** Specification *)

(** The session a request acts on, for the requests only its owner may make. *)
Definition owned_session (request : Request.t) : option SessionId :=
  match request with
  | Request.TerminateSession s | Request.RegisterCompositor s | Request.SessionStatus s
  | Request.LockSession s | Request.SwitchSession _ s | Request.Unlock s _ _ => Some s
  | _ => None
  end.

(** Who may make a request, in words of the state. *)
Definition permitted (peer : PeerCred.t) (conn_id : ConnId) (request : Request.t)
    (sessions : SessionManager.t) (elevation : ElevationManager.t) (w : World) : Prop :=
  PeerCred.uid peer = 0%N ∨
  match request with
  | Request.CreateSession name _ _ =>
      ∃ entry, w_from_name w name = Ok (Some entry) ∧ nix_uid entry = PeerCred.uid peer
  | Request.RequestElevation _ _ => ElevationManager.requester_uid elevation = Some (PeerCred.uid peer)
  | Request.RespondElevation id _ =>
      ∃ p, ElevationManager.pending elevation !! id = Some p ∧ PendingElevation.compositor_conn p = conn_id
  | _ => match owned_session request with
         | Some s => ∃ c, SessionManager.sessions sessions !! s = Some c ∧
                          Session.uid (SessionContext.session c) = PeerCred.uid peer
         | None => True
         end
  end.

Lemma owns_Ok peer m s :
  Policy.owns peer m s = Ok () ↔
  ∃ c, SessionManager.sessions m !! s = Some c ∧ Session.uid (SessionContext.session c) = PeerCred.uid peer.
Proof.
  unfold Policy.owns, SessionManager.owner_uid, SessionManager.get.
  destruct (SessionManager.sessions m !! s) as [c|]; simpl; [|naive_solver].
  case_bool_decide; naive_solver.
Qed.

(** The authorization table, request by request. *)
Lemma authorize_permitted peer conn request m e w :
  Policy.authorize peer conn request m e w = Ok () ↔ permitted peer conn request m e w.
Proof.
  unfold Policy.authorize, permitted. case_bool_decide as Hroot; [tauto|].
  destruct request; simpl; rewrite ?owns_Ok; try tauto.
  - destruct (User.by_name user_name w) as [u|err] eqn:Hu.
    + apply by_name_Ok in Hu as (entry & Hn & ->). rewrite Hn. simpl. case_bool_decide as Hb.
      * split; [|done]. intros _. right. exists entry. by simplify_eq.
      * split; [done|]. intros [|(entry' & [= <-] & Hx)]; [done|]. by rewrite Hx in Hb.
    + rewrite bool_decide_false by done. split; [done|]. intros [|(entry & Hn & Hx)]; [done|].
      unfold User.by_name in Hu. by rewrite Hn in Hu.
  - unfold ElevationManager.is_authorized_requester. case_bool_decide; naive_solver.
  - unfold ElevationManager.compositor_conn_for.
    destruct (ElevationManager.pending e !! request_id) as [p|]; simpl; [|naive_solver].
    case_bool_decide; naive_solver.
Qed.

(** A peer that is not the compositor a prompt was shown to learns nothing about
    which prompts exist: it is refused with the same error whether the prompt is
    open or not. *)
Lemma authorize_no_oracle peer conn id resp m e e' w :
  PeerCred.uid peer ≠ 0%N →
  ElevationManager.compositor_conn_for id e ≠ Some conn →
  ElevationManager.compositor_conn_for id e' ≠ Some conn →
  Policy.authorize peer conn (Request.RespondElevation id resp) m e w =
  Policy.authorize peer conn (Request.RespondElevation id resp) m e' w.
Proof.
  intros Hr He He'. unfold Policy.authorize. rewrite bool_decide_false by done.
  destruct (ElevationManager.compositor_conn_for id e); destruct (ElevationManager.compositor_conn_for id e');
    repeat case_bool_decide; congruence.
Qed.
