(* ===== verification/Launcher.v ===== *)
(** * Launcher: starting processes for a session (src/src/launcher/) *)

From stdpp Require Import base gmap sorting strings numbers list.
From S2P Require Import Prelude Errors System Text User Session.

Module Application.
Record t := mk {
  command : string;
  args : list string;
  restart_on_exit : bool
}.
Definition new (command : string) : t := mk command [] false.
Definition arg (a : string) (self : t) : t :=
  mk (command self) (args self ++ [a]) (restart_on_exit self).
Definition set_restart_on_exit (restart : bool) (self : t) : t :=
  mk (command self) (args self) restart.

(** The command [spawn] builds: a cleared environment, then one [cmd.env] per
    variable of the session. *)
Definition to_command (self : t) (user : User.t) (env : Environment.t) (gids : list Gid) : Command :=
  {| cmd_program := command self;
     cmd_args := args self;
     cmd_env := foldl (λ vars kv, <[kv.1:=kv.2]> vars) ∅ (Environment.iter env);
     cmd_current_dir := User.home user;
     cmd_setsid := false;
     cmd_setgroups := gids;
     cmd_setgid := User.gid user;
     cmd_setuid := User.uid user |}.

Definition spawn (self : t) (user : User.t) (env : Environment.t) : io Pid := λ w,
  match Groups.supplementary_gids (User.name user) w with
  | Err e => ([], Err e)
  | Ok gids =>
      let cmd := to_command self user env gids in
      ([SysCall.Spawn cmd], map_err SessionError.from_io (w_spawn w cmd))
  end.
End Application.

Module RestartDecision.
Inductive t : Type := Restart | FallbackToTerminal.
#[global] Instance eq_dec : EqDecision t.
Proof. solve_decision. Defined.
End RestartDecision.

Module Launcher.
Definition spawn_compositor (user : User.t) (env : Environment.t) (binary : string) : io Pid :=
  Application.spawn (Application.set_restart_on_exit true (Application.new binary)) user env.

Definition decide_restart (restarts_so_far max_restarts : N) : RestartDecision.t :=
  if (restarts_so_far <? max_restarts)%N then RestartDecision.Restart
  else RestartDecision.FallbackToTerminal.

Definition spawn_fallback_terminal (user : User.t) (env : Environment.t) : io Pid :=
  Application.spawn (Application.new (User.shell user)) user env.

(** The application one line of the autostart list describes. *)
Definition autostart_app (line : string) : Application.t :=
  match split_whitespace line with
  | [] => Application.new ""
  | program :: parts => foldl (λ app a, Application.arg a app) (Application.new program) parts
  end.

(** [collect] into a [Result] stops at the first error; what was started before
    it keeps running. *)
Fixpoint spawn_autostart (user : User.t) (env : Environment.t) (commands : list string) : io (list Pid) :=
  match commands with
  | [] => mret []
  | line :: rest =>
      child ← Application.spawn (autostart_app line) user env;
      children ← spawn_autostart user env rest;
      mret (child :: children)
  end.
End Launcher.

(** ** Lemmas *)

Lemma foldl_insert_lookup (l : list (string * string)) (m : gmap string string) k v :
  NoDup l.*1 →
  (foldl (λ m kv, (<[kv.1:=kv.2]> m)) m l) !! k = Some v ↔
  (k, v) ∈ l ∨ (¬ (k ∈ l.*1) ∧ m !! k = Some v).
Proof.
  revert m. induction l as [|[k' v'] l IH]; intros m; [simpl; set_solver|].
  rewrite fmap_cons, NoDup_cons. simpl. intros [Hk Hnd]. rewrite IH by done.
  rewrite lookup_insert_Some, !elem_of_cons. split.
  - intros [?|(? & [[-> ->]|[? ?]])]; [naive_solver|naive_solver|naive_solver].
  - intros [[?|?]|?]; [|naive_solver|naive_solver]. simplify_eq. right. naive_solver.
Qed.

Lemma Environment_iter_perm env : Environment.iter env ≡ₚ map_to_list (Environment.vars env).
Proof. apply merge_sort_Permutation. Qed.

(** What a child sees when the session's variables are set on top of [vars]. *)
Lemma env_on_top (vars : gmap string string) env k v :
  (foldl (λ vars kv, <[kv.1:=kv.2]> vars) vars (Environment.iter env)) !! k = Some v ↔
  Environment.vars env !! k = Some v ∨ (Environment.vars env !! k = None ∧ vars !! k = Some v).
Proof.
  rewrite foldl_insert_lookup by (rewrite Environment_iter_perm; apply NoDup_fst_map_to_list).
  assert (k ∈ (Environment.iter env).*1 ↔ is_Some (Environment.vars env !! k)) as Hkeys.
  { rewrite Environment_iter_perm, list_elem_of_fmap. split.
    - intros ([k' v'] & -> & Hin%elem_of_map_to_list). eauto.
    - intros [v' Hv']. exists (k, v'). by rewrite elem_of_map_to_list. }
  rewrite Hkeys, Environment_iter_perm, elem_of_map_to_list, eq_None_not_Some. done.
Qed.

(** The child's environment is the session's, and nothing of the daemon's. *)
Lemma command_env self user env gids :
  cmd_env (Application.to_command self user env gids) = Environment.vars env.
Proof.
  apply map_eq. intros k. apply option_eq. intros v. simpl. rewrite env_on_top, lookup_empty. naive_solver.
Qed.

(** Everything a spawn can do.  The groups are resolved first, and without them
    nothing is started; what is started runs as the user, in the user's groups
    and home, with the session's environment. *)
Lemma spawn_cases self user env w calls r :
  Application.spawn self user env w = (calls, r) →
  (∃ e, Groups.supplementary_gids (User.name user) w = Err e ∧ calls = [] ∧ r = Err e) ∨
  (∃ gids cmd, Groups.supplementary_gids (User.name user) w = Ok gids ∧ calls = [SysCall.Spawn cmd] ∧
     r = map_err SessionError.from_io (w_spawn w cmd) ∧
     cmd_program cmd = Application.command self ∧ cmd_args cmd = Application.args self ∧
     cmd_setuid cmd = User.uid user ∧ cmd_setgid cmd = User.gid user ∧ cmd_setgroups cmd = gids ∧
     cmd_current_dir cmd = User.home user ∧ cmd_env cmd = Environment.vars env).
Proof.
  unfold Application.spawn. case_match eqn:Hg; intros; simplify_eq.
  - right. eexists _, _. split_and!; try done. apply command_env.
  - left. eauto.
Qed.

Lemma decide_restart_spec n max :
  Launcher.decide_restart n max = RestartDecision.Restart ↔ (n < max)%N.
Proof. unfold Launcher.decide_restart. destruct (N.ltb_spec n max); split; (done || lia). Qed.
