(* ===== verification/Autostart.v ===== *)
(** * Autostart: XDG autostart entries (src/src/launcher/autostart.rs)

    The reader of [.desktop] files, the filter of the entries and the processes
    started for them.  [render] writes an entry the way the desktop entry format
    has it; reading it back gives the entry. *)

From Stdlib Require Import Ascii.
From stdpp Require Import base gmap strings numbers list.
From S2P Require Import Prelude Errors System Text User Session Launcher.

Module AutostartEntry.
Record t := mk {
  name : string;
  exec : string;
  hidden : bool;
  only_show_in : list string;
  not_show_in : list string
}.
End AutostartEntry.

(** [Path::extension] of a file name: what follows its last dot, when something
    precedes that dot. *)
Definition rsplit_once (c : ascii) (s : string) : option (string * string) :=
  '(after, before) ← split_once c (string_reverse s); Some (string_reverse before, string_reverse after).
Definition extension (file_name : string) : option string :=
  if String.eqb file_name ".." then None
  else '(stem, ext) ← rsplit_once "." file_name; if String.eqb stem "" then None else Some ext.

Module Autostart.
(** The variables of the loop over the lines. *)
Record parser := mk_parser {
  entry : AutostartEntry.t;
  in_desktop_entry : bool
}.
Definition start : parser := mk_parser (AutostartEntry.mk "" "" false [] []) false.

Definition semicolon_list (v : string) : list string :=
  filter (λ s, s ≠ "") (trim <$> split ";" v).

Definition set_key (k v : string) (e : AutostartEntry.t) : AutostartEntry.t :=
  let '(AutostartEntry.mk name exec hidden only_show_in not_show_in) := e in
  if String.eqb k "Name" then AutostartEntry.mk (trim v) exec hidden only_show_in not_show_in
  else if String.eqb k "Exec" then AutostartEntry.mk name (trim v) hidden only_show_in not_show_in
  else if String.eqb k "Hidden" then
    AutostartEntry.mk name exec (eq_ignore_ascii_case (trim v) "true") only_show_in not_show_in
  else if String.eqb k "OnlyShowIn" then AutostartEntry.mk name exec hidden (semicolon_list v) not_show_in
  else if String.eqb k "NotShowIn" then AutostartEntry.mk name exec hidden only_show_in (semicolon_list v)
  else e.

Definition parse_line (p : parser) (line : string) : parser :=
  let line := trim line in
  if String.eqb line "[Desktop Entry]" then mk_parser (entry p) true
  else if starts_with "[" line then mk_parser (entry p) false
  else if negb (in_desktop_entry p) || String.eqb line "" || starts_with "#" line then p
  else match split_once "=" line with
       | Some (k, v) => mk_parser (set_key (trim k) v (entry p)) (in_desktop_entry p)
       | None => p
       end.

Definition parse_content (content : string) : option AutostartEntry.t :=
  let e := entry (foldl parse_line start (lines content)) in
  if String.eqb (AutostartEntry.exec e) "" then None else Some e.

Definition parse_desktop_file (path : Path) (w : World) : option AutostartEntry.t :=
  match w_read_to_string w path with
  | Ok content => parse_content content
  | Err _ => None
  end.

(** [s == "MITOS" || s == "X-MITOS"] *)
Definition is_mitos (s : string) : bool := String.eqb s "MITOS" || String.eqb s "X-MITOS".

Definition shown (e : AutostartEntry.t) : bool :=
  negb (AutostartEntry.hidden e)
  && (match AutostartEntry.only_show_in e with [] => true | l => existsb is_mitos l end)
  && negb (existsb is_mitos (AutostartEntry.not_show_in e)).

Definition FIELD_CODES : list string := ["%f"; "%F"; "%u"; "%U"; "%i"; "%c"; "%k"].
Definition strip_field_codes (exec : string) : string :=
  foldl (λ s code, replace code "" s) exec FIELD_CODES.

Section launch.
(** The names in a directory, in the order the kernel lists them (entries that
    cannot be read left out), and what a child inherits of the daemon: its
    environment and working directory.  [groups] stands for [user.groups], a
    field the [User] of src/src/user/user.rs does not have. *)
Context (read_dir : Path → result IoError (list string)) (inherited : gmap string string) (cwd : Path)
  (groups : User.t → list Gid).

Definition parse_dir (dir : Path) (w : World) : list AutostartEntry.t :=
  match read_dir dir with
  | Ok names =>
      omap (λ name, if decide (extension name = Some "desktop")
                    then parse_desktop_file (path_join dir name) w else None) names
  | Err _ => []
  end.

Definition SYSTEM_DIR : Path := "/etc/xdg/autostart".
Definition user_dir (user : User.t) : Path := path_join (path_join (User.home user) ".config") "autostart".

Definition parse_autostart_dirs (user : User.t) (w : World) : list AutostartEntry.t :=
  (if w_exists w SYSTEM_DIR then parse_dir SYSTEM_DIR w else [])
  ++ (if w_exists w (user_dir user) then parse_dir (user_dir user) w else []).

(** The environment is added to the daemon's own, which is not cleared. *)
Definition to_command (user : User.t) (env : Environment.t) (bin : string) (args : list string) : Command :=
  {| cmd_program := bin;
     cmd_args := args;
     cmd_env := foldl (λ vars kv, <[kv.1:=kv.2]> vars) inherited (Environment.iter env);
     cmd_current_dir := cwd;
     cmd_setsid := true;
     cmd_setgroups := groups user;
     cmd_setgid := User.gid user;
     cmd_setuid := User.uid user |}.

Definition spawn_autostart_app (user : User.t) (env : Environment.t) (bin : string) (args : list string)
    : io Pid := λ w,
  let cmd := to_command user env bin args in
  ([SysCall.Spawn cmd], map_err SessionError.from_io (w_spawn w cmd)).

(** A failure to start one application is logged, and the next is started. *)
Definition launch_entry (user : User.t) (env : Environment.t) (e : AutostartEntry.t) (w : World)
    : list SysCall.t :=
  if shown e then
    match split_whitespace (strip_field_codes (AutostartEntry.exec e)) with
    | bin :: args => (spawn_autostart_app user env bin args w).1
    | [] => []
    end
  else [].

Definition launch_autostart_apps (user : User.t) (env : Environment.t) (w : World) : list SysCall.t :=
  foldl (λ calls e, calls ++ launch_entry user env e w) [] (parse_autostart_dirs user w).
End launch.
End Autostart.

(** A code put together by removing another stays. *)
Example nested_field_code : Autostart.strip_field_codes "app %%ff" = "app %f".
Proof. reflexivity. Qed.

(** ** Writing an entry *)

Definition render_bool (b : bool) : string := if b then "true" else "false".
Definition field (k v : string) : string := k +:+ String "=" v.
Definition render (e : AutostartEntry.t) : string :=
  unlines ["[Desktop Entry]";
           field "Name" (AutostartEntry.name e);
           field "Exec" (AutostartEntry.exec e);
           field "Hidden" (render_bool (AutostartEntry.hidden e));
           field "OnlyShowIn" (terminate ";" (AutostartEntry.only_show_in e));
           field "NotShowIn" (terminate ";" (AutostartEntry.not_show_in e))].

(** What the format can hold: no surrounding space and no line breaks, and no
    semicolon or empty item in a list. *)
Definition one_line (s : string) : Prop := trim s = s ∧ has_char newline s = false.
Definition list_item (s : string) : Prop := one_line s ∧ has_char ";" s = false ∧ s ≠ "".
Definition writable (e : AutostartEntry.t) : Prop :=
  one_line (AutostartEntry.name e) ∧ one_line (AutostartEntry.exec e) ∧ AutostartEntry.exec e ≠ "" ∧
  Forall list_item (AutostartEntry.only_show_in e) ∧ Forall list_item (AutostartEntry.not_show_in e).

#[global] Instance one_line_dec s : Decision (one_line s).
Proof. unfold one_line. apply _. Defined.
#[global] Instance list_item_dec s : Decision (list_item s).
Proof. unfold list_item. apply _. Defined.
#[global] Instance writable_dec e : Decision (writable e).
Proof. unfold writable. apply _. Defined.

Lemma terminate_trimmed l : strip_space true (string_reverse (terminate ";" l)) = None.
Proof.
  destruct l as [|x l] using rev_ind; [done|]. clear IHl.
  assert (∃ t, terminate ";" (l ++ [x]) = t +:+ ";") as [t ->].
  { clear. induction l as [|y l [t IH]]; [by exists x|]. simpl. rewrite IH.
    exists (y +:+ String ";" t). by rewrite string_app_assoc, string_app_cons. }
  rewrite string_reverse_snoc. by apply strip_space_visible.
Qed.

Lemma terminate_one_line l : Forall list_item l → has_char newline (terminate ";" l) = false.
Proof.
  induction 1 as [|x l [[_ Hx] _] _ IH]; [done|]. simpl. by rewrite has_char_app, Hx.
Qed.

Lemma semicolon_list_terminate l : Forall list_item l → Autostart.semicolon_list (terminate ";" l) = l.
Proof.
  intros Hl. unfold Autostart.semicolon_list.
  rewrite split_terminate by (eapply Forall_impl; [done|]; intros x (_ & ? & _); done).
  rewrite fmap_app, filter_app. simpl. rewrite app_nil_r.
  induction Hl as [|x l [[Htrim _] [_ Hne]] _ IH]; [done|]. rewrite fmap_cons, Htrim.
  rewrite filter_cons_True by done. by rewrite IH.
Qed.

(** A key, as the entries of a group have them. *)
Definition is_key (k : string) : bool :=
  match k with
  | String a _ => visible a && negb (Ascii.eqb a "[" || Ascii.eqb a "#")
  | EmptyString => false
  end && negb (has_char "=" k || has_char newline k).

(** A value that may end a line. *)
Definition is_value (v : string) : Prop :=
  strip_space true (string_reverse v) = None ∧ has_char newline v = false.

Lemma one_line_value v : one_line v → is_value v.
Proof. intros [[_ ?]%trim_fixed ?]. done. Qed.
Lemma terminate_value l : Forall list_item l → is_value (terminate ";" l).
Proof. split; [apply terminate_trimmed|by apply terminate_one_line]. Qed.
Lemma bool_value b : is_value (render_bool b).
Proof. by destruct b. Qed.

Lemma field_line k v :
  is_key k = true → is_value v →
  has_char newline (field k v) = false ∧ strip_space true (string_reverse (field k v)) = None.
Proof.
  intros [_ [_ Hk]%negb_true_iff%orb_false_iff]%andb_true_iff [Hv Hn]. unfold field. split.
  - rewrite has_char_app, Hk. done.
  - rewrite string_reverse_app, string_reverse_cons, string_app_assoc. by apply strip_space_app_visible.
Qed.

(** A line of the group sets its key. *)
Lemma parse_field e k v :
  is_key k = true → is_value v →
  Autostart.parse_line (Autostart.mk_parser e true) (field k v)
  = Autostart.mk_parser (Autostart.set_key (trim k) v e) true.
Proof.
  unfold is_key, field. intros Hk [Hv _]. destruct k as [|a k]; [done|].
  apply andb_true_iff in Hk as [[Ha [Hb Hc]%negb_true_iff%orb_false_iff]%andb_true_iff
    [Heq _]%negb_true_iff%orb_false_iff].
  unfold Autostart.parse_line. rewrite string_app_cons, trim_key_value by done.
  cbn [String.eqb starts_with negb orb Autostart.in_desktop_entry]. rewrite Hb, Hc.
  rewrite <- string_app_cons, split_once_app by done. done.
Qed.

Lemma parse_render e : writable e → Autostart.parse_content (render e) = Some e.
Proof.
  intros (Hname & Hexec & Hne & Honly & Hnot).
  pose proof (one_line_value _ Hname). pose proof (one_line_value _ Hexec).
  pose proof (terminate_value _ Honly). pose proof (terminate_value _ Hnot).
  pose proof (bool_value (AutostartEntry.hidden e)).
  unfold Autostart.parse_content, render. rewrite lines_unlines.
  - cbn [foldl].
    change (Autostart.parse_line Autostart.start "[Desktop Entry]")
      with (Autostart.mk_parser (AutostartEntry.mk "" "" false [] []) true).
    rewrite !parse_field by done.
    destruct e as [name exec hidden only not]; simpl in *.
    rewrite !semicolon_list_terminate by done. rewrite (proj1 Hname), (proj1 Hexec).
    destruct (String.eqb_spec exec ""); [done|]. by destruct hidden.
  - repeat apply Forall_cons_2; try apply Forall_nil_2; [done|by apply field_line..].
Qed.

(** ** What is started *)

(** The desktop this daemon is counts as shown in a list under either name. *)
Definition lists_mitos (l : list string) : Prop := "MITOS" ∈ l ∨ "X-MITOS" ∈ l.

Lemma existsb_is_mitos l : existsb Autostart.is_mitos l = true ↔ lists_mitos l.
Proof.
  unfold lists_mitos, Autostart.is_mitos. rewrite existsb_exists.
  setoid_rewrite orb_true_iff. setoid_rewrite String.eqb_eq. setoid_rewrite <- list_elem_of_In. naive_solver.
Qed.

Lemma shown_iff e :
  Autostart.shown e = true ↔
  AutostartEntry.hidden e = false ∧
  (AutostartEntry.only_show_in e = [] ∨ lists_mitos (AutostartEntry.only_show_in e)) ∧
  ¬ lists_mitos (AutostartEntry.not_show_in e).
Proof.
  unfold Autostart.shown. rewrite !andb_true_iff, !negb_true_iff, <- !existsb_is_mitos, not_true_iff_false.
  destruct (AutostartEntry.only_show_in e); naive_solver.
Qed.

Section started.
Context (read_dir : Path → result IoError (list string)) (inherited : gmap string string) (cwd : Path)
  (groups : User.t → list Gid).

(** The process an entry is worth. *)
Definition entry_command (user : User.t) (env : Environment.t) (e : AutostartEntry.t) : option Command :=
  if Autostart.shown e then
    match split_whitespace (Autostart.strip_field_codes (AutostartEntry.exec e)) with
    | bin :: args => Some (Autostart.to_command inherited cwd groups user env bin args)
    | [] => None
    end
  else None.

Lemma launch_calls user env w :
  Autostart.launch_autostart_apps read_dir inherited cwd groups user env w
  = SysCall.Spawn <$> omap (entry_command user env) (Autostart.parse_autostart_dirs read_dir user w).
Proof.
  unfold Autostart.launch_autostart_apps. generalize (Autostart.parse_autostart_dirs read_dir user w).
  intros es. change (fmap _ _) with ([] ++ (SysCall.Spawn <$> omap (entry_command user env) es)).
  generalize (@nil SysCall.t). induction es as [|e es IH]; intros calls; simpl; [by rewrite app_nil_r|].
  rewrite IH, <- (assoc_L (++)). f_equal. unfold Autostart.launch_entry, entry_command.
  destruct (Autostart.shown e); [|done]. by destruct (split_whitespace _).
Qed.

Lemma command_env_extends user env bin args k v :
  cmd_env (Autostart.to_command inherited cwd groups user env bin args) !! k = Some v ↔
  Environment.vars env !! k = Some v ∨ (Environment.vars env !! k = None ∧ inherited !! k = Some v).
Proof. apply env_on_top. Qed.

(** A directory of written entries. *)
Definition written (dir : Path) (w : World) (f : string * AutostartEntry.t) : Prop :=
  extension f.1 = Some "desktop" ∧ writable f.2 ∧ w_read_to_string w (path_join dir f.1) = Ok (render f.2).

Lemma parse_dir_written dir w files :
  read_dir dir = Ok files.*1 → Forall (written dir w) files → Autostart.parse_dir read_dir dir w = files.*2.
Proof.
  intros Hdir Hfiles. unfold Autostart.parse_dir. rewrite Hdir. clear Hdir.
  induction Hfiles as [|[n e] files (Hext & He & Hread) _ IH]; [done|].
  rewrite !fmap_cons, <- IH; simpl in *. rewrite decide_True by done. unfold Autostart.parse_desktop_file. rewrite Hread, parse_render by done.
  done.
Qed.
End started.
