(* ===== verification/Power.v ===== *)
(** * Power: suspend, power off, reboot, and the signals of the daemon
    (src/src/power/, src/src/signals/) *)

From Stdlib Require Import Ascii.
From stdpp Require Import base gmap strings pretty numbers list.
From S2P Require Import Prelude Errors System Config Text Session Lock Ipc.

(** ** Backends *)

(** The trait [SystemPowerBackend]. *)
Record SystemPowerBackend := {
  backend_suspend : io ();
  backend_poweroff : io ();
  backend_reboot : io ()
}.

(** [serde_json::Value], and the two functions of serde_json the client of
    mitos-power calls; an error is the text it prints. *)
#[local] Set Warnings "-register-all".
Module Value.
Inductive t : Type :=
| Null
| Bool (b : bool)
| Number (text : string)
| Str (s : string)
| Array (l : list t)
| Object (fields : list (string * t)).

(** [Value::get] with a string index. *)
Definition get (key : string) (v : t) : option t :=
  match v with
  | Object fields =>
      match list_find (λ f, f.1 = key) fields with Some (_, f) => Some f.2 | None => None end
  | _ => None
  end.
Definition as_str (v : t) : option string := match v with Str s => Some s | _ => None end.
Definition as_bool (v : t) : option bool := match v with Bool b => Some b | _ => None end.
End Value.

Class SerdeJson := {
  from_str : string → result string Value.t;
  to_string : Value.t → result string string
}.

Module MitosPowerBackend.
Record t := mk { socket_path : Path }.

(** The body of the loop that waits for the reply.  [lines] is what the
    successive [read_line]s return; past its end the peer has closed. *)
Fixpoint await_reply `{SerdeJson} (method : string) (lines : list (result IoError string)) : Result () :=
  let closed := Err (SessionError.Protocol "mitos-power closed the connection without replying") in
  match lines with
  | [] => closed
  | Err e :: _ => Err (SessionError.Protocol ("reading from mitos-power: " +:+ io_text e))
  | Ok raw :: rest =>
      if decide (String.length raw = 0%nat) then closed
      else
        let trimmed := trim raw in
        if String.eqb trimmed "" then await_reply method rest
        else
          match from_str trimmed with
          | Err e => Err (SessionError.Protocol ("parsing mitos-power reply: " +:+ e))
          | Ok value =>
              if negb (bool_decide (Value.get "kind" value ≫= Value.as_str = Some "response"))
              then await_reply method rest
              else if default false (Value.get "ok" value ≫= Value.as_bool) then Ok ()
              else
                let message := default "unknown error"
                  ((Value.get "error" value ≫= Value.get "message") ≫= Value.as_str) in
                Err (SessionError.Protocol ("mitos-power rejected " +:+ method +:+ ": " +:+ message))
          end
  end.

Definition request (method : string) : Value.t :=
  Value.Object [("kind", Value.Str "request"); ("id", Value.Str "mitos-session");
                ("method", Value.Str method); ("params", Value.Object [])].

Definition protocol_err {A} (prefix : string) (r : result IoError A) : Result A :=
  map_err (λ e, SessionError.Protocol (prefix +:+ io_text e)) r.

Definition call `{SerdeJson} (self : t) (method : string) : io () := λ w,
  let s := w_power_socket w (socket_path self) in
  let before :=
    _ ← protocol_err ("connecting to mitos-power at " +:+ socket_path self +:+ ": ") (ps_connect s);
    _ ← protocol_err "setting read timeout: " (ps_set_read_timeout s);
    _ ← protocol_err "cloning socket to mitos-power: " (ps_try_clone s);
    _ ← protocol_err "setting write timeout: " (ps_set_write_timeout s);
    map_err (λ e, SessionError.Protocol ("encoding request to mitos-power: " +:+ e))
      (to_string (request method)) in
  match before with
  | Err e => ([], Err e)
  | Ok line =>
      ([SysCall.SocketWrite (socket_path self) (line +:+ String newline "")],
       _ ← protocol_err "writing to mitos-power: " (ps_write s);
       await_reply method (ps_lines s))
  end.

Definition backend `{SerdeJson} (self : t) : SystemPowerBackend :=
  {| backend_suspend := call self "Suspend";
     backend_poweroff := call self "Poweroff";
     backend_reboot := call self "Reboot" |}.
End MitosPowerBackend.

Module DirectBackend.
Definition suspend : io () := syscall (SysCall.WriteFile "/sys/power/state" "mem").
Definition poweroff : io () := syscall (SysCall.Reboot RebootMode.RB_POWER_OFF).
Definition reboot : io () := syscall (SysCall.Reboot RebootMode.RB_AUTOBOOT).
Definition backend : SystemPowerBackend :=
  {| backend_suspend := suspend; backend_poweroff := poweroff; backend_reboot := reboot |}.
End DirectBackend.

Module SupervisedBackend.
Definition suspend : io () := DirectBackend.suspend.
Definition poweroff : io () := syscall (SysCall.SendSignal 1 Signal.SIGTERM).
Definition reboot : io () := syscall (SysCall.SendSignal 1 Signal.SIGINT).
Definition backend : SystemPowerBackend :=
  {| backend_suspend := suspend; backend_poweroff := poweroff; backend_reboot := reboot |}.
End SupervisedBackend.

Module PowerBackend.
Definition make `{SerdeJson} (kind : PowerBackendKind.t) (mitos_power_socket : Path) : SystemPowerBackend :=
  match kind with
  | PowerBackendKind.MitosPower =>
      MitosPowerBackend.backend (MitosPowerBackend.mk mitos_power_socket)
  | PowerBackendKind.Direct => DirectBackend.backend
  | PowerBackendKind.Supervised => SupervisedBackend.backend
  end.
End PowerBackend.

(** ** Signals *)

Module SignalEvent.
Inductive t : Type := Terminate | ReloadConfig | ReapChildren.
Definition WATCHED : list Signal.t := [Signal.SIGTERM; Signal.SIGINT; Signal.SIGHUP; Signal.SIGCHLD].
Definition classify (signal : Signal.t) : option t :=
  match signal with
  | Signal.SIGTERM | Signal.SIGINT => Some Terminate
  | Signal.SIGHUP => Some ReloadConfig
  | Signal.SIGCHLD => Some ReapChildren
  | Signal.Unwatched _ => None
  end.
End SignalEvent.

(** ** Effects among the changes of a state

    Code that changes a state between its effects.  Every effect is logged with
    the state it takes place in, so the log shows what had been changed by then. *)
Module Traced.
Definition t (S A : Type) : Type := S → list (Effect.t * S) * A * S.

#[global] Instance ret S : MRet (t S) := λ A a s, ([], a, s).
#[global] Instance bind S : MBind (t S) := λ A B f m s,
  let '(log, a, s) := m s in
  let '(log', b, s) := f a s in
  (log ++ log', b, s).

Definition get {S} : t S S := λ s, ([], s, s).
Definition modify {S} (f : S → S) : t S () := λ s, ([], (), f s).
Definition perform {S} (es : list Effect.t) : t S () := λ s, (map (λ e, (e, s)) es, (), s).
Definition run_io {S A} (m : io A) (w : World) : t S (Result A) := λ s,
  let '(calls, r) := m w in (map (λ c, (Effect.Sys c, s)) calls, r, s).

(** [for x in l { ... }]. *)
Fixpoint for_each {S B} (f : B → t S ()) (l : list B) : t S () :=
  match l with
  | [] => mret ()
  | x :: l => _ ← f x; for_each f l
  end.
End Traced.

(** ** Orchestration *)

Module Power.
Section power.
Context `{HashOrder}.

(** [for id in ids { let _ = sessions.terminate_session(id); }] *)
Fixpoint terminate_all (ids : list SessionId) (sessions : SessionManager.t)
    : list SysCall.t * SessionManager.t :=
  match ids with
  | [] => ([], sessions)
  | id :: ids' =>
      let '(calls, _, sessions) := SessionManager.terminate_session id sessions in
      let '(calls', sessions) := terminate_all ids' sessions in
      (calls ++ calls', sessions)
  end.

Definition session_ids (sessions : SessionManager.t) : list SessionId :=
  map SessionContext.id (SessionManager.list sessions).

(** The pause the holders of delay inhibitors are given. *)
Definition delay (what : InhibitWhat.t) (locks : LockManager.t) (grace : Duration) : list SysCall.t :=
  match map Inhibitor.who (InhibitorRegistry.delays what (LockManager.inhibitors locks)) with
  | [] => []
  | _ => [SysCall.Sleep grace]
  end.

(** One turn of the loop of [suspend]. *)
Definition suspend_session (lock_policy : LockPolicy.t) (registry : ConnRegistry.t) (ctx : SessionContext.t)
    : Traced.t LockManager.t () :=
  _ ← (if LockPolicy.lock_on_suspend lock_policy
       then Traced.modify (λ locks, (LockManager.lock (SessionContext.id ctx) lock_policy locks).2)
       else mret ());
  match SessionContext.compositor_conn ctx with
  | Some conn_id => Traced.perform (ConnRegistry.send_event conn_id Event.PrepareForSleep registry)
  | None => mret ()
  end.

Definition suspend (sessions : SessionManager.t) (lock_policy : LockPolicy.t) (registry : ConnRegistry.t)
    (backend : SystemPowerBackend) (grace : Duration) (w : World) : Traced.t LockManager.t (Result ()) :=
  locks ← Traced.get;
  if InhibitorRegistry.blocks InhibitWhat.Suspend (LockManager.inhibitors locks) then
    mret (Err (SessionError.PermissionDenied "an application is inhibiting suspend"))
  else
    _ ← Traced.perform (map Effect.Sys (delay InhibitWhat.Suspend locks grace));
    _ ← Traced.for_each (suspend_session lock_policy registry) (SessionManager.list sessions);
    Traced.run_io (backend_suspend backend) w.

Definition poweroff (locks : LockManager.t) (backend : SystemPowerBackend) (grace : Duration)
    (w : World) (sessions : SessionManager.t) : list SysCall.t * Result () * SessionManager.t :=
  if InhibitorRegistry.blocks InhibitWhat.Shutdown (LockManager.inhibitors locks) then
    ([], Err (SessionError.PermissionDenied "an application is inhibiting shutdown"), sessions)
  else
    let pause := delay InhibitWhat.Shutdown locks grace in
    let '(kills, sessions) := terminate_all (session_ids sessions) sessions in
    let '(calls, r) := backend_poweroff backend w in
    (pause ++ kills ++ calls, r, sessions).

Definition reboot (locks : LockManager.t) (backend : SystemPowerBackend) (grace : Duration)
    (w : World) (sessions : SessionManager.t) : list SysCall.t * Result () * SessionManager.t :=
  if InhibitorRegistry.blocks InhibitWhat.Shutdown (LockManager.inhibitors locks) then
    ([], Err (SessionError.PermissionDenied "an application is inhibiting shutdown/reboot"), sessions)
  else
    let pause := delay InhibitWhat.Shutdown locks grace in
    let '(kills, sessions) := terminate_all (session_ids sessions) sessions in
    let '(calls, r) := backend_reboot backend w in
    (pause ++ kills ++ calls, r, sessions).

Definition on_resume (sessions : SessionManager.t) (registry : ConnRegistry.t) : list Effect.t :=
  concat (map (λ ctx, match SessionContext.compositor_conn ctx with
                      | Some conn_id => ConnRegistry.send_event conn_id Event.ResumedFromSleep registry
                      | None => []
                      end) (SessionManager.list sessions)).

(** [signals::graceful_shutdown]. *)
Definition graceful_shutdown (socket_path : Path) (w : World) (sessions : SessionManager.t)
    : list SysCall.t * Result () * SessionManager.t :=
  let '(kills, sessions) := terminate_all (session_ids sessions) sessions in
  let '(calls, r) :=
    if w_exists w socket_path then syscall (SysCall.RemoveFile socket_path) w else ([], Ok ()) in
  (kills ++ calls, r, sessions).
End power.
End Power.

(** ** Lemmas *)

(** *** The mitos-power client *)

Section mitos_power.
Context `{SerdeJson}.

(** A line the client passes over: blank, or a value that is not a response. *)
Definition skipped (l : result IoError string) : Prop :=
  ∃ raw, l = Ok raw ∧ raw ≠ "" ∧
    (trim raw = "" ∨ ∃ v, trim raw ≠ "" ∧ from_str (trim raw) = Ok v ∧
                          Value.get "kind" v ≫= Value.as_str ≠ Some "response").

(** A line that reports success. *)
Definition success_reply (l : result IoError string) : Prop :=
  ∃ raw v, l = Ok raw ∧ raw ≠ "" ∧ trim raw ≠ "" ∧ from_str (trim raw) = Ok v ∧
    Value.get "kind" v ≫= Value.as_str = Some "response" ∧
    Value.get "ok" v ≫= Value.as_bool = Some true.

Lemma length_zero_empty s : String.length s = 0%nat ↔ s = "".
Proof. by destruct s. Qed.

Lemma await_skipped method l rest :
  skipped l → MitosPowerBackend.await_reply method (l :: rest) = MitosPowerBackend.await_reply method rest.
Proof.
  intros (raw & -> & Hne & Hs). simpl. rewrite decide_False by by rewrite length_zero_empty.
  destruct Hs as [->|(v & Hne' & Hv & Hk)]; [done|].
  destruct (String.eqb_spec (trim raw) ""); [done|]. rewrite Hv. by rewrite bool_decide_false.
Qed.

(** The client reports success exactly when the first line that is not passed
    over is a response whose [ok] is true. *)
Lemma await_reply_Ok method lines :
  MitosPowerBackend.await_reply method lines = Ok () ↔
  ∃ pre l post, lines = pre ++ l :: post ∧ Forall skipped pre ∧ success_reply l.
Proof.
  split.
  - induction lines as [|l lines IH]; [done|].
    assert (skipped l → MitosPowerBackend.await_reply method (l :: lines) = Ok () →
      ∃ pre l' post, l :: lines = pre ++ l' :: post ∧ Forall skipped pre ∧ success_reply l') as Hskip.
    { intros Hl Hok. rewrite await_skipped in Hok by done.
      destruct (IH Hok) as (pre & l' & post & -> & Hpre & Hs).
      exists (l :: pre), l', post. by auto. }
    destruct l as [raw|e]; [|done]. intros Hok. simpl in Hok.
    case_decide as Hraw; [done|]. rewrite length_zero_empty in Hraw.
    destruct (String.eqb_spec (trim raw) "") as [Ht|Ht].
    { apply Hskip; [by exists raw; auto|]. simpl. rewrite decide_False by by rewrite length_zero_empty.
      by rewrite (proj2 (String.eqb_eq _ _) Ht). }
    destruct (from_str (trim raw)) as [v|e] eqn:Hv; [|done].
    case_bool_decide as Hk; simpl in Hok.
    + exists [], (Ok raw), lines. split_and!; [done..|]. exists raw, v. split_and!; try done.
      destruct (Value.get "ok" v ≫= Value.as_bool) as [[]|]; done.
    + apply Hskip; [exists raw; split_and!; eauto|]. simpl.
      rewrite decide_False by by rewrite length_zero_empty.
      rewrite (proj2 (String.eqb_neq _ _) Ht), Hv. by rewrite bool_decide_false.
  - intros (pre & l & post & -> & Hpre & raw & v & -> & Hne & Ht & Hv & Hk & Hok).
    induction Hpre as [|l pre Hl _ IH].
    + simpl. rewrite decide_False by by rewrite length_zero_empty.
      rewrite (proj2 (String.eqb_neq _ _) Ht), Hv, bool_decide_true by done. simpl. by rewrite Hok.
    + by rewrite <- app_comm_cons, await_skipped.
Qed.

(** A failed call before the request is written leaves no trace; otherwise one
    request line has been written, and nothing else. *)
Lemma call_writes self method w calls r :
  MitosPowerBackend.call self method w = (calls, r) →
  (calls = [] ∧ is_ok r = false) ∨
  ∃ line, to_string (MitosPowerBackend.request method) = Ok line ∧
    calls = [SysCall.SocketWrite (MitosPowerBackend.socket_path self) (line +:+ String newline "")].
Proof.
  unfold MitosPowerBackend.call. intros Hc.
  destruct (ps_connect _); simplify_eq/=; [|by left].
  destruct (ps_set_read_timeout _); simplify_eq/=; [|by left].
  destruct (ps_try_clone _); simplify_eq/=; [|by left].
  destruct (ps_set_write_timeout _); simplify_eq/=; [|by left].
  destruct (to_string _); simplify_eq/=; [right; eauto|by left].
Qed.

(** A call succeeds exactly when every step on the socket does and mitos-power
    answers with success. *)
Lemma call_Ok self method w :
  let s := w_power_socket w (MitosPowerBackend.socket_path self) in
  (MitosPowerBackend.call self method w).2 = Ok () ↔
  Forall (λ r, is_ok r = true)
    [ps_connect s; ps_set_read_timeout s; ps_try_clone s; ps_set_write_timeout s; ps_write s] ∧
  is_ok (to_string (MitosPowerBackend.request method)) = true ∧
  MitosPowerBackend.await_reply method (ps_lines s) = Ok ().
Proof.
  unfold MitosPowerBackend.call. rewrite !Forall_cons. simpl.
  generalize (MitosPowerBackend.await_reply method
    (ps_lines (w_power_socket w (MitosPowerBackend.socket_path self)))) as reply. intros reply.
  destruct (ps_connect _) as [[]|]; simpl; [|naive_solver].
  destruct (ps_set_read_timeout _) as [[]|]; simpl; [|naive_solver].
  destruct (ps_try_clone _) as [[]|]; simpl; [|naive_solver].
  destruct (ps_set_write_timeout _) as [[]|]; simpl; [|naive_solver].
  destruct (to_string _); simpl; [|naive_solver].
  destruct (ps_write _) as [[]|]; simpl; [|naive_solver].
  split; [|naive_solver]. intros ->. split_and!; done || apply Forall_nil_2.
Qed.
End mitos_power.

(** *** Ending every session *)

Section terminate_lemmas.
Context `{HashOrder}.
Implicit Types (m : SessionManager.t).

Lemma terminate_all_sessions ids m :
  (Power.terminate_all ids m).2 =
    SessionManager.mk (delete_list ids (SessionManager.sessions m)) (SessionManager.next_id m).
Proof.
  revert m. induction ids as [|id ids IH]; intros m; simpl; [by destruct m|].
  pose proof (terminate_session_spec id m) as Ht.
  destruct (SessionManager.sessions m !! id) as [c|] eqn:Hc; rewrite Ht.
  - specialize (IH (SessionManager.mk (delete id (SessionManager.sessions m)) (SessionManager.next_id m))).
    destruct (Power.terminate_all ids _). simpl in *. by rewrite IH.
  - specialize (IH m). destruct (Power.terminate_all ids m). simpl in *. rewrite IH.
    unfold delete_list. cbn [foldl]. by rewrite (delete_id _ id).
Qed.

(** The processes killed are those of the sessions ended. *)
Lemma terminate_all_kills ids m pid :
  NoDup ids →
  SysCall.KillChild pid ∈ (Power.terminate_all ids m).1 ↔
  ∃ id c, id ∈ ids ∧ SessionManager.sessions m !! id = Some c ∧ SessionContext.compositor_process c = Some pid.
Proof.
  intros Hnd. revert m. induction Hnd as [|id ids Hid _ IH]; intros m; simpl; [set_solver|].
  pose proof (terminate_session_spec id m) as Ht.
  destruct (SessionManager.sessions m !! id) as [c|] eqn:Hc; rewrite Ht.
  - specialize (IH (SessionManager.mk (delete id (SessionManager.sessions m)) (SessionManager.next_id m))).
    destruct (Power.terminate_all ids _) as [calls m']. simpl in *. rewrite elem_of_app, IH. clear IH Ht.
    setoid_rewrite elem_of_cons. split.
    + intros [Hk|(i & c' & Hi & [_ Hc']%lookup_delete_Some & Hp)]; [|eauto 10].
      exists id, c. split_and!; [auto..|]. destruct (SessionContext.compositor_process c); [|set_solver].
      by apply elem_of_cons in Hk as [[= ->]|?%list_elem_of_singleton].
    + intros (i & c' & [->|Hi] & Hc' & Hp).
      * left. simplify_eq. rewrite Hp. set_solver.
      * right. exists i, c'. split_and!; [done| |done]. rewrite lookup_delete_ne; [done|]. by intros ->.
  - specialize (IH m). destruct (Power.terminate_all ids m) as [calls m']. simpl in *. rewrite IH. clear IH.
    setoid_rewrite elem_of_cons. naive_solver.
Qed.

(** The ids visited are the keys of the registry. *)
Lemma elem_of_session_ids m id :
  SessionInv.wf m → id ∈ Power.session_ids m ↔ is_Some (SessionManager.sessions m !! id).
Proof.
  intros Hwf. unfold Power.session_ids, SessionManager.list. rewrite list_elem_of_fmap.
  setoid_rewrite elem_of_hash_values. split.
  - intros (c & -> & k & Hc). destruct (Hwf _ _ Hc) as [-> _]. by eexists.
  - intros [c Hc]. exists c. destruct (Hwf _ _ Hc) as [<- _]. eauto.
Qed.

Lemma NoDup_session_ids m : SessionInv.wf m → NoDup (Power.session_ids m).
Proof.
  intros Hwf. unfold Power.session_ids, SessionManager.list, hash_values.
  assert (map SessionContext.id (hash_entries (SessionManager.sessions m)).*2 =
    hash_keys (SessionManager.sessions m)) as ->; [|apply NoDup_hash_keys].
  unfold hash_keys. rewrite map_map. apply map_ext_in.
  intros [k c] Hin%list_elem_of_In%elem_of_hash_entries. simpl. by destruct (Hwf _ _ Hin).
Qed.

Lemma terminate_all_empty m :
  SessionInv.wf m → SessionManager.sessions (Power.terminate_all (Power.session_ids m) m).2 = ∅.
Proof.
  intros Hwf. rewrite terminate_all_sessions. simpl. apply map_eq. intros id.
  rewrite lookup_delete_list, lookup_empty. case_decide as Hin; [done|].
  rewrite elem_of_session_ids, <- eq_None_not_Some in Hin by done. done.
Qed.

Lemma poweroff_blocked locks b grace w m :
  InhibitorRegistry.blocks InhibitWhat.Shutdown (LockManager.inhibitors locks) = true →
  Power.poweroff locks b grace w m =
    ([], Err (SessionError.PermissionDenied "an application is inhibiting shutdown"), m).
Proof. unfold Power.poweroff. by intros ->. Qed.

(** What an uninhibited power off does, in order: the pause if one is asked for,
    the end of every session, and only then the transition. *)
Lemma poweroff_order locks b grace w m :
  SessionInv.wf m →
  InhibitorRegistry.blocks InhibitWhat.Shutdown (LockManager.inhibitors locks) = false →
  ∃ kills m', Power.poweroff locks b grace w m =
      (Power.delay InhibitWhat.Shutdown locks grace ++ kills ++ (backend_poweroff b w).1,
       (backend_poweroff b w).2, m') ∧
    SessionManager.sessions m' = ∅ ∧
    ∀ pid, SysCall.KillChild pid ∈ kills ↔
      ∃ id c, SessionManager.sessions m !! id = Some c ∧ SessionContext.compositor_process c = Some pid.
Proof.
  intros Hwf Hb. unfold Power.poweroff. rewrite Hb.
  pose proof (terminate_all_empty m Hwf) as He.
  pose proof (λ pid, terminate_all_kills (Power.session_ids m) m pid (NoDup_session_ids m Hwf)) as Hk.
  destruct (Power.terminate_all _ m) as [kills m']. destruct (backend_poweroff b w) as [calls r].
  exists kills, m'. split_and!; [done..|]. intros pid. rewrite Hk.
  setoid_rewrite elem_of_session_ids; [|done]. unfold is_Some. naive_solver.
Qed.

Lemma reboot_order locks b grace w m :
  SessionInv.wf m →
  InhibitorRegistry.blocks InhibitWhat.Shutdown (LockManager.inhibitors locks) = false →
  ∃ kills m', Power.reboot locks b grace w m =
      (Power.delay InhibitWhat.Shutdown locks grace ++ kills ++ (backend_reboot b w).1,
       (backend_reboot b w).2, m') ∧
    SessionManager.sessions m' = ∅ ∧
    ∀ pid, SysCall.KillChild pid ∈ kills ↔
      ∃ id c, SessionManager.sessions m !! id = Some c ∧ SessionContext.compositor_process c = Some pid.
Proof.
  intros Hwf Hb.
  (* the reboot of [b] is the power off of the backend with the two swapped *)
  pose (b' := {| backend_suspend := backend_suspend b; backend_poweroff := backend_reboot b;
                 backend_reboot := backend_poweroff b |}).
  destruct (poweroff_order locks b' grace w m Hwf Hb) as (kills & m' & Hp & Hrest).
  exists kills, m'. split; [|done]. revert Hp. unfold Power.poweroff, Power.reboot. by rewrite Hb.
Qed.
End terminate_lemmas.

(** *** Suspending *)

Section suspend_lemmas.
Context `{HashOrder}.
Implicit Types (l : LockManager.t) (p : LockPolicy.t) (r : ConnRegistry.t).

Lemma lock_keeps_inhibitors s p l :
  LockManager.inhibitors (LockManager.lock s p l).2 = LockManager.inhibitors l.
Proof. unfold LockManager.lock. by repeat case_match. Qed.

(** What the loop does to the locks at one session, and what it sends. *)
Definition suspend_lock p l (c : SessionContext.t) : LockManager.t :=
  if LockPolicy.lock_on_suspend p then (LockManager.lock (SessionContext.id c) p l).2 else l.

Definition notice r (c : SessionContext.t) : list Effect.t :=
  match SessionContext.compositor_conn c with
  | Some conn => ConnRegistry.send_event conn Event.PrepareForSleep r
  | None => []
  end.

(** The log of the loop. *)
Fixpoint notices p r (cs : list SessionContext.t) l : list (Effect.t * LockManager.t) :=
  match cs with
  | [] => []
  | c :: cs => map (λ e, (e, suspend_lock p l c)) (notice r c) ++ notices p r cs (suspend_lock p l c)
  end.

Lemma suspend_session_eq p r c l :
  Power.suspend_session p r c l = (map (λ e, (e, suspend_lock p l c)) (notice r c), (), suspend_lock p l c).
Proof.
  unfold Power.suspend_session, suspend_lock, notice, mbind, Traced.bind.
  by destruct (LockPolicy.lock_on_suspend p), (SessionContext.compositor_conn c).
Qed.

Lemma for_each_suspend p r cs l :
  Traced.for_each (Power.suspend_session p r) cs l = (notices p r cs l, (), foldl (suspend_lock p) l cs).
Proof.
  revert l. induction cs as [|c cs IH]; intros l; [done|]. cbn [Traced.for_each notices foldl].
  unfold mbind, Traced.bind. by rewrite suspend_session_eq, IH.
Qed.

Lemma fst_log {S} (es : list Effect.t) (x : S) : (map (λ e, (e, x)) es).*1 = es.
Proof. induction es as [|e es IH]; [done|]. simpl. by f_equal. Qed.

Lemma notices_effects p r cs l : (notices p r cs l).*1 = concat (map (notice r) cs).
Proof.
  revert l. induction cs as [|c cs IH]; intros l; [done|]. simpl. by rewrite fmap_app, fst_log, IH.
Qed.

Lemma suspend_lock_keeps_locked p l c s :
  LockManager.is_locked s l = true → LockManager.is_locked s (suspend_lock p l c) = true.
Proof. intros Hl. unfold suspend_lock. case_match; [|done]. by apply lock_keeps_locked. Qed.

Lemma suspend_lock_inhibitors p l c :
  LockManager.inhibitors (suspend_lock p l c) = LockManager.inhibitors l.
Proof. unfold suspend_lock. case_match; [|done]. apply lock_keeps_inhibitors. Qed.

(** The locks after a suspend, whatever its result. *)
Lemma suspend_locks_eq ss p r b grace w l :
  (Power.suspend ss p r b grace w l).2 =
  if InhibitorRegistry.blocks InhibitWhat.Suspend (LockManager.inhibitors l) then l
  else foldl (suspend_lock p) l (SessionManager.list ss).
Proof.
  unfold Power.suspend, mbind, Traced.bind. simpl. destruct (InhibitorRegistry.blocks _ _); [done|]. simpl.
  rewrite for_each_suspend.
  unfold Traced.run_io. by destruct (backend_suspend b w).
Qed.

(** What one lock keeps, the whole suspend keeps. *)
Lemma suspend_preserves (P : LockManager.t → Prop) ss p r b grace w l :
  (∀ l' c, P l' → P (suspend_lock p l' c)) → P l → P (Power.suspend ss p r b grace w l).2.
Proof.
  intros Hstep. rewrite suspend_locks_eq. destruct (InhibitorRegistry.blocks _ _); [done|].
  generalize (SessionManager.list ss). intros cs.
  revert l. induction cs as [|c cs IH]; intros l Hl; [done|]. cbn [foldl]. by apply IH, Hstep.
Qed.

Lemma suspend_keeps_locked ss p r b grace w l s :
  LockManager.is_locked s l = true →
  LockManager.is_locked s (Power.suspend ss p r b grace w l).2 = true.
Proof.
  apply (suspend_preserves (λ l', LockManager.is_locked s l' = true)).
  intros l' c. apply suspend_lock_keeps_locked.
Qed.

Lemma suspend_wf ss p r b grace w l : LockInv.wf l → LockInv.wf (Power.suspend ss p r b grace w l).2.
Proof. apply suspend_preserves. intros l' c Hl. unfold suspend_lock. case_match; [|done]. by apply lock_wf. Qed.

Lemma suspend_inhibitors ss p r b grace w l :
  LockManager.inhibitors (Power.suspend ss p r b grace w l).2 = LockManager.inhibitors l.
Proof.
  apply (suspend_preserves (λ l', LockManager.inhibitors l' = LockManager.inhibitors l)); [|done].
  intros l' c <-. apply suspend_lock_inhibitors.
Qed.

(** Nothing is locked, sent or asked of the backend when suspend is inhibited. *)
Lemma suspend_blocked ss p r b grace w l :
  InhibitorRegistry.blocks InhibitWhat.Suspend (LockManager.inhibitors l) = true →
  Power.suspend ss p r b grace w l =
    ([], Err (SessionError.PermissionDenied "an application is inhibiting suspend"), l).
Proof. unfold Power.suspend, mbind, Traced.bind. simpl. by intros ->. Qed.

(** What an uninhibited suspend does, in order: the pause if one is asked for,
    one notification per session with a compositor, and only then the
    transition; each with the locks at that moment. *)
Lemma suspend_order ss p r b grace w l :
  InhibitorRegistry.blocks InhibitWhat.Suspend (LockManager.inhibitors l) = false →
  let cs := SessionManager.list ss in
  let asleep := foldl (suspend_lock p) l cs in
  Power.suspend ss p r b grace w l =
    (map (λ e, (e, l)) (map Effect.Sys (Power.delay InhibitWhat.Suspend l grace)) ++
     notices p r cs l ++
     map (λ e, (e, asleep)) (map Effect.Sys (backend_suspend b w).1), (backend_suspend b w).2, asleep).
Proof.
  intros Hb cs asleep. unfold Power.suspend, mbind, Traced.bind. simpl. rewrite Hb. simpl.
  rewrite for_each_suspend. unfold Traced.run_io. destruct (backend_suspend b w) as [calls res].
  simpl. by rewrite !map_map.
Qed.

(** Its effects alone. *)
Lemma suspend_effects ss p r b grace w l :
  InhibitorRegistry.blocks InhibitWhat.Suspend (LockManager.inhibitors l) = false →
  ∃ log l', Power.suspend ss p r b grace w l = (log, (backend_suspend b w).2, l') ∧
    log.*1 = map Effect.Sys (Power.delay InhibitWhat.Suspend l grace) ++
      concat (map (notice r) (SessionManager.list ss)) ++ map Effect.Sys (backend_suspend b w).1.
Proof.
  intros Hb. eexists _, _. split; [by apply suspend_order|].
  by rewrite !fmap_app, !fst_log, notices_effects.
Qed.

(** With locking on and not inhibited, a session visited is locked from its turn on. *)
Lemma suspend_lock_locks p l c :
  LockPolicy.lock_on_suspend p = true → LockPolicy.enabled p = true →
  InhibitorRegistry.blocks InhibitWhat.Lock (LockManager.inhibitors l) = false →
  LockManager.is_locked (SessionContext.id c) (suspend_lock p l c) = true.
Proof.
  intros Hs He Hb. unfold suspend_lock. rewrite Hs.
  destruct (LockManager.lock _ p l) as [[[]|e] l'] eqn:Hlock; [by eapply lock_locks|].
  exfalso. unfold LockManager.lock in Hlock. by rewrite He, Hb in Hlock.
Qed.

Lemma foldl_suspend_locks p cs l s :
  LockPolicy.lock_on_suspend p = true → LockPolicy.enabled p = true →
  InhibitorRegistry.blocks InhibitWhat.Lock (LockManager.inhibitors l) = false →
  (s ∈ SessionContext.id <$> cs ∨ LockManager.is_locked s l = true) →
  LockManager.is_locked s (foldl (suspend_lock p) l cs) = true.
Proof.
  intros Hs He. revert l. induction cs as [|c cs IH]; intros l Hb Hor.
  { destruct Hor as [?%not_elem_of_nil|]; done. }
  cbn [foldl]. apply IH; [by rewrite suspend_lock_inhibitors|].
  rewrite fmap_cons, elem_of_cons in Hor. destruct Hor as [[->|]|Hl]; [|by left|].
  - right. by apply suspend_lock_locks.
  - right. by apply suspend_lock_keeps_locked.
Qed.

Lemma suspend_all_locked ss p l s :
  LockPolicy.lock_on_suspend p = true → LockPolicy.enabled p = true →
  InhibitorRegistry.blocks InhibitWhat.Lock (LockManager.inhibitors l) = false → SessionInv.wf ss →
  is_Some (SessionManager.sessions ss !! s) →
  LockManager.is_locked s (foldl (suspend_lock p) l (SessionManager.list ss)) = true.
Proof. intros Hs He Hb Hwf Hreg. apply foldl_suspend_locks; try done. left. by apply elem_of_session_ids. Qed.

(** A compositor is told to prepare only when its session has been locked. *)
Lemma notices_locked p r cs l e l' :
  LockPolicy.lock_on_suspend p = true → LockPolicy.enabled p = true →
  InhibitorRegistry.blocks InhibitWhat.Lock (LockManager.inhibitors l) = false →
  (e, l') ∈ notices p r cs l → ∃ c, c ∈ cs ∧ e ∈ notice r c ∧ LockManager.is_locked (SessionContext.id c) l' = true.
Proof.
  intros Hs He. revert l. induction cs as [|c cs IH]; intros l Hb; [by intros ?%not_elem_of_nil|].
  cbn [notices]. rewrite elem_of_app, list_elem_of_fmap. intros [(e' & [= -> ->] & Hin)|Hin].
  - exists c. split_and!; [by left|done|by apply suspend_lock_locks].
  - destruct (IH (suspend_lock p l c)) as (c' & ? & ? & ?); [by rewrite suspend_lock_inhibitors|done|].
    exists c'. split_and!; [by right|done..].
Qed.
End suspend_lemmas.
