(* ===== verification/Daemon.v ===== *)
(** * Daemon: the single thread that owns all state (src/src/main.rs)

    [Daemon.t] is the struct [Daemon], with the process-wide audit path beside
    its fields.  A handler returns what it did to the outside (a list of
    effects, in order), its reply if it has one, and the daemon after it.  The
    handlers that add a duration to the clock can panic, and return in [exec]. *)

From stdpp Require Import base gmap strings pretty numbers list.
From S2P Require Import Prelude Errors System Config User Session Seat Auth Lock Idle Elevation.
From S2P Require Import Ipc Policy Launcher Power.

(** The [toml] crate's [from_str] at type [Settings]. *)
Class TomlSettings := {
  toml_from_str : string → result string Settings.t
}.

(** What [waitpid] can return to [reap_children]. *)
Module WaitStatus.
Inductive t : Type :=
| StillAlive
| Failed
| Reaped (pid : Pid)
| NoPid.
End WaitStatus.

Module Daemon.
Record t := mk {
  settings : Settings.t;
  sessions : SessionManager.t;
  seats : SeatManager.t;
  locks : LockManager.t;
  idle : IdleDetector.t;
  registry : ConnRegistry.t;
  authenticator : PamAuthenticator.t;
  elevation : ElevationManager.t;
  power_backend : SystemPowerBackend;
  socket_path : Path;
  should_exit : bool;
  audit_path : option Path
}.

Definition with_sessions x (d : t) : t :=
  mk (settings d) x (seats d) (locks d) (idle d) (registry d) (authenticator d) (elevation d)
     (power_backend d) (socket_path d) (should_exit d) (audit_path d).
Definition with_seats x (d : t) : t :=
  mk (settings d) (sessions d) x (locks d) (idle d) (registry d) (authenticator d) (elevation d)
     (power_backend d) (socket_path d) (should_exit d) (audit_path d).
Definition with_locks x (d : t) : t :=
  mk (settings d) (sessions d) (seats d) x (idle d) (registry d) (authenticator d) (elevation d)
     (power_backend d) (socket_path d) (should_exit d) (audit_path d).
Definition with_idle x (d : t) : t :=
  mk (settings d) (sessions d) (seats d) (locks d) x (registry d) (authenticator d) (elevation d)
     (power_backend d) (socket_path d) (should_exit d) (audit_path d).
Definition with_registry x (d : t) : t :=
  mk (settings d) (sessions d) (seats d) (locks d) (idle d) x (authenticator d) (elevation d)
     (power_backend d) (socket_path d) (should_exit d) (audit_path d).
Definition with_elevation x (d : t) : t :=
  mk (settings d) (sessions d) (seats d) (locks d) (idle d) (registry d) (authenticator d) x
     (power_backend d) (socket_path d) (should_exit d) (audit_path d).
Definition with_should_exit x (d : t) : t :=
  mk (settings d) (sessions d) (seats d) (locks d) (idle d) (registry d) (authenticator d) (elevation d)
     (power_backend d) (socket_path d) x (audit_path d).

(** [self.authenticator.as_ref()], with the answers PAM gives now. *)
Definition auth (d : t) (w : World) : Authenticator :=
  PamAuthenticator.authenticator (authenticator d) (w_pam w).

Definition audit_log (e : AuditEvent.t) (d : t) : list Effect.t := [Effect.Audit (audit_path d) e].

Definition error (e : SessionError.t) : Response.t := Response.Error (SessionError.to_string e).

(** [if let Some(c) = ctx.compositor_conn { self.registry.send_event(c, event) }] *)
Definition send_to_compositor (ctx : SessionContext.t) (event : Event.t) (d : t) : list Effect.t :=
  match SessionContext.compositor_conn ctx with
  | Some c => ConnRegistry.send_event c event (registry d)
  | None => []
  end.

Definition session_info (ctx : SessionContext.t) : SessionInfo.t :=
  let s := SessionContext.session ctx in
  SessionInfo.mk (Session.id s) (Session.uid s) (Session.user_name s) (Session.seat_id s)
    (Session.session_type s) (SessionState.debug (SessionContext.state ctx))
    (SessionState.is_locked (SessionContext.state ctx)) (Session.created_at s).

Definition inhibitor_info (i : Inhibitor.t) : InhibitorInfo.t :=
  InhibitorInfo.mk (Inhibitor.id i) (Inhibitor.what i) (Inhibitor.who i) (Inhibitor.why i)
    (Inhibitor.mode i).

Definition resolve_elevation_requester (s : ElevationSettings.t) (w : World) : option Uid :=
  match User.by_name (ElevationSettings.service_user s) w with
  | Ok u => Some (User.uid u)
  | Err _ => None
  end.

Section daemon.
Context `{HashOrder} `{SerdeJson} `{TomlSettings}.

Definition new (settings : Settings.t) (w : World) : t :=
  let auth_policy := Policy.auth_policy (Settings.authentication settings) (Settings.lock settings) in
  let elevation := ElevationManager.set_requester_uid
    (resolve_elevation_requester (Settings.elevation settings) w) ElevationManager.new in
  let power := Settings.power settings in
  mk settings SessionManager.new SeatManager.new LockManager.new IdleDetector.new ConnRegistry.new
     (PamAuthenticator.new auth_policy) elevation
     (PowerBackend.make (PowerSettings.backend power) (PowerSettings.mitos_power_socket_path power))
     (IpcSettings.socket_path (Settings.ipc settings)) false
     (LoggingSettings.audit_log_path (Settings.logging settings)).

(** The start of [run]: the configuration, the default seat and its devices. *)
Definition start (config_path : option Path) (udev : Device.udev_enumerator) (w : World) : Result t :=
  settings ← Config.load toml_from_str config_path w;
  let default_seat := SeatSettings.default_seat (Settings.seat settings) in
  let daemon := new settings w in
  let daemon := with_seats (SeatManager.ensure_seat default_seat (seats daemon)) daemon in
  Ok (match Device.enumerate udev with
      | Ok devices => with_seats (SeatManager.set_devices default_seat devices (seats daemon)) daemon
      | Err _ => daemon
      end).

Definition notify_elevation_abandoned (reason : string) (a : AbandonedElevation.t) (w : World) (d : t)
    : list Effect.t :=
  ConnRegistry.send_event (AbandonedElevation.compositor_conn a)
    (Event.HideElevationPrompt (AbandonedElevation.request_id a)) (registry d)
  ++ ConnRegistry.send_response (AbandonedElevation.requester_conn a)
       (Response.AuthResult (AuthOutcome.Error reason)) (registry d)
  ++ audit_log (AuditEvent.with_target
       ("session=" +:+ pretty (AbandonedElevation.session_id a) +:+ " request="
        +:+ pretty (AbandonedElevation.request_id a))
       (AuditEvent.new 0 "elevation_abandoned" reason w)) d.

(** [for abandoned in ... { self.notify_elevation_abandoned(reason, abandoned) }] *)
Definition notify_all_abandoned (reason : string) (l : list AbandonedElevation.t) (w : World) (d : t)
    : list Effect.t :=
  concat (map (λ a, notify_elevation_abandoned reason a w d) l).

Definition try_spawn_compositor (id : SessionId) (w : World) (d : t) : list Effect.t * t :=
  match SessionManager.get id (sessions d) with
  | Err _ => ([], d)
  | Ok ctx =>
      let binary := SessionSettings.compositor_binary (Settings.session (settings d)) in
      match Launcher.spawn_compositor (SessionContext.user ctx) (SessionContext.environment ctx) binary w with
      | (calls, Ok child) =>
          (map Effect.Sys calls,
           with_sessions (SessionManager.update id (SessionContext.with_process (Some child)) (sessions d)) d)
      | (calls, Err _) => (map Effect.Sys calls, d)
      end
  end.

Definition create_session (peer : PeerCred.t) (user_name : string) (seat_id session_type : option string)
    (w : World) (d : t) : list Effect.t * Response.t * t :=
  match User.by_name user_name w with
  | Err e => ([], error e, d)
  | Ok user =>
      let seat_id := default (SeatSettings.default_seat (Settings.seat (settings d))) seat_id in
      let session_type :=
        match session_type with
        | Some s => if String.eqb s "x11" then SessionType.X11
                    else if String.eqb s "tty" then SessionType.Tty
                    else SessionPolicy.default_session_type
                           (SessionPolicy.from (Settings.session (settings d)))
        | None => SessionPolicy.default_session_type
                    (SessionPolicy.from (Settings.session (settings d)))
        end in
      let '(calls, r, ss) :=
        SessionManager.create_session user seat_id session_type (Settings.session (settings d)) w
          (sessions d) in
      let d := with_sessions ss d in
      match r with
      | Ok id =>
          let d := with_seats (SeatManager.attach_session seat_id id (seats d)) d in
          let logged := audit_log (AuditEvent.with_target user_name
                          (AuditEvent.new (PeerCred.uid peer) "create_session" "ok" w)) d in
          let '(spawned, d) := if decide (session_type ≠ SessionType.Tty)
                               then try_spawn_compositor id w d else ([], d) in
          (map Effect.Sys calls ++ logged ++ spawned,
           match SessionManager.get id (sessions d) with
           | Ok ctx => Response.Session (session_info ctx)
           | Err e => error e
           end, d)
      | Err e =>
          (map Effect.Sys calls ++
           audit_log (AuditEvent.with_target user_name
             (AuditEvent.new (PeerCred.uid peer) "create_session" (SessionError.to_string e) w)) d,
           error e, d)
      end
  end.

(** The arm [TerminateSession] of [dispatch]. *)
Definition terminate_session (peer : PeerCred.t) (session_id : SessionId) (w : World) (d : t)
    : list Effect.t * Response.t * t :=
  let '(calls, r, ss) := SessionManager.terminate_session session_id (sessions d) in
  let d := with_sessions ss d in
  match r with
  | Ok _ =>
      let d := with_seats (SeatManager.detach_session session_id (seats d)) d in
      let logged := audit_log (AuditEvent.with_target (pretty session_id)
                      (AuditEvent.new (PeerCred.uid peer) "terminate_session" "ok" w)) d in
      let '(abandoned, elevation) := ElevationManager.abandon_session session_id (elevation d) in
      let d := with_elevation elevation d in
      (map Effect.Sys calls ++ logged ++ notify_all_abandoned "session ended" abandoned w d,
       Response.Ok, d)
  | Err e => (map Effect.Sys calls, error e, d)
  end.

(** The arm [RegisterCompositor] of [dispatch]. *)
Definition register_compositor (conn_id : ConnId) (session_id : SessionId) (d : t)
    : list Effect.t * Response.t * t :=
  match SessionManager.get session_id (sessions d) with
  | Err e => ([], error e, d)
  | Ok _ =>
      let d := with_sessions (SessionManager.update session_id
                 (SessionContext.with_conn (Some conn_id)) (sessions d)) d in
      if LockManager.is_locked session_id (locks d) then
        (ConnRegistry.send_event conn_id
           (Event.ShowLockScreen session_id LockReason.Manual) (registry d), Response.Ok,
         with_sessions (SessionManager.update session_id
           (SessionContext.try_transition SessionState.Locked) (sessions d)) d)
      else
        ([], Response.Ok,
         with_sessions (SessionManager.update session_id
           (SessionContext.try_transition SessionState.Active) (sessions d)) d)
  end.

(** [let _ = ctx.transition(next)], then the event, if the session is known. *)
Definition transition_and_tell (session_id : SessionId) (next : SessionState.t) (event : Event.t) (d : t)
    : list Effect.t * t :=
  match SessionManager.get session_id (sessions d) with
  | Ok ctx =>
      (send_to_compositor ctx event d,
       with_sessions (SessionManager.update session_id (SessionContext.try_transition next) (sessions d)) d)
  | Err _ => ([], d)
  end.

(** The user of the session has no usable password (and the session is known). *)
Definition cannot_lock (session_id : SessionId) (w : World) (d : t) : bool :=
  match SessionManager.get session_id (sessions d) with
  | Ok ctx => negb (Shadow.user_has_password (Session.user_name (SessionContext.session ctx)) w)
  | Err _ => false
  end.

Definition lock_session (peer : PeerCred.t) (session_id : SessionId) (reason : LockReason.t) (w : World)
    (d : t) : list Effect.t * Response.t * t :=
  if cannot_lock session_id w d then
    ([], Response.Error "Lock screen disabled: No password set for this user.", d)
  else
    let lock_policy := LockPolicy.from (Settings.lock (settings d)) in
    let '(r, locks) := LockManager.lock session_id lock_policy (locks d) in
    let d := with_locks locks d in
    match r with
    | Ok _ =>
        let '(sent, d) := transition_and_tell session_id SessionState.Locked
                            (Event.ShowLockScreen session_id reason) d in
        (sent ++ audit_log (AuditEvent.with_target (pretty session_id)
           (AuditEvent.new (PeerCred.uid peer) "lock_session" "ok" w)) d, Response.Ok, d)
    | Err e => ([], error e, d)
    end.

Definition unlock (peer : PeerCred.t) (session_id : SessionId) (user_name password : string) (w : World)
    (d : t) : exec (list Effect.t * Response.t * t) :=
  let auth_policy := Policy.auth_policy (Settings.authentication (settings d)) (Settings.lock (settings d)) in
  let request := AuthRequest.mk session_id user_name password in
  '(outcome, locks) ← LockManager.attempt_unlock (auth d w) request auth_policy (w_now w) (locks d);
  let d := with_locks locks d in
  let '(sent, d) :=
    match outcome with
    | AuthOutcome.Success =>
        transition_and_tell session_id SessionState.Active (Event.HideLockScreen session_id) d
    | _ => (match SessionManager.get session_id (sessions d) with
            | Ok ctx => send_to_compositor ctx (Event.AuthFeedback session_id outcome) d
            | Err _ => []
            end, d)
    end in
  Done (sent ++ audit_log (AuditEvent.with_target user_name
          (AuditEvent.new (PeerCred.uid peer) "unlock_attempt" (AuthOutcome.debug outcome) w)) d,
        Response.AuthResult outcome, d).

(** [None] is a reply that comes later. *)
Definition start_elevation (conn_id : ConnId) (peer : PeerCred.t) (session_id : SessionId)
    (action : ElevationAction.t) (w : World) (d : t) : exec (list Effect.t * option Response.t * t) :=
  match ElevationAction.validate action with
  | Err msg => Done ([], Some (Response.Error msg), d)
  | Ok _ =>
  let elevation_policy := ElevationPolicy.from (Settings.elevation (settings d)) in
  if negb (ElevationPolicy.enabled elevation_policy) then
    Done ([], Some (Response.Error "elevation is disabled in config"), d)
  else
  match SessionManager.get session_id (sessions d) with
  | Err e => Done ([], Some (error e), d)
  | Ok ctx =>
  if negb (Shadow.user_has_password (Session.user_name (SessionContext.session ctx)) w) then
    Done ([], Some (Response.AuthResult
      (AuthOutcome.Error "no password is configured for this account")), d)
  else
  match SessionContext.compositor_conn ctx with
  | None => Done ([], Some (Response.Error "session has no active display to show the prompt on"), d)
  | Some compositor_conn =>
  let auth_policy := Policy.elevation_auth_policy (Settings.elevation (settings d)) in
  '(r, elevation) ← ElevationManager.begin session_id compositor_conn conn_id elevation_policy auth_policy
                      (w_now w) (elevation d);
  let d := with_elevation elevation d in
  match r with
  | Ok request_id =>
      Done (audit_log (AuditEvent.with_detail
              (ElevationAction.requesting_app action +:+ ": " +:+ ElevationAction.description action)
              (AuditEvent.with_target
                 ("session=" +:+ pretty session_id +:+ " request=" +:+ pretty request_id)
                 (AuditEvent.new (PeerCred.uid peer) "elevation_request" "prompted" w))) d
            ++ ConnRegistry.send_event compositor_conn
                 (Event.ShowElevationPrompt request_id session_id action) (registry d),
            None, d)
  | Err (SessionError.LockedOut secs) =>
      Done (audit_log (AuditEvent.with_target (pretty session_id)
              (AuditEvent.new (PeerCred.uid peer) "elevation_request" "locked_out" w)) d,
            Some (Response.AuthResult (AuthOutcome.LockedOut secs)), d)
  | Err e => Done ([], Some (error e), d)
  end
  end
  end
  end.

(** What the two connections of a resolved prompt are told. *)
Definition tell_resolved (request_id : ElevationRequestId) (o : ElevationOutcome.t) (d : t) : list Effect.t :=
  ConnRegistry.send_event (ElevationOutcome.compositor_conn o)
    (Event.ElevationFeedback request_id (ElevationOutcome.outcome o)) (registry d)
  ++ (if ElevationOutcome.terminal o then
        ConnRegistry.send_event (ElevationOutcome.compositor_conn o)
          (Event.HideElevationPrompt request_id) (registry d)
        ++ ConnRegistry.send_response (ElevationOutcome.requester_conn o)
             (Response.AuthResult (ElevationOutcome.outcome o)) (registry d)
      else []).

Definition respond_elevation (peer : PeerCred.t) (request_id : ElevationRequestId)
    (response : ElevationResponse.t) (w : World) (d : t) : exec (list Effect.t * Response.t * t) :=
  let unknown := error (SessionError.UnknownElevationRequest request_id) in
  match ElevationManager.peek request_id (elevation d) with
  | None => Done ([], unknown, d)
  | Some info =>
      let session_id := PendingElevationInfo.session_id info in
      resolved ←
        match response with
        | ElevationResponse.Cancelled => Done (Ok (ElevationManager.cancel request_id (elevation d)))
        | ElevationResponse.Password password =>
            match SessionManager.get session_id (sessions d) with
            | Err e => Done (Err e)
            | Ok ctx =>
                let auth_policy := Policy.elevation_auth_policy (Settings.elevation (settings d)) in
                let auth_request := AuthRequest.mk session_id
                  (Session.user_name (SessionContext.session ctx)) password in
                x ← ElevationManager.attempt request_id (auth d w) auth_request auth_policy (w_now w)
                      (elevation d);
                Done (Ok x)
            end
        end;
      match resolved with
      | Err e => Done ([], error e, d)
      | Ok (None, elevation) => Done ([], unknown, with_elevation elevation d)
      | Ok (Some resolved, elevation) =>
          let d := with_elevation elevation d in
          Done (tell_resolved request_id resolved d
                ++ audit_log (AuditEvent.with_target
                     ("session=" +:+ pretty (ElevationOutcome.session_id resolved) +:+ " request="
                      +:+ pretty request_id)
                     (AuditEvent.new (PeerCred.uid peer) "elevation_response"
                        (AuthOutcome.debug (ElevationOutcome.outcome resolved)) w)) d,
                Response.AuthResult (ElevationOutcome.outcome resolved), d)
      end
  end.

Definition of_result (r : Result ()) : Response.t :=
  match r with Ok _ => Response.Ok | Err e => error e end.

Definition suspend_grace (d : t) : Duration :=
  from_secs (PowerSettings.suspend_inhibit_grace_secs (Settings.power (settings d))).

(** The call of [power::suspend] shared by [dispatch] and [on_idle_tick]. *)
Definition suspend (w : World) (d : t) : list Effect.t * Result () * t :=
  let '(log, r, locks) :=
    Power.suspend (sessions d) (LockPolicy.from (Settings.lock (settings d))) (registry d)
      (power_backend d) (suspend_grace d) w (locks d) in
  (log.*1, r, with_locks locks d).

(** A handler that replies at once. *)
Definition replying (x : list Effect.t * Response.t * t) : exec (list Effect.t * option Response.t * t) :=
  let '(effects, response, d) := x in Done (effects, Some response, d).

Definition dispatch (conn_id : ConnId) (peer : PeerCred.t) (request : Request.t) (w : World) (d : t)
    : exec (list Effect.t * option Response.t * t) :=
  match request with
  | Request.CreateSession user_name seat_id session_type =>
      replying (create_session peer user_name seat_id session_type w d)
  | Request.TerminateSession session_id => replying (terminate_session peer session_id w d)
  | Request.RegisterCompositor session_id => replying (register_compositor conn_id session_id d)
  | Request.ListSessions =>
      replying ([], Response.Sessions (map session_info (SessionManager.list (sessions d))), d)
  | Request.SessionStatus session_id =>
      replying ([], match SessionManager.get session_id (sessions d) with
                    | Ok ctx => Response.Session (session_info ctx)
                    | Err e => error e
                    end, d)
  | Request.LockSession session_id => replying (lock_session peer session_id LockReason.Manual w d)
  | Request.Unlock session_id user_name password =>
      x ← unlock peer session_id user_name password w d; replying x
  | Request.ReportActivity seat_id =>
      replying ([], Response.Ok, with_idle (IdleDetector.record_activity seat_id (w_now w) (idle d)) d)
  | Request.SwitchSession seat_id session_id =>
      let '(r, seats) := SeatManager.switch_active seat_id session_id (seats d) in
      let d := with_seats seats d in
      match r with
      | Ok _ =>
          replying (match SessionManager.get session_id (sessions d) with
                    | Ok ctx => send_to_compositor ctx (Event.SessionActivated seat_id session_id) d
                    | Err _ => []
                    end, Response.Ok, d)
      | Err e => replying ([], error e, d)
      end
  | Request.Inhibit what who why mode =>
      let '(id, locks) := LockManager.add_inhibitor what who why mode (locks d) in
      replying ([], Response.InhibitGranted id, with_locks locks d)
  | Request.ReleaseInhibit inhibit_id =>
      let '(r, locks) := LockManager.release_inhibitor inhibit_id (locks d) in
      replying ([], of_result r, with_locks locks d)
  | Request.ListInhibitors =>
      replying ([], Response.Inhibitors
        (map inhibitor_info (InhibitorRegistry.list (LockManager.inhibitors (locks d)))), d)
  | Request.Suspend => let '(effects, r, d) := suspend w d in replying (effects, of_result r, d)
  | Request.Reboot =>
      let '(calls, r, ss) :=
        Power.reboot (locks d) (power_backend d) (suspend_grace d) w (sessions d) in
      replying (map Effect.Sys calls, of_result r, with_sessions ss d)
  | Request.PowerOff =>
      let '(calls, r, ss) :=
        Power.poweroff (locks d) (power_backend d) (suspend_grace d) w (sessions d) in
      replying (map Effect.Sys calls, of_result r, with_sessions ss d)
  | Request.RequestElevation session_id action => start_elevation conn_id peer session_id action w d
  | Request.RespondElevation request_id response =>
      x ← respond_elevation peer request_id response w d; replying x
  end.

Definition handle_command (cmd : ManagerCommand.t) (w : World) (d : t) : exec (list Effect.t * t) :=
  let conn_id := ManagerCommand.conn_id cmd in
  let peer := ManagerCommand.peer cmd in
  let request := ManagerCommand.request cmd in
  match Policy.authorize peer conn_id request (sessions d) (elevation d) w with
  | Err e => Done (ConnRegistry.send_response conn_id (error e) (registry d), d)
  | Ok _ =>
      '(effects, response, d) ← dispatch conn_id peer request w d;
      Done (effects ++ match response with
                       | Some r => ConnRegistry.send_response conn_id r (registry d)
                       | None => []
                       end, d)
  end.

(** Forget a compositor connection that has dropped. *)
Definition clear_conn (conn_id : ConnId) (c : SessionContext.t) : SessionContext.t :=
  if decide (SessionContext.compositor_conn c = Some conn_id) then SessionContext.with_conn None c else c.

Definition disconnected (conn_id : ConnId) (w : World) (d : t) : list Effect.t * t :=
  let d := with_registry (ConnRegistry.unregister conn_id (registry d)) d in
  let d := with_sessions (SessionManager.update_all (clear_conn conn_id) (sessions d)) d in
  let '(abandoned, elevation) := ElevationManager.abandon_connection conn_id (elevation d) in
  let d := with_elevation elevation d in
  (notify_all_abandoned "a required connection disconnected" abandoned w d, d).

Definition handle_ipc (msg : ManagerMessage.t) (w : World) (d : t) : exec (list Effect.t * t) :=
  match msg with
  | ManagerMessage.Connected conn_id _ outbox =>
      Done ([], with_registry (ConnRegistry.register conn_id outbox (registry d)) d)
  | ManagerMessage.Disconnected conn_id => Done (disconnected conn_id w d)
  | ManagerMessage.Command cmd => handle_command cmd w d
  end.

Definition notify_active_compositor (seat_id : string) (event : Event.t) (d : t) : list Effect.t :=
  match SeatManager.active_session seat_id (seats d) with
  | Ok (Some session_id) =>
      match SessionManager.get session_id (sessions d) with
      | Ok ctx => send_to_compositor ctx event d
      | Err _ => []
      end
  | _ => []
  end.

(** The body of the loop of [on_idle_tick] over the seats that changed stage. *)
Definition on_stage (w : World) (seat_id : string) (stage : IdleStage.t) (d : t) : list Effect.t * t :=
  let lock_policy := LockPolicy.from (Settings.lock (settings d)) in
  match stage with
  | IdleStage.Active => ([], d)
  | IdleStage.Dimmed => (notify_active_compositor seat_id (Event.Dim seat_id) d, d)
  | IdleStage.LockRequested =>
      if negb (LockPolicy.lock_on_idle lock_policy) then ([], d)
      else
        match SeatManager.active_session seat_id (seats d) with
        | Ok (Some session_id) =>
            if cannot_lock session_id w d then ([], d)
            else
              let '(r, locks) := LockManager.lock session_id lock_policy (locks d) in
              let d := with_locks locks d in
              if is_ok r then
                transition_and_tell session_id SessionState.Locked
                  (Event.ShowLockScreen session_id LockReason.Idle) d
              else ([], d)
        | _ => ([], d)
        end
  | IdleStage.SuspendRequested => let '(effects, _, d) := suspend w d in (effects, d)
  end.

Fixpoint on_stages (w : World) (changes : list (string * IdleStage.t)) (d : t) : list Effect.t * t :=
  match changes with
  | [] => ([], d)
  | (seat_id, stage) :: rest =>
      let '(effects, d) := on_stage w seat_id stage d in
      let '(effects', d) := on_stages w rest d in
      (effects ++ effects', d)
  end.

Definition on_idle_tick (w : World) (d : t) : list Effect.t * t :=
  let now := w_now w in
  let '(changes, idle) := IdleDetector.tick now (IdlePolicy.from (Settings.idle (settings d))) (idle d) in
  let '(effects, d) := on_stages w changes (with_idle idle d) in
  let d := with_locks (LockManager.sweep_lockouts now (locks d)) d in
  let d := with_elevation (ElevationManager.clear_expired_lockouts now (elevation d)) d in
  let '(abandoned, elevation) := ElevationManager.expire_pending now (elevation d) in
  let d := with_elevation elevation d in
  (effects ++ notify_all_abandoned "timed out waiting for a response" abandoned w d, d).

(** [iter_mut().find(...)]: the first session, in the order of the map, whose
    compositor is [pid], with the key it is filed under. *)
Definition find_compositor (pid : Pid) (ss : SessionManager.t) : option (SessionId * SessionContext.t) :=
  snd <$> list_find (λ e, SessionContext.compositor_process e.2 = Some pid)
            (hash_entries (SessionManager.sessions ss)).

(** The edit of the context found. *)
Definition compositor_gone (c : SessionContext.t) : SessionContext.t :=
  SessionContext.with_conn None (SessionContext.with_process None c).

Definition handle_compositor_exit (pid : Pid) (w : World) (d : t) : list Effect.t * t :=
  match find_compositor pid (sessions d) with
  | None => ([], d)
  | Some (key, ctx) =>
      let session_id := SessionContext.id ctx in
      let restarts := SessionContext.compositor_restarts ctx in
      let d := with_sessions (SessionManager.update key compositor_gone (sessions d)) d in
      let d := match SessionContext.compositor_conn ctx with
               | Some conn => with_registry (ConnRegistry.unregister conn (registry d)) d
               | None => d
               end in
      let d := with_sessions (SessionManager.update session_id
                 (SessionContext.try_transition SessionState.Starting) (sessions d)) d in
      match Launcher.decide_restart restarts
              (SessionSettings.max_compositor_restarts (Settings.session (settings d))) with
      | RestartDecision.Restart =>
          let d := with_sessions (SessionManager.update session_id
                     (λ c, SessionContext.with_restarts (u32_add (SessionContext.compositor_restarts c) 1) c)
                     (sessions d)) d in
          try_spawn_compositor session_id w d
      | RestartDecision.FallbackToTerminal =>
          match SessionManager.get session_id (sessions d) with
          | Err _ => ([], d)
          | Ok ctx =>
              match Launcher.spawn_fallback_terminal (SessionContext.user ctx)
                      (SessionContext.environment ctx) w with
              | (calls, Ok child) =>
                  (map Effect.Sys calls,
                   with_sessions (SessionManager.update session_id
                     (SessionContext.with_process (Some child)) (sessions d)) d)
              | (calls, Err _) => (map Effect.Sys calls, d)
              end
          end
      end
  end.

(** The loop of [reap_children].  [statuses] is what the successive [waitpid]s
    return, each with the world as it is then; the kernel has no more children
    to report past its end. *)
Fixpoint reap_children (statuses : list (WaitStatus.t * World)) (d : t) : list Effect.t * t :=
  match statuses with
  | [] => ([], d)
  | (WaitStatus.StillAlive, _) :: _ | (WaitStatus.Failed, _) :: _ => ([], d)
  | (WaitStatus.NoPid, _) :: rest => reap_children rest d
  | (WaitStatus.Reaped pid, w) :: rest =>
      let '(effects, d) := handle_compositor_exit pid w d in
      let '(effects', d) := reap_children rest d in
      (effects ++ effects', d)
  end.

Definition reload_config (w : World) (d : t) : t :=
  match Config.load toml_from_str None w with
  | Ok new_settings =>
      let auth_policy :=
        Policy.auth_policy (Settings.authentication new_settings) (Settings.lock new_settings) in
      mk new_settings (sessions d) (seats d) (locks d) (idle d) (registry d)
         (PamAuthenticator.new auth_policy)
         (ElevationManager.set_requester_uid
            (resolve_elevation_requester (Settings.elevation new_settings) w) (elevation d))
         (power_backend d) (socket_path d) (should_exit d)
         (LoggingSettings.audit_log_path (Settings.logging new_settings))
  | Err _ => d
  end.

(** The failure of [sd_notify] is ignored. *)
Definition notify_service_manager_stopping : list Effect.t := [Effect.Sys (SysCall.SdNotify NotifyState.Stopping)].

Definition on_signal (event : SignalEvent.t) (statuses : list (WaitStatus.t * World)) (w : World) (d : t)
    : list Effect.t * t :=
  match event with
  | SignalEvent.Terminate =>
      let '(calls, _, ss) := Power.graceful_shutdown (socket_path d) w (sessions d) in
      (notify_service_manager_stopping ++ map Effect.Sys calls,
       with_should_exit true (with_sessions ss d))
  | SignalEvent.ReloadConfig => ([], reload_config w d)
  | SignalEvent.ReapChildren => reap_children statuses d
  end.

(** ** The event loop *)

(** What wakes the loop of [run]: a message of a connection thread, the
    one-second timer, or a signal, with what [waitpid] would report. *)
Inductive input : Type :=
| Ipc (msg : ManagerMessage.t)
| IdleTick
| Signalled (s : Signal.t) (statuses : list (WaitStatus.t * World)).

Definition handle (i : input) (w : World) (d : t) : exec (list Effect.t * t) :=
  match i with
  | Ipc msg => handle_ipc msg w d
  | IdleTick => Done (on_idle_tick w d)
  | Signalled s statuses =>
      match SignalEvent.classify s with
      | Some event => Done (on_signal event statuses w d)
      | None => Done ([], d)
      end
  end.

(** One [event_loop.dispatch]: every event that is ready, one after the other. *)
Fixpoint handle_all (l : list (input * World)) (d : t) : exec (list Effect.t * t) :=
  match l with
  | [] => Done ([], d)
  | (i, w) :: l' =>
      '(effects, d) ← handle i w d;
      '(effects', d) ← handle_all l' d;
      Done (effects ++ effects', d)
  end.

(** The loop of [run]: dispatch until a termination signal has been handled. *)
Fixpoint run (batches : list (list (input * World))) (d : t) : exec (list Effect.t * t) :=
  match batches with
  | [] => Done ([], d)
  | l :: batches' =>
      if should_exit d then Done ([], d)
      else
        '(effects, d) ← handle_all l d;
        '(effects', d) ← run batches' d;
        Done (effects ++ effects', d)
  end.
End daemon.
End Daemon.
