(* ===== verification/Sessionctl.v ===== *)
(** * Sessionctl: the command-line client (src/bin/mitos-sessionctl.rs, and
    [IpcClient::connect] of src/src/ipc/client.rs)

    Arguments are parsed by clap, which is not in the repository: a [Cli.t] is a
    parsed command line.  The terminal is a parameter: what reading a line gives,
    and the text shown is recorded. *)

From Stdlib Require Import Ascii Strings.Byte.
From stdpp Require Import base gmap strings pretty numbers list.
From S2P Require Import Prelude Errors System Config Text Session Auth Lock Elevation Ipc Protocol Daemon.

(** ** Arguments *)

Module RiskArg.
Inductive t : Type := Elevated | Critical.
Definition into (v : t) : ElevationRisk.t :=
  match v with Elevated => ElevationRisk.Elevated | Critical => ElevationRisk.Critical end.
End RiskArg.

Module InhibitWhatArg.
Inductive t : Type := Idle | Lock | Suspend | Shutdown.
Definition into (v : t) : InhibitWhat.t :=
  match v with
  | Idle => InhibitWhat.Idle
  | Lock => InhibitWhat.Lock
  | Suspend => InhibitWhat.Suspend
  | Shutdown => InhibitWhat.Shutdown
  end.
End InhibitWhatArg.

Module InhibitModeArg.
Inductive t : Type := Block | Delay.
Definition into (v : t) : InhibitMode.t :=
  match v with Block => InhibitMode.Block | Delay => InhibitMode.Delay end.
End InhibitModeArg.

Module CtlCommand.
Inductive t : Type :=
| ListSessions
| Status (session_id : SessionId)
| CreateSession (user_name : string) (seat session_type : option string)
| Terminate (session_id : SessionId)
| Lock (session_id : SessionId)
| Unlock (session_id : SessionId) (user_name : string)
| Activity (seat_id : string)
| Switch (seat_id : string) (session_id : SessionId)
| Inhibit (what : InhibitWhatArg.t) (who why : string) (mode : InhibitModeArg.t)
| ReleaseInhibit (inhibit_id : N)
| ListInhibitors
| Suspend
| Reboot
| Poweroff
| RequestElevation (session_id : SessionId) (app description : string) (risk : RiskArg.t) (duration : string)
| RespondElevation (request_id : ElevationRequestId) (cancel : bool).
End CtlCommand.

Module Cli.
Record t := mk {
  socket : option Path;
  command : CtlCommand.t
}.
End Cli.

(** ** The terminal *)

(** How flushing the prompt and reading a line of standard input end. *)
Record Terminal := {
  tty_flush : result IoError ();
  tty_read_line : result IoError string
}.

Module Screen.
Inductive t : Type := Stdout (text : string) | Stderr (text : string).
End Screen.

Definition println (s : string) : Screen.t := Screen.Stdout (s +:+ String newline "").
Definition eprintln (s : string) : Screen.t := Screen.Stderr (s +:+ String newline "").
Definition tab : string := String (ascii_of_N 9) "".

(** ** The program *)

(** What connecting to a socket gives: the two directions of the stream. *)
Abbreviation Network := (Path → result IoError (Writer.t * Reader.t)) (only parsing).

Module Sessionctl.

(** [IpcClient::connect]. *)
Definition connect (net : Network) (socket_path : Path) : Result (Writer.t * Reader.t) :=
  map_err (λ e, SessionError.Io
    {| io_kind := io_kind e; io_text := "could not connect to " +:+ socket_path +:+ ": " +:+ io_text e |})
    (net socket_path).

Definition read_password (tty : Terminal) : list Screen.t * Result string :=
  ([Screen.Stdout "Password: "],
   _ ← map_err SessionError.from_io (tty_flush tty);
   line ← map_err SessionError.from_io (tty_read_line tty);
   Ok (trim_end_matches [newline; carriage_return] line)).

(** The [match] of [run] that builds the request. *)
Definition request (c : CtlCommand.t) (tty : Terminal) : list Screen.t * Result Request.t :=
  match c with
  | CtlCommand.ListSessions => ([], Ok Request.ListSessions)
  | CtlCommand.Status s => ([], Ok (Request.SessionStatus s))
  | CtlCommand.CreateSession u seat ty => ([], Ok (Request.CreateSession u seat ty))
  | CtlCommand.Terminate s => ([], Ok (Request.TerminateSession s))
  | CtlCommand.Lock s => ([], Ok (Request.LockSession s))
  | CtlCommand.Unlock s u =>
      let '(shown, r) := read_password tty in (shown, password ← r; Ok (Request.Unlock s u password))
  | CtlCommand.Activity seat => ([], Ok (Request.ReportActivity seat))
  | CtlCommand.Switch seat s => ([], Ok (Request.SwitchSession seat s))
  | CtlCommand.Inhibit what who why mode =>
      ([], Ok (Request.Inhibit (InhibitWhatArg.into what) who why (InhibitModeArg.into mode)))
  | CtlCommand.ReleaseInhibit id => ([], Ok (Request.ReleaseInhibit id))
  | CtlCommand.ListInhibitors => ([], Ok Request.ListInhibitors)
  | CtlCommand.Suspend => ([], Ok Request.Suspend)
  | CtlCommand.Reboot => ([], Ok Request.Reboot)
  | CtlCommand.Poweroff => ([], Ok Request.PowerOff)
  | CtlCommand.RequestElevation s app description risk duration =>
      ([], Ok (Request.RequestElevation s (ElevationAction.mk app description (RiskArg.into risk) duration)))
  | CtlCommand.RespondElevation id cancel =>
      if cancel then ([], Ok (Request.RespondElevation id ElevationResponse.Cancelled))
      else let '(shown, r) := read_password tty in
           (shown, password ← r; Ok (Request.RespondElevation id (ElevationResponse.Password password)))
  end.

(** The derived [Debug]s [print_response] uses. *)
Definition debug_session_type (t : SessionType.t) : string :=
  match t with SessionType.Wayland => "Wayland" | SessionType.X11 => "X11" | SessionType.Tty => "Tty" end.
Definition debug_what (w : InhibitWhat.t) : string :=
  match w with
  | InhibitWhat.Idle => "Idle" | InhibitWhat.Lock => "Lock"
  | InhibitWhat.Suspend => "Suspend" | InhibitWhat.Shutdown => "Shutdown"
  end.
Definition debug_mode (m : InhibitMode.t) : string :=
  match m with InhibitMode.Block => "Block" | InhibitMode.Delay => "Delay" end.

Definition session_line (s : SessionInfo.t) : string :=
  pretty (SessionInfo.id s) +:+ tab +:+ SessionInfo.user_name s +:+ tab +:+ "seat=" +:+ SessionInfo.seat_id s
  +:+ tab +:+ debug_session_type (SessionInfo.session_type s) +:+ tab +:+ SessionInfo.state s
  +:+ (if SessionInfo.locked s then " [locked]" else "").

Definition inhibitor_line (i : InhibitorInfo.t) : string :=
  pretty (InhibitorInfo.id i) +:+ tab +:+ debug_what (InhibitorInfo.what i) +:+ tab +:+ InhibitorInfo.who i
  +:+ tab +:+ debug_mode (InhibitorInfo.mode i) +:+ tab +:+ InhibitorInfo.why i.

Definition print_response (r : Response.t) : list Screen.t :=
  match r with
  | Response.Ok => [println "ok"]
  | Response.Sessions sessions =>
      (if bool_decide (sessions = []) then [println "no active sessions"] else [])
      ++ map (λ s, println (session_line s)) sessions
  | Response.Session s =>
      [println ("id:      " +:+ pretty (SessionInfo.id s));
       println ("user:    " +:+ SessionInfo.user_name s +:+ " (uid " +:+ pretty (SessionInfo.uid s) +:+ ")");
       println ("seat:    " +:+ SessionInfo.seat_id s);
       println ("type:    " +:+ debug_session_type (SessionInfo.session_type s));
       println ("state:   " +:+ SessionInfo.state s +:+ (if SessionInfo.locked s then " (locked)" else ""))]
  | Response.AuthResult outcome => [println (AuthOutcome.debug outcome)]
  | Response.InhibitGranted id => [println ("inhibitor " +:+ pretty id +:+ " granted")]
  | Response.Inhibitors l =>
      (if bool_decide (l = []) then [println "no active inhibitors"] else [])
      ++ map (λ i, println (inhibitor_line i)) l
  | Response.Error e => [eprintln ("error: " +:+ e)]
  end.

Section program.
Context `{TomlSettings} `{Codec Request.t} `{Codec Message.t}.

Definition socket_path (cli : Cli.t) (w : World) : Result Path :=
  match Cli.socket cli with
  | Some path => Ok path
  | None => settings ← Config.load toml_from_str None w; Ok (IpcSettings.socket_path (Settings.ipc settings))
  end.

(** [run]: what is shown, the bytes put on the socket, and the result. *)
Definition run (cli : Cli.t) (w : World) (net : Network) (tty : Terminal)
    : list Screen.t * list byte * Result () :=
  match socket_path cli w with
  | Err e => ([], [], Err e)
  | Ok path =>
      match connect net path with
      | Err e => ([], [], Err e)
      | Ok (out, inp) =>
          let '(shown, r) := request (Cli.command cli) tty in
          match r with
          | Err e => (shown, Writer.out out, Err e)
          | Ok req =>
              let '(reply, out, _) := IpcClient.call req out inp in
              match reply with
              | Err e => (shown, Writer.out out, Err e)
              | Ok response => (shown ++ print_response response, Writer.out out, Ok ())
              end
          end
      end
  end.

(** [main]: what is shown, the bytes sent, and whether the exit code is
    [SUCCESS]. *)
Definition main (cli : Cli.t) (w : World) (net : Network) (tty : Terminal) : list Screen.t * list byte * bool :=
  let '(shown, sent, r) := run cli w net tty in
  match r with
  | Ok _ => (shown, sent, true)
  | Err e => (shown ++ [eprintln ("mitos-sessionctl: " +:+ SessionError.to_string e)], sent, false)
  end.
End program.
End Sessionctl.

(** ** Lemmas *)

(** What the tool asks of the daemon, and from whom it needs a line. *)
Lemma request_Ok c tty shown req :
  Sessionctl.request c tty = (shown, Ok req) →
  (∀ s, req ≠ Request.RegisterCompositor s) ∧ (shown = [] ∨ shown = [Screen.Stdout "Password: "]).
Proof.
  destruct c; simpl; try (intros; simplify_eq; by split; [intros|left]).
  - destruct (tty_flush tty); simplify_eq/=; [|done]. destruct (tty_read_line tty); simplify_eq/=; [|done].
    intros; simplify_eq. by split; [|right].
  - destruct cancel; [intros; simplify_eq; by split; [|left]|].
    destruct (tty_flush tty); simplify_eq/=; [|done]. destruct (tty_read_line tty); simplify_eq/=; [|done].
    intros; simplify_eq. by split; [|right].
Qed.

(** The line typed, without its end. *)
Definition typed (password : string) : Terminal :=
  {| tty_flush := Ok (); tty_read_line := Ok (password +:+ String newline "") |}.

Lemma read_password_typed p :
  strip_chars (λ a, existsb (Ascii.eqb a) [newline; carriage_return]) (string_reverse p) = string_reverse p →
  Sessionctl.read_password (typed p) = ([Screen.Stdout "Password: "], Ok p).
Proof.
  intros Hp. unfold Sessionctl.read_password, typed. simpl. do 2 f_equal. unfold trim_end_matches.
  rewrite string_reverse_snoc. simpl in *. rewrite Hp. apply string_reverse_involutive.
Qed.

Section main_lemmas.
Context `{TomlSettings} `{!Codec Request.t, !CodecLaws Request.t, !Codec Message.t, !CodecLaws Message.t}.

(** The daemon's reader parses one request from what one [write_message] put on
    the wire. *)
Lemma forwarded_frame (req : Request.t) payload :
  sendable req payload → Connection.forwarded (Reader.mk (frame payload) None) = ([req], SessionError.Disconnected).
Proof.
  intros Hs. assert (Forall2 sendable [req] [payload]) as Hall by auto.
  pose proof (conversation_roundtrip [req] [payload] Hall) as Hc.
  rewrite (write_messages_frames [req] [payload]) in Hc by done.
  simpl in Hc. by rewrite app_nil_r in Hc.
Qed.

Lemma main_reply cli w net tty path evs ps resp p rest e shown req payload :
  Sessionctl.socket_path cli w = Ok path →
  net path = Ok (Writer.mk [] None, Reader.mk (concat (frame <$> ps) ++ frame p ++ rest) e) →
  Sessionctl.request (Cli.command cli) tty = (shown, Ok req) → sendable req payload →
  Forall2 sendable (Message.Event <$> evs) ps → sendable (Message.Response resp) p →
  Sessionctl.main cli w net tty = (shown ++ Sessionctl.print_response resp, frame payload, true).
Proof.
  intros Hp Hn Hr [Hs Hl] Hevs Hresp. unfold Sessionctl.main, Sessionctl.run, Sessionctl.connect.
  rewrite Hp, Hn. simpl. rewrite Hr.
  by rewrite (call_first_reply req payload evs ps resp p rest e)
    by (done || unfold u32_MAX, Protocol.MAX_MESSAGE_LEN in *; lia).
Qed.

(** Without a request nothing is written, and the exit code says so. *)
Lemma main_no_request cli w net tty path out inp shown e :
  Sessionctl.socket_path cli w = Ok path → net path = Ok (out, inp) →
  Sessionctl.request (Cli.command cli) tty = (shown, Err e) →
  Sessionctl.main cli w net tty =
    (shown ++ [eprintln ("mitos-sessionctl: " +:+ SessionError.to_string e)], Writer.out out, false).
Proof.
  intros Hp Hn Hr. unfold Sessionctl.main, Sessionctl.run, Sessionctl.connect. rewrite Hp, Hn. simpl. by rewrite Hr.
Qed.
End main_lemmas.
