(* ===== verification/DaemonInv.v ===== *)
(** * DaemonInv: the invariant of the daemon's state, and that every event keeps it

    [DaemonInv.wf] joins the invariants of the components and says how they
    agree with each other.  Identifiers are machine integers, so it is kept as
    long as no counter wraps: [DaemonInv.room] is how far the counters are from
    that, and an event uses up at most one unit of it. *)

From stdpp Require Import base gmap strings numbers list.
From S2P Require Import Prelude Errors System Config User Session Seat Auth Lock Idle Elevation.
From S2P Require Import Ipc Policy Launcher Power Daemon.

Module DaemonInv.
(** A seat only holds sessions that have been created. *)
Definition seats_issued (d : Daemon.t) : Prop :=
  ∀ x, seated x (Daemon.seats d) → (x < SessionManager.next_id (Daemon.sessions d))%N.

(** A session shown as locked is locked. *)
Definition shown_locked (d : Daemon.t) : Prop :=
  map_Forall (λ id c, SessionContext.state c = SessionState.Locked →
    LockManager.is_locked id (Daemon.locks d) = true) (SessionManager.sessions (Daemon.sessions d)).

Record wf (d : Daemon.t) : Prop := {
  wf_sessions : SessionInv.wf (Daemon.sessions d);
  wf_seats : SeatInv.mgr_wf (Daemon.seats d);
  wf_issued : seats_issued d;
  wf_locks : LockInv.wf (Daemon.locks d);
  wf_elevation : ElevationInv.wf (Daemon.elevation d);
  wf_shown : shown_locked d
}.

(** No counter wraps in the next [n] allocations. *)
Definition room (n : N) (d : Daemon.t) : Prop :=
  is_u32 (SessionManager.next_id (Daemon.sessions d) + n) ∧
  is_u64 (InhibitorRegistry.next_id (LockManager.inhibitors (Daemon.locks d)) + n) ∧
  is_u64 (ElevationManager.next_id (Daemon.elevation d) + n).

(** The step from [d] to [d'] keeps the invariant and takes at most [k]
    allocations. *)
Definition keeps (k : N) (d d' : Daemon.t) : Prop :=
  ∀ n, wf d → room (k + n) d → wf d' ∧ room n d'.
End DaemonInv.

Section inv_lemmas.
Implicit Types (d : Daemon.t).

Lemma room_weaken j k d : (j ≤ k)%N → DaemonInv.room k d → DaemonInv.room j d.
Proof. intros Hle (H1 & H2 & H3). unfold DaemonInv.room, is_u32, is_u64 in *. split_and!; lia. Qed.

Lemma keeps_refl k d : DaemonInv.keeps k d d.
Proof.
  intros n Hwf Hroom. split; [done|]. by eapply room_weaken; [|exact Hroom]; lia.
Qed.

Lemma keeps_trans j k d1 d2 d3 :
  DaemonInv.keeps j d1 d2 → DaemonInv.keeps k d2 d3 → DaemonInv.keeps (j + k) d1 d3.
Proof.
  intros H12 H23 n Hwf Hroom. destruct (H12 (k + n)%N Hwf) as [Hwf2 Hroom2].
  { by rewrite N.add_assoc. }
  by apply H23.
Qed.

Lemma keeps_trans0 k d1 d2 d3 :
  DaemonInv.keeps k d1 d2 → DaemonInv.keeps 0 d2 d3 → DaemonInv.keeps k d1 d3.
Proof. rewrite <- (N.add_0_r k) at 2. apply keeps_trans. Qed.

Lemma keeps_weaken k d d' : DaemonInv.keeps 0 d d' → DaemonInv.keeps k d d'.
Proof. intros. apply (keeps_trans0 k d d); [apply keeps_refl|done]. Qed.

(** *** Steps that touch one component *)

Lemma keeps_with_sessions d ss :
  (SessionInv.wf (Daemon.sessions d) → SessionInv.wf ss) →
  SessionManager.next_id ss = SessionManager.next_id (Daemon.sessions d) →
  (DaemonInv.shown_locked d → DaemonInv.shown_locked (Daemon.with_sessions ss d)) →
  DaemonInv.keeps 0 d (Daemon.with_sessions ss d).
Proof.
  intros Hs Hn Hl n [] Hroom. split.
  - constructor; try done; [by apply Hs| |by apply Hl]. unfold DaemonInv.seats_issued. simpl. by rewrite Hn.
  - unfold DaemonInv.room in *. simpl. rewrite Hn. by rewrite N.add_0_l in Hroom.
Qed.

(** An edit of one context that neither changes who it is nor shows as locked a
    session that is not. *)
Lemma keeps_update d id f :
  same_identity f →
  (∀ c, SessionManager.sessions (Daemon.sessions d) !! id = Some c →
        SessionContext.state (f c) = SessionState.Locked →
        SessionContext.state c = SessionState.Locked ∨ LockManager.is_locked id (Daemon.locks d) = true) →
  DaemonInv.keeps 0 d (Daemon.with_sessions (SessionManager.update id f (Daemon.sessions d)) d).
Proof.
  intros Hf Hl. apply keeps_with_sessions; [by apply update_wf|done|]. intros Hsh i c. simpl.
  rewrite lookup_alter. case_decide as Hi; [|apply Hsh]. subst i.
  intros (c0 & Hc0 & ->)%fmap_Some Hst. destruct (Hl _ Hc0 Hst) as [Hst0|]; [|done]. by apply (Hsh _ _ Hc0).
Qed.

Lemma keeps_update_all d f :
  same_identity f → (∀ c, SessionContext.state (f c) = SessionContext.state c) →
  DaemonInv.keeps 0 d (Daemon.with_sessions (SessionManager.update_all f (Daemon.sessions d)) d).
Proof.
  intros Hf Hst. apply keeps_with_sessions; [by apply update_all_wf|done|]. intros Hsh i c. simpl.
  rewrite lookup_fmap. intros (c0 & Hc0 & ->)%fmap_Some. rewrite Hst. by apply Hsh.
Qed.

(** Removing sessions. *)
Lemma keeps_delete_sessions d ids ss :
  ss = SessionManager.mk (delete_list ids (SessionManager.sessions (Daemon.sessions d)))
         (SessionManager.next_id (Daemon.sessions d)) →
  DaemonInv.keeps 0 d (Daemon.with_sessions ss d).
Proof.
  intros ->. apply keeps_with_sessions; [|done|].
  - intros Hwf i c. simpl. rewrite lookup_delete_list. case_decide; [done|]. apply Hwf.
  - intros Hsh i c. simpl. rewrite lookup_delete_list. case_decide; [done|]. apply Hsh.
Qed.

(** A change of the locks that unlocks no session shown as locked. *)
Lemma keeps_with_locks k d l :
  (LockInv.wf (Daemon.locks d) →
   is_u64 (InhibitorRegistry.next_id (LockManager.inhibitors (Daemon.locks d)) + k) → LockInv.wf l) →
  (InhibitorRegistry.next_id (LockManager.inhibitors l) ≤
   InhibitorRegistry.next_id (LockManager.inhibitors (Daemon.locks d)) + k)%N →
  (∀ s, LockManager.is_locked s (Daemon.locks d) = true → LockManager.is_locked s l = true) →
  DaemonInv.keeps k d (Daemon.with_locks l d).
Proof.
  intros Hl Hn Hlock n [] (H1 & H2 & H3). unfold is_u32, is_u64 in *. split.
  - constructor; try done.
    + apply Hl; [done|]. unfold is_u64. lia.
    + intros i c Hc Hst. simpl. by apply Hlock, (wf_shown _ _ Hc).
  - unfold DaemonInv.room, is_u32, is_u64. simpl. split_and!; lia.
Qed.

Lemma keeps_with_elevation k d e :
  (ElevationInv.wf (Daemon.elevation d) →
   is_u64 (ElevationManager.next_id (Daemon.elevation d) + k) → ElevationInv.wf e) →
  (ElevationManager.next_id e ≤ ElevationManager.next_id (Daemon.elevation d) + k)%N →
  DaemonInv.keeps k d (Daemon.with_elevation e d).
Proof.
  intros He Hn n [] (H1 & H2 & H3). unfold is_u32, is_u64 in *. split.
  - constructor; try done. apply He; [done|]. unfold is_u64. lia.
  - unfold DaemonInv.room, is_u32, is_u64. simpl. split_and!; lia.
Qed.

Lemma keeps_with_seats d ss :
  (SeatInv.mgr_wf (Daemon.seats d) →
   SeatInv.mgr_wf ss ∧ ∀ x, seated x ss → seated x (Daemon.seats d)) →
  DaemonInv.keeps 0 d (Daemon.with_seats ss d).
Proof.
  intros Hs n [] Hroom. destruct (Hs wf_seats) as [Hwf Hsub]. split.
  - constructor; try done. intros x Hx. by apply wf_issued, Hsub.
  - by rewrite N.add_0_l in Hroom.
Qed.

(** The invariant does not look at the other fields. *)
Lemma keeps_frame d d' :
  Daemon.sessions d' = Daemon.sessions d → Daemon.seats d' = Daemon.seats d →
  Daemon.locks d' = Daemon.locks d → Daemon.elevation d' = Daemon.elevation d →
  DaemonInv.keeps 0 d d'.
Proof.
  intros Hs Hse Hl He n [] Hroom. rewrite N.add_0_l in Hroom. split.
  - constructor; unfold DaemonInv.seats_issued, DaemonInv.shown_locked; by rewrite ?Hs, ?Hse, ?Hl, ?He.
  - unfold DaemonInv.room. by rewrite Hs, Hl, He.
Qed.

End inv_lemmas.

(** ** Contexts *)

Lemma same_identity_with_restarts g :
  same_identity (λ c, SessionContext.with_restarts (g c) c).
Proof. done. Qed.

Lemma same_identity_gone : same_identity Daemon.compositor_gone.
Proof. done. Qed.

Lemma same_identity_clear_conn conn : same_identity (Daemon.clear_conn conn).
Proof. intros c. unfold Daemon.clear_conn. by case_decide. Qed.

Lemma clear_conn_state conn c :
  SessionContext.state (Daemon.clear_conn conn c) = SessionContext.state c.
Proof. unfold Daemon.clear_conn. by case_decide. Qed.

#[export] Hint Resolve same_identity_with_restarts same_identity_gone same_identity_clear_conn : mitos.

(** Only a transition to [Locked] can make a session [Locked]. *)
Lemma try_transition_locked next c :
  SessionContext.state (SessionContext.try_transition next c) = SessionState.Locked →
  SessionContext.state c = SessionState.Locked ∨ next = SessionState.Locked.
Proof. rewrite try_transition_state. case_match; auto. Qed.

Section handlers.
Context `{HashOrder} `{SerdeJson} `{TomlSettings}.
Implicit Types (d : Daemon.t).

(** ** Handlers *)

Lemma keeps_transition_and_tell s next ev d es d' :
  (next = SessionState.Locked → LockManager.is_locked s (Daemon.locks d) = true) →
  Daemon.transition_and_tell s next ev d = (es, d') → DaemonInv.keeps 0 d d'.
Proof.
  unfold Daemon.transition_and_tell. intros Hn Ht. case_match; simplify_eq; [|apply keeps_refl].
  apply keeps_update; [auto with mitos|]. intros c _ [?|?]%try_transition_locked; auto.
Qed.

Lemma keeps_try_spawn id w d es d' :
  Daemon.try_spawn_compositor id w d = (es, d') → DaemonInv.keeps 0 d d'.
Proof.
  unfold Daemon.try_spawn_compositor. intros Ht. repeat case_match; simplify_eq; try apply keeps_refl.
  apply keeps_update; [auto with mitos|]. simpl. auto.
Qed.

Lemma keeps_new_session d user seat ty w calls r ss :
  SessionManager.create_session user seat ty (Settings.session (Daemon.settings d)) w
    (Daemon.sessions d) = (calls, r, ss) →
  DaemonInv.keeps 1 d
    match r with
    | Ok id => Daemon.with_seats (SeatManager.attach_session seat id (Daemon.seats d)) (Daemon.with_sessions ss d)
    | Err _ => Daemon.with_sessions ss d
    end.
Proof.
  intros Hc n [] (Hr1 & Hr2 & Hr3). unfold is_u32, is_u64 in *.
  assert (SessionInv.wf ss) as Hss by (eapply create_session_wf; [done| |done]; unfold is_u32; lia).
  apply create_session_cases in Hc as Hcase.
  assert (SessionManager.next_id ss = SessionManager.next_id (Daemon.sessions d) ∨
          SessionManager.next_id ss = SessionManager.next_id (Daemon.sessions d) + 1)%N as Hn.
  { destruct Hcase as [(msg & _ & _ & -> & _)|(_ & Hn & _)]; [by left|right].
    rewrite Hn. apply u32_add_small. unfold is_u32. lia. }
  assert (∀ d0, Daemon.sessions d0 = ss → Daemon.locks d0 = Daemon.locks d →
    Daemon.elevation d0 = Daemon.elevation d → DaemonInv.room n d0) as Hroom.
  { intros d0 Hs Hl He. unfold DaemonInv.room. rewrite Hs, Hl, He. unfold is_u32, is_u64.
    split_and!; lia. }
  assert (∀ i c, SessionManager.sessions ss !! i = Some c →
    SessionContext.state c = SessionState.Locked → LockManager.is_locked i (Daemon.locks d) = true) as Hsh.
  { destruct Hcase as [(msg & _ & _ & -> & _)|(_ & _ & [(e & _ & ->)|(_ & ->)])]; [done..|].
    intros i c [[<- <-]|[_ Hic]]%lookup_insert_Some; [done|]. by apply (wf_shown _ _ Hic). }
  destruct r as [id|e]; (split; [|by apply Hroom]); constructor; try done.
  - destruct Hcase as [(? & ? & _)|(_ & _ & [(e & ? & _)|(Hr & _)])]; [done..|]. injection Hr as ->.
    apply attach_session_wf; [done|]. apply not_seated_absent. intros ?%wf_issued. lia.
  - intros x. simpl. intros [Hx| ->]%seated_attach; [|destruct Hcase as
      [(? & ? & _)|(_ & Hnx & [(e & ? & _)|(Hr & _)])]; [done..|]|done].
    + apply wf_issued in Hx. lia.
    + injection Hr as ->. rewrite Hnx, u32_add_small by (unfold is_u32; lia). lia.
  - intros x Hx. simpl. apply wf_issued in Hx. lia.
Qed.

Lemma keeps_create_session peer name seat ty w d es r d' :
  Daemon.create_session peer name seat ty w d = (es, r, d') → DaemonInv.keeps 1 d d'.
Proof.
  unfold Daemon.create_session. destruct (User.by_name name w); [|intros; simplify_eq; apply keeps_refl].
  destruct (SessionManager.create_session _ _ _ _ w _) as [[calls res] ss] eqn:Hc.
  apply keeps_new_session in Hc. destruct res as [id|e].
  - case_decide.
    + destruct (Daemon.try_spawn_compositor _ _ _) as [es' d1] eqn:Ht. intros; simplify_eq.
      eapply keeps_trans0; [done|]. by eapply keeps_try_spawn.
    + by intros; simplify_eq.
  - by intros; simplify_eq.
Qed.

Lemma keeps_abandon f d :
  DaemonInv.keeps 0 d (Daemon.with_elevation (ElevationManager.abandon_where f (Daemon.elevation d)).2 d).
Proof.
  apply keeps_with_elevation; [intros; by apply abandon_where_wf|].
  destruct (abandon_where_frame f (Daemon.elevation d)) as (_ & -> & _). lia.
Qed.

Lemma keeps_terminate_session peer s w d es r d' :
  Daemon.terminate_session peer s w d = (es, r, d') → DaemonInv.keeps 0 d d'.
Proof.
  unfold Daemon.terminate_session. pose proof (terminate_session_spec s (Daemon.sessions d)) as Ht.
  destruct (SessionManager.sessions (Daemon.sessions d) !! s) as [c|] eqn:Hc; rewrite Ht.
  2: { intros; simplify_eq. by apply keeps_frame. }
  unfold ElevationManager.abandon_session. simpl.
  destruct (ElevationManager.abandon_where _ _) as [ab e] eqn:Hab. intros; simplify_eq.
  eapply keeps_trans0; [by apply (keeps_delete_sessions d [s])|].
  eapply keeps_trans0; [apply (keeps_with_seats _ (SeatManager.detach_session s (Daemon.seats d)))|].
  { simpl. intros Hwf. split; [by apply detach_session_wf|]. by intros x [? _]%seated_detach. }
  change e with (ab, e).2. rewrite <- Hab.
  apply (keeps_abandon _ (Daemon.with_seats _ (Daemon.with_sessions _ d))).
Qed.

Lemma keeps_register_compositor conn s d es r d' :
  Daemon.register_compositor conn s d = (es, r, d') → DaemonInv.keeps 0 d d'.
Proof.
  unfold Daemon.register_compositor. case_match; [|intros; simplify_eq; apply keeps_refl].
  intros Hr. eapply keeps_trans0.
  { apply (keeps_update d s (SessionContext.with_conn (Some conn))); [auto with mitos|]. simpl. auto. }
  simpl in Hr. case_match eqn:Hl; simplify_eq.
  - apply (keeps_update (Daemon.with_sessions _ d)); [auto with mitos|]. auto.
  - apply (keeps_update (Daemon.with_sessions _ d)); [auto with mitos|].
    intros c _ [?|?]%try_transition_locked; [by left|done].
Qed.

(** Taking a lock keeps the invariant, and the session is locked after it. *)
Lemma keeps_lock s p d r l :
  LockManager.lock s p (Daemon.locks d) = (r, l) → DaemonInv.keeps 0 d (Daemon.with_locks l d).
Proof.
  intros Hl. change l with (r, l).2. rewrite <- Hl. apply keeps_with_locks.
  - intros. by apply lock_wf.
  - rewrite lock_keeps_inhibitors. lia.
  - intros s' Hs'. by apply lock_keeps_locked.
Qed.

Lemma keeps_lock_session peer s reason w d es r d' :
  Daemon.lock_session peer s reason w d = (es, r, d') → DaemonInv.keeps 0 d d'.
Proof.
  unfold Daemon.lock_session. case_match; [intros; simplify_eq; apply keeps_refl|].
  destruct (LockManager.lock _ _ _) as [res l] eqn:Hl. pose proof (keeps_lock _ _ _ _ _ Hl) as Hk.
  destruct res as [[]|e]; [|by intros; simplify_eq].
  destruct (Daemon.transition_and_tell _ _ _ _) as [es' d1] eqn:Ht. intros; simplify_eq.
  eapply keeps_trans0; [done|]. eapply keeps_transition_and_tell; [|done]. intros _. by eapply lock_locks.
Qed.

(** The edit of [locks] an accepted password makes, with the session it was for
    going back to [Active]: nothing else is unlocked. *)
Lemma keeps_unlock peer s u pw w d es r d' :
  Daemon.unlock peer s u pw w d = Done (es, r, d') → DaemonInv.keeps 0 d d'.
Proof.
  unfold Daemon.unlock. destruct (LockManager.attempt_unlock _ _ _ _ _) as [[o l]|] eqn:Ha; [|done]. simpl.
  assert (InhibitorRegistry.next_id (LockManager.inhibitors l) =
          InhibitorRegistry.next_id (LockManager.inhibitors (Daemon.locks d))) as Hn.
  { by rewrite (attempt_inhibitors _ _ _ _ _ _ _ Ha). }
  destruct (decide (o = AuthOutcome.Success)) as [->|Ho].
  - destruct (Daemon.transition_and_tell _ _ _ _) as [es' d1] eqn:Ht. simpl. intros; simplify_eq.
    intros n [] Hroom. rewrite N.add_0_l in Hroom.
    assert (LockInv.wf l) as Hl by by eapply attempt_wf.
    assert (∀ i, i ≠ s → LockManager.is_locked i l = LockManager.is_locked i (Daemon.locks d)) as Hsame.
    { intros i Hi. unfold LockManager.is_locked.
      by destruct (attempt_frame _ _ _ _ _ _ _ i Ha Hi) as [-> _]. }
    unfold Daemon.transition_and_tell, SessionManager.get in Ht. simpl in Ht.
    destruct (SessionManager.sessions (Daemon.sessions d) !! s) as [c|] eqn:Hc; simplify_eq/=.
    + split; [constructor; try done|].
      * by apply update_wf; [auto with mitos|].
      * intros i ci. simpl. rewrite lookup_alter. case_decide as Hi; subst.
        -- rewrite Hc. intros [= <-]. rewrite try_transition_state. by destruct (SessionContext.state c).
        -- intros Hci Hst. rewrite Hsame by done. by apply (wf_shown _ _ Hci).
      * unfold DaemonInv.room in *. simpl. by rewrite Hn.
    + split; [constructor; try done|].
      * intros i ci Hci Hst. simpl in *. rewrite Hsame by congruence. by apply (wf_shown _ _ Hci).
      * unfold DaemonInv.room in *. simpl. by rewrite Hn.
  - intros He. assert (d' = Daemon.with_locks l d) as ->.
    { destruct o; by simplify_eq. }
    apply keeps_with_locks; [intros; by eapply attempt_wf|lia|].
    intros i. by eapply attempt_keeps_locked.
Qed.

Lemma begin_next_id s c q p ap now m r m' :
  ElevationManager.begin s c q p ap now m = Done (r, m') → is_u64 (ElevationManager.next_id m + 1) →
  (ElevationManager.next_id m' ≤ ElevationManager.next_id m + 1)%N.
Proof.
  intros [(_ & -> & _)|[(_ & -> & _)|(_ & _ & id & -> & _ & ->)]]%begin_cases Hu; [lia..|]. simpl.
  rewrite u64_add_small by done. lia.
Qed.

Lemma keeps_start_elevation conn peer s action w d es r d' :
  Daemon.start_elevation conn peer s action w d = Done (es, r, d') → DaemonInv.keeps 1 d d'.
Proof.
  unfold Daemon.start_elevation.
  destruct (ElevationAction.validate action); [|intros; simplify_eq; apply keeps_refl].
  case_match; [intros; simplify_eq; apply keeps_refl|].
  destruct (SessionManager.get _ _) as [ctx|]; [|intros; simplify_eq; apply keeps_refl].
  case_match; [intros; simplify_eq; apply keeps_refl|].
  destruct (SessionContext.compositor_conn ctx) as [c|]; [|intros; simplify_eq; apply keeps_refl].
  destruct (ElevationManager.begin _ _ _ _ _ _ _) as [[res e]|] eqn:Hb; [|done]. simpl. intros Hres.
  assert (d' = Daemon.with_elevation e d) as ->.
  { destruct res as [id|err]; [by simplify_eq|]. by destruct err; simplify_eq. }
  intros n Hwf Hroom.
  assert (is_u64 (ElevationManager.next_id (Daemon.elevation d) + 1)) as Hu.
  { destruct Hroom as (_ & _ & Hu). unfold is_u64 in *. lia. }
  apply (keeps_with_elevation 1); [|by eapply begin_next_id|done|done].
  intros Hew _. by eapply begin_wf.
Qed.

Lemma attempt_next_id id a r ap now m o m' :
  ElevationManager.attempt id a r ap now m = Done (o, m') →
  ElevationManager.next_id m' = ElevationManager.next_id m.
Proof.
  intros Ha. destruct (ElevationManager.pending m !! id) as [p|] eqn:Hp.
  - by destruct (attempt_cases _ _ _ _ _ _ _ _ _ Hp Ha) as [(_ & _ & ->)|[(_ & _ & _ & ->)|(_ & _ & _ & ->)]].
  - unfold ElevationManager.attempt in Ha. rewrite Hp in Ha. by simplify_eq.
Qed.

Lemma keeps_respond_elevation peer id resp w d es r d' :
  Daemon.respond_elevation peer id resp w d = Done (es, r, d') → DaemonInv.keeps 0 d d'.
Proof.
  unfold Daemon.respond_elevation.
  destruct (ElevationManager.peek id _) as [info|]; [|intros; simplify_eq; apply keeps_refl].
  destruct resp as [pw|].
  - destruct (SessionManager.get _ _) as [ctx|]; simpl; [|intros; simplify_eq; apply keeps_refl].
    destruct (ElevationManager.attempt _ _ _ _ _ _) as [[o e]|] eqn:Ha; simpl; [|done]. intros Hres.
    assert (d' = Daemon.with_elevation e d) as -> by by destruct o; simplify_eq.
    apply keeps_with_elevation; [intros; by eapply attempt_elevation_wf|].
    rewrite (attempt_next_id _ _ _ _ _ _ _ _ Ha). lia.
  - simpl. destruct (ElevationManager.cancel _ _) as [o e] eqn:Hc. intros Hres.
    assert (d' = Daemon.with_elevation e d) as -> by by destruct o; simplify_eq.
    apply keeps_with_elevation.
    + intros Hwf _. change e with (o, e).2. rewrite <- Hc. by apply cancel_wf.
    + clear Hres. unfold ElevationManager.cancel in Hc. case_match; simplify_eq/=; lia.
Qed.

Lemma keeps_suspend w d es r d' : Daemon.suspend w d = (es, r, d') → DaemonInv.keeps 0 d d'.
Proof.
  unfold Daemon.suspend. destruct (Power.suspend _ _ _ _ _ _ _) as [[es' r'] l] eqn:Hs.
  intros; simplify_eq. change l with (es', r, l).2. rewrite <- Hs. apply keeps_with_locks.
  - intros. by apply suspend_wf.
  - rewrite suspend_inhibitors. lia.
  - intros s. apply suspend_keeps_locked.
Qed.

Lemma keeps_reboot d w calls r ss :
  Power.reboot (Daemon.locks d) (Daemon.power_backend d) (Daemon.suspend_grace d) w (Daemon.sessions d) =
    (calls, r, ss) → DaemonInv.keeps 0 d (Daemon.with_sessions ss d).
Proof.
  unfold Power.reboot. case_match; [intros; simplify_eq; by apply keeps_frame|].
  destruct (Power.terminate_all _ _) as [kills ss'] eqn:Ht. destruct (backend_reboot _ _).
  intros; simplify_eq. eapply keeps_delete_sessions. by rewrite <- terminate_all_sessions, Ht.
Qed.

Lemma keeps_poweroff d w calls r ss :
  Power.poweroff (Daemon.locks d) (Daemon.power_backend d) (Daemon.suspend_grace d) w (Daemon.sessions d) =
    (calls, r, ss) → DaemonInv.keeps 0 d (Daemon.with_sessions ss d).
Proof.
  unfold Power.poweroff. case_match; [intros; simplify_eq; by apply keeps_frame|].
  destruct (Power.terminate_all _ _) as [kills ss'] eqn:Ht. destruct (backend_poweroff _ _).
  intros; simplify_eq. eapply keeps_delete_sessions. by rewrite <- terminate_all_sessions, Ht.
Qed.

Lemma keeps_inhibit what who why mode d id l :
  LockManager.add_inhibitor what who why mode (Daemon.locks d) = (id, l) →
  DaemonInv.keeps 1 d (Daemon.with_locks l d).
Proof.
  unfold LockManager.add_inhibitor. intros; simplify_eq/=. intros n Hwf Hroom.
  assert (is_u64 (InhibitorRegistry.next_id (LockManager.inhibitors (Daemon.locks d)) + 1)) as Hu.
  { destruct Hroom as (_ & Hu & _). unfold is_u64 in *. lia. }
  eapply (keeps_with_locks 1); [| |done|done|done]; simpl.
  - intros [Hi Ht] _. split; [|done]. by apply (add_wf what who why mode).
  - rewrite u64_add_small by done. lia.
Qed.

Lemma keeps_release id d r l :
  LockManager.release_inhibitor id (Daemon.locks d) = (r, l) → DaemonInv.keeps 0 d (Daemon.with_locks l d).
Proof.
  unfold LockManager.release_inhibitor.
  destruct (InhibitorRegistry.remove id _) as [res reg] eqn:Hr. intros; simplify_eq.
  assert (reg = (InhibitorRegistry.remove id (LockManager.inhibitors (Daemon.locks d))).2) as ->
    by by rewrite Hr.
  apply keeps_with_locks; [| |done]; simpl.
  - intros [Hi Ht] _. split; [|done]. by apply remove_wf.
  - unfold InhibitorRegistry.remove. case_match; simpl; lia.
Qed.

Lemma keeps_switch seat s d r ss :
  SeatManager.switch_active seat s (Daemon.seats d) = (r, ss) →
  DaemonInv.keeps 0 d (Daemon.with_seats ss d).
Proof.
  intros Hs. apply keeps_with_seats. intros Hwf. split; [by eapply switch_active_wf|].
  intros x. by rewrite (seated_switch _ _ x _ _ _ Hwf Hs).
Qed.

Lemma keeps_dispatch conn peer req w d es r d' :
  Daemon.dispatch conn peer req w d = Done (es, r, d') → DaemonInv.keeps 1 d d'.
Proof.
  unfold Daemon.dispatch, Daemon.replying. destruct req.
  - destruct (Daemon.create_session _ _ _ _ _ _) as [[? ?] ?] eqn:Hc. intros; simplify_eq.
    by eapply keeps_create_session.
  - destruct (Daemon.terminate_session _ _ _ _) as [[? ?] ?] eqn:Hc. intros; simplify_eq.
    by eapply keeps_weaken, keeps_terminate_session.
  - destruct (Daemon.register_compositor _ _ _) as [[? ?] ?] eqn:Hc. intros; simplify_eq.
    by eapply keeps_weaken, keeps_register_compositor.
  - intros; simplify_eq. apply keeps_refl.
  - intros; simplify_eq. apply keeps_refl.
  - destruct (Daemon.lock_session _ _ _ _ _) as [[? ?] ?] eqn:Hc. intros; simplify_eq.
    by eapply keeps_weaken, keeps_lock_session.
  - destruct (Daemon.unlock _ _ _ _ _ _) as [[[? ?] ?]|] eqn:Hc; simpl; [|done]. intros; simplify_eq.
    by eapply keeps_weaken, keeps_unlock.
  - intros; simplify_eq. by apply keeps_weaken, keeps_frame.
  - destruct (SeatManager.switch_active _ _ _) as [res ss] eqn:Hs. apply keeps_switch in Hs.
    destruct res; intros; simplify_eq; by apply keeps_weaken.
  - destruct (LockManager.add_inhibitor _ _ _ _ _) eqn:Hi. intros; simplify_eq. by eapply keeps_inhibit.
  - destruct (LockManager.release_inhibitor _ _) eqn:Hi. intros; simplify_eq.
    by eapply keeps_weaken, keeps_release.
  - intros; simplify_eq. apply keeps_refl.
  - destruct (Daemon.suspend w d) as [[? ?] ?] eqn:Hs. intros; simplify_eq. by eapply keeps_weaken, keeps_suspend.
  - destruct (Power.reboot _ _ _ _ _) as [[? ?] ?] eqn:Hs. intros; simplify_eq. by eapply keeps_weaken, keeps_reboot.
  - destruct (Power.poweroff _ _ _ _ _) as [[? ?] ?] eqn:Hs. intros; simplify_eq. by eapply keeps_weaken, keeps_poweroff.
  - apply keeps_start_elevation.
  - destruct (Daemon.respond_elevation _ _ _ _ _) as [[[? ?] ?]|] eqn:Hc; simpl; [|done]. intros; simplify_eq.
    by eapply keeps_weaken, keeps_respond_elevation.
Qed.

Lemma keeps_handle_ipc msg w d es d' :
  Daemon.handle_ipc msg w d = Done (es, d') → DaemonInv.keeps 1 d d'.
Proof.
  destruct msg as [conn peer outbox|cmd|conn]; simpl.
  - intros; simplify_eq. by apply keeps_weaken, keeps_frame.
  - unfold Daemon.handle_command. case_match; [|intros; simplify_eq; apply keeps_refl].
    destruct (Daemon.dispatch _ _ _ _ _) as [[[es' r] d1]|] eqn:Hd; simpl; [|done]. intros; simplify_eq.
    by eapply keeps_dispatch.
  - unfold Daemon.disconnected, ElevationManager.abandon_connection. simpl.
    destruct (ElevationManager.abandon_where _ _) as [ab e] eqn:Hab. intros; simplify_eq.
    apply keeps_weaken. eapply keeps_trans0; [|eapply keeps_trans0].
    + by apply (keeps_frame _ (Daemon.with_registry (ConnRegistry.unregister conn (Daemon.registry d)) d)).
    + apply (keeps_update_all _ (Daemon.clear_conn conn)); [auto with mitos|apply clear_conn_state].
    + change e with (ab, e).2. rewrite <- Hab.
      apply (keeps_abandon _ (Daemon.with_sessions _ (Daemon.with_registry _ d))).
Qed.

Lemma keeps_on_stage w seat stage d es d' :
  Daemon.on_stage w seat stage d = (es, d') → DaemonInv.keeps 0 d d'.
Proof.
  unfold Daemon.on_stage. destruct stage.
  - intros; simplify_eq. apply keeps_refl.
  - intros; simplify_eq. apply keeps_refl.
  - case_match; [intros; simplify_eq; apply keeps_refl|].
    destruct (SeatManager.active_session _ _) as [[s|]|]; try (intros; simplify_eq; apply keeps_refl).
    case_match; [intros; simplify_eq; apply keeps_refl|].
    destruct (LockManager.lock _ _ _) as [res l] eqn:Hl. pose proof (keeps_lock _ _ _ _ _ Hl) as Hk.
    destruct res as [[]|e]; simpl; [|by intros; simplify_eq]. intros Ht.
    eapply keeps_trans0; [done|]. eapply keeps_transition_and_tell; [|done]. intros _. by eapply lock_locks.
  - destruct (Daemon.suspend w d) as [[? ?] ?] eqn:Hs. intros; simplify_eq. by eapply keeps_suspend.
Qed.

Lemma keeps_on_stages w changes d es d' :
  Daemon.on_stages w changes d = (es, d') → DaemonInv.keeps 0 d d'.
Proof.
  revert d es d'. induction changes as [|[seat stage] changes IH]; intros d es d'; simpl.
  { intros; simplify_eq. apply keeps_refl. }
  destruct (Daemon.on_stage _ _ _ _) as [es1 d1] eqn:H1'. destruct (Daemon.on_stages _ _ d1) as [es2 d2] eqn:H2'.
  intros; simplify_eq. eapply keeps_trans0; [by eapply keeps_on_stage|by eapply IH].
Qed.

Lemma sweep_inhibitors now m :
  LockManager.inhibitors (LockManager.sweep_lockouts now m) = LockManager.inhibitors m.
Proof.
  unfold LockManager.sweep_lockouts. destruct (LockTimeouts.expired_lockouts _ _) as [ids x].
  by destruct (foldl_clear_lockout ids (LockManager.mk (LockManager.locks m) (LockManager.inhibitors m) x) 0)
    as (_ & -> & _).
Qed.

Lemma keeps_on_idle_tick w d es d' : Daemon.on_idle_tick w d = (es, d') → DaemonInv.keeps 0 d d'.
Proof.
  unfold Daemon.on_idle_tick. destruct (IdleDetector.tick _ _ _) as [changes idle].
  destruct (Daemon.on_stages _ _ _) as [es1 d1] eqn:Hs. simpl.
  destruct (ElevationManager.expire_pending _ _) as [ab e] eqn:He. intros; simplify_eq.
  eapply keeps_trans0; [by apply (keeps_frame d (Daemon.with_idle idle d))|].
  eapply keeps_trans0; [by eapply keeps_on_stages|].
  eapply keeps_trans0; [apply (keeps_with_locks 0 d1 (LockManager.sweep_lockouts (w_now w) (Daemon.locks d1)))|].
  - intros. by apply sweep_wf.
  - rewrite sweep_inhibitors. lia.
  - intros s. by rewrite sweep_keeps_locked.
  - eapply (keeps_trans0 0 _ (Daemon.with_elevation
      (ElevationManager.clear_expired_lockouts (w_now w) (Daemon.elevation d1)) (Daemon.with_locks _ d1))).
    + apply keeps_with_elevation; [intros; by apply clear_expired_wf|].
      destruct (clear_expired_frame (w_now w) (Daemon.elevation d1)) as (_ & Hn & _). simpl. rewrite Hn. lia.
    + change e with (ab, e).2. rewrite <- He.
      apply (keeps_with_elevation 0 (Daemon.with_elevation _ (Daemon.with_locks _ d1))); simpl.
      * intros. by apply expire_wf.
      * rewrite expire_state, take_all_state. simpl. lia.
Qed.

Lemma keeps_handle_exit pid w d es d' :
  Daemon.handle_compositor_exit pid w d = (es, d') → DaemonInv.keeps 0 d d'.
Proof.
  unfold Daemon.handle_compositor_exit.
  destruct (Daemon.find_compositor pid _) as [[key ctx]|]; [|intros; simplify_eq; apply keeps_refl].
  set (d1 := Daemon.with_sessions (SessionManager.update key Daemon.compositor_gone (Daemon.sessions d)) d).
  set (d2 := match SessionContext.compositor_conn ctx with Some conn => _ | None => d1 end).
  set (d3 := Daemon.with_sessions (SessionManager.update (SessionContext.id ctx) _ (Daemon.sessions d2)) d2).
  intros Hx. assert (DaemonInv.keeps 0 d d3) as H3.
  { eapply keeps_trans0; [apply (keeps_update d key Daemon.compositor_gone); [auto with mitos|simpl; auto]|].
    apply (keeps_trans0 0 d1 d2); [subst d2; clear; destruct (SessionContext.compositor_conn ctx); by apply keeps_frame|].
    apply keeps_update; [auto with mitos|]. by intros c _ [?|?]%try_transition_locked; [left|]. }
  eapply keeps_trans0; [apply H3|]. clearbody d3. clear d1 d2 H3. destruct (Launcher.decide_restart _ _).
  - eapply keeps_trans0; [|by eapply keeps_try_spawn].
    apply keeps_update; [auto with mitos|simpl; auto].
  - repeat case_match; simplify_eq; try apply keeps_refl.
    apply keeps_update; [auto with mitos|simpl; auto].
Qed.

Lemma keeps_reap statuses d es d' :
  Daemon.reap_children statuses d = (es, d') → DaemonInv.keeps 0 d d'.
Proof.
  revert d es d'. induction statuses as [|[[] w] statuses IH]; intros d es d'; simpl;
    try (intros; simplify_eq; apply keeps_refl).
  - destruct (Daemon.handle_compositor_exit _ _ _) as [es1 d1] eqn:Hx.
    destruct (Daemon.reap_children statuses d1) as [es2 d2] eqn:Hr. intros; simplify_eq.
    eapply keeps_trans0; [by eapply keeps_handle_exit|by eapply IH].
  - apply IH.
Qed.

Lemma keeps_on_signal ev statuses w d es d' :
  Daemon.on_signal ev statuses w d = (es, d') → DaemonInv.keeps 0 d d'.
Proof.
  destruct ev; simpl.
  - unfold Power.graceful_shutdown. destruct (Power.terminate_all _ _) as [kills ss] eqn:Ht.
    intros Hx. assert (d' = Daemon.with_should_exit true (Daemon.with_sessions ss d)) as ->.
    { destruct (if w_exists _ _ then _ else _); by simplify_eq. }
    apply (keeps_trans0 0 _ (Daemon.with_sessions ss d)); [|by apply keeps_frame].
    eapply keeps_delete_sessions. by rewrite <- terminate_all_sessions, Ht.
  - intros; simplify_eq. unfold Daemon.reload_config. case_match; [|apply keeps_refl].
    eapply keeps_trans0; [apply (keeps_with_elevation 0 d (ElevationManager.set_requester_uid
      (Daemon.resolve_elevation_requester (Settings.elevation a) w) (Daemon.elevation d)))|].
    + done.
    + simpl. lia.
    + by apply keeps_frame.
  - apply keeps_reap.
Qed.

(** Every event keeps the invariant and allocates at most one identifier of each
    kind. *)
Lemma keeps_handle i w d es d' : Daemon.handle i w d = Done (es, d') → DaemonInv.keeps 1 d d'.
Proof.
  destruct i as [msg| |s statuses]; simpl.
  - apply keeps_handle_ipc.
  - intros [= Ht]. apply keeps_weaken. by eapply keeps_on_idle_tick.
  - destruct (SignalEvent.classify s); intros [= Ht]; [|subst; apply keeps_refl].
    apply keeps_weaken. by eapply keeps_on_signal.
Qed.

Lemma keeps_handle_all l d es d' :
  Daemon.handle_all l d = Done (es, d') → DaemonInv.keeps (N.of_nat (length l)) d d'.
Proof.
  revert d es d'. induction l as [|[i w] l IH]; intros d es d'; simpl; [intros; simplify_eq; apply keeps_refl|].
  intros ([es1 d1] & Hi & Hl)%exec_bind_Done. apply exec_bind_Done in Hl as ([es2 d2] & Hl & ?). simplify_eq.
  rewrite Nat2N.inj_succ, <- N.add_1_l.
  eapply keeps_trans; [by eapply keeps_handle|by eapply IH].
Qed.

Lemma keeps_run batches d es d' :
  Daemon.run batches d = Done (es, d') → DaemonInv.keeps (N.of_nat (length (concat batches))) d d'.
Proof.
  revert d es d'. induction batches as [|l batches IH]; intros d es d'; simpl; [intros; simplify_eq; apply keeps_refl|].
  destruct (Daemon.should_exit d); [intros; simplify_eq; apply keeps_refl|].
  intros ([es1 d1] & Hi & Hl)%exec_bind_Done. apply exec_bind_Done in Hl as ([es2 d2] & Hl & ?). simplify_eq.
  rewrite length_app, Nat2N.inj_add.
  eapply keeps_trans; [by eapply keeps_handle_all|by eapply IH].
Qed.

(** The daemon starts with the invariant and with as much room as the counters
    have. *)
Lemma start_wf path udev w d :
  Daemon.start path udev w = Ok d →
  DaemonInv.wf d ∧ ∀ n, (n < 2 ^ 32 - 1)%N → DaemonInv.room n d.
Proof.
  unfold Daemon.start. destruct (Config.load _ _ _) as [s|]; [|done]. simpl. intros Hd.
  assert (∀ ss, SeatInv.mgr_wf ss → (∀ x, ¬ seated x ss) →
    DaemonInv.wf (Daemon.with_seats ss (Daemon.new s w))) as Hnew.
  { intros ss Hss Hx. constructor; simpl.
    - apply new_sessions_wf.
    - done.
    - intros x Hs. by apply Hx in Hs.
    - apply new_locks_wf.
    - apply (set_requester_wf _ _ new_elevations_wf).
    - apply map_Forall_empty. }
  assert (∃ ss, d = Daemon.with_seats ss (Daemon.new s w) ∧ SeatInv.mgr_wf ss ∧ ∀ x, ¬ seated x ss)
    as (ss & -> & Hss & Hx).
  { destruct (ensure_devices_wf (SeatSettings.default_seat (Settings.seat s))) as [He Hdev].
    destruct (Device.enumerate udev) as [ds|]; simplify_eq/=; eauto. }
  split; [by apply Hnew|]. intros n Hn. unfold DaemonInv.room, is_u32, is_u64. simpl. lia.
Qed.
End handlers.
