(* ===== verification/DaemonSafety.v ===== *)
(** * DaemonSafety: what the daemon lets happen, event by event

    Who is refused, what unlocks a session, who is told of a success, when a
    panic is possible, what a logout and a dropped connection leave behind. *)

From stdpp Require Import base gmap strings pretty numbers list.
From S2P Require Import Prelude Errors System Config User Session Seat Auth Lock Idle Elevation.
From S2P Require Import Ipc Policy Launcher Power Daemon DaemonInv.

(** ** Which fields a helper touches *)

Section frames.
Context `{HashOrder} `{SerdeJson} `{TomlSettings}.
Implicit Types (d : Daemon.t).

Lemma tell_frame s next ev d :
  let d' := (Daemon.transition_and_tell s next ev d).2 in
  Daemon.locks d' = Daemon.locks d ∧ Daemon.elevation d' = Daemon.elevation d ∧
  Daemon.registry d' = Daemon.registry d ∧ Daemon.seats d' = Daemon.seats d ∧
  Daemon.settings d' = Daemon.settings d ∧ Daemon.power_backend d' = Daemon.power_backend d.
Proof. unfold Daemon.transition_and_tell. by case_match. Qed.

Lemma try_spawn_frame id w d :
  let d' := (Daemon.try_spawn_compositor id w d).2 in
  Daemon.locks d' = Daemon.locks d ∧ Daemon.elevation d' = Daemon.elevation d ∧
  Daemon.registry d' = Daemon.registry d ∧ Daemon.seats d' = Daemon.seats d ∧
  Daemon.settings d' = Daemon.settings d ∧ Daemon.power_backend d' = Daemon.power_backend d.
Proof. unfold Daemon.try_spawn_compositor. by repeat case_match. Qed.

Lemma create_session_frame peer name seat ty w d :
  let d' := (Daemon.create_session peer name seat ty w d).2 in
  Daemon.locks d' = Daemon.locks d ∧ Daemon.elevation d' = Daemon.elevation d ∧
  Daemon.registry d' = Daemon.registry d ∧ Daemon.power_backend d' = Daemon.power_backend d.
Proof.
  unfold Daemon.create_session. destruct (User.by_name name w); [|done].
  destruct (SessionManager.create_session _ _ _ _ _ _) as [[calls [id|e]] ss]; [|done].
  case_decide; [|done].
  match goal with |- context [Daemon.try_spawn_compositor ?i ?w ?d0] =>
    pose proof (try_spawn_frame i w d0) as Hf; destruct (Daemon.try_spawn_compositor i w d0) end.
  simpl in *. naive_solver.
Qed.

Lemma handle_exit_frame pid w d :
  let d' := (Daemon.handle_compositor_exit pid w d).2 in
  Daemon.locks d' = Daemon.locks d ∧ Daemon.elevation d' = Daemon.elevation d ∧
  Daemon.power_backend d' = Daemon.power_backend d ∧ Daemon.settings d' = Daemon.settings d ∧
  (∀ c, is_Some (ConnRegistry.outboxes (Daemon.registry d') !! c) →
        is_Some (ConnRegistry.outboxes (Daemon.registry d) !! c)).
Proof.
  unfold Daemon.handle_compositor_exit.
  destruct (Daemon.find_compositor pid _) as [[key ctx]|]; [|done].
  set (d1 := Daemon.with_sessions (SessionManager.update key Daemon.compositor_gone (Daemon.sessions d)) d).
  set (d2 := match SessionContext.compositor_conn ctx with Some conn => _ | None => d1 end).
  set (d3 := Daemon.with_sessions (SessionManager.update (SessionContext.id ctx) _ (Daemon.sessions d2)) d2).
  assert (Daemon.locks d3 = Daemon.locks d ∧ Daemon.elevation d3 = Daemon.elevation d ∧
    Daemon.power_backend d3 = Daemon.power_backend d ∧ Daemon.settings d3 = Daemon.settings d ∧
    (∀ c, is_Some (ConnRegistry.outboxes (Daemon.registry d3) !! c) →
          is_Some (ConnRegistry.outboxes (Daemon.registry d) !! c))) as Hd3.
  { subst d3 d2 d1. destruct (SessionContext.compositor_conn ctx); simpl; split_and!; try done.
    intros c. rewrite lookup_delete_is_Some. tauto. }
  clearbody d3. clear d1 d2. destruct (Launcher.decide_restart _ _).
  - match goal with |- context [Daemon.try_spawn_compositor ?i ?w ?d0] =>
      pose proof (try_spawn_frame i w d0) as Hf; destruct (Daemon.try_spawn_compositor i w d0) end.
    simpl in *. destruct_and!. repeat match goal with E : _ = _ |- _ => rewrite E end. done.
  - repeat case_match; done.
Qed.
End frames.

(** ** What unlocks a session *)

Section unlocking.
Context `{HashOrder} `{SerdeJson} `{TomlSettings}.
Implicit Types (d : Daemon.t).

(** No session that was locked has been unlocked. *)
Definition still_locked d d' : Prop :=
  ∀ s, LockManager.is_locked s (Daemon.locks d) = true → LockManager.is_locked s (Daemon.locks d') = true.

Lemma still_locked_same d d' : Daemon.locks d' = Daemon.locks d → still_locked d d'.
Proof. intros Heq s. by rewrite Heq. Qed.

Lemma still_locked_trans d1 d2 d3 : still_locked d1 d2 → still_locked d2 d3 → still_locked d1 d3.
Proof. intros H12 H23 s Hs. by apply H23, H12. Qed.

Lemma suspend_still_locked w d es r d' : Daemon.suspend w d = (es, r, d') → still_locked d d'.
Proof.
  unfold Daemon.suspend. destruct (Power.suspend _ _ _ _ _ _ _) as [[es' r'] l] eqn:Hs.
  intros; simplify_eq. intros s Hl. simpl. change l with (es', r, l).2. rewrite <- Hs.
  by apply suspend_keeps_locked.
Qed.

Lemma lock_session_still_locked peer s reason w d es r d' :
  Daemon.lock_session peer s reason w d = (es, r, d') → still_locked d d'.
Proof.
  unfold Daemon.lock_session. case_match; [intros; simplify_eq; by apply still_locked_same|].
  destruct (LockManager.lock _ _ _) as [[[]|e] l] eqn:Hl.
  - pose proof (tell_frame s SessionState.Locked (Event.ShowLockScreen s reason) (Daemon.with_locks l d)) as [Ht _].
    destruct (Daemon.transition_and_tell _ _ _ _) as [es' d1]. intros; simplify_eq. simpl in Ht.
    intros s' Hs'. rewrite Ht. change l with (Ok () : Result (), l).2. rewrite <- Hl. by apply lock_keeps_locked.
  - apply lock_Err_inv in Hl as ->. intros; simplify_eq. by apply still_locked_same.
Qed.

Lemma on_stage_still_locked w seat stage d es d' :
  Daemon.on_stage w seat stage d = (es, d') → still_locked d d'.
Proof.
  unfold Daemon.on_stage. destruct stage; try (intros; simplify_eq; by apply still_locked_same).
  - case_match; [intros; simplify_eq; by apply still_locked_same|].
    destruct (SeatManager.active_session _ _) as [[s|]|]; try (intros; simplify_eq; by apply still_locked_same).
    case_match; [intros; simplify_eq; by apply still_locked_same|].
    destruct (LockManager.lock _ _ _) as [res l] eqn:Hl. intros Ht.
    assert (Daemon.locks d' = l) as Hl'.
    { destruct (is_ok res); [|by simplify_eq].
      pose proof (tell_frame s SessionState.Locked (Event.ShowLockScreen s LockReason.Idle)
        (Daemon.with_locks l d)) as [Hf _]. by rewrite Ht in Hf. }
    intros s' Hs'. rewrite Hl'. change l with (res, l).2. rewrite <- Hl. by apply lock_keeps_locked.
  - destruct (Daemon.suspend w d) as [[? ?] ?] eqn:Hs. intros; simplify_eq. by eapply suspend_still_locked.
Qed.

Lemma on_stages_still_locked w changes d es d' :
  Daemon.on_stages w changes d = (es, d') → still_locked d d'.
Proof.
  revert d es d'. induction changes as [|[seat stage] changes IH]; intros d es d'; simpl.
  { intros; simplify_eq. by apply still_locked_same. }
  destruct (Daemon.on_stage _ _ _ _) as [es1 d1] eqn:H1'. destruct (Daemon.on_stages _ _ d1) as [es2 d2] eqn:H2'.
  intros; simplify_eq. eapply still_locked_trans; [by eapply on_stage_still_locked|by eapply IH].
Qed.

Lemma idle_tick_still_locked w d es d' : Daemon.on_idle_tick w d = (es, d') → still_locked d d'.
Proof.
  unfold Daemon.on_idle_tick. destruct (IdleDetector.tick _ _ _) as [changes idle].
  destruct (Daemon.on_stages _ _ _) as [es1 d1] eqn:Hs. simpl.
  destruct (ElevationManager.expire_pending _ _) as [ab e]. intros; simplify_eq.
  intros s Hl. simpl. rewrite sweep_keeps_locked. by apply (on_stages_still_locked _ _ _ _ _ Hs).
Qed.

Lemma reap_frame statuses d :
  let d' := (Daemon.reap_children statuses d).2 in
  Daemon.locks d' = Daemon.locks d ∧ Daemon.elevation d' = Daemon.elevation d ∧
  Daemon.power_backend d' = Daemon.power_backend d ∧ Daemon.settings d' = Daemon.settings d.
Proof.
  revert d. induction statuses as [|[[] w] statuses IH]; intros d; simpl; try done.
  pose proof (handle_exit_frame pid w d) as Hf. destruct (Daemon.handle_compositor_exit pid w d) as [es1 d1].
  specialize (IH d1). destruct (Daemon.reap_children statuses d1) as [es2 d2]. simpl in *.
  destruct_and!. split_and!; congruence.
Qed.

Lemma signal_frame ev statuses w d :
  let d' := (Daemon.on_signal ev statuses w d).2 in
  Daemon.locks d' = Daemon.locks d ∧
  ElevationManager.pending (Daemon.elevation d') = ElevationManager.pending (Daemon.elevation d) ∧
  Daemon.power_backend d' = Daemon.power_backend d.
Proof.
  destruct ev; simpl.
  - destruct (Power.graceful_shutdown _ _ _) as [[? ?] ?]. done.
  - unfold Daemon.reload_config. by case_match.
  - destruct (reap_frame statuses d) as (-> & -> & -> & _). done.
Qed.

(** The requests that are about locks.  All others leave the locks and their
    timers as they are. *)
Definition about_locks (req : Request.t) : bool :=
  match req with Request.LockSession _ | Request.Unlock _ _ _ | Request.Suspend => true | _ => false end.

Lemma dispatch_locks conn peer req w d es r d' :
  Daemon.dispatch conn peer req w d = Done (es, r, d') → about_locks req = false →
  LockManager.locks (Daemon.locks d') = LockManager.locks (Daemon.locks d) ∧
  LockManager.timeouts (Daemon.locks d') = LockManager.timeouts (Daemon.locks d).
Proof.
  unfold Daemon.dispatch, Daemon.replying. intros Hd Hreq. destruct req; try done; try by simplify_eq.
  - pose proof (create_session_frame peer user_name seat_id session_type w d) as [Hf _].
    destruct (Daemon.create_session _ _ _ _ _ _) as [[? ?] ?]. simplify_eq. simpl in Hf. by rewrite Hf.
  - unfold Daemon.terminate_session in Hd. by repeat case_match; simplify_eq.
  - unfold Daemon.register_compositor in Hd. by repeat case_match; simplify_eq.
  - by destruct (SeatManager.switch_active _ _ _) as [[] ss]; simplify_eq.
  - unfold LockManager.add_inhibitor in Hd. by simplify_eq/=.
  - unfold LockManager.release_inhibitor in Hd. destruct (InhibitorRegistry.remove _ _). by simplify_eq.
  - destruct (Power.reboot _ _ _ _ _) as [[? ?] ?]. by simplify_eq.
  - destruct (Power.poweroff _ _ _ _ _) as [[? ?] ?]. by simplify_eq.
  - unfold Daemon.start_elevation in Hd.
    repeat case_match; simplify_eq; try done. apply exec_bind_Done in Hd as ([r1 e1] & _ & Hd).
    repeat case_match; by simplify_eq.
  - apply exec_bind_Done in Hd as ([[es1 r1] d1] & Hr & Hd). simplify_eq.
    unfold Daemon.respond_elevation in Hr. case_match; [|by simplify_eq].
    apply exec_bind_Done in Hr as (x & _ & Hr). repeat case_match; by simplify_eq.
Qed.

Lemma dispatch_still_locked conn peer req w d es r d' :
  Daemon.dispatch conn peer req w d = Done (es, r, d') →
  (∀ s u p, req ≠ Request.Unlock s u p) → still_locked d d'.
Proof.
  intros Hd Hreq. destruct (about_locks req) eqn:Ha.
  2: { intros s. unfold LockManager.is_locked. by rewrite (proj1 (dispatch_locks _ _ _ _ _ _ _ _ Hd Ha)). }
  unfold Daemon.dispatch, Daemon.replying in Hd. destruct req; try done.
  - destruct (Daemon.lock_session _ _ _ _ _) as [[? ?] ?] eqn:Hl. simplify_eq. by eapply lock_session_still_locked.
  - by destruct (Hreq session_id user_name password).
  - destruct (Daemon.suspend w d) as [[? ?] ?] eqn:Hs. simplify_eq. by eapply suspend_still_locked.
Qed.

(** A session that was locked before an event and is not after it was unlocked
    by a request with a password PAM accepted, made by someone permitted to,
    outside of a lockout. *)
Lemma unlocked_by_password i w d es d' s :
  Daemon.handle i w d = Done (es, d') →
  LockManager.is_locked s (Daemon.locks d) = true → LockManager.is_locked s (Daemon.locks d') = false →
  ∃ conn peer u p,
    i = Daemon.Ipc (ManagerMessage.Command (ManagerCommand.mk conn peer (Request.Unlock s u p))) ∧
    permitted peer conn (Request.Unlock s u p) (Daemon.sessions d) (Daemon.elevation d) w ∧
    accepts (Daemon.auth d w) (AuthRequest.mk s u p) = true ∧
    SessionLock.state (LockManager.entry s (Daemon.locks d)) ≠ LockState.LockedOut.
Proof.
  intros Hh Hl Hl'. assert (¬ still_locked d d') as Hns by (intros Hsl; apply Hsl in Hl; congruence).
  destruct i as [[conn peer ob|[conn peer req]|conn]| |sig statuses]; simpl in Hh.
  - simplify_eq. by destruct Hns; apply still_locked_same.
  - unfold Daemon.handle_command in Hh. simpl in Hh.
    destruct (Policy.authorize _ _ _ _ _ _) as [[]|e] eqn:Ha.
    2: { simplify_eq. by destruct Hns; apply still_locked_same. }
    apply authorize_permitted in Ha. apply exec_bind_Done in Hh as ([[es1 r1] d1] & Hd & Hh). simplify_eq.
    destruct req; try by (destruct Hns; eapply dispatch_still_locked; [exact Hd|done]).
    simpl in Hd. apply exec_bind_Done in Hd as ([[es2 r2] d2] & Hu & Hd). unfold Daemon.replying in Hd. simplify_eq.
    unfold Daemon.unlock in Hu. apply exec_bind_Done in Hu as ([o l] & Hat & Hu).
    assert (Daemon.locks d' = l) as Hdl.
    { destruct o; simplify_eq/=; try done.
      pose proof (tell_frame session_id SessionState.Active (Event.HideLockScreen session_id)
        (Daemon.with_locks l d)) as [Hf _].
      destruct (Daemon.transition_and_tell _ _ _ _). by simplify_eq/=. }
    rewrite Hdl in Hl'.
    destruct (decide (o = AuthOutcome.Success)) as [->|Ho].
    2: { by rewrite (attempt_keeps_locked _ _ _ _ _ _ _ _ Hat Ho Hl) in Hl'. }
    destruct (decide (s = session_id)) as [<-|Hne].
    + destruct (proj1 (attempt_success_iff _ _ _ _ _ _ _ Hat) eq_refl) as [Hst Hacc].
      by exists conn, peer, user_name, password.
    + destruct (attempt_frame _ _ _ _ _ _ _ s Hat Hne) as [Hsame _].
      unfold LockManager.is_locked in *. rewrite Hsame in Hl'. congruence.
  - destruct Hns. unfold Daemon.disconnected in Hh.
    destruct (ElevationManager.abandon_connection _ _). simplify_eq. by apply still_locked_same.
  - destruct Hns. injection Hh as Hh. by eapply idle_tick_still_locked.
  - destruct Hns. destruct (SignalEvent.classify sig) as [ev|]; injection Hh as Hh; [|simplify_eq; by apply still_locked_same].
    apply still_locked_same. pose proof (signal_frame ev statuses w d) as (Hf & _). by rewrite Hh in Hf.
Qed.
End unlocking.

(** ** Who is answered *)

Section replies.
Context `{HashOrder} `{SerdeJson} `{TomlSettings}.
Implicit Types (d : Daemon.t).

Lemma responses_compositor ctx ev d : responses (Daemon.send_to_compositor ctx ev d) = [].
Proof. unfold Daemon.send_to_compositor. case_match; [apply responses_event|done]. Qed.

Lemma responses_tell s next ev d : responses (Daemon.transition_and_tell s next ev d).1 = [].
Proof. unfold Daemon.transition_and_tell. case_match; [apply responses_compositor|done]. Qed.

Lemma responses_try_spawn id w d : responses (Daemon.try_spawn_compositor id w d).1 = [].
Proof. unfold Daemon.try_spawn_compositor. repeat case_match; try done; apply responses_sys. Qed.

#[local] Hint Rewrite responses_compositor responses_tell responses_try_spawn : mitos_effects.

Lemma responses_create peer name seat ty w d :
  responses (Daemon.create_session peer name seat ty w d).1.1 = [].
Proof.
  unfold Daemon.create_session. destruct (User.by_name name w); [|done].
  destruct (SessionManager.create_session _ _ _ _ _ _) as [[calls [id|e]] ss].
  - case_decide; [|by simpl; autorewrite with mitos_effects].
    match goal with |- context [Daemon.try_spawn_compositor ?i ?w ?d0] =>
      pose proof (responses_try_spawn i w d0) as Hf; destruct (Daemon.try_spawn_compositor i w d0) end.
    simpl in *. autorewrite with mitos_effects. simpl. by rewrite Hf.
  - simpl. by autorewrite with mitos_effects.
Qed.

Lemma responses_register conn s d : responses (Daemon.register_compositor conn s d).1.1 = [].
Proof. unfold Daemon.register_compositor. repeat case_match; simpl; by autorewrite with mitos_effects. Qed.

Lemma responses_lock peer s reason w d : responses (Daemon.lock_session peer s reason w d).1.1 = [].
Proof.
  unfold Daemon.lock_session. case_match; [done|]. destruct (LockManager.lock _ _ _) as [[[]|e] l]; [|done].
  match goal with |- context [Daemon.transition_and_tell ?a ?b ?c ?d0] =>
    pose proof (responses_tell a b c d0) as Hf; destruct (Daemon.transition_and_tell a b c d0) end.
  simpl in *. autorewrite with mitos_effects. simpl. by rewrite Hf.
Qed.

Lemma responses_unlock peer s u p w d es r d' :
  Daemon.unlock peer s u p w d = Done (es, r, d') → responses es = [].
Proof.
  unfold Daemon.unlock. intros ([o l] & _ & Hu)%exec_bind_Done.
  destruct o; simplify_eq/=; autorewrite with mitos_effects;
    try (case_match; by rewrite ?responses_compositor).
  pose proof (responses_tell s SessionState.Active (Event.HideLockScreen s) (Daemon.with_locks l d)) as Hf.
  destruct (Daemon.transition_and_tell _ _ _ _). simplify_eq/=. autorewrite with mitos_effects. by rewrite Hf.
Qed.

Lemma responses_suspend w d : responses (Daemon.suspend w d).1.1 = [].
Proof.
  unfold Daemon.suspend. destruct (InhibitorRegistry.blocks InhibitWhat.Suspend
    (LockManager.inhibitors (Daemon.locks d))) eqn:Hb.
  - by rewrite suspend_blocked.
  - edestruct suspend_effects as (log & l' & -> & Hlog); [done|]. simpl. rewrite Hlog. unfold notice. autorewrite with mitos_effects.
    rewrite app_nil_r, app_nil_l.
    generalize (SessionManager.list (Daemon.sessions d)). intros l.
    induction l as [|c l IH]; simpl; [done|]. rewrite responses_app, IH, app_nil_r.
    case_match; [apply responses_event|done].
Qed.

(** What suspending sends is [PrepareForSleep] and nothing else. *)
Lemma suspend_quiet w d es r d' :
  Daemon.suspend w d = (es, r, d') →
  Daemon.sessions d' = Daemon.sessions d ∧
  ∀ conn s reason, Effect.Sent conn (Message.Event (Event.ShowLockScreen s reason)) ∉ es.
Proof.
  unfold Daemon.suspend. destruct (InhibitorRegistry.blocks InhibitWhat.Suspend
    (LockManager.inhibitors (Daemon.locks d))) eqn:Hb.
  - rewrite suspend_blocked by done. intros; simplify_eq/=. split; [done|]. intros *. apply not_elem_of_nil.
  - edestruct suspend_effects as (log & l' & -> & Hlog); [done|]. intros; simplify_eq/=. split; [done|].
    intros conn s reason Hin. rewrite Hlog in Hin. unfold notice in Hin. rewrite !elem_of_app, !list_elem_of_fmap in Hin.
    destruct Hin as [(? & ? & _)|[Hin|(? & ? & _)]]; [done| |done].
    apply list_elem_of_In, in_concat in Hin as (l & Hl & Hin). apply in_map_iff in Hl as (c & <- & _).
    destruct (SessionContext.compositor_conn c) as [k|]; [|done].
    unfold ConnRegistry.send_event, ConnRegistry.send in Hin. repeat case_match; simpl in Hin; naive_solver.
Qed.

Lemma responses_start conn peer s action w d es r d' :
  Daemon.start_elevation conn peer s action w d = Done (es, r, d') → responses es = [].
Proof.
  unfold Daemon.start_elevation. intros Hs. repeat case_match; simplify_eq; try done.
  apply exec_bind_Done in Hs as ([r1 e1] & _ & Hs).
  repeat case_match; simplify_eq; try done. simpl. by autorewrite with mitos_effects.
Qed.

(** The reply each abandoned prompt owes its requester, if that is still there. *)
Definition abandoned_reply (reason : string) (r : ConnRegistry.t) (a : AbandonedElevation.t)
    : option (ConnId * Response.t) :=
  if decide (is_Some (ConnRegistry.outboxes r !! AbandonedElevation.requester_conn a))
  then Some (AbandonedElevation.requester_conn a, Response.AuthResult (AuthOutcome.Error reason))
  else None.

Lemma responses_abandoned reason l w d :
  responses (Daemon.notify_all_abandoned reason l w d) = omap (abandoned_reply reason (Daemon.registry d)) l.
Proof.
  unfold Daemon.notify_all_abandoned. induction l as [|a l IH]; simpl; [done|].
  rewrite responses_app, IH. unfold Daemon.notify_elevation_abandoned, abandoned_reply.
  autorewrite with mitos_effects. rewrite responses_response. simpl. by case_decide.
Qed.

Lemma responses_terminate peer s w d es r d' :
  Daemon.terminate_session peer s w d = (es, r, d') →
  ∃ l, responses es = omap (abandoned_reply "session ended" (Daemon.registry d)) l.
Proof.
  unfold Daemon.terminate_session. intros Ht. repeat case_match; simplify_eq.
  - autorewrite with mitos_effects. rewrite responses_abandoned. by eexists.
  - rewrite responses_sys. by exists [].
Qed.

(** The only reply a resolved prompt causes is the requester's, with the outcome. *)
Lemma elem_of_tell_resolved id o a d c x :
  (c, x) ∈ responses (Daemon.tell_resolved id o d ++ Daemon.audit_log a d) →
  c = ElevationOutcome.requester_conn o ∧ x = Response.AuthResult (ElevationOutcome.outcome o) ∧
  ElevationOutcome.terminal o = true.
Proof.
  unfold Daemon.tell_resolved. autorewrite with mitos_effects. simpl. rewrite app_nil_r.
  destruct (ElevationOutcome.terminal o); [|by intros ?%not_elem_of_nil].
  autorewrite with mitos_effects. rewrite responses_response. simpl.
  case_decide; [|by intros ?%not_elem_of_nil]. by intros [= -> ->]%list_elem_of_singleton.
Qed.

(** A success is only ever reported for a password PAM has just accepted: to the
    caller of [Unlock], or to the two parties of an elevation prompt, for the
    password of the user whose session the prompt is about. *)
Lemma responses_respond peer id resp w d es r d' :
  Daemon.respond_elevation peer id resp w d = Done (es, r, d') →
  r = Response.AuthResult AuthOutcome.Success ∨
    (∃ c, (c, Response.AuthResult AuthOutcome.Success) ∈ responses es) →
  ∃ pw p ctx, resp = ElevationResponse.Password pw ∧
    ElevationManager.pending (Daemon.elevation d) !! id = Some p ∧
    SessionManager.sessions (Daemon.sessions d) !! PendingElevation.session_id p = Some ctx ∧
    accepts (Daemon.auth d w) (AuthRequest.mk (PendingElevation.session_id p)
      (Session.user_name (SessionContext.session ctx)) pw) = true ∧
    ∀ c, (c, Response.AuthResult AuthOutcome.Success) ∈ responses es → c = PendingElevation.requester_conn p.
Proof.
  unfold Daemon.respond_elevation, ElevationManager.peek.
  destruct (ElevationManager.pending (Daemon.elevation d) !! id) as [p|] eqn:Hp; simpl.
  2: { intros [= <- <- <-] [?|[c ?%not_elem_of_nil]]; done. }
  intros (x & Hx & Hr)%exec_bind_Done Hs. destruct resp as [pw|].
  - unfold SessionManager.get in Hx.
    destruct (SessionManager.sessions (Daemon.sessions d) !! PendingElevation.session_id p) as [ctx|] eqn:Hc;
      simpl in Hx.
    2: { simplify_eq. destruct Hs as [?|[c ?%not_elem_of_nil]]; done. }
    apply exec_bind_Done in Hx as ([o e] & Hat & Hx). simplify_eq. exists pw, p, ctx.
    destruct (attempt_cases _ _ _ _ _ _ _ _ _ Hp Hat) as [(Ha & -> & _)|[(_ & _ & -> & _)|(_ & _ & -> & _)]];
      simplify_eq/=.
    + split_and!; try done. by intros c [-> _]%elem_of_tell_resolved.
    + destruct Hs as [?|[c (_ & ? & _)%elem_of_tell_resolved]]; done.
    + destruct Hs as [?|[c (_ & ? & _)%elem_of_tell_resolved]]; done.
  - exfalso. unfold ElevationManager.cancel in Hx. rewrite Hp in Hx. simplify_eq/=.
    destruct Hs as [?|[c (_ & ? & _)%elem_of_tell_resolved]]; done.
Qed.

(** The replies of every other handler. *)
Lemma responses_stage w seat stage d : responses (Daemon.on_stage w seat stage d).1 = [].
Proof.
  unfold Daemon.on_stage. destruct stage; try done.
  - simpl. unfold Daemon.notify_active_compositor. repeat case_match; try done. apply responses_compositor.
  - case_match; [done|]. destruct (SeatManager.active_session _ _) as [[s|]|]; try done.
    case_match; [done|]. destruct (LockManager.lock _ _ _) as [res l]. case_match; [|done]. apply responses_tell.
  - pose proof (responses_suspend w d). by destruct (Daemon.suspend w d) as [[? ?] ?].
Qed.

Lemma responses_stages w changes d : responses (Daemon.on_stages w changes d).1 = [].
Proof.
  revert d. induction changes as [|[seat stage] changes IH]; intros d; simpl; [done|].
  pose proof (responses_stage w seat stage d) as Hs. destruct (Daemon.on_stage w seat stage d) as [es1 d1].
  specialize (IH d1). destruct (Daemon.on_stages w changes d1). simpl in *. by rewrite responses_app, Hs, IH.
Qed.

Lemma responses_idle_tick w d es d' :
  Daemon.on_idle_tick w d = (es, d') →
  ∃ l, responses es = omap (abandoned_reply "timed out waiting for a response" (Daemon.registry d')) l.
Proof.
  unfold Daemon.on_idle_tick. destruct (IdleDetector.tick _ _ _) as [changes idle].
  pose proof (responses_stages w changes (Daemon.with_idle idle d)) as Hs.
  destruct (Daemon.on_stages _ _ _) as [es1 d1]. simpl in *.
  destruct (ElevationManager.expire_pending _ _) as [ab e]. intros; simplify_eq.
  rewrite responses_app, Hs, responses_abandoned. by eexists.
Qed.

Lemma responses_exit pid w d : responses (Daemon.handle_compositor_exit pid w d).1 = [].
Proof.
  unfold Daemon.handle_compositor_exit. case_match; [|done]. case_match. case_match.
  - apply responses_try_spawn.
  - repeat case_match; try done; apply responses_sys.
Qed.

Lemma responses_reap statuses d : responses (Daemon.reap_children statuses d).1 = [].
Proof.
  revert d. induction statuses as [|[[] w] statuses IH]; intros d; simpl; try done.
  pose proof (responses_exit pid w d) as Hs. destruct (Daemon.handle_compositor_exit pid w d) as [es1 d1].
  specialize (IH d1). destruct (Daemon.reap_children statuses d1). simpl in *. by rewrite responses_app, Hs, IH.
Qed.

Lemma responses_signal ev statuses w d : responses (Daemon.on_signal ev statuses w d).1 = [].
Proof.
  destruct ev; simpl; [|done|apply responses_reap].
  destruct (Power.graceful_shutdown _ _ _) as [[? ?] ?]. apply responses_sys.
Qed.

(** The requests whose handling can cause replies to other connections. *)
Definition closes_prompts (req : Request.t) : bool :=
  match req with Request.TerminateSession _ | Request.RespondElevation _ _ => true | _ => false end.

Lemma dispatch_quiet conn peer req w d es r d' :
  Daemon.dispatch conn peer req w d = Done (es, r, d') → closes_prompts req = false → responses es = [].
Proof.
  unfold Daemon.dispatch, Daemon.replying. intros Hd Hreq. destruct req; try done; try by simplify_eq.
  - pose proof (responses_create peer user_name seat_id session_type w d).
    by destruct (Daemon.create_session _ _ _ _ _ _) as [[? ?] ?]; simplify_eq.
  - pose proof (responses_register conn session_id d).
    by destruct (Daemon.register_compositor _ _ _) as [[? ?] ?]; simplify_eq.
  - pose proof (responses_lock peer session_id LockReason.Manual w d).
    by destruct (Daemon.lock_session _ _ _ _ _) as [[? ?] ?]; simplify_eq.
  - apply exec_bind_Done in Hd as ([[es1 r1] d1] & Hu & Hd). simplify_eq. by eapply responses_unlock.
  - destruct (SeatManager.switch_active _ _ _) as [[] ss]; simplify_eq; [|done].
    case_match; [apply responses_compositor|done].
  - by destruct (LockManager.add_inhibitor _ _ _ _ _); simplify_eq.
  - by destruct (LockManager.release_inhibitor _ _); simplify_eq.
  - pose proof (responses_suspend w d). by destruct (Daemon.suspend w d) as [[? ?] ?]; simplify_eq.
  - destruct (Power.reboot _ _ _ _ _) as [[? ?] ?]; simplify_eq. apply responses_sys.
  - destruct (Power.poweroff _ _ _ _ _) as [[? ?] ?]; simplify_eq. apply responses_sys.
  - by eapply responses_start.
Qed.

(** Every request is answered by its handler, except a request for a prompt that
    was opened. *)
Lemma dispatch_reply conn peer req w d es d' :
  Daemon.dispatch conn peer req w d = Done (es, None, d') →
  ∃ s action id c, req = Request.RequestElevation s action ∧
    ElevationManager.pending (Daemon.elevation d') !! id = Some (PendingElevation.mk s c conn) ∧
    id = u64_add (ElevationManager.next_id (Daemon.elevation d)) 1.
Proof.
  unfold Daemon.dispatch, Daemon.replying. intros Hd. destruct req; try (by repeat case_match; simplify_eq).
  - by apply exec_bind_Done in Hd as ([[es1 r1] d1] & Hu & Hd).
  - unfold Daemon.start_elevation in Hd. repeat case_match; simplify_eq.
    apply exec_bind_Done in Hd as ([r1 e1] & Hb & Hd). destruct r1 as [id|e]; [|by destruct e; simplify_eq].
    simplify_eq/=. eexists session_id, action, id, _. split; [done|].
    apply begin_cases in Hb as [(_ & _ & ?)|[(_ & _ & _ & ? & ?)|(_ & _ & id' & Hid & Hr & ->)]]; [done..|].
    injection Hr as <-. simpl. by rewrite lookup_insert_eq.
  - by apply exec_bind_Done in Hd as ([[es1 r1] d1] & Hu & Hd).
Qed.

Lemma dispatch_success conn peer req w d es r d' c :
  Daemon.dispatch conn peer req w d = Done (es, r, d') →
  (c, Response.AuthResult AuthOutcome.Success) ∈ responses es ∨
    (c = conn ∧ r = Some (Response.AuthResult AuthOutcome.Success)) →
  (∃ s u p, req = Request.Unlock s u p ∧ c = conn ∧
     accepts (Daemon.auth d w) (AuthRequest.mk s u p) = true) ∨
  (∃ id pw p ctx, req = Request.RespondElevation id (ElevationResponse.Password pw) ∧
     ElevationManager.pending (Daemon.elevation d) !! id = Some p ∧
     SessionManager.sessions (Daemon.sessions d) !! PendingElevation.session_id p = Some ctx ∧
     accepts (Daemon.auth d w) (AuthRequest.mk (PendingElevation.session_id p)
       (Session.user_name (SessionContext.session ctx)) pw) = true ∧
     (c = conn ∨ c = PendingElevation.requester_conn p)).
Proof.
  intros Hd Hin.
  assert (closes_prompts req = false → c = conn ∧ r = Some (Response.AuthResult AuthOutcome.Success)) as Hr.
  { intros Hreq. rewrite (dispatch_quiet _ _ _ _ _ _ _ _ Hd Hreq) in Hin.
    destruct Hin as [?%not_elem_of_nil|]; done. }
  unfold Daemon.dispatch, Daemon.replying, Daemon.error, Daemon.of_result in Hd.
  destruct req; try (destruct Hr as [_ ->]; [done|]; by repeat case_match; simplify_eq).
  - destruct Hr as [_ ->]; [done|]. unfold Daemon.create_session, Daemon.error in Hd. by repeat case_match; simplify_eq.
  - destruct (Daemon.terminate_session _ _ _ _) as [[es1 r1] d1] eqn:Ht. simplify_eq.
    destruct (responses_terminate _ _ _ _ _ _ _ Ht) as [l Hl]. rewrite Hl in Hin.
    destruct Hin as [(a & _ & Ha)%list_elem_of_omap|[_ Hr1]].
    + unfold abandoned_reply in Ha. by case_decide.
    + simplify_eq. unfold Daemon.terminate_session, Daemon.error in Ht. by repeat case_match; simplify_eq.
  - destruct Hr as [_ ->]; [done|]. unfold Daemon.register_compositor, Daemon.error in Hd. by repeat case_match; simplify_eq.
  - destruct Hr as [_ ->]; [done|]. unfold Daemon.lock_session, Daemon.error in Hd. by repeat case_match; simplify_eq.
  - left. destruct Hr as [-> ->]; [done|]. apply exec_bind_Done in Hd as ([[es1 r1] d1] & Hu & Hd). simplify_eq.
    apply exec_bind_Done in Hu as ([o l] & Hat & Hu).
    assert (o = AuthOutcome.Success) as -> by by repeat case_match; simplify_eq.
    destruct (proj1 (attempt_success_iff _ _ _ _ _ _ _ Hat) eq_refl) as [_ Hacc]. eauto 10.
  - destruct Hr as [_ ->]; [done|]. unfold Daemon.start_elevation, Daemon.error in Hd.
    repeat case_match; simplify_eq. apply exec_bind_Done in Hd as ([r1 e1] & _ & Hd).
    by repeat case_match; simplify_eq.
  - right. apply exec_bind_Done in Hd as ([[es1 r1] d1] & Hu & Hd). simplify_eq.
    destruct (responses_respond _ _ _ _ _ _ _ _ Hu) as (pw & p & ctx & -> & Hp & Hc & Hacc & Hto).
    { destruct Hin as [?|[_ ?]]; [eauto|]. left. congruence. }
    exists request_id, pw, p, ctx. split_and!; try done. destruct Hin as [?%Hto|[-> _]]; auto.
Qed.

(** The success, as seen by whoever receives it. *)
Lemma success_by_password i w d es d' c :
  Daemon.handle i w d = Done (es, d') →
  Effect.Sent c (Message.Response (Response.AuthResult AuthOutcome.Success)) ∈ es →
  ∃ conn peer req,
    i = Daemon.Ipc (ManagerMessage.Command (ManagerCommand.mk conn peer req)) ∧
    permitted peer conn req (Daemon.sessions d) (Daemon.elevation d) w ∧
    ((∃ s u p, req = Request.Unlock s u p ∧ c = conn ∧
        accepts (Daemon.auth d w) (AuthRequest.mk s u p) = true) ∨
     (∃ id pw p ctx, req = Request.RespondElevation id (ElevationResponse.Password pw) ∧
        ElevationManager.pending (Daemon.elevation d) !! id = Some p ∧
        SessionManager.sessions (Daemon.sessions d) !! PendingElevation.session_id p = Some ctx ∧
        accepts (Daemon.auth d w) (AuthRequest.mk (PendingElevation.session_id p)
          (Session.user_name (SessionContext.session ctx)) pw) = true ∧
        (c = conn ∨ c = PendingElevation.requester_conn p))).
Proof.
  rewrite <- elem_of_responses. intros Hh Hin.
  assert (∀ (l : list AbandonedElevation.t) reason reg, (c, Response.AuthResult AuthOutcome.Success) ∉ omap (abandoned_reply reason reg) l) as Hab.
  { intros l reason reg (a & _ & Ha)%list_elem_of_omap. unfold abandoned_reply in Ha. by case_decide. }
  destruct i as [[conn peer ob|[conn peer req]|conn]| |sig statuses]; simpl in Hh.
  - simplify_eq. by apply not_elem_of_nil in Hin.
  - unfold Daemon.handle_command in Hh. simpl in Hh.
    destruct (Policy.authorize _ _ _ _ _ _) as [[]|e] eqn:Ha.
    2: { simplify_eq. revert Hin. rewrite responses_response. case_decide; [|by intros ?%not_elem_of_nil].
         by intros ?%list_elem_of_singleton. }
    apply authorize_permitted in Ha. apply exec_bind_Done in Hh as ([[es1 r1] d1] & Hd & Hh). simplify_eq.
    exists conn, peer, req. split; [done|]. split; [done|].
    rewrite responses_app, elem_of_app in Hin.
    assert ((c, Response.AuthResult AuthOutcome.Success) ∈ responses es1 ∨
      (c = conn ∧ r1 = Some (Response.AuthResult AuthOutcome.Success))) as Hin'.
    { destruct Hin as [?|Hin]; [by left|]. right. destruct r1; [|by apply not_elem_of_nil in Hin].
      rewrite responses_response in Hin. case_decide; [|by apply not_elem_of_nil in Hin].
      by apply list_elem_of_singleton in Hin as [= -> <-]. }
    clear Hin Hab. by apply (dispatch_success _ _ _ _ _ _ _ _ _ Hd).
  - unfold Daemon.disconnected in Hh. destruct (ElevationManager.abandon_connection _ _). simplify_eq.
    rewrite responses_abandoned in Hin. by apply Hab in Hin.
  - injection Hh as Hh. apply responses_idle_tick in Hh as [l Hl]. rewrite Hl in Hin. by apply Hab in Hin.
  - destruct (SignalEvent.classify sig) as [ev|]; injection Hh as Hh.
    + pose proof (responses_signal ev statuses w d) as Hs. rewrite Hh in Hs. simpl in Hs. rewrite Hs in Hin.
      by apply not_elem_of_nil in Hin.
    + simplify_eq. by apply not_elem_of_nil in Hin.
Qed.
End replies.
