(* ===== verification/DaemonPrompts.v ===== *)
(** * DaemonPrompts: the life of an elevation prompt in the daemon

    A prompt that was opened stays as it is until it is closed, and whichever
    event closes it (an answer, a cancellation, a logout, a dropped connection, a
    timeout) answers the service that asked and hides the prompt. *)

From stdpp Require Import base gmap strings pretty numbers list.
From S2P Require Import Prelude Errors System Config User Session Seat Auth Lock Idle Elevation.
From S2P Require Import Ipc Policy Launcher Power Daemon DaemonInv DaemonSafety.

(** Both parties of prompt [id] have been told it is over, as far as they are
    still connected. *)
Definition told (id : ElevationRequestId) (p : PendingElevation.t) (es : list Effect.t)
    (r : ConnRegistry.t) : Prop :=
  (is_Some (ConnRegistry.outboxes r !! PendingElevation.requester_conn p) →
   ∃ o, Effect.Sent (PendingElevation.requester_conn p) (Message.Response (Response.AuthResult o)) ∈ es) ∧
  (is_Some (ConnRegistry.outboxes r !! PendingElevation.compositor_conn p) →
   Effect.Sent (PendingElevation.compositor_conn p) (Message.Event (Event.HideElevationPrompt id)) ∈ es).

Lemma elem_of_send_event c e r :
  is_Some (ConnRegistry.outboxes r !! c) → Effect.Sent c (Message.Event e) ∈ ConnRegistry.send_event c e r.
Proof. intros [o Ho]. unfold ConnRegistry.send_event, ConnRegistry.send. rewrite Ho. set_solver. Qed.

Lemma elem_of_send_response c x r :
  is_Some (ConnRegistry.outboxes r !! c) → Effect.Sent c (Message.Response x) ∈ ConnRegistry.send_response c x r.
Proof. intros [o Ho]. unfold ConnRegistry.send_response, ConnRegistry.send. rewrite Ho. set_solver. Qed.

Lemma told_app id p es1 es2 r : told id p es1 r ∨ told id p es2 r → told id p (es1 ++ es2) r.
Proof.
  unfold told. setoid_rewrite elem_of_app. intros [[H1 H2]|[H1 H2]]; split; intros Hs; naive_solver.
Qed.

Lemma abandoned_told reason l id p w d :
  AbandonedElevation.of_pending id p ∈ l →
  told id p (Daemon.notify_all_abandoned reason l w d) (Daemon.registry d).
Proof.
  unfold Daemon.notify_all_abandoned. induction l as [|a l IH]; simpl; [by intros ?%not_elem_of_nil|].
  intros [<-|Hin]%elem_of_cons; apply told_app; [left|right; by apply IH].
  unfold Daemon.notify_elevation_abandoned, told. setoid_rewrite elem_of_app. simpl. split; intros Hs.
  - eexists. right. apply elem_of_app. left. by apply elem_of_send_response.
  - left. by apply elem_of_send_event.
Qed.

Lemma resolved_told id o p d a :
  ElevationOutcome.terminal o = true →
  ElevationOutcome.requester_conn o = PendingElevation.requester_conn p →
  ElevationOutcome.compositor_conn o = PendingElevation.compositor_conn p →
  told id p (Daemon.tell_resolved id o d ++ a) (Daemon.registry d).
Proof.
  intros Ht Hr Hc. apply told_app. left. unfold Daemon.tell_resolved, told. rewrite Ht, Hr, Hc.
  setoid_rewrite elem_of_app. split; intros Hs.
  - eexists. right. apply elem_of_app. right. by apply elem_of_send_response.
  - right. apply elem_of_app. left. by apply elem_of_send_event.
Qed.

Section prompts.
Context `{HashOrder} `{SerdeJson} `{TomlSettings}.
Implicit Types (d : Daemon.t).

(** What an event does to the prompt [id], open as [p] before it. *)
Definition prompt_step (id : ElevationRequestId) (p : PendingElevation.t) (es : list Effect.t) d' : Prop :=
  ElevationManager.pending (Daemon.elevation d') !! id = Some p ∨
  (ElevationManager.pending (Daemon.elevation d') !! id = None ∧ told id p es (Daemon.registry d')).

Lemma on_stage_elevation w seat stage d :
  Daemon.elevation (Daemon.on_stage w seat stage d).2 = Daemon.elevation d ∧
  Daemon.registry (Daemon.on_stage w seat stage d).2 = Daemon.registry d.
Proof.
  unfold Daemon.on_stage. destruct stage; try done.
  - case_match; [done|]. destruct (SeatManager.active_session _ _) as [[s|]|]; try done.
    case_match; [done|]. destruct (LockManager.lock _ _ _) as [res l]. case_match; [|done].
    match goal with |- context [Daemon.transition_and_tell ?a ?b ?c ?d0] =>
      destruct (tell_frame a b c d0) as (_ & -> & -> & _) end. done.
  - unfold Daemon.suspend. by destruct (Power.suspend _ _ _ _ _ _ _) as [[? ?] ?].
Qed.

Lemma on_stages_elevation w changes d :
  Daemon.elevation (Daemon.on_stages w changes d).2 = Daemon.elevation d ∧
  Daemon.registry (Daemon.on_stages w changes d).2 = Daemon.registry d.
Proof.
  revert d. induction changes as [|[seat stage] changes IH]; intros d; simpl; [done|].
  pose proof (on_stage_elevation w seat stage d) as [He Hr]. destruct (Daemon.on_stage w seat stage d) as [es1 d1].
  destruct (IH d1) as [He' Hr']. destruct (Daemon.on_stages w changes d1). simpl in *. split; congruence.
Qed.

Lemma abandon_prompt_step f reason d d' w es id p :
  ElevationManager.pending (Daemon.elevation d) !! id = Some p →
  Daemon.elevation d' = (ElevationManager.abandon_where f (Daemon.elevation d)).2 →
  prompt_step id p (es ++ Daemon.notify_all_abandoned reason
    (ElevationManager.abandon_where f (Daemon.elevation d)).1 w d') d'.
Proof.
  intros Hp Hd. unfold prompt_step. rewrite Hd. destruct (f p) eqn:Hf.
  - right. split.
    + apply eq_None_not_Some. intros [q [Hq Hfq]%abandon_where_pending]. congruence.
    + apply told_app. right. apply abandoned_told, abandon_where_reports. eauto.
  - left. by apply abandon_where_pending.
Qed.

Lemma expire_prompt_step d now d' w es id p :
  ElevationInv.wf (Daemon.elevation d) →
  ElevationManager.pending (Daemon.elevation d) !! id = Some p →
  Daemon.elevation d' = (ElevationManager.expire_pending now
    (ElevationManager.clear_expired_lockouts now (Daemon.elevation d))).2 →
  prompt_step id p (es ++ Daemon.notify_all_abandoned "timed out waiting for a response"
    (ElevationManager.expire_pending now
      (ElevationManager.clear_expired_lockouts now (Daemon.elevation d))).1 w d') d'.
Proof.
  intros Hwf Hp Hd. unfold prompt_step. rewrite Hd.
  set (m := ElevationManager.clear_expired_lockouts now (Daemon.elevation d)) in *.
  destruct (clear_expired_frame now (Daemon.elevation d)) as (Hpe & _ & _ & _). fold m in Hpe.
  assert (ElevationInv.wf m) as Hm by by apply clear_expired_wf. rewrite <- Hpe in Hp.
  destruct (proj1 (proj1 Hm id)) as [t Ht]; [by eexists|].
  destruct (N.le_gt_cases t now) as [Hle|Hgt].
  - right. split.
    + apply eq_None_not_Some. intros [q (_ & t' & Ht' & ?)%expire_pending_rest]; [|done]. simplify_eq. lia.
    + apply told_app. right. apply abandoned_told. apply expire_reports; [done|]. eauto 10.
  - left. apply expire_pending_rest; [done|]. eauto.
Qed.

Lemma respond_prompt_step peer rid resp w d es r d' id p es' :
  (x ← Daemon.respond_elevation peer rid resp w d;
   let '(effects, response, d) := x in Done (effects, Some response, d)) = Done (es, r, d') →
  ElevationManager.pending (Daemon.elevation d) !! id = Some p →
  prompt_step id p (es ++ es') d'.
Proof.
  intros Hd Hp. apply exec_bind_Done in Hd as ([[es1 r1] d1] & Hu & Hd). simplify_eq.
  unfold Daemon.respond_elevation, ElevationManager.peek in Hu.
  destruct (ElevationManager.pending (Daemon.elevation d) !! rid) as [q|] eqn:Hq; simpl in Hu.
  2: { simplify_eq. by left. }
  apply exec_bind_Done in Hu as (x & Hx & Hr).
  assert (∀ o e, ElevationManager.pending e = delete rid (ElevationManager.pending (Daemon.elevation d)) →
    ElevationOutcome.terminal o = true →
    ElevationOutcome.requester_conn o = PendingElevation.requester_conn q →
    ElevationOutcome.compositor_conn o = PendingElevation.compositor_conn q →
    x = Ok (Some o, e) → prompt_step id p (es ++ es') d') as Hclose.
  { intros o e He Ht Hreq Hcomp ->. simplify_eq. unfold prompt_step. simpl. rewrite He.
    destruct (decide (id = rid)) as [->|Hne]; [|by left; rewrite lookup_delete_ne].
    right. split; [by rewrite lookup_delete_eq|]. simplify_eq. apply told_app. left. by apply (resolved_told rid o q (Daemon.with_elevation e d)). }
  destruct resp as [pw|].
  - unfold SessionManager.get in Hx. destruct (_ !! PendingElevation.session_id q) as [ctx|]; simpl in Hx.
    2: { simplify_eq. by left. }
    apply exec_bind_Done in Hx as ([o e] & Hat & Hx). simplify_eq.
    destruct (attempt_cases _ _ _ _ _ _ _ _ _ Hq Hat) as [(_ & -> & ->)|[(_ & _ & -> & ->)|(_ & _ & -> & ->)]].
    + eapply Hclose; [| | | |reflexivity]; done.
    + simplify_eq. by left.
    + eapply Hclose; [| | | |reflexivity]; done.
  - unfold ElevationManager.cancel in Hx. rewrite Hq in Hx. simplify_eq. eapply Hclose; [| | | |reflexivity]; done.
Qed.

(** The requests that open or close prompts. *)
Definition about_prompts (req : Request.t) : bool :=
  match req with
  | Request.TerminateSession _ | Request.RequestElevation _ _ | Request.RespondElevation _ _ => true
  | _ => false
  end.

Lemma dispatch_elevation_frame conn peer req w d es r d' :
  Daemon.dispatch conn peer req w d = Done (es, r, d') → about_prompts req = false →
  Daemon.elevation d' = Daemon.elevation d ∧ Daemon.registry d' = Daemon.registry d ∧ is_Some r.
Proof.
  unfold Daemon.dispatch, Daemon.replying. intros Hd Hreq. destruct req; try done; try (by simplify_eq).
  - pose proof (create_session_frame peer user_name seat_id session_type w d) as (_ & He & Hr & _).
    by destruct (Daemon.create_session _ _ _ _ _ _) as [[? ?] ?]; simplify_eq.
  - unfold Daemon.register_compositor in Hd. repeat case_match; by simplify_eq.
  - unfold Daemon.lock_session in Hd. destruct (Daemon.cannot_lock _ _ _); [by simplify_eq|].
    destruct (LockManager.lock _ _ _) as [[[]|e] l]; [|by simplify_eq].
    match goal with Hd : context [Daemon.transition_and_tell ?a ?b ?c ?d0] |- _ =>
      pose proof (tell_frame a b c d0) as (_ & He & Hr & _); destruct (Daemon.transition_and_tell a b c d0) end.
    by simplify_eq.
  - apply exec_bind_Done in Hd as ([[es1 r1] d1] & Hu & Hd). simplify_eq.
    apply exec_bind_Done in Hu as ([o l] & _ & Hu). destruct o; simplify_eq/=; try done.
    match goal with Hd : context [Daemon.transition_and_tell ?a ?b ?c ?d0] |- _ =>
      pose proof (tell_frame a b c d0) as (_ & He & Hr & _); destruct (Daemon.transition_and_tell a b c d0) end.
    by simplify_eq.
  - destruct (SeatManager.switch_active _ _ _) as [[] ss]; by simplify_eq.
  - by destruct (LockManager.add_inhibitor _ _ _ _ _); simplify_eq.
  - by destruct (LockManager.release_inhibitor _ _); simplify_eq.
  - unfold Daemon.suspend in Hd. by destruct (Power.suspend _ _ _ _ _ _ _) as [[? ?] ?]; simplify_eq.
  - by destruct (Power.reboot _ _ _ _ _) as [[? ?] ?]; simplify_eq.
  - by destruct (Power.poweroff _ _ _ _ _) as [[? ?] ?]; simplify_eq.
Qed.

(** What a request for a prompt does to the elevation manager: nothing, with a
    reply, or a new prompt, without one. *)
Lemma start_elevation_cases conn peer s action w d es r d' :
  Daemon.start_elevation conn peer s action w d = Done (es, r, d') →
  Daemon.registry d' = Daemon.registry d ∧
  ((Daemon.elevation d' = Daemon.elevation d ∧ is_Some r) ∨
   (r = None ∧ ∃ c, ElevationManager.pending (Daemon.elevation d') =
      <[u64_add (ElevationManager.next_id (Daemon.elevation d)) 1 := PendingElevation.mk s c conn]>
        (ElevationManager.pending (Daemon.elevation d)))).
Proof.
  unfold Daemon.start_elevation. intros Hd.
  assert (Daemon.registry d' = Daemon.registry d) as Hreg.
  { repeat case_match; simplify_eq; try done. apply exec_bind_Done in Hd as ([r1 e1] & _ & Hd).
    by repeat case_match; simplify_eq. }
  split; [done|]. repeat case_match; try (by left; simplify_eq).
  apply exec_bind_Done in Hd as ([r1 e1] & Hb & Hd).
  apply begin_cases in Hb as [(_ & -> & ->)|[(_ & -> & _ & msg & ->)|(_ & _ & i & -> & -> & ->)]].
  - left. by simplify_eq.
  - left. by simplify_eq.
  - right. simplify_eq. split; [done|]. by eexists.
Qed.

Lemma dispatch_prompt_step conn peer req w d es r d' id p es' :
  Daemon.dispatch conn peer req w d = Done (es, r, d') →
  DaemonInv.wf d → DaemonInv.room 1 d →
  ElevationManager.pending (Daemon.elevation d) !! id = Some p →
  prompt_step id p (es ++ es') d'.
Proof.
  intros Hd Hwf Hroom Hp.
  assert (Daemon.elevation d' = Daemon.elevation d → prompt_step id p (es ++ es') d') as Hsame.
  { intros He. left. by rewrite He. }
  destruct (about_prompts req) eqn:Hreq; [|by apply Hsame; eapply dispatch_elevation_frame].
  unfold Daemon.dispatch, Daemon.replying in Hd. destruct req; try done.
  - unfold Daemon.terminate_session, ElevationManager.abandon_session in Hd.
    destruct (SessionManager.terminate_session _ _) as [[calls [[]|e]] ss]; [|by apply Hsame; simplify_eq].
    simpl in Hd.
    match goal with Hd : context [ElevationManager.abandon_where ?f _] |- _ =>
      pose proof (λ d0, abandon_prompt_step f "session ended" d d0 w (map Effect.Sys calls ++
        Daemon.audit_log (AuditEvent.with_target (pretty session_id)
          (AuditEvent.new (PeerCred.uid peer) "terminate_session" "ok" w)) d) id p Hp) as Hs end.
    destruct (ElevationManager.abandon_where _ _) as [ab e]. simplify_eq/=.
    destruct (Hs (Daemon.with_elevation e (Daemon.with_seats
      (SeatManager.detach_session session_id (Daemon.seats d)) (Daemon.with_sessions ss d))) eq_refl) as [Hl|[Hn Ht]].
    + by left.
    + right. split; [done|]. apply told_app. left. by rewrite <- (assoc_L app) in Ht.
  - apply start_elevation_cases in Hd as (_ & [[He _]|(_ & c & He)]); [by apply Hsame|]. left. rewrite He.
    rewrite lookup_insert_ne; [done|]. intros Heq.
    pose proof (begin_fresh (Daemon.elevation d) (DaemonInv.wf_elevation _ Hwf)) as Hfr.
    rewrite Heq, Hp in Hfr. by discriminate Hfr; apply Hroom.
  - by eapply respond_prompt_step.
Qed.

(** ** What a request tells others *)

(** The deferred reply of a closed prompt, if its requester is still there. *)
Definition deferred (r : ConnRegistry.t) (o : AuthOutcome.t) (e : ElevationRequestId * PendingElevation.t)
    : option (ConnId * Response.t) :=
  if decide (is_Some (ConnRegistry.outboxes r !! PendingElevation.requester_conn e.2))
  then Some (PendingElevation.requester_conn e.2, Response.AuthResult o) else None.

(** [closed] lists the prompts of [m] that are no longer open in [m']. *)
Definition closes (closed : list (ElevationRequestId * PendingElevation.t)) (m m' : ElevationManager.t) : Prop :=
  NoDup closed.*1 ∧
  ∀ id p, (id, p) ∈ closed ↔
    ElevationManager.pending m !! id = Some p ∧ ElevationManager.pending m' !! id = None.

(** The replies among [es] are the deferred ones of the prompts closed. *)
Definition replies_for d (es : list Effect.t) d' : Prop :=
  ∃ closed o, closes closed (Daemon.elevation d) (Daemon.elevation d') ∧
    responses es = omap (deferred (Daemon.registry d') o) closed.

Lemma closes_none m m' :
  (∀ id, is_Some (ElevationManager.pending m !! id) → is_Some (ElevationManager.pending m' !! id)) → closes [] m m'.
Proof.
  intros Hm. split; [constructor|]. intros id p. split; [by intros ?%not_elem_of_nil|].
  intros [Hp Hn]. destruct (Hm id) as [? ?]; [by eexists|congruence].
Qed.

Lemma replies_for_none d es d' :
  (∀ id, is_Some (ElevationManager.pending (Daemon.elevation d) !! id) →
         is_Some (ElevationManager.pending (Daemon.elevation d') !! id)) →
  responses es = [] → replies_for d es d'.
Proof. intros Hm Hr. exists [], AuthOutcome.Success. split; [by apply closes_none|done]. Qed.

Lemma closes_one m m' id p :
  ElevationManager.pending m !! id = Some p →
  ElevationManager.pending m' = delete id (ElevationManager.pending m) → closes [(id, p)] m m'.
Proof.
  intros Hp Hm. split; [apply NoDup_singleton|]. intros i q. rewrite list_elem_of_singleton, Hm, lookup_delete_None.
  split; [intros [= -> ->]; auto|]. intros [Hq [->|Hn]]; congruence.
Qed.

Lemma closes_matching f m : closes (matching f m) m (ElevationManager.abandon_where f m).2.
Proof.
  split; [apply NoDup_matching|]. intros id p. rewrite elem_of_matching. split.
  - intros [Hp Hf]. split; [done|]. apply eq_None_not_Some. intros [q [Hq Hfq]%abandon_where_pending]. congruence.
  - intros [Hp Hn]. split; [done|]. destruct (f p) eqn:Hf; [done|].
    by rewrite (proj2 (abandon_where_pending f m id p) (conj Hp Hf)) in Hn.
Qed.

Lemma terminate_replies peer s w d es r d' :
  Daemon.terminate_session peer s w d = (es, r, d') → replies_for d es d'.
Proof.
  unfold Daemon.terminate_session, ElevationManager.abandon_session. intros Ht.
  destruct (SessionManager.terminate_session _ _) as [[calls [[]|e]] ss].
  2: { simplify_eq. apply replies_for_none; [done|apply responses_sys]. }
  simpl in Ht. set (f := λ p, bool_decide (PendingElevation.session_id p = s)) in Ht.
  pose proof (abandon_where_matching f (Daemon.elevation d)) as Hab.
  pose proof (closes_matching f (Daemon.elevation d)) as Hc.
  destruct (ElevationManager.abandon_where f _) as [ab e]. simplify_eq/=.
  exists (matching f (Daemon.elevation d)), (AuthOutcome.Error "session ended"). split; [done|].
  rewrite responses_app, responses_sys. cbn [responses omap list_omap app]. rewrite responses_abandoned.
  simpl. generalize (matching f (Daemon.elevation d)). intros l. induction l as [|x l IH]; [done|].
  unfold omap in *. simpl. rewrite IH. done.
Qed.

Lemma respond_replies peer id resp w d es r d' :
  Daemon.respond_elevation peer id resp w d = Done (es, r, d') → replies_for d es d'.
Proof.
  unfold Daemon.respond_elevation, ElevationManager.peek.
  destruct (ElevationManager.pending (Daemon.elevation d) !! id) as [p|] eqn:Hp; simpl.
  2: { intros; simplify_eq. by apply replies_for_none. }
  intros (x & Hx & Hr)%exec_bind_Done.
  assert (∀ o e, ElevationManager.pending e = delete id (ElevationManager.pending (Daemon.elevation d)) →
    ElevationOutcome.terminal o = true →
    ElevationOutcome.requester_conn o = PendingElevation.requester_conn p →
    x = Ok (Some o, e) → replies_for d es d') as Hclose.
  { intros o e He Ht Hreq ->. simplify_eq. exists [(id, p)], (ElevationOutcome.outcome o).
    split; [by apply closes_one|]. unfold Daemon.tell_resolved. rewrite Ht, !responses_app, Hreq.
    rewrite !responses_event, responses_response. simpl. unfold deferred. simpl. by case_decide. }
  destruct resp as [pw|].
  - unfold SessionManager.get in Hx. destruct (_ !! PendingElevation.session_id p) as [ctx|]; simpl in Hx.
    2: { simplify_eq. by apply replies_for_none. }
    apply exec_bind_Done in Hx as ([o e] & Hat & Hx). simplify_eq.
    destruct (attempt_cases _ _ _ _ _ _ _ _ _ Hp Hat) as [(_ & -> & ->)|[(_ & _ & -> & ->)|(_ & _ & -> & ->)]].
    + eapply Hclose; [| | |reflexivity]; done.
    + simplify_eq. apply replies_for_none; [done|]. unfold Daemon.tell_resolved. simpl.
      by autorewrite with mitos_effects.
    + eapply Hclose; [| | |reflexivity]; done.
  - unfold ElevationManager.cancel in Hx. rewrite Hp in Hx. simplify_eq. eapply Hclose; [| | |reflexivity]; done.
Qed.

(** Any request: before its own reply the only replies are those. *)
Lemma dispatch_replies conn peer req w d es r d' :
  Daemon.dispatch conn peer req w d = Done (es, r, d') → replies_for d es d'.
Proof.
  intros Hd. destruct (closes_prompts req) eqn:Hreq.
  - unfold Daemon.dispatch, Daemon.replying in Hd. destruct req; try done.
    + destruct (Daemon.terminate_session _ _ _ _) as [[? ?] ?] eqn:Ht. simplify_eq. by eapply terminate_replies.
    + apply exec_bind_Done in Hd as ([[es1 r1] d1] & Hu & Hd). simplify_eq. by eapply respond_replies.
  - apply replies_for_none; [|by eapply dispatch_quiet]. intros id Hid.
    destruct (about_prompts req) eqn:Ha.
    2: { by destruct (dispatch_elevation_frame _ _ _ _ _ _ _ _ Hd Ha) as [-> _]. }
    destruct req; try done. apply start_elevation_cases in Hd as (_ & [[-> _]|(_ & c & ->)]); [done|].
    rewrite lookup_insert_is_Some'. auto.
Qed.

(** Any event, on any open prompt. *)
Lemma handle_prompt_step i w d es d' id p :
  Daemon.handle i w d = Done (es, d') → DaemonInv.wf d → DaemonInv.room 1 d →
  ElevationManager.pending (Daemon.elevation d) !! id = Some p → prompt_step id p es d'.
Proof.
  intros Hh Hwf Hroom Hp. destruct i as [[conn peer ob|[conn peer req]|conn]| |sig statuses]; simpl in Hh.
  - simplify_eq. by left.
  - unfold Daemon.handle_command in Hh. destruct (Policy.authorize _ _ _ _ _ _); [|simplify_eq; by left].
    apply exec_bind_Done in Hh as ([[es1 r1] d1] & Hd & Hh). simplify_eq. by eapply dispatch_prompt_step.
  - unfold Daemon.disconnected, ElevationManager.abandon_connection in Hh. simpl in Hh.
    match goal with Hh : context [ElevationManager.abandon_where ?f _] |- _ =>
      pose proof (λ d0, abandon_prompt_step f "a required connection disconnected" d d0 w [] id p Hp) as Hs end.
    destruct (ElevationManager.abandon_where _ _) as [ab e]. simplify_eq/=.
    by apply (Hs (Daemon.with_elevation e _)).
  - injection Hh as Hh. unfold Daemon.on_idle_tick in Hh. destruct (IdleDetector.tick _ _ _) as [changes idle].
    destruct (on_stages_elevation w changes (Daemon.with_idle idle d)) as [He _].
    destruct (Daemon.on_stages _ _ _) as [es1 d1]. simpl in *. rewrite He in Hh.
    pose proof (λ d0, expire_prompt_step d (w_now w) d0 w es1 id p (DaemonInv.wf_elevation _ Hwf) Hp) as Hs.
    destruct (ElevationManager.expire_pending _ _) as [ab e]. simplify_eq/=.
    by apply (Hs (Daemon.with_elevation e _)).
  - left. destruct (SignalEvent.classify sig) as [ev|]; injection Hh as Hh; [|by simplify_eq].
    pose proof (signal_frame ev statuses w d) as (_ & Hf & _). rewrite Hh in Hf. simpl in Hf. by rewrite Hf.
Qed.

(** ** Logging out, and dropping a connection *)

(** After a logout nothing of the session is left: it is not registered, not on
    a seat, and no prompt is open for it; its compositor has been killed. *)
Lemma terminate_complete peer s w d es r d' c :
  Daemon.terminate_session peer s w d = (es, r, d') → DaemonInv.wf d →
  SessionManager.sessions (Daemon.sessions d) !! s = Some c →
  r = Response.Ok ∧
  SessionManager.sessions (Daemon.sessions d') = delete s (SessionManager.sessions (Daemon.sessions d)) ∧
  ¬ seated s (Daemon.seats d') ∧
  (∀ id p, ElevationManager.pending (Daemon.elevation d') !! id = Some p ↔
     ElevationManager.pending (Daemon.elevation d) !! id = Some p ∧ PendingElevation.session_id p ≠ s) ∧
  (∀ pid, SessionContext.compositor_process c = Some pid →
     Effect.Sys (SysCall.KillChild pid) ∈ es ∧ Effect.Sys (SysCall.WaitChild pid) ∈ es).
Proof.
  intros Ht Hwf Hc. unfold Daemon.terminate_session, ElevationManager.abandon_session in Ht.
  pose proof (terminate_session_spec s (Daemon.sessions d)) as Hspec. rewrite Hc in Hspec. rewrite Hspec in Ht.
  simpl in Ht.
  pose proof (abandon_where_pending (λ p, bool_decide (PendingElevation.session_id p = s)) (Daemon.elevation d)) as Hab.
  destruct (ElevationManager.abandon_where _ _) as [ab e]. simplify_eq/=. split_and!; try done.
  - intros [_ ?]%seated_detach; [done|apply Hwf].
  - intros id p. by rewrite Hab, bool_decide_eq_false.
  - intros pid ->. simpl. set_solver.
Qed.

(** After a connection has dropped no session is shown on it, no prompt involves
    it, and nothing is sent to it. *)
Lemma disconnected_complete conn w d es d' :
  Daemon.disconnected conn w d = (es, d') →
  ConnRegistry.outboxes (Daemon.registry d') !! conn = None ∧
  (∀ s c, SessionManager.sessions (Daemon.sessions d') !! s = Some c →
     SessionContext.compositor_conn c ≠ Some conn) ∧
  (∀ id p, ElevationManager.pending (Daemon.elevation d') !! id = Some p ↔
     ElevationManager.pending (Daemon.elevation d) !! id = Some p ∧
     PendingElevation.compositor_conn p ≠ conn ∧ PendingElevation.requester_conn p ≠ conn) ∧
  (∀ m, Effect.Sent conn m ∉ es).
Proof.
  unfold Daemon.disconnected, ElevationManager.abandon_connection. simpl.
  pose proof (abandon_where_pending (λ p, bool_decide (PendingElevation.compositor_conn p = conn)
    || bool_decide (PendingElevation.requester_conn p = conn)) (Daemon.elevation d)) as Hab.
  destruct (ElevationManager.abandon_where _ _) as [ab e]. intros; simplify_eq/=. split_and!.
  - by rewrite lookup_delete_eq.
  - intros s c. rewrite lookup_fmap. intros (c0 & _ & ->)%fmap_Some. unfold Daemon.clear_conn.
    by case_decide.
  - intros id p. rewrite Hab, orb_false_iff, !bool_decide_eq_false. done.
  - intros m. clear Hab. unfold Daemon.notify_all_abandoned. induction ab as [|a ab IH]; simpl; [set_solver|].
    rewrite elem_of_app. intros [Hin|]; [|done]. revert Hin.
    unfold Daemon.notify_elevation_abandoned, ConnRegistry.send_event, ConnRegistry.send_response,
      ConnRegistry.send. simpl. rewrite !lookup_delete. repeat case_decide; repeat case_match; set_solver.
Qed.
End prompts.
