(* ===== verification/DaemonProcess.v ===== *)
(** * DaemonProcess: the processes the daemon starts, and when it can panic *)

From stdpp Require Import base gmap strings pretty numbers list.
From S2P Require Import Prelude Errors System Config User Session Seat Auth Lock Idle Elevation.
From S2P Require Import Ipc Policy Launcher Power Daemon DaemonInv DaemonSafety.

(** ** Panics *)

(** The clock and the configured delays are small enough for every deadline to
    be representable: the seconds of each are below [2 ^ 62]. *)
Definition clock_sane (s : Settings.t) (w : World) : Prop :=
  (w_now w < 2 ^ 62 * NANOS_PER_SEC)%N ∧
  (LockSettings.lockout_secs (Settings.lock s) < 2 ^ 62)%N ∧
  (ElevationSettings.lockout_secs (Settings.elevation s) < 2 ^ 62)%N ∧
  (ElevationSettings.prompt_timeout_secs (Settings.elevation s) < 2 ^ 62)%N.

Lemma instant_add_sane t s :
  (t < 2 ^ 62 * NANOS_PER_SEC)%N → (s < 2 ^ 62)%N → instant_add t (from_secs s) ≠ Panicked.
Proof.
  intros Ht Hs. rewrite instant_add_total; [done..|]. unfold from_secs, NANOS_PER_SEC. lia.
Qed.

Section panics.
Context `{HashOrder} `{SerdeJson} `{TomlSettings}.
Implicit Types (d : Daemon.t).

(** A panic is a deadline past the end of the clock, never anything else. *)
Lemma handle_panics i w d :
  Daemon.handle i w d = Panicked →
  instant_add (w_now w) (from_secs (LockSettings.lockout_secs (Settings.lock (Daemon.settings d)))) = Panicked ∨
  instant_add (w_now w)
    (from_secs (ElevationSettings.lockout_secs (Settings.elevation (Daemon.settings d)))) = Panicked ∨
  instant_add (w_now w)
    (from_secs (ElevationSettings.prompt_timeout_secs (Settings.elevation (Daemon.settings d)))) = Panicked.
Proof.
  destruct i as [[conn peer ob|[conn peer req]|conn]| |sig statuses]; simpl; try done.
  2: { by case_match. }
  unfold Daemon.handle_command. case_match; [|done]. simpl.
  destruct (Daemon.dispatch conn peer req w d) as [[[? ?] ?]|] eqn:Hd; [done|]. intros _. revert Hd.
  unfold Daemon.dispatch, Daemon.replying. destruct req; try (by repeat case_match).
  - unfold Daemon.unlock. simpl.
    destruct (LockManager.attempt_unlock _ _ _ _ _) as [[o l]|] eqn:Hat; simpl.
    + destruct o; try done. by destruct (Daemon.transition_and_tell _ _ _ _).
    + intros _. left. by apply attempt_panics in Hat.
  - unfold Daemon.start_elevation. repeat case_match; try done.
    destruct (ElevationManager.begin _ _ _ _ _ _ _) as [[r e]|] eqn:Hb; simpl.
    + by repeat case_match.
    + intros _. right. right. by apply begin_panics in Hb.
  - unfold Daemon.respond_elevation. case_match; [|done]. destruct response as [pw|]; simpl; [|by repeat case_match].
    case_match; [|done]. destruct (ElevationManager.attempt _ _ _ _ _ _) as [[o e]|] eqn:Hat; simpl.
    + by repeat case_match.
    + intros _. right. left. by apply attempt_elevation_panics in Hat.
Qed.

Lemma handle_total i w d :
  clock_sane (Daemon.settings d) w → ∃ es d', Daemon.handle i w d = Done (es, d').
Proof.
  intros (Hn & H1' & H2' & H3'). destruct (Daemon.handle i w d) as [[es d']|] eqn:Hh; [eauto|].
  apply handle_panics in Hh as [Hp|[Hp|Hp]]; exfalso; revert Hp; by apply instant_add_sane.
Qed.
End panics.

(** ** Processes *)

(** The command runs as the user of the session: the user's uid, gid and home,
    and the environment of the session. *)
Definition runs_for (c : SessionContext.t) (cmd : Command) : Prop :=
  cmd_setuid cmd = User.uid (SessionContext.user c) ∧
  cmd_setgid cmd = User.gid (SessionContext.user c) ∧
  cmd_current_dir cmd = User.home (SessionContext.user c) ∧
  cmd_env cmd = Environment.vars (SessionContext.environment c).

(** Every command is run for one of these sessions. *)
Definition all_run_for (ss : SessionManager.t) (cmds : list Command) : Prop :=
  Forall (λ cmd, ∃ s c, SessionManager.sessions ss !! s = Some c ∧ runs_for c cmd) cmds.

(** An edit that leaves who the session is for, and its environment, alone. *)
Definition same_owner (f : SessionContext.t → SessionContext.t) : Prop :=
  ∀ c, SessionContext.user (f c) = SessionContext.user c ∧
       SessionContext.environment (f c) = SessionContext.environment c.

Lemma all_run_for_update ss id f cmds :
  same_owner f → all_run_for ss cmds → all_run_for (SessionManager.update id f ss) cmds.
Proof.
  intros Hf Hr. eapply Forall_impl; [done|]. intros cmd (s & c & Hc & Hrun). simpl.
  destruct (decide (id = s)) as [->|Hne].
  - exists s, (f c). rewrite lookup_alter_eq, Hc. split; [done|]. unfold runs_for in *.
    by destruct (Hf c) as [-> ->].
  - exists s, c. by rewrite lookup_alter_ne.
Qed.

Lemma no_spawn_app l1 l2 : no_spawn l1 → no_spawn l2 → no_spawn (l1 ++ l2).
Proof. apply Forall_app_2. Qed.

Lemma syscall_no_spawn c w : (∀ cmd, c ≠ SysCall.Spawn cmd) → no_spawn (syscall c w).1.
Proof. intros. by repeat constructor. Qed.

Lemma io_bind_no_spawn {A B} (m : io A) (f : A → io B) w :
  no_spawn (m w).1 → (∀ a, no_spawn (f a w).1) → no_spawn ((m ≫= f) w).1.
Proof.
  intros Hm Hf. unfold mbind, io_bind. destruct (m w) as [c1 [a|e]]; simpl in *; [|done].
  specialize (Hf a). destruct (f a w). by apply no_spawn_app.
Qed.

Ltac solve_no_spawn :=
  repeat first
    [ apply io_bind_no_spawn; [|intros ?]
    | apply syscall_no_spawn; done
    | by repeat constructor ].

Lemma begin_no_spawn id user seat ty settings w :
  no_spawn (Lifecycle.begin id user seat ty settings w).1.
Proof.
  unfold Lifecycle.begin. apply io_bind_no_spawn.
  - unfold Home.ensure_home_ready. case_match; [repeat case_match; by constructor|].
    case_decide; [|by constructor]. solve_no_spawn.
  - intros []. simpl. unfold Environment.ensure_runtime_dir. solve_no_spawn.
Qed.

Lemma terminate_no_spawn ids ss : no_spawn (Power.terminate_all ids ss).1.
Proof.
  revert ss. induction ids as [|id ids IH]; intros ss; simpl; [by constructor|].
  pose proof (terminate_session_spec id ss) as Ht.
  destruct (SessionManager.sessions ss !! id) as [c|]; rewrite Ht.
  - match goal with |- context [Power.terminate_all ids ?m] => specialize (IH m) end.
    destruct (Power.terminate_all ids _). apply no_spawn_app; [|done]. by case_match; repeat constructor.
  - specialize (IH ss). by destruct (Power.terminate_all ids ss).
Qed.

Section backends.
Context `{SerdeJson}.

(** The backend is one of the three of [PowerBackendKind::make]. *)
Definition standard_backend (d : Daemon.t) : Prop :=
  ∃ kind path, Daemon.power_backend d = PowerBackend.make kind path.

Lemma call_no_spawn b m w : no_spawn (MitosPowerBackend.call b m w).1.
Proof.
  destruct (MitosPowerBackend.call b m w) as [calls r] eqn:Hc.
  apply call_writes in Hc as [[-> _]|(line & _ & ->)]; by repeat constructor.
Qed.

Lemma make_no_spawn kind path w :
  let b := PowerBackend.make kind path in
  no_spawn (backend_suspend b w).1 ∧ no_spawn (backend_poweroff b w).1 ∧ no_spawn (backend_reboot b w).1.
Proof. destruct kind; simpl; split_and!; try apply call_no_spawn; by repeat constructor. Qed.
End backends.

Section processes.
Context `{HashOrder} `{SerdeJson} `{TomlSettings}.
Implicit Types (d : Daemon.t).

Lemma spawned_audit e d : spawned (Daemon.audit_log e d) = [].
Proof. done. Qed.

Lemma spawned_compositor ctx ev d : spawned (Daemon.send_to_compositor ctx ev d) = [].
Proof. unfold Daemon.send_to_compositor. case_match; [apply spawned_event|done]. Qed.

Lemma spawned_tell s next ev d : spawned (Daemon.transition_and_tell s next ev d).1 = [].
Proof. unfold Daemon.transition_and_tell. case_match; [apply spawned_compositor|done]. Qed.

Lemma spawned_abandoned reason l w d : spawned (Daemon.notify_all_abandoned reason l w d) = [].
Proof.
  unfold Daemon.notify_all_abandoned. induction l as [|a l IH]; simpl; [done|].
  rewrite spawned_app, IH. unfold Daemon.notify_elevation_abandoned. by autorewrite with mitos_effects.
Qed.

#[local] Hint Rewrite spawned_audit spawned_compositor spawned_tell spawned_abandoned : mitos_effects.

(** A spawn on behalf of a registered session. *)
Lemma spawned_app_for app ctx w calls r s ss f :
  Application.spawn app (SessionContext.user ctx) (SessionContext.environment ctx) w = (calls, r) →
  SessionManager.sessions ss !! s = Some ctx → same_owner f →
  all_run_for (SessionManager.update s f ss) (spawned (map Effect.Sys calls)).
Proof.
  intros Hs Hc Hf. apply all_run_for_update; [done|].
  apply spawn_cases in Hs as [(e & _ & -> & _)|(gids & cmd & _ & -> & _ & _ & _ & Hu & Hg & _ & Hh & He)].
  - constructor.
  - constructor; [|constructor]. by exists s, ctx.
Qed.

Lemma update_id s ss : SessionManager.update s (λ c, c) ss = ss.
Proof. destruct ss as [m n]. unfold SessionManager.update. simpl. by rewrite alter_id. Qed.

Lemma try_spawn_runs_for id w d :
  all_run_for (Daemon.sessions (Daemon.try_spawn_compositor id w d).2)
    (spawned (Daemon.try_spawn_compositor id w d).1).
Proof.
  unfold Daemon.try_spawn_compositor, SessionManager.get.
  destruct (SessionManager.sessions (Daemon.sessions d) !! id) as [ctx|] eqn:Hc; simpl; [|constructor].
  destruct (Launcher.spawn_compositor _ _ _ w) as [calls [child|e]] eqn:Hs; simpl.
  - by eapply spawned_app_for.
  - rewrite <- (update_id id (Daemon.sessions d)). by eapply spawned_app_for.
Qed.

Lemma create_runs_for peer name seat ty w d :
  all_run_for (Daemon.sessions (Daemon.create_session peer name seat ty w d).2)
    (spawned (Daemon.create_session peer name seat ty w d).1.1).
Proof.
  unfold Daemon.create_session. destruct (User.by_name name w) as [user|]; [|constructor].
  set (ty' := match ty with Some _ => _ | None => _ end). set (seat' := default _ seat).
  destruct (SessionManager.create_session user seat' ty' _ w _) as [[calls r] ss] eqn:Hc.
  assert (spawned (map Effect.Sys calls) = []) as Hcalls.
  { apply spawned_no_spawn. unfold SessionManager.create_session in Hc. case_match; simplify_eq; [constructor|].
    match goal with Hc : context [Lifecycle.begin ?a ?b ?c0 ?d0 ?e ?f] |- _ =>
      pose proof (begin_no_spawn a b c0 d0 e f); destruct (Lifecycle.begin a b c0 d0 e f) as [cs [ctx|e']] end;
    by simplify_eq. }
  destruct r as [id|e]; simpl; [|autorewrite with mitos_effects; rewrite Hcalls; constructor].
  case_decide; [|simpl; autorewrite with mitos_effects; rewrite Hcalls; constructor].
  match goal with |- context [Daemon.try_spawn_compositor ?i ?w ?d0] =>
    pose proof (try_spawn_runs_for i w d0) as Hf; destruct (Daemon.try_spawn_compositor i w d0) end.
  simpl in *. autorewrite with mitos_effects. by rewrite Hcalls.
Qed.

Lemma exit_runs_for pid w d :
  all_run_for (Daemon.sessions (Daemon.handle_compositor_exit pid w d).2)
    (spawned (Daemon.handle_compositor_exit pid w d).1).
Proof.
  unfold Daemon.handle_compositor_exit.
  destruct (Daemon.find_compositor pid _) as [[key ctx]|]; [|constructor].
  set (d3 := Daemon.with_sessions (SessionManager.update (SessionContext.id ctx) _ _) _). clearbody d3.
  destruct (Launcher.decide_restart _ _); [apply try_spawn_runs_for|].
  unfold SessionManager.get.
  destruct (SessionManager.sessions (Daemon.sessions d3) !! _) as [c|] eqn:Hc; simpl; [|constructor].
  destruct (Launcher.spawn_fallback_terminal _ _ w) as [calls [child|e]] eqn:Hs; simpl.
  - by eapply spawned_app_for.
  - rewrite <- (update_id (SessionContext.id ctx) (Daemon.sessions d3)). by eapply spawned_app_for.
Qed.

(** Later exits leave the sessions of earlier ones registered. *)
Lemma exit_keeps_runs_for pid w d cmds :
  all_run_for (Daemon.sessions d) cmds →
  all_run_for (Daemon.sessions (Daemon.handle_compositor_exit pid w d).2) cmds.
Proof.
  intros Hr. unfold Daemon.handle_compositor_exit.
  destruct (Daemon.find_compositor pid _) as [[key ctx]|]; [|done].
  set (d3 := Daemon.with_sessions (SessionManager.update (SessionContext.id ctx) _ _) _).
  assert (all_run_for (Daemon.sessions d3) cmds) as Hr3.
  { subst d3. simpl. apply all_run_for_update.
    { intros c. pose proof (try_transition_frame SessionState.Starting c). naive_solver. }
    destruct (SessionContext.compositor_conn ctx); by apply all_run_for_update. }
  clearbody d3. clear Hr. destruct (Launcher.decide_restart _ _).
  - unfold Daemon.try_spawn_compositor. repeat case_match; simpl in *; try done;
      repeat (apply all_run_for_update; [done|]); done.
  - repeat case_match; simpl in *; try done; by apply all_run_for_update.
Qed.

Lemma reap_runs_for statuses d :
  (∀ cmds, all_run_for (Daemon.sessions d) cmds →
     all_run_for (Daemon.sessions (Daemon.reap_children statuses d).2) cmds) ∧
  all_run_for (Daemon.sessions (Daemon.reap_children statuses d).2)
    (spawned (Daemon.reap_children statuses d).1).
Proof.
  revert d. induction statuses as [|[[] w] statuses IH]; intros d; simpl; try (split; [done|constructor]); [|done].
  pose proof (exit_runs_for pid w d) as Hx. pose proof (λ c, exit_keeps_runs_for pid w d c) as Hk.
  destruct (Daemon.handle_compositor_exit pid w d) as [es1 d1]. destruct (IH d1) as [IHk IHs].
  destruct (Daemon.reap_children statuses d1) as [es2 d2]. simpl in *. split; [naive_solver|].
  rewrite spawned_app. apply Forall_app_2; [by apply IHk|done].
Qed.

Lemma delay_no_spawn what l grace : no_spawn (Power.delay what l grace).
Proof. unfold Power.delay. case_match; by repeat constructor. Qed.

Lemma suspend_spawns_nothing w d : standard_backend d → spawned (Daemon.suspend w d).1.1 = [].
Proof.
  intros (kind & path & Hb). unfold Daemon.suspend.
  destruct (InhibitorRegistry.blocks InhibitWhat.Suspend (LockManager.inhibitors (Daemon.locks d))) eqn:Hbl.
  - by rewrite suspend_blocked.
  - edestruct suspend_effects as (log & l' & -> & Hlog); [done|]. simpl. rewrite Hlog. unfold notice. rewrite !spawned_app.
    rewrite !spawned_no_spawn; [|rewrite Hb; apply make_no_spawn|apply delay_no_spawn].
    rewrite app_nil_r, app_nil_l. generalize (SessionManager.list (Daemon.sessions d)). intros l.
    induction l as [|c l IH]; simpl; [done|]. rewrite spawned_app, IH, app_nil_r.
    case_match; [apply spawned_event|done].
Qed.

Lemma poweroff_no_spawn locks b grace w ss :
  no_spawn (backend_poweroff b w).1 → no_spawn (Power.poweroff locks b grace w ss).1.1.
Proof.
  intros Hb. unfold Power.poweroff. case_match; [constructor|].
  pose proof (terminate_no_spawn (Power.session_ids ss) ss) as Ht.
  destruct (Power.terminate_all _ ss). destruct (backend_poweroff b w).
  repeat apply no_spawn_app; try done. apply delay_no_spawn.
Qed.

Lemma reboot_no_spawn locks b grace w ss :
  no_spawn (backend_reboot b w).1 → no_spawn (Power.reboot locks b grace w ss).1.1.
Proof.
  intros Hb. unfold Power.reboot. case_match; [constructor|].
  pose proof (terminate_no_spawn (Power.session_ids ss) ss) as Ht.
  destruct (Power.terminate_all _ ss). destruct (backend_reboot b w).
  repeat apply no_spawn_app; try done. apply delay_no_spawn.
Qed.

(** The handlers that start nothing. *)
Lemma terminate_spawns_nothing peer s w d : spawned (Daemon.terminate_session peer s w d).1.1 = [].
Proof.
  unfold Daemon.terminate_session. pose proof (terminate_session_spec s (Daemon.sessions d)) as Ht.
  destruct (SessionManager.sessions (Daemon.sessions d) !! s) as [c|]; rewrite Ht; [|done].
  destruct (ElevationManager.abandon_session _ _). simpl.
  rewrite spawned_app. simpl. rewrite spawned_abandoned. by destruct (SessionContext.compositor_process c).
Qed.

Lemma lock_spawns_nothing peer s reason w d : spawned (Daemon.lock_session peer s reason w d).1.1 = [].
Proof.
  unfold Daemon.lock_session. destruct (Daemon.cannot_lock _ _ _); [done|].
  destruct (LockManager.lock _ _ _) as [[[]|e] l]; [|done].
  pose proof (spawned_tell s SessionState.Locked (Event.ShowLockScreen s reason) (Daemon.with_locks l d)) as Hf.
  destruct (Daemon.transition_and_tell _ _ _ _). simpl in *. autorewrite with mitos_effects. by rewrite Hf.
Qed.

Lemma unlock_spawns_nothing peer s u p w d es r d' :
  Daemon.unlock peer s u p w d = Done (es, r, d') → spawned es = [].
Proof.
  intros ([o l] & _ & Hu)%exec_bind_Done. destruct o; simplify_eq/=; autorewrite with mitos_effects;
    try (case_match; by rewrite ?spawned_compositor).
  pose proof (spawned_tell s SessionState.Active (Event.HideLockScreen s) (Daemon.with_locks l d)) as Hf.
  destruct (Daemon.transition_and_tell _ _ _ _). simplify_eq/=. autorewrite with mitos_effects. by rewrite Hf.
Qed.

Lemma start_spawns_nothing conn peer s action w d es r d' :
  Daemon.start_elevation conn peer s action w d = Done (es, r, d') → spawned es = [].
Proof.
  unfold Daemon.start_elevation. intros Hd. repeat case_match; simplify_eq; try done.
  apply exec_bind_Done in Hd as ([r1 e1] & _ & Hd). repeat case_match; simplify_eq; try done.
  simpl. by autorewrite with mitos_effects.
Qed.

Lemma respond_spawns_nothing peer id resp w d es r d' :
  Daemon.respond_elevation peer id resp w d = Done (es, r, d') → spawned es = [].
Proof.
  unfold Daemon.respond_elevation. intros Hu. case_match; [|by simplify_eq].
  apply exec_bind_Done in Hu as (x & _ & Hr). repeat case_match; simplify_eq; try done.
  unfold Daemon.tell_resolved. autorewrite with mitos_effects. case_match; by autorewrite with mitos_effects.
Qed.

Lemma dispatch_runs_for conn peer req w d es r d' :
  Daemon.dispatch conn peer req w d = Done (es, r, d') → standard_backend d →
  all_run_for (Daemon.sessions d') (spawned es).
Proof.
  unfold Daemon.dispatch, Daemon.replying. intros Hd Hb.
  assert (spawned es = [] → all_run_for (Daemon.sessions d') (spawned es)) as Hnone.
  { intros ->. constructor. }
  assert (∀ m, no_spawn (backend_reboot (Daemon.power_backend d) m).1 ∧
               no_spawn (backend_poweroff (Daemon.power_backend d) m).1) as Hpower.
  { destruct Hb as (kind & path & ->). intros m. split; apply make_no_spawn. }
  destruct req; try (by apply Hnone; simplify_eq).
  - pose proof (create_runs_for peer user_name seat_id session_type w d).
    by destruct (Daemon.create_session _ _ _ _ _ _) as [[? ?] ?]; simplify_eq.
  - apply Hnone. pose proof (terminate_spawns_nothing peer session_id w d).
    by destruct (Daemon.terminate_session _ _ _ _) as [[? ?] ?]; simplify_eq.
  - apply Hnone. unfold Daemon.register_compositor in Hd. repeat case_match; simplify_eq; try done.
    apply spawned_event.
  - apply Hnone. pose proof (lock_spawns_nothing peer session_id LockReason.Manual w d).
    by destruct (Daemon.lock_session _ _ _ _ _) as [[? ?] ?]; simplify_eq.
  - apply Hnone. apply exec_bind_Done in Hd as ([[es1 r1] d1] & Hu & Hd). simplify_eq. by eapply unlock_spawns_nothing.
  - apply Hnone. destruct (SeatManager.switch_active _ _ _) as [[] ss]; simplify_eq; [|done].
    case_match; [apply spawned_compositor|done].
  - apply Hnone. by destruct (LockManager.add_inhibitor _ _ _ _ _); simplify_eq.
  - apply Hnone. by destruct (LockManager.release_inhibitor _ _); simplify_eq.
  - apply Hnone. pose proof (suspend_spawns_nothing w d Hb). by destruct (Daemon.suspend w d) as [[? ?] ?]; simplify_eq.
  - apply Hnone. pose proof (reboot_no_spawn (Daemon.locks d) _ (Daemon.suspend_grace d) w (Daemon.sessions d) (proj1 (Hpower w))).
    destruct (Power.reboot _ _ _ _ _) as [[? ?] ?]. simplify_eq. by apply spawned_no_spawn.
  - apply Hnone. pose proof (poweroff_no_spawn (Daemon.locks d) _ (Daemon.suspend_grace d) w (Daemon.sessions d) (proj2 (Hpower w))).
    destruct (Power.poweroff _ _ _ _ _) as [[? ?] ?]. simplify_eq. by apply spawned_no_spawn.
  - apply Hnone. by eapply start_spawns_nothing.
  - apply Hnone. apply exec_bind_Done in Hd as ([[es1 r1] d1] & Hu & Hd). simplify_eq. by eapply respond_spawns_nothing.
Qed.

Lemma stages_spawn_nothing w changes d :
  standard_backend d → spawned (Daemon.on_stages w changes d).1 = [].
Proof.
  revert d. induction changes as [|[seat stage] changes IH]; intros d Hb; simpl; [done|].
  assert (spawned (Daemon.on_stage w seat stage d).1 = [] ∧
    Daemon.power_backend (Daemon.on_stage w seat stage d).2 = Daemon.power_backend d) as [Hs Hp].
  { unfold Daemon.on_stage. destruct stage; try done.
    - simpl. unfold Daemon.notify_active_compositor. repeat case_match; try done. split; [apply spawned_compositor|done].
    - case_match; [done|]. destruct (SeatManager.active_session _ _) as [[s|]|]; try done.
      case_match; [done|]. destruct (LockManager.lock _ _ _) as [res l]. case_match; [|done].
      split; [apply spawned_tell|].
      match goal with |- context [Daemon.transition_and_tell ?a ?b ?c ?d0] =>
        destruct (tell_frame a b c d0) as (_ & _ & _ & _ & _ & Hf) end. done.
    - pose proof (suspend_spawns_nothing w d Hb) as Hs. unfold Daemon.suspend in *.
      by destruct (Power.suspend _ _ _ _ _ _ _) as [[? ?] ?]. }
  destruct (Daemon.on_stage w seat stage d) as [es1 d1]. simpl in *.
  assert (standard_backend d1) as Hb1 by (unfold standard_backend in *; by rewrite Hp).
  specialize (IH d1 Hb1). destruct (Daemon.on_stages w changes d1). simpl in *. by rewrite spawned_app, Hs, IH.
Qed.

(** Whatever the daemon starts, it starts as the user of a session that is
    registered when it is done. *)
Lemma handle_runs_for i w d es d' :
  Daemon.handle i w d = Done (es, d') → standard_backend d → all_run_for (Daemon.sessions d') (spawned es).
Proof.
  intros Hh Hb. destruct i as [[conn peer ob|[conn peer req]|conn]| |sig statuses]; simpl in Hh.
  - simplify_eq. constructor.
  - unfold Daemon.handle_command in Hh. destruct (Policy.authorize _ _ _ _ _ _).
    + apply exec_bind_Done in Hh as ([[es1 r1] d1] & Hd & Hh). simplify_eq.
      rewrite spawned_app. apply Forall_app_2; [by eapply dispatch_runs_for|].
      case_match; [rewrite spawned_response|]; constructor.
    + simplify_eq. rewrite spawned_response. constructor.
  - unfold Daemon.disconnected in Hh. destruct (ElevationManager.abandon_connection _ _). simplify_eq.
    rewrite spawned_abandoned. constructor.
  - injection Hh as Hh. unfold Daemon.on_idle_tick in Hh. destruct (IdleDetector.tick _ _ _) as [changes idle].
    pose proof (stages_spawn_nothing w changes (Daemon.with_idle idle d) Hb) as Hs.
    destruct (Daemon.on_stages _ _ _) as [es1 d1]. destruct (ElevationManager.expire_pending _ _). simplify_eq/=.
    rewrite spawned_app, spawned_abandoned, Hs. constructor.
  - destruct (SignalEvent.classify sig) as [ev|]; injection Hh as Hh; [|simplify_eq; constructor].
    destruct ev; simpl in Hh.
    + unfold Power.graceful_shutdown in Hh. pose proof (terminate_no_spawn (Power.session_ids (Daemon.sessions d)) (Daemon.sessions d)) as Ht.
      destruct (Power.terminate_all _ _) as [kills ss]. simpl in Ht.
      assert (spawned es = []) as ->; [|constructor].
      destruct (w_exists _ _); simplify_eq/=; rewrite map_app, spawned_app, (spawned_no_spawn kills) by done; done.
    + simplify_eq. constructor.
    + pose proof (reap_runs_for statuses d) as [_ Hr]. by rewrite Hh in Hr.
Qed.
End processes.

(** ** A compositor that exits *)

Section crashes.
Context `{HashOrder} `{SerdeJson} `{TomlSettings}.
Implicit Types (d : Daemon.t).

Lemma find_compositor_Some pid ss s c :
  Daemon.find_compositor pid ss = Some (s, c) →
  SessionManager.sessions ss !! s = Some c ∧ SessionContext.compositor_process c = Some pid.
Proof.
  unfold Daemon.find_compositor. intros ([i e] & He & Heq)%fmap_Some. simpl in Heq. subst e.
  apply list_find_Some in He as (He & Hp & _). split; [|done].
  apply elem_of_hash_entries. by eapply list_elem_of_lookup_2.
Qed.

(** The number of restarts recorded after an exit: one more while the limit is
    not reached, and the same from then on. *)
Definition restarts_after (n max : N) : N := if decide (n < max)%N then u32_add n 1 else n.

(** The program an exit starts: the compositor, or the user's shell once the
    limit is reached. *)
Definition restart_program (d : Daemon.t) (c : SessionContext.t) : string :=
  if decide (SessionContext.compositor_restarts c <
             SessionSettings.max_compositor_restarts (Settings.session (Daemon.settings d)))%N
  then SessionSettings.compositor_binary (Settings.session (Daemon.settings d))
  else User.shell (SessionContext.user c).

(** The state an exit leaves the session in. *)
Definition state_after (s : SessionState.t) : SessionState.t :=
  match s with
  | SessionState.Active | SessionState.Idle | SessionState.Locked => SessionState.Starting
  | other => other
  end.

(** The context an exit leaves, with the process [child] started in place of the
    one that has gone. *)
Definition context_after d (c : SessionContext.t) (child : option Pid) : SessionContext.t :=
  SessionContext.mk (SessionContext.session c) (SessionContext.user c) (state_after (SessionContext.state c))
    (SessionContext.environment c) None child
    (restarts_after (SessionContext.compositor_restarts c)
       (SessionSettings.max_compositor_restarts (Settings.session (Daemon.settings d)))).

(** What is started in its place: nothing if the groups of the user cannot be
    resolved, otherwise one command, and the child is what starting it gives. *)
Definition restarted d (c : SessionContext.t) (w : World) (es : list Effect.t) (child : option Pid) : Prop :=
  match Groups.supplementary_gids (User.name (SessionContext.user c)) w with
  | Err _ => es = [] ∧ child = None
  | Ok gids => ∃ cmd, es = [Effect.Sys (SysCall.Spawn cmd)] ∧ cmd_program cmd = restart_program d c ∧
      cmd_args cmd = [] ∧ cmd_setgroups cmd = gids ∧ runs_for c cmd ∧
      child = match w_spawn w cmd with Ok pid => Some pid | Err _ => None end
  end.

Definition registry_after (c : SessionContext.t) (r : ConnRegistry.t) : ConnRegistry.t :=
  match SessionContext.compositor_conn c with Some conn => ConnRegistry.unregister conn r | None => r end.

(** A spawn with its result, as both branches use it. *)
Lemma spawn_restarted d c w app calls r :
  Application.spawn app (SessionContext.user c) (SessionContext.environment c) w = (calls, r) →
  Application.command app = restart_program d c → Application.args app = [] →
  restarted d c w (map Effect.Sys calls) (match r with Ok pid => Some pid | Err _ => None end).
Proof.
  unfold restarted.
  intros [(e & -> & -> & ->)|(gids & cmd & -> & -> & -> & Hp & Ha & Hu & Hg & Hgs & Hd & He)]%spawn_cases Happ Hargs;
    [done|]. exists cmd. rewrite Hp, Ha, Happ, Hargs. split_and!; try done. by destruct (w_spawn w cmd).
Qed.

Lemma gone_state c :
  SessionContext.try_transition SessionState.Starting (Daemon.compositor_gone c) =
  SessionContext.mk (SessionContext.session c) (SessionContext.user c) (state_after (SessionContext.state c))
    (SessionContext.environment c) None None (SessionContext.compositor_restarts c).
Proof. destruct c as [ss u []]; done. Qed.

(** The session filed under [s] replaced by [c]. *)
Definition with_session (s : SessionId) (c : SessionContext.t) (ss : SessionManager.t) : SessionManager.t :=
  SessionManager.mk (<[s := c]> (SessionManager.sessions ss)) (SessionManager.next_id ss).

Lemma update_with_session s f c ss :
  SessionManager.update s f (with_session s c ss) = with_session s (f c) ss.
Proof. unfold SessionManager.update, with_session. simpl. by rewrite alter_insert_eq. Qed.

Lemma with_session_id s c ss : SessionManager.sessions ss !! s = Some c → with_session s c ss = ss.
Proof. destruct ss as [m n]. unfold with_session. simpl. intros Hc. by rewrite insert_id. Qed.

(** All of what an exit does. *)
Lemma exit_spec pid w d s c :
  DaemonInv.wf d → Daemon.find_compositor pid (Daemon.sessions d) = Some (s, c) →
  let '(es, d') := Daemon.handle_compositor_exit pid w d in
  ∃ child, restarted d c w es child ∧
    d' = Daemon.with_registry (registry_after c (Daemon.registry d))
           (Daemon.with_sessions (with_session s (context_after d c child) (Daemon.sessions d)) d).
Proof.
  intros Hwf Hf. destruct (find_compositor_Some _ _ _ _ Hf) as [Hc _].
  assert (SessionContext.id c = s) as Hid by apply (DaemonInv.wf_sessions _ Hwf _ _ Hc).
  unfold Daemon.handle_compositor_exit. rewrite Hf, Hid. clear Hf.
  set (d3 := Daemon.with_sessions (SessionManager.update s (SessionContext.try_transition _) _) _).
  assert (d3 = Daemon.with_registry (registry_after c (Daemon.registry d)) (Daemon.with_sessions (with_session s
    (SessionContext.try_transition SessionState.Starting (Daemon.compositor_gone c)) (Daemon.sessions d)) d)) as ->.
  { subst d3. rewrite <- !update_with_session, with_session_id by done. unfold registry_after.
    by destruct (SessionContext.compositor_conn c), d. }
  rewrite gone_state. unfold context_after, restarts_after. simpl.
  set (max := SessionSettings.max_compositor_restarts _).
  destruct (decide (SessionContext.compositor_restarts c < max)%N) as [Hlt|Hge].
  - rewrite (proj2 (decide_restart_spec _ _) Hlt), update_with_session. simpl.
    unfold Daemon.try_spawn_compositor, SessionManager.get. simpl. rewrite lookup_insert_eq. simpl.
    destruct (Launcher.spawn_compositor _ _ _ w) as [calls r] eqn:Hsp.
    apply (spawn_restarted d c) in Hsp; [|by unfold restart_program; rewrite decide_True|done].
    destruct r; (eexists; split; [exact Hsp|]); by rewrite ?update_with_session.
  - destruct (Launcher.decide_restart _ _) eqn:Hdr; [by apply decide_restart_spec in Hdr|].
    unfold SessionManager.get. simpl. rewrite lookup_insert_eq. simpl.
    destruct (Launcher.spawn_fallback_terminal _ _ w) as [calls r] eqn:Hsp.
    apply (spawn_restarted d c) in Hsp; [|by unfold restart_program; rewrite decide_False|done].
    destruct r; (eexists; split; [exact Hsp|]); by rewrite ?update_with_session.
Qed.
End crashes.
