(* ===== verification/DaemonAudit.v ===== *)
(** * DaemonAudit: what the audit log shows of the daemon's actions

    The writer of the log (src/src/logging/audit.rs), and which changes of the
    daemon's state leave a record. *)

From stdpp Require Import base gmap strings pretty numbers list.
From S2P Require Import Prelude Errors System Config User Session Seat Auth Lock Idle Elevation.
From S2P Require Import Ipc Policy Launcher Power Daemon DaemonInv DaemonSafety DaemonPrompts.

(** ** The writer *)

(** Where a record ends up: a line of the file, or the general log, as a
    warning with the record or as an error without it. *)
Module AuditOutput.
Inductive t : Type :=
| Line (p : Path) (line : string)
| Warned (e : AuditEvent.t)
| Failed (text : string).
End AuditOutput.

Module Audit.
Section writer.
(** [serde_json::to_string] on a record. *)
Context (json : AuditEvent.t → result string string).

Definition configure_audit_log (settings : LoggingSettings.t) (AUDIT_PATH : option Path) : option Path :=
  LoggingSettings.audit_log_path settings.

Definition audit_log (AUDIT_PATH : option Path) (event : AuditEvent.t) (w : World) : AuditOutput.t :=
  match AUDIT_PATH with
  | None => AuditOutput.Warned event
  | Some path =>
      match json event with
      | Err e => AuditOutput.Failed e
      | Ok line =>
          match w_syscall w (SysCall.AppendLine path line) with
          | Ok _ => AuditOutput.Line path line
          | Err e => AuditOutput.Failed (io_text e)
          end
      end
  end.
End writer.
End Audit.

(** A record is never dropped without a path, but one whose line cannot be written
    is lost: what is logged instead does not depend on it. *)
Lemma unwritable_record_is_lost json path w err event line :
  json event = Ok line → w_syscall w (SysCall.AppendLine path line) = Err err →
  Audit.audit_log json None event w = AuditOutput.Warned event ∧
  Audit.audit_log json (Some path) event w = AuditOutput.Failed (io_text err).
Proof. unfold Audit.audit_log. by intros -> ->. Qed.

(** The records among the effects of an event. *)
Definition recorded (es : list Effect.t) (w : World) (uid : Uid) (action target outcome : string) : Prop :=
  ∃ path, Effect.Audit path
    (AuditEvent.mk (as_secs (w_system_time w)) uid action (Some target) None outcome) ∈ es.

Lemma recorded_app es1 es2 w uid action target outcome :
  recorded es1 w uid action target outcome ∨ recorded es2 w uid action target outcome →
  recorded (es1 ++ es2) w uid action target outcome.
Proof. unfold recorded. setoid_rewrite elem_of_app. naive_solver. Qed.

Lemma recorded_audit_log w uid action target outcome d :
  recorded (Daemon.audit_log (AuditEvent.with_target target (AuditEvent.new uid action outcome w)) d)
    w uid action target outcome.
Proof. eexists. apply list_elem_of_singleton. reflexivity. Qed.

Lemma recorded_within es1 es2 w uid action target outcome d :
  recorded (es1 ++ Daemon.audit_log (AuditEvent.with_target target (AuditEvent.new uid action outcome w)) d ++ es2)
    w uid action target outcome.
Proof. apply recorded_app. right. apply recorded_app. left. apply recorded_audit_log. Qed.

(** ** The sessions there are *)

Definition roster (d : Daemon.t) : gset SessionId := dom (SessionManager.sessions (Daemon.sessions d)).

(** That, and whether the loop is to end: most of what the daemon does leaves
    both as they are. *)
Definition outline (d : Daemon.t) : gset SessionId * bool := (roster d, Daemon.should_exit d).

Lemma outline_update id f d :
  outline (Daemon.with_sessions (SessionManager.update id f (Daemon.sessions d)) d) = outline d.
Proof. unfold outline, roster; simpl. by rewrite dom_alter_L. Qed.

Section rosters.
Context `{HashOrder} `{SerdeJson} `{TomlSettings}.
Implicit Types (d : Daemon.t).

Lemma tell_outline s next ev d : outline (Daemon.transition_and_tell s next ev d).2 = outline d.
Proof. unfold Daemon.transition_and_tell. case_match; [|done]. apply outline_update. Qed.

Lemma try_spawn_outline id w d : outline (Daemon.try_spawn_compositor id w d).2 = outline d.
Proof. unfold Daemon.try_spawn_compositor. repeat case_match; try done. apply outline_update. Qed.

Lemma register_outline conn s d : outline (Daemon.register_compositor conn s d).2 = outline d.
Proof.
  unfold Daemon.register_compositor. case_match; [|done].
  case_match; unfold outline, roster; simpl; by rewrite !dom_alter_L.
Qed.

Lemma suspend_outline w d : outline (Daemon.suspend w d).2 = outline d.
Proof. unfold Daemon.suspend. by destruct (Power.suspend _ _ _ _ _ _ _) as [[? ?] ?]. Qed.

Lemma lock_session_outline peer s reason w d : outline (Daemon.lock_session peer s reason w d).2 = outline d.
Proof.
  unfold Daemon.lock_session. case_match; [done|]. destruct (LockManager.lock _ _ _) as [[]]; [|done].
  match goal with |- context [Daemon.transition_and_tell ?s ?n ?e ?d0] =>
    pose proof (tell_outline s n e d0) as Ht; destruct (Daemon.transition_and_tell s n e d0) end.
  exact Ht.
Qed.

Lemma on_stages_outline w changes d : outline (Daemon.on_stages w changes d).2 = outline d.
Proof.
  revert d. induction changes as [|[seat stage] changes IH]; intros d; simpl; [done|].
  assert (outline (Daemon.on_stage w seat stage d).2 = outline d) as H1'.
  { unfold Daemon.on_stage. destruct stage; try done.
    - repeat case_match; try done. rewrite tell_outline. done.
    - pose proof (suspend_outline w d). by destruct (Daemon.suspend w d) as [[? ?] ?]. }
  destruct (Daemon.on_stage w seat stage d) as [es1 d1]. specialize (IH d1).
  destruct (Daemon.on_stages w changes d1) as [es2 d2]. simpl in *. congruence.
Qed.

Lemma idle_tick_outline w d : outline (Daemon.on_idle_tick w d).2 = outline d.
Proof.
  unfold Daemon.on_idle_tick. destruct (IdleDetector.tick _ _ _) as [changes idle].
  pose proof (on_stages_outline w changes (Daemon.with_idle idle d)) as Hs.
  destruct (Daemon.on_stages _ _ _) as [es1 d1]. simpl.
  by destruct (ElevationManager.expire_pending _ _).
Qed.

Lemma exit_outline pid w d : outline (Daemon.handle_compositor_exit pid w d).2 = outline d.
Proof.
  unfold Daemon.handle_compositor_exit.
  destruct (Daemon.find_compositor pid _) as [[key ctx]|]; [|done].
  set (d1 := Daemon.with_sessions (SessionManager.update key Daemon.compositor_gone (Daemon.sessions d)) d).
  set (d2 := match SessionContext.compositor_conn ctx with Some conn => _ | None => d1 end).
  set (d3 := Daemon.with_sessions (SessionManager.update (SessionContext.id ctx) _ (Daemon.sessions d2)) d2).
  assert (outline d3 = outline d) as Hd3.
  { subst d3. rewrite outline_update. subst d2. transitivity (outline d1); [by case_match|apply outline_update]. }
  clearbody d3. clear d1 d2. case_match.
  - by rewrite try_spawn_outline, outline_update.
  - repeat case_match; simpl; by rewrite ?outline_update.
Qed.

Lemma reap_outline statuses d : outline (Daemon.reap_children statuses d).2 = outline d.
Proof.
  revert d. induction statuses as [|[[] w] statuses IH]; intros d; simpl; try done.
  pose proof (exit_outline pid w d). destruct (Daemon.handle_compositor_exit pid w d) as [es1 d1].
  specialize (IH d1). destruct (Daemon.reap_children statuses d1) as [es2 d2]. simpl in *. congruence.
Qed.

(** ** Every change leaves a record *)

(** The events that end all sessions at once. *)
Definition ends_all (i : Daemon.input) : bool :=
  match i with
  | Daemon.Ipc (ManagerMessage.Command (ManagerCommand.mk _ _ Request.Reboot)) => true
  | Daemon.Ipc (ManagerMessage.Command (ManagerCommand.mk _ _ Request.PowerOff)) => true
  | Daemon.Signalled s _ => match SignalEvent.classify s with Some SignalEvent.Terminate => true | _ => false end
  | _ => false
  end.

(** How the table of sessions may have changed: not at all, by a login or a
    logout that is on record under the uid of the peer, or by the end of all.
    Only a termination signal also ends the loop, and the service manager is told
    first. *)
Definition accounted (i : Daemon.input) (w : World) (es : list Effect.t) (d d' : Daemon.t) : Prop :=
  outline d' = outline d ∨
  (∃ conn peer name seat ty s,
     i = Daemon.Ipc (ManagerMessage.Command (ManagerCommand.mk conn peer (Request.CreateSession name seat ty))) ∧
     outline d' = ({[s]} ∪ roster d, Daemon.should_exit d) ∧
     recorded es w (PeerCred.uid peer) "create_session" name "ok") ∨
  (∃ conn peer s,
     i = Daemon.Ipc (ManagerMessage.Command (ManagerCommand.mk conn peer (Request.TerminateSession s))) ∧
     outline d' = (roster d ∖ {[s]}, Daemon.should_exit d) ∧
     recorded es w (PeerCred.uid peer) "terminate_session" (pretty s) "ok") ∨
  (ends_all i = true ∧ roster d' ⊆ roster d ∧
   (Daemon.should_exit d' = Daemon.should_exit d ∨
    (Daemon.should_exit d' = true ∧ Effect.Sys (SysCall.SdNotify NotifyState.Stopping) ∈ es))).

Lemma create_accounted peer name seat ty w d es r d' :
  Daemon.create_session peer name seat ty w d = (es, r, d') →
  outline d' = outline d ∨
  (∃ s, outline d' = ({[s]} ∪ roster d, Daemon.should_exit d) ∧
        recorded es w (PeerCred.uid peer) "create_session" name "ok").
Proof.
  unfold Daemon.create_session. destruct (User.by_name name w); [|intros; simplify_eq; by left].
  destruct (SessionManager.create_session _ _ _ _ w _) as [[calls res] ss] eqn:Hc.
  apply create_session_cases in Hc as [(msg & -> & _ & -> & _)|(_ & _ & [(e & -> & Hss)|(-> & Hss)])].
  - intros; simplify_eq. by left.
  - intros; simplify_eq. left. unfold outline, roster; simpl. by rewrite Hss.
  - set (id := SessionManager.next_id (Daemon.sessions d)) in *.
    set (d1 := Daemon.with_seats _ _). assert (outline d1 = ({[id]} ∪ roster d, Daemon.should_exit d)) as Hd1.
    { unfold outline, roster; simpl. by rewrite Hss, dom_insert_L. }
    clearbody d1.
    match goal with |- context [if ?b then Daemon.try_spawn_compositor id w d1 else _] => destruct b end.
    + pose proof (try_spawn_outline id w d1) as Ht. destruct (Daemon.try_spawn_compositor id w d1) as [es1 d2].
      intros [= <- _ <-]. right. exists id. split; [by rewrite <- Hd1, <- Ht|].
      apply recorded_within.
    + intros [= <- _ <-]. right. exists id. split; [done|].
      apply recorded_within.
Qed.

Lemma terminate_accounted peer s w d es r d' :
  Daemon.terminate_session peer s w d = (es, r, d') →
  outline d' = outline d ∨
  (outline d' = (roster d ∖ {[s]}, Daemon.should_exit d) ∧ recorded es w (PeerCred.uid peer) "terminate_session" (pretty s) "ok").
Proof.
  unfold Daemon.terminate_session. pose proof (terminate_session_spec s (Daemon.sessions d)) as Ht.
  destruct (SessionManager.sessions (Daemon.sessions d) !! s) as [c|] eqn:Hc; rewrite Ht.
  2: { intros; simplify_eq. by left. }
  destruct (ElevationManager.abandon_session _ _) as [ab e]. intros; simplify_eq. right. split.
  - unfold outline, roster; simpl. by rewrite dom_delete_L.
  - apply recorded_within.
Qed.

Lemma terminate_all_roster ids m :
  dom (SessionManager.sessions (Power.terminate_all ids m).2) ⊆ dom (SessionManager.sessions m).
Proof.
  rewrite terminate_all_sessions. simpl. intros s. rewrite !elem_of_dom, lookup_delete_list.
  case_decide; [|done]. by intros [].
Qed.

Lemma power_roster locks b grace w m :
  dom (SessionManager.sessions (Power.poweroff locks b grace w m).2) ⊆ dom (SessionManager.sessions m) ∧
  dom (SessionManager.sessions (Power.reboot locks b grace w m).2) ⊆ dom (SessionManager.sessions m).
Proof.
  unfold Power.poweroff, Power.reboot. pose proof (terminate_all_roster (Power.session_ids m) m) as Ht.
  destruct (InhibitorRegistry.blocks _ _); [done|]. destruct (Power.terminate_all _ _) as [kills m'].
  destruct (backend_poweroff b w), (backend_reboot b w). done.
Qed.

Ltac solve_outline := simplify_eq; solve [done | unfold outline in *; simpl in *; congruence].

Lemma dispatch_accounted conn peer req w d es r d' :
  Daemon.dispatch conn peer req w d = Done (es, r, d') →
  accounted (Daemon.Ipc (ManagerMessage.Command (ManagerCommand.mk conn peer req))) w es d d'.
Proof.
  unfold Daemon.dispatch, Daemon.replying. intros Hd. destruct req; try (by (simplify_eq; left)).
  - destruct (Daemon.create_session _ _ _ _ _ _) as [[? ?] ?] eqn:Hc. simplify_eq.
    apply create_accounted in Hc as [?|(s & ? & ?)]; [by left|right; left]. eauto 10.
  - destruct (Daemon.terminate_session _ _ _ _) as [[? ?] ?] eqn:Hc. simplify_eq.
    apply terminate_accounted in Hc as [?|[? ?]]; [by left|right; right; left]. eauto 10.
  - left. pose proof (register_outline conn session_id d).
    destruct (Daemon.register_compositor _ _ _) as [[? ?] ?]. solve_outline.
  - left. pose proof (lock_session_outline peer session_id LockReason.Manual w d).
    destruct (Daemon.lock_session _ _ _ _ _) as [[? ?] ?]. solve_outline.
  - left. apply exec_bind_Done in Hd as ([[es2 r2] d2] & Hu & Hd). simplify_eq.
    unfold Daemon.unlock in Hu. apply exec_bind_Done in Hu as ([o l] & _ & Hu).
    destruct o; try solve_outline.
    match type of Hu with context [Daemon.transition_and_tell ?s ?n ?e ?d0] =>
      pose proof (tell_outline s n e d0 : _ = outline d) as Ht; destruct (Daemon.transition_and_tell s n e d0) end.
    solve_outline.
  - left. destruct (SeatManager.switch_active _ _ _) as [[] ss]; solve_outline.
  - left. destruct (LockManager.add_inhibitor _ _ _ _ _). solve_outline.
  - left. destruct (LockManager.release_inhibitor _ _). solve_outline.
  - left. pose proof (suspend_outline w d). destruct (Daemon.suspend w d) as [[? ?] ?]. solve_outline.
  - do 3 right. split; [done|].
    match type of Hd with context [Power.reboot ?l ?b ?g w ?m] =>
      destruct (power_roster l b g w m) as [_ Hp]; destruct (Power.reboot l b g w m) as [[? ?] ?] end.
    simplify_eq. auto.
  - do 3 right. split; [done|].
    match type of Hd with context [Power.poweroff ?l ?b ?g w ?m] =>
      destruct (power_roster l b g w m) as [Hp _]; destruct (Power.poweroff l b g w m) as [[? ?] ?] end.
    simplify_eq. auto.
  - left. unfold Daemon.start_elevation in Hd.
    repeat case_match; simplify_eq; try done. apply exec_bind_Done in Hd as ([r1 e1] & _ & Hd).
    repeat case_match; solve_outline.
  - left. apply exec_bind_Done in Hd as ([[es1 r1] d1] & Hr & Hd). simplify_eq.
    unfold Daemon.respond_elevation in Hr. case_match; [|solve_outline].
    apply exec_bind_Done in Hr as (x & _ & Hr). repeat case_match; solve_outline.
Qed.

Lemma accounted_app i w es1 es2 d d' : accounted i w es1 d d' → accounted i w (es1 ++ es2) d d'.
Proof.
  assert (∀ uid a t o, recorded es1 w uid a t o → recorded (es1 ++ es2) w uid a t o) as Happ.
  { intros. apply recorded_app. by left. }
  intros [?|[(?&?&?&?&?&?&?&?&?)|[(?&?&?&?&?&?)|(?&?&Hx)]]];
    [by left|right; left; eauto 12|do 2 right; left; eauto 12|do 3 right; split_and!; set_solver].
Qed.

Lemma handle_accounted i w d es d' : Daemon.handle i w d = Done (es, d') → accounted i w es d d'.
Proof.
  intros Hh. destruct i as [[conn peer ob|[conn peer req]|conn]| |sig statuses]; simpl in Hh.
  - simplify_eq. by left.
  - unfold Daemon.handle_command in Hh. simpl in Hh.
    destruct (Policy.authorize _ _ _ _ _ _) as [[]|e]; [|simplify_eq; by left].
    apply exec_bind_Done in Hh as ([[es1 r1] d1] & Hd & Hh). simplify_eq.
    by eapply accounted_app, dispatch_accounted.
  - left. unfold Daemon.disconnected in Hh.
    destruct (ElevationManager.abandon_connection _ _). simplify_eq. unfold outline, roster; simpl. by rewrite dom_fmap_L.
  - left. injection Hh as Hh. pose proof (idle_tick_outline w d) as Ht. by rewrite Hh in Ht.
  - destruct (SignalEvent.classify sig) as [[]|] eqn:Hsig; injection Hh as Hh; simpl in Hh.
    + do 3 right. split; [simpl; by rewrite Hsig|]. unfold Power.graceful_shutdown in Hh.
      match type of Hh with context [Power.terminate_all ?ids ?m] =>
        pose proof (terminate_all_roster ids m); destruct (Power.terminate_all ids m) end.
      repeat case_match; simplify_eq; (split; [done|]); right; (split; [done|]); left.
    + left. simplify_eq. unfold Daemon.reload_config. by case_match.
    + left. pose proof (reap_outline statuses d) as Ht. by rewrite Hh in Ht.
    + left. by simplify_eq.
Qed.

(** The outcome of a password a message carries. *)
Definition outcome_told (m : Message.t) : option AuthOutcome.t :=
  match m with
  | Message.Response (Response.AuthResult o)
  | Message.Event (Event.AuthFeedback _ o)
  | Message.Event (Event.ElevationFeedback _ o) => Some o
  | _ => None
  end.

(** The only outcome anybody is told is [o]. *)
Definition tells_only (o : AuthOutcome.t) (es : list Effect.t) : Prop :=
  Forall (λ e, match e with Effect.Sent _ m => outcome_told m = None ∨ outcome_told m = Some o | _ => True end) es.

(** The effects end with the record of [o]. *)
Definition ends_recorded (w : World) (uid : Uid) (action : string) (o : AuthOutcome.t) (es : list Effect.t) : Prop :=
  ∃ told path target, tells_only o told ∧
    es = told ++ [Effect.Audit path
      (AuditEvent.mk (as_secs (w_system_time w)) uid action (Some target) None (AuthOutcome.debug o))].

Lemma tells_only_send o c m r :
  outcome_told m = None ∨ outcome_told m = Some o → tells_only o (ConnRegistry.send c m r).
Proof. intros Hm. unfold ConnRegistry.send. case_match; [by apply Forall_singleton|constructor]. Qed.

Lemma tells_only_compositor o ctx ev d :
  outcome_told (Message.Event ev) = None ∨ outcome_told (Message.Event ev) = Some o →
  tells_only o (Daemon.send_to_compositor ctx ev d).
Proof. intros Hm. unfold Daemon.send_to_compositor. case_match; [by apply tells_only_send|constructor]. Qed.

(** An attempt to unlock is on record with its outcome, the last thing before the
    reply. *)
Lemma unlock_recorded peer s u p w d es r d' :
  Daemon.unlock peer s u p w d = Done (es, r, d') →
  ∃ o, r = Response.AuthResult o ∧ ends_recorded w (PeerCred.uid peer) "unlock_attempt" o es.
Proof.
  unfold Daemon.unlock. intros ([o l] & _ & Hu)%exec_bind_Done. exists o.
  match type of Hu with (let (_, _) := ?x in _) = _ =>
    assert (tells_only o x.1) as Ht; [|destruct x as [sent d1]] end.
  { clear Hu. unfold Daemon.transition_and_tell.
    destruct o; simpl; case_match; try constructor; apply tells_only_compositor; (by left) || by right. }
  simplify_eq. split; [done|]. by eexists _, _, _.
Qed.

(** So is an answer to a prompt, unless there is nothing to tell. *)
Lemma respond_recorded peer id resp w d es r d' :
  Daemon.respond_elevation peer id resp w d = Done (es, r, d') →
  (es = [] ∧ ∃ msg, r = Response.Error msg) ∨
  ∃ o, r = Response.AuthResult o ∧ ends_recorded w (PeerCred.uid peer) "elevation_response" o es.
Proof.
  unfold Daemon.respond_elevation. case_match; [|intros; simplify_eq; left; eauto].
  intros (x & _ & Hr)%exec_bind_Done. repeat case_match; simplify_eq; try (left; by eauto).
  right. eexists. split; [done|]. eexists _, _, _. split; [|done]. unfold Daemon.tell_resolved.
  apply Forall_app_2; [apply tells_only_send; by right|]. case_match; [|constructor].
  apply Forall_app_2; apply tells_only_send; [by left|by right].
Qed.

(** The two requests that carry a password, and the action they are logged as. *)
Definition password_action (req : Request.t) : option string :=
  match req with
  | Request.Unlock _ _ _ => Some "unlock_attempt"
  | Request.RespondElevation _ _ => Some "elevation_response"
  | _ => None
  end.

Lemma password_recorded conn peer req action w d es d' :
  Daemon.handle (Daemon.Ipc (ManagerMessage.Command (ManagerCommand.mk conn peer req))) w d = Done (es, d') →
  password_action req = Some action →
  (∃ msg, es = ConnRegistry.send_response conn (Response.Error msg) (Daemon.registry d')) ∨
  ∃ o es0, es = es0 ++ ConnRegistry.send_response conn (Response.AuthResult o) (Daemon.registry d') ∧
    ends_recorded w (PeerCred.uid peer) action o es0.
Proof.
  simpl. unfold Daemon.handle_command. simpl. intros Hh Hact.
  destruct (Policy.authorize _ _ _ _ _ _) as [[]|e]; [|simplify_eq; left; by eexists].
  apply exec_bind_Done in Hh as ([[es1 r1] d1] & Hd & Hh). simplify_eq.
  destruct req; try done; simpl in Hd; apply exec_bind_Done in Hd as ([[es2 r2] d2] & Hu & Hd);
    unfold Daemon.replying in Hd; simplify_eq/=.
  - apply unlock_recorded in Hu as (o & -> & Ho). right. by eexists _, _.
  - apply respond_recorded in Hu as [(-> & msg & ->)|(o & -> & Ho)]; [left; by exists msg|right; by eexists _, _].
Qed.
End rosters.
