(* ===== verification/DaemonStates.v ===== *)
(** * DaemonStates: the states the sessions of the daemon are in

    The transition table of src/src/session/state.rs has six states.  A session
    in the table of the daemon is only ever in three of them. *)

From stdpp Require Import base gmap strings pretty numbers list relations.
From S2P Require Import Prelude Errors System Config User Session Seat Auth Lock Idle Elevation.
From S2P Require Import Ipc Policy Launcher Power Daemon DaemonInv DaemonSafety.

(** The states a registered session is found in. *)
Definition in_use (s : SessionState.t) : bool :=
  match s with
  | SessionState.Starting | SessionState.Active | SessionState.Locked => true
  | SessionState.Idle | SessionState.Closing | SessionState.Closed => false
  end.

Definition all_in_use (ss : SessionManager.t) : Prop :=
  map_Forall (λ _ c, in_use (SessionContext.state c) = true) (SessionManager.sessions ss).

(** An edit that keeps a session in those states. *)
Definition stays_in_use (f : SessionContext.t → SessionContext.t) : Prop :=
  ∀ c, in_use (SessionContext.state c) = true → in_use (SessionContext.state (f c)) = true.

Lemma transition_stays next : in_use next = true → stays_in_use (SessionContext.try_transition next).
Proof. intros Hn c Hc. rewrite try_transition_state. by case_match. Qed.

Lemma update_in_use id f ss : stays_in_use f → all_in_use ss → all_in_use (SessionManager.update id f ss).
Proof.
  intros Hf Hss t c. simpl. rewrite lookup_alter. case_decide; [subst|apply Hss].
  intros (x & Hx & ->)%fmap_Some. by eapply Hf, Hss.
Qed.

Lemma subset_in_use ss ss' :
  SessionManager.sessions ss' ⊆ SessionManager.sessions ss → all_in_use ss → all_in_use ss'.
Proof. intros Hs Hss t c Ht. eapply Hss, lookup_weaken; [exact Ht|done]. Qed.

#[local] Hint Resolve transition_stays update_in_use : mitos.
#[local] Hint Extern 1 (stays_in_use _) => (intros ? ?; assumption) : mitos.

Section states.
Context `{HashOrder} `{SerdeJson} `{TomlSettings}.
Implicit Types (d : Daemon.t).

Lemma tell_in_use s next e d :
  in_use next = true → all_in_use (Daemon.sessions d) →
  all_in_use (Daemon.sessions (Daemon.transition_and_tell s next e d).2).
Proof. intros Hn Hd. unfold Daemon.transition_and_tell. case_match; simpl; auto with mitos. Qed.

Lemma spawn_in_use id w d :
  all_in_use (Daemon.sessions d) → all_in_use (Daemon.sessions (Daemon.try_spawn_compositor id w d).2).
Proof. intros Hd. unfold Daemon.try_spawn_compositor. repeat case_match; simpl; auto with mitos. Qed.

Lemma terminate_all_in_use ids ss : all_in_use ss → all_in_use (Power.terminate_all ids ss).2.
Proof.
  apply subset_in_use. rewrite terminate_all_sessions. simpl. apply map_subseteq_spec. intros s ctx.
  rewrite lookup_delete_list. by case_decide.
Qed.

Lemma create_in_use peer name seat ty w d :
  all_in_use (Daemon.sessions d) →
  all_in_use (Daemon.sessions (Daemon.create_session peer name seat ty w d).2).
Proof.
  intros Hd. unfold Daemon.create_session. destruct (User.by_name name w); [|done].
  destruct (SessionManager.create_session _ _ _ _ _ _) as [[calls res] ss] eqn:Hc.
  assert (all_in_use ss) as Hss.
  { unfold all_in_use. apply create_session_cases in Hc as [(msg & _ & _ & -> & _)|(_ & _ & [(e & _ & ->)|(_ & ->)])];
      [done..|]. by apply map_Forall_insert_2. }
  destruct res as [id|e]; [|done]. case_decide; [|done].
  match goal with |- context [Daemon.try_spawn_compositor ?i ?w ?d0] =>
    pose proof (spawn_in_use i w d0) as Hf; destruct (Daemon.try_spawn_compositor i w d0) end.
  by apply Hf.
Qed.

Lemma exit_in_use pid w d :
  all_in_use (Daemon.sessions d) → all_in_use (Daemon.sessions (Daemon.handle_compositor_exit pid w d).2).
Proof.
  intros Hd. unfold Daemon.handle_compositor_exit. destruct (Daemon.find_compositor pid _) as [[key ctx]|]; [|done].
  set (d3 := Daemon.with_sessions (SessionManager.update (SessionContext.id ctx) _ _) _).
  assert (all_in_use (Daemon.sessions d3)) as H3.
  { subst d3. simpl. apply update_in_use; [auto with mitos|].
    destruct (SessionContext.compositor_conn ctx); simpl; auto with mitos. }
  clearbody d3. destruct (Launcher.decide_restart _ _).
  - apply spawn_in_use. simpl. auto with mitos.
  - repeat case_match; simpl; auto with mitos.
Qed.

Lemma reap_in_use statuses d :
  all_in_use (Daemon.sessions d) → all_in_use (Daemon.sessions (Daemon.reap_children statuses d).2).
Proof.
  revert d. induction statuses as [|[[] w] statuses IH]; intros d Hd; simpl; auto.
  pose proof (exit_in_use pid w d Hd) as Hx. destruct (Daemon.handle_compositor_exit pid w d) as [es1 d1].
  specialize (IH d1 Hx). by destruct (Daemon.reap_children statuses d1).
Qed.

Lemma stages_in_use w changes d :
  all_in_use (Daemon.sessions d) → all_in_use (Daemon.sessions (Daemon.on_stages w changes d).2).
Proof.
  revert d. induction changes as [|[seat stage] changes IH]; intros d Hd; simpl; [done|].
  assert (all_in_use (Daemon.sessions (Daemon.on_stage w seat stage d).2)) as H1'.
  { unfold Daemon.on_stage. destruct stage; try done.
    - repeat case_match; try done. by apply tell_in_use.
    - destruct (Daemon.suspend w d) as [[es r] d'] eqn:Hs. simpl. by destruct (suspend_quiet w d _ _ _ Hs) as [-> _]. }
  destruct (Daemon.on_stage w seat stage d) as [es1 d1]. specialize (IH d1 H1').
  by destruct (Daemon.on_stages w changes d1).
Qed.

Lemma register_in_use conn s d :
  all_in_use (Daemon.sessions d) → all_in_use (Daemon.sessions (Daemon.register_compositor conn s d).2).
Proof. intros Hd. unfold Daemon.register_compositor. repeat case_match; simpl; auto 6 with mitos. Qed.

Lemma lock_in_use peer s reason w d :
  all_in_use (Daemon.sessions d) → all_in_use (Daemon.sessions (Daemon.lock_session peer s reason w d).2).
Proof.
  intros Hd. unfold Daemon.lock_session. case_match; [done|]. destruct (LockManager.lock _ _ _) as [[[]|e] l]; [|done].
  pose proof (tell_in_use s SessionState.Locked (Event.ShowLockScreen s reason) (Daemon.with_locks l d) eq_refl Hd).
  by destruct (Daemon.transition_and_tell _ _ _ _).
Qed.

Lemma unlock_in_use peer s u p w d es r d' :
  Daemon.unlock peer s u p w d = Done (es, r, d') →
  all_in_use (Daemon.sessions d) → all_in_use (Daemon.sessions d').
Proof.
  unfold Daemon.unlock. intros ([o l] & _ & Hu)%exec_bind_Done Hd.
  pose proof (tell_in_use s SessionState.Active (Event.HideLockScreen s) (Daemon.with_locks l d) eq_refl Hd).
  destruct o; simplify_eq/=; try done. destruct (Daemon.transition_and_tell _ _ _ _). by simplify_eq.
Qed.

Lemma power_in_use locks b grace w ss :
  all_in_use ss →
  all_in_use (Power.poweroff locks b grace w ss).2 ∧ all_in_use (Power.reboot locks b grace w ss).2.
Proof.
  unfold Power.poweroff, Power.reboot. intros Hss.
  pose proof (terminate_all_in_use (Power.session_ids ss) ss Hss) as Ht.
  destruct (InhibitorRegistry.blocks _ _); [done|]. destruct (Power.terminate_all _ _) as [kills m'].
  by destruct (backend_poweroff b w), (backend_reboot b w).
Qed.

Lemma dispatch_in_use conn peer req w d es r d' :
  Daemon.dispatch conn peer req w d = Done (es, r, d') →
  all_in_use (Daemon.sessions d) → all_in_use (Daemon.sessions d').
Proof.
  unfold Daemon.dispatch, Daemon.replying. intros Hd Hu. destruct req; try (by simplify_eq).
  - pose proof (create_in_use peer user_name seat_id session_type w d Hu).
    by destruct (Daemon.create_session _ _ _ _ _ _) as [[? ?] ?]; simplify_eq.
  - unfold Daemon.terminate_session, SessionManager.terminate_session in Hd.
    destruct (SessionManager.sessions (Daemon.sessions d) !! session_id); simpl in Hd; [|by simplify_eq].
    destruct (ElevationManager.abandon_session _ _). simplify_eq. eapply subset_in_use, Hu. apply delete_subseteq.
  - pose proof (register_in_use conn session_id d Hu).
    by destruct (Daemon.register_compositor _ _ _) as [[? ?] ?]; simplify_eq.
  - pose proof (lock_in_use peer session_id LockReason.Manual w d Hu).
    by destruct (Daemon.lock_session _ _ _ _ _) as [[? ?] ?]; simplify_eq.
  - apply exec_bind_Done in Hd as ([[es1 r1] d1] & Hx & Hd). simplify_eq. by eapply unlock_in_use.
  - by destruct (SeatManager.switch_active _ _ _) as [[] ss]; simplify_eq.
  - by destruct (LockManager.add_inhibitor _ _ _ _ _); simplify_eq.
  - by destruct (LockManager.release_inhibitor _ _); simplify_eq.
  - destruct (Daemon.suspend w d) as [[es0 r0] d0] eqn:Hs. simplify_eq.
    by destruct (suspend_quiet w d _ _ _ Hs) as [-> _].
  - pose proof (power_in_use (Daemon.locks d) (Daemon.power_backend d) (Daemon.suspend_grace d) w _ Hu) as [_ Hp].
    by destruct (Power.reboot _ _ _ _ _) as [[? ?] ?]; simplify_eq.
  - pose proof (power_in_use (Daemon.locks d) (Daemon.power_backend d) (Daemon.suspend_grace d) w _ Hu) as [Hp _].
    by destruct (Power.poweroff _ _ _ _ _) as [[? ?] ?]; simplify_eq.
  - unfold Daemon.start_elevation in Hd. repeat case_match; simplify_eq; try done.
    apply exec_bind_Done in Hd as ([r1 e1] & _ & Hd). by repeat case_match; simplify_eq.
  - apply exec_bind_Done in Hd as ([[es1 r1] d1] & Hx & Hd). simplify_eq. unfold Daemon.respond_elevation in Hx.
    case_match; [|by simplify_eq]. apply exec_bind_Done in Hx as (x & _ & Hr). by repeat case_match; simplify_eq.
Qed.

(** Any event. *)
Lemma handle_in_use i w d es d' :
  Daemon.handle i w d = Done (es, d') → all_in_use (Daemon.sessions d) → all_in_use (Daemon.sessions d').
Proof.
  intros Hh Hu. destruct i as [[conn peer ob|[conn peer req]|conn]| |sig statuses]; simpl in Hh.
  - by simplify_eq.
  - unfold Daemon.handle_command in Hh. destruct (Policy.authorize _ _ _ _ _ _); [|by simplify_eq].
    apply exec_bind_Done in Hh as ([[es1 r1] d1] & Hd & Hh). simplify_eq. by eapply dispatch_in_use.
  - unfold Daemon.disconnected in Hh. destruct (ElevationManager.abandon_connection _ _). simplify_eq/=.
    intros s c. simpl. rewrite lookup_fmap. intros (c0 & Hc & ->)%fmap_Some. unfold Daemon.clear_conn.
    case_decide; exact (Hu _ _ Hc).
  - injection Hh as Hh. unfold Daemon.on_idle_tick in Hh. destruct (IdleDetector.tick _ _ _) as [changes idle].
    pose proof (stages_in_use w changes (Daemon.with_idle idle d) Hu) as Hs.
    destruct (Daemon.on_stages _ _ _) as [es1 d1]. destruct (ElevationManager.expire_pending _ _). by simplify_eq.
  - destruct (SignalEvent.classify sig) as [[]|]; injection Hh as Hh; simpl in Hh.
    + unfold Power.graceful_shutdown in Hh.
      pose proof (terminate_all_in_use (Power.session_ids (Daemon.sessions d)) _ Hu).
      destruct (Power.terminate_all _ _). by repeat case_match; simplify_eq.
    + simplify_eq. unfold Daemon.reload_config. by case_match.
    + pose proof (reap_in_use statuses d Hu) as Hr. by rewrite Hh in Hr.
    + by simplify_eq.
Qed.

(** Any run from the start: the table is empty then. *)
Lemma run_in_use batches d es d' :
  Daemon.run batches d = Done (es, d') → all_in_use (Daemon.sessions d) → all_in_use (Daemon.sessions d').
Proof.
  assert (∀ l d es d', Daemon.handle_all l d = Done (es, d') →
    all_in_use (Daemon.sessions d) → all_in_use (Daemon.sessions d')) as Hall.
  { induction l as [|[i w] l IH]; intros d0 es0 d0'; simpl; [by intros; simplify_eq|].
    intros ([es1 d1] & Hi & Hl)%exec_bind_Done Hu. apply exec_bind_Done in Hl as ([es2 d2] & Hl & ?). simplify_eq.
    by eapply IH, handle_in_use. }
  revert d es d'. induction batches as [|l batches IH]; intros d es d'; simpl; [by intros; simplify_eq|].
  destruct (Daemon.should_exit d); [by intros; simplify_eq|].
  intros ([es1 d1] & Hi & Hl)%exec_bind_Done Hu. apply exec_bind_Done in Hl as ([es2 d2] & Hl & ?). simplify_eq.
  by eapply IH, Hall.
Qed.

Lemma start_in_use path udev w d : Daemon.start path udev w = Ok d → all_in_use (Daemon.sessions d).
Proof.
  unfold Daemon.start. destruct (Config.load _ _ _) as [s|]; [|done]. simpl. intros Hd.
  assert (Daemon.sessions d = SessionManager.new) as -> by by destruct (Device.enumerate udev); simplify_eq.
  apply map_Forall_empty.
Qed.
End states.
