(* ===== verification/DaemonReplies.v ===== *)
(** * DaemonReplies: every request is accounted for

    A request is answered in the event that handles it, or opens a prompt, which
    is answered in the event that closes it.  So across any event the replies a
    connection is sent and the prompts it is still owed an answer for add up to
    what it was owed before and what it has asked for now.  Also: messages only
    go to connections the registry knows. *)

From stdpp Require Import base gmap strings pretty numbers list.
From S2P Require Import Prelude Errors System Config User Session Seat Auth Lock Idle Elevation.
From S2P Require Import Ipc Policy Launcher Power Daemon DaemonInv DaemonSafety DaemonPrompts.

(** ** Who is sent anything *)

(** Everything sent goes to a connection of [r]. *)
Definition known (r : ConnRegistry.t) (es : list Effect.t) : Prop :=
  Forall (λ e, match e with
               | Effect.Sent c _ => is_Some (ConnRegistry.outboxes r !! c)
               | _ => True
               end) es.

Lemma known_app r es1 es2 : known r (es1 ++ es2) ↔ known r es1 ∧ known r es2.
Proof. apply Forall_app. Qed.

Lemma known_nil r : known r [].
Proof. constructor. Qed.

Lemma known_sys r (l : list SysCall.t) : known r (map Effect.Sys l).
Proof. by induction l; constructor. Qed.

Lemma known_audit r a d : known r (Daemon.audit_log a d).
Proof. by repeat constructor. Qed.

Lemma known_send c m r : known r (ConnRegistry.send c m r).
Proof. unfold ConnRegistry.send. case_match eqn:Hc; repeat constructor. by eexists. Qed.

Lemma known_event c e r : known r (ConnRegistry.send_event c e r).
Proof. apply known_send. Qed.

Lemma known_response c x r : known r (ConnRegistry.send_response c x r).
Proof. apply known_send. Qed.

Lemma known_concat r {A} (f : A → list Effect.t) l : (∀ x, known r (f x)) → known r (concat (map f l)).
Proof. intros Hf. induction l as [|x l IH]; [constructor|]. by apply known_app. Qed.

Lemma known_subset r r' es :
  (∀ c, is_Some (ConnRegistry.outboxes r !! c) → is_Some (ConnRegistry.outboxes r' !! c)) →
  known r es → known r' es.
Proof. intros Hr Hk. eapply Forall_impl; [exact Hk|]. intros [|c m|]; auto. Qed.

#[local] Hint Resolve known_nil known_sys known_audit known_event known_response : mitos.
#[local] Hint Extern 1 (known _ (_ ++ _)) => apply known_app; split : mitos.
#[local] Hint Extern 1 (known _ (_ :: _)) => constructor; [exact I|] : mitos.

Section known.
Context `{HashOrder} `{SerdeJson} `{TomlSettings}.
Implicit Types (d : Daemon.t).

Lemma known_compositor ctx ev d : known (Daemon.registry d) (Daemon.send_to_compositor ctx ev d).
Proof. unfold Daemon.send_to_compositor. case_match; auto with mitos. Qed.

Lemma known_tell s next ev d : known (Daemon.registry d) (Daemon.transition_and_tell s next ev d).1.
Proof. unfold Daemon.transition_and_tell. case_match; [apply known_compositor|apply known_nil]. Qed.

Lemma known_abandoned reason l w d : known (Daemon.registry d) (Daemon.notify_all_abandoned reason l w d).
Proof. apply known_concat. intros a. unfold Daemon.notify_elevation_abandoned. auto with mitos. Qed.

Lemma known_try_spawn r id w d : known r (Daemon.try_spawn_compositor id w d).1.
Proof. unfold Daemon.try_spawn_compositor. repeat case_match; simpl; auto with mitos. Qed.

Lemma known_suspend w d : known (Daemon.registry d) (Daemon.suspend w d).1.1.
Proof.
  unfold Daemon.suspend. destruct (InhibitorRegistry.blocks InhibitWhat.Suspend
    (LockManager.inhibitors (Daemon.locks d))) eqn:Hb.
  - rewrite suspend_blocked by done. apply known_nil.
  - edestruct suspend_effects as (log & l' & -> & Hlog); [done|]. simpl. rewrite Hlog. unfold notice. rewrite !known_app.
    split_and!; auto with mitos. apply known_concat. intros c. case_match; auto with mitos.
Qed.

#[local] Hint Resolve known_compositor known_tell known_abandoned known_try_spawn known_suspend : mitos.

Lemma known_create peer name seat ty w d : known (Daemon.registry d) (Daemon.create_session peer name seat ty w d).1.1.
Proof.
  unfold Daemon.create_session. destruct (User.by_name name w); simpl; [|auto with mitos].
  destruct (SessionManager.create_session _ _ _ _ _ _) as [[calls [id|e]] ss]; simpl; [|auto with mitos].
  case_decide; simpl; [|auto 10 with mitos].
  match goal with |- context [Daemon.try_spawn_compositor ?i ?w ?d0] =>
    pose proof (known_try_spawn (Daemon.registry d) i w d0) as Hf; destruct (Daemon.try_spawn_compositor i w d0) end.
  simpl in *. auto with mitos.
Qed.

Lemma known_lock peer s reason w d : known (Daemon.registry d) (Daemon.lock_session peer s reason w d).1.1.
Proof.
  unfold Daemon.lock_session. case_match; [apply known_nil|].
  destruct (LockManager.lock _ _ _) as [[[]|e] l]; [|apply known_nil].
  pose proof (known_tell s SessionState.Locked (Event.ShowLockScreen s reason) (Daemon.with_locks l d)) as Hf.
  destruct (Daemon.transition_and_tell _ _ _ _). simpl in *. auto with mitos.
Qed.

Lemma known_unlock peer s u p w d es r d' :
  Daemon.unlock peer s u p w d = Done (es, r, d') → known (Daemon.registry d) es.
Proof.
  unfold Daemon.unlock. intros ([o l] & _ & Hu)%exec_bind_Done.
  pose proof (known_tell s SessionState.Active (Event.HideLockScreen s) (Daemon.with_locks l d)) as Hf.
  pose proof (λ ctx ev, known_compositor ctx ev (Daemon.with_locks l d)) as Hc.
  destruct o; simplify_eq/=; try (apply known_app; split; [case_match|]; auto with mitos).
  destruct (Daemon.transition_and_tell _ _ _ _). simplify_eq/=. auto with mitos.
Qed.

Lemma known_start conn peer s action w d es r d' :
  Daemon.start_elevation conn peer s action w d = Done (es, r, d') → known (Daemon.registry d) es.
Proof.
  unfold Daemon.start_elevation. intros Hs. repeat case_match; simplify_eq; auto with mitos.
  apply exec_bind_Done in Hs as ([r1 e1] & _ & Hs). repeat case_match; simplify_eq; auto with mitos.
  constructor; [exact I|apply known_event].
Qed.

Lemma known_respond peer id resp w d es r d' :
  Daemon.respond_elevation peer id resp w d = Done (es, r, d') → known (Daemon.registry d) es.
Proof.
  unfold Daemon.respond_elevation. destruct (ElevationManager.peek _ _); [|intros; simplify_eq; auto with mitos].
  intros (x & _ & Hr)%exec_bind_Done. repeat case_match; simplify_eq; auto with mitos.
  apply known_app. split; [|auto with mitos]. unfold Daemon.tell_resolved. simpl.
  apply known_app. split; [auto with mitos|]. case_match; auto with mitos.
Qed.

Lemma known_terminate peer s w d : known (Daemon.registry d) (Daemon.terminate_session peer s w d).1.1.
Proof.
  unfold Daemon.terminate_session. destruct (SessionManager.terminate_session _ _) as [[calls [|]] ss]; simpl; [|auto with mitos].
  destruct (ElevationManager.abandon_session _ _) as [ab e]. simpl.
  pose proof (known_abandoned "session ended" ab w (Daemon.with_elevation e (Daemon.with_seats
    (SeatManager.detach_session s (Daemon.seats d)) (Daemon.with_sessions ss d)))). auto with mitos.
Qed.

Lemma known_dispatch conn peer req w d es r d' :
  Daemon.dispatch conn peer req w d = Done (es, r, d') → known (Daemon.registry d) es.
Proof.
  unfold Daemon.dispatch, Daemon.replying. intros Hd. destruct req; try (simplify_eq; auto with mitos; fail).
  - pose proof (known_create peer user_name seat_id session_type w d).
    by destruct (Daemon.create_session _ _ _ _ _ _) as [[? ?] ?]; simplify_eq.
  - pose proof (known_terminate peer session_id w d).
    by destruct (Daemon.terminate_session _ _ _ _) as [[? ?] ?]; simplify_eq.
  - unfold Daemon.register_compositor in Hd. repeat case_match; simplify_eq/=; auto with mitos.
  - pose proof (known_lock peer session_id LockReason.Manual w d).
    by destruct (Daemon.lock_session _ _ _ _ _) as [[? ?] ?]; simplify_eq.
  - apply exec_bind_Done in Hd as ([[es1 r1] d1] & Hu & Hd). simplify_eq. by eapply known_unlock.
  - destruct (SeatManager.switch_active _ _ _) as [[] ss]; simplify_eq; [|auto with mitos].
    case_match; [|auto with mitos]. apply (known_compositor _ _ (Daemon.with_seats ss d)).
  - destruct (LockManager.add_inhibitor _ _ _ _ _); simplify_eq; auto with mitos.
  - destruct (LockManager.release_inhibitor _ _); simplify_eq; auto with mitos.
  - pose proof (known_suspend w d). by destruct (Daemon.suspend w d) as [[? ?] ?]; simplify_eq.
  - destruct (Power.reboot _ _ _ _ _) as [[? ?] ?]; simplify_eq; auto with mitos.
  - destruct (Power.poweroff _ _ _ _ _) as [[? ?] ?]; simplify_eq; auto with mitos.
  - by eapply known_start.
  - apply exec_bind_Done in Hd as ([[es1 r1] d1] & Hu & Hd). simplify_eq. by eapply known_respond.
Qed.

Lemma dispatch_registry conn peer req w d es r d' :
  Daemon.dispatch conn peer req w d = Done (es, r, d') → Daemon.registry d' = Daemon.registry d.
Proof.
  intros Hd. destruct (about_prompts req) eqn:Hreq; [|by eapply dispatch_elevation_frame].
  unfold Daemon.dispatch, Daemon.replying in Hd. destruct req; try done.
  - unfold Daemon.terminate_session in Hd. repeat case_match; by simplify_eq.
  - by apply start_elevation_cases in Hd as [? _].
  - apply exec_bind_Done in Hd as ([[es1 r1] d1] & Hu & Hd). simplify_eq. unfold Daemon.respond_elevation in Hu.
    destruct (ElevationManager.peek _ _); [|by simplify_eq]. apply exec_bind_Done in Hu as (x & _ & Hu).
    repeat case_match; by simplify_eq.
Qed.

Lemma known_stages w changes d : known (Daemon.registry d) (Daemon.on_stages w changes d).1.
Proof.
  revert d. induction changes as [|[seat stage] changes IH]; intros d; simpl; [auto with mitos|].
  assert (known (Daemon.registry d) (Daemon.on_stage w seat stage d).1) as Hk.
  { unfold Daemon.on_stage. destruct stage; simpl; auto with mitos.
    - unfold Daemon.notify_active_compositor. repeat case_match; auto with mitos.
    - case_match; [apply known_nil|]. destruct (SeatManager.active_session _ _) as [[s|]|]; [|apply known_nil..].
      case_match; [apply known_nil|]. destruct (LockManager.lock _ _ _) as [res l].
      case_match; [|apply known_nil]. apply (known_tell _ _ _ (Daemon.with_locks l d)).
    - pose proof (known_suspend w d). by destruct (Daemon.suspend w d) as [[? ?] ?]. }
  destruct (on_stage_elevation w seat stage d) as [_ Hr]. destruct (Daemon.on_stage w seat stage d) as [es1 d1].
  specialize (IH d1). destruct (Daemon.on_stages w changes d1). simpl in *. rewrite Hr in IH. auto with mitos.
Qed.

Lemma known_reap r statuses d : known r (Daemon.reap_children statuses d).1.
Proof.
  revert d. induction statuses as [|[[] w] statuses IH]; intros d; simpl; auto with mitos.
  assert (known r (Daemon.handle_compositor_exit pid w d).1) as Hk.
  { unfold Daemon.handle_compositor_exit. case_match; [|apply known_nil]. case_match. case_match.
    - apply known_try_spawn.
    - repeat case_match; simpl; auto with mitos. }
  destruct (Daemon.handle_compositor_exit pid w d) as [es1 d1]. specialize (IH d1).
  destruct (Daemon.reap_children statuses d1). simpl in *. auto with mitos.
Qed.

(** Any event: a message goes to a connection that was registered before it. *)
Lemma handle_known i w d es d' : Daemon.handle i w d = Done (es, d') → known (Daemon.registry d) es.
Proof.
  destruct i as [[conn peer ob|[conn peer req]|conn]| |sig statuses]; simpl; intros Hh.
  - simplify_eq. auto with mitos.
  - unfold Daemon.handle_command in Hh. destruct (Policy.authorize _ _ _ _ _ _); [|simplify_eq; auto with mitos].
    apply exec_bind_Done in Hh as ([[es1 r1] d1] & Hd & Hh). simplify_eq.
    rewrite (dispatch_registry _ _ _ _ _ _ _ _ Hd). apply known_app. split; [by eapply known_dispatch|].
    case_match; auto with mitos.
  - unfold Daemon.disconnected in Hh. simpl in Hh. destruct (ElevationManager.abandon_connection _ _) as [ab e].
    simplify_eq. eapply known_subset; [|apply known_abandoned]. simpl. intros c.
    rewrite lookup_delete_is_Some. tauto.
  - injection Hh as Hh. unfold Daemon.on_idle_tick in Hh. destruct (IdleDetector.tick _ _ _) as [changes idle].
    pose proof (known_stages w changes (Daemon.with_idle idle d)) as Hk.
    destruct (on_stages_elevation w changes (Daemon.with_idle idle d)) as [_ Hr].
    destruct (Daemon.on_stages _ _ _) as [es1 d1]. simpl in *.
    destruct (ElevationManager.expire_pending _ _) as [ab e]. simplify_eq. apply known_app. split; [done|].
    eapply known_subset; [|apply known_abandoned]. simpl. by rewrite Hr.
  - destruct (SignalEvent.classify sig) as [ev|]; injection Hh as Hh; [|simplify_eq; auto with mitos].
    destruct ev; simpl in Hh; [| |].
    + destruct (Power.graceful_shutdown _ _ _) as [[? ?] ?]. simplify_eq. constructor; [exact I|apply known_sys].
    + simplify_eq. auto with mitos.
    + pose proof (known_reap (Daemon.registry d) statuses d) as Hk. by rewrite Hh in Hk.
Qed.

(** A connection gets into the registry only by being announced. *)
Lemma handle_registry i w d es d' c :
  Daemon.handle i w d = Done (es, d') → is_Some (ConnRegistry.outboxes (Daemon.registry d') !! c) →
  is_Some (ConnRegistry.outboxes (Daemon.registry d) !! c) ∨
  ∃ peer ob, i = Daemon.Ipc (ManagerMessage.Connected c peer ob).
Proof.
  destruct i as [[conn peer ob|[conn peer req]|conn]| |sig statuses]; simpl; intros Hh.
  - simplify_eq. simpl. rewrite lookup_insert_is_Some. intros [->|[_ ?]]; eauto.
  - unfold Daemon.handle_command in Hh. destruct (Policy.authorize _ _ _ _ _ _); [|simplify_eq; auto].
    apply exec_bind_Done in Hh as ([[es1 r1] d1] & Hd & Hh). simplify_eq.
    rewrite (dispatch_registry _ _ _ _ _ _ _ _ Hd). auto.
  - unfold Daemon.disconnected in Hh. destruct (ElevationManager.abandon_connection _ _). simplify_eq. simpl.
    rewrite lookup_delete_is_Some. tauto.
  - injection Hh as Hh. unfold Daemon.on_idle_tick in Hh. destruct (IdleDetector.tick _ _ _) as [changes idle].
    destruct (on_stages_elevation w changes (Daemon.with_idle idle d)) as [_ Hr].
    destruct (Daemon.on_stages _ _ _) as [es1 d1]. simpl in *.
    destruct (ElevationManager.expire_pending _ _). simplify_eq. simpl. rewrite Hr. auto.
  - intros Hc. left. destruct (SignalEvent.classify sig) as [[]|]; simplify_eq/=; try done.
    + destruct (Power.graceful_shutdown _ _ _) as [[? ?] ?]. by simplify_eq.
    + unfold Daemon.reload_config in *. by case_match.
    + revert d es Hh. induction statuses as [|[[] w'] statuses IH]; intros d es Hh; simplify_eq/=; try done.
      * pose proof (handle_exit_frame pid w' d) as (_ & _ & _ & _ & Hf).
        destruct (Daemon.handle_compositor_exit pid w' d) as [es1 d1]. specialize (IH d1).
        destruct (Daemon.reap_children statuses d1) as [es2 d2]. simplify_eq. by eapply Hf, IH.
      * by eapply IH.
Qed.
End known.

(** ** Replies and prompts *)

(** How many replies [c] was sent. *)
Definition answered (c : ConnId) (es : list Effect.t) : nat := length (replies_to c es).

(** How many open prompts [c] is waiting for. *)
Definition owed (c : ConnId) (m : ElevationManager.t) : nat :=
  size (filter (λ kv : ElevationRequestId * PendingElevation.t, PendingElevation.requester_conn kv.2 = c)
          (ElevationManager.pending m)).

(** How many requests of [c] an event brings. *)
Definition asks (c : ConnId) (i : Daemon.input) : nat :=
  match i with
  | Daemon.Ipc (ManagerMessage.Command cmd) => if decide (ManagerCommand.conn_id cmd = c) then 1 else 0
  | _ => 0
  end.

Lemma answered_app c es1 es2 : answered c (es1 ++ es2) = (answered c es1 + answered c es2)%nat.
Proof. unfold answered, replies_to. by rewrite responses_app, filter_app, fmap_app, length_app. Qed.

Lemma answered_none c es : responses es = [] → answered c es = 0%nat.
Proof. unfold answered, replies_to. by intros ->. Qed.

Lemma answered_response c conn x r :
  answered c (ConnRegistry.send_response conn x r) =
    if decide (conn = c ∧ is_Some (ConnRegistry.outboxes r !! c)) then 1%nat else 0%nat.
Proof.
  unfold answered, replies_to. rewrite responses_response.
  destruct (decide (conn = c)) as [->|Hne].
  - destruct (decide (is_Some (ConnRegistry.outboxes r !! c))); [|by rewrite decide_False by tauto].
    rewrite decide_True by done. by rewrite filter_cons_True.
  - rewrite (decide_False (P := conn = c ∧ _)) by tauto. case_decide; [|done]. by rewrite filter_cons_False.
Qed.

Lemma answered_event c conn e r : answered c (ConnRegistry.send_event conn e r) = 0%nat.
Proof. apply answered_none, responses_event. Qed.

Lemma answered_audit c a d : answered c (Daemon.audit_log a d) = 0%nat.
Proof. done. Qed.

(** The prompts of [c] among those abandoned. *)
Definition abandoned_of (c : ConnId) (l : list AbandonedElevation.t) : nat :=
  length (filter (λ a, AbandonedElevation.requester_conn a = c) l).

Lemma answered_abandoned `{HashOrder} c reason l w d :
  answered c (Daemon.notify_all_abandoned reason l w d) =
    if decide (is_Some (ConnRegistry.outboxes (Daemon.registry d) !! c)) then abandoned_of c l else 0%nat.
Proof.
  unfold answered, replies_to, abandoned_of. rewrite responses_abandoned, length_fmap.
  induction l as [|a l IH]; [by case_decide|]. simpl.
  destruct (abandoned_reply reason (Daemon.registry d) a) as [x|] eqn:Ha; unfold abandoned_reply in Ha;
    case_decide as Hr; simplify_eq.
  - rewrite !filter_cons. simpl. destruct (decide (AbandonedElevation.requester_conn a = c)) as [<-|]; [|done].
    rewrite decide_True in IH |- * by done. simpl. by f_equal.
  - etrans; [exact IH|]. rewrite filter_cons. case_decide; [|done]. rewrite !decide_False; [done|congruence..].
Qed.

Lemma owed_pending c m m' :
  ElevationManager.pending m' = ElevationManager.pending m → owed c m' = owed c m.
Proof. unfold owed. by intros ->. Qed.

Lemma owed_insert c m m' id p :
  ElevationManager.pending m !! id = None →
  ElevationManager.pending m' = <[id := p]> (ElevationManager.pending m) →
  owed c m' = ((if decide (PendingElevation.requester_conn p = c) then 1 else 0) + owed c m)%nat.
Proof.
  intros Hid Hm. unfold owed. rewrite Hm, map_filter_insert. simpl. case_decide.
  - rewrite map_size_insert_None; [done|]. by apply map_lookup_filter_None; left.
  - by rewrite delete_id.
Qed.

(** Closing a prompt settles one debt. *)
Lemma owed_delete c m m' id p :
  ElevationManager.pending m !! id = Some p →
  ElevationManager.pending m' = delete id (ElevationManager.pending m) →
  owed c m = ((if decide (PendingElevation.requester_conn p = c) then 1 else 0) + owed c m')%nat.
Proof.
  intros Hid Hm. apply (owed_insert c m' m id).
  - by rewrite Hm, lookup_delete_eq.
  - by rewrite Hm, insert_delete_id.
Qed.

Lemma owed_take_all c ids m :
  owed c m = (abandoned_of c (ElevationManager.take_all_abandoned ids m).1 +
              owed c (ElevationManager.take_all_abandoned ids m).2)%nat.
Proof.
  revert m. induction ids as [|id ids IH]; intros m; simpl; [done|].
  specialize (IH (ElevationManager.drop id m)). unfold ElevationManager.take_abandoned.
  destruct (ElevationManager.take_all_abandoned ids _) as [l m'] eqn:Ht. simpl in *.
  destruct (ElevationManager.pending m !! id) as [p|] eqn:Hp; simpl.
  - rewrite (owed_delete c m (ElevationManager.drop id m) id p), IH by done.
    unfold abandoned_of. rewrite filter_cons. simpl. case_decide; simpl; lia.
  - rewrite <- IH. apply owed_pending. simpl. by rewrite delete_id.
Qed.

Section accounts.
Context `{HashOrder} `{SerdeJson} `{TomlSettings}.
Implicit Types (d : Daemon.t).

(** [n] of the prompts of [c] were closed and, if it is there to be told, answered;
    [k] were opened. *)
Definition settles (c : ConnId) (k n : nat) d es d' : Prop :=
  (owed c (Daemon.elevation d) + k = n + owed c (Daemon.elevation d'))%nat ∧
  (is_Some (ConnRegistry.outboxes (Daemon.registry d') !! c) → answered c es = n).

Lemma settles_nothing c d es d' :
  ElevationManager.pending (Daemon.elevation d') = ElevationManager.pending (Daemon.elevation d) →
  responses es = [] → settles c 0 0 d es d'.
Proof. intros He Hr. split; [by rewrite (owed_pending c _ _ He)|]. intros _. by apply answered_none. Qed.

(** A sweep over prompts that notifies the two sides of each. *)
Lemma settles_sweep c ids m reason w d es d' :
  ElevationManager.pending m = ElevationManager.pending (Daemon.elevation d) →
  Daemon.elevation d' = (ElevationManager.take_all_abandoned ids m).2 →
  responses es = [] →
  ∃ n, settles c 0 n d
    (es ++ Daemon.notify_all_abandoned reason (ElevationManager.take_all_abandoned ids m).1 w d') d'.
Proof.
  intros Hm Hd Hes. eexists. split.
  - rewrite Nat.add_0_r, Hd, <- (owed_pending c (Daemon.elevation d) m Hm). apply owed_take_all.
  - intros Hr. by rewrite answered_app, answered_none, answered_abandoned, decide_True.
Qed.

Lemma settles_respond c peer id resp w d es r d' :
  Daemon.respond_elevation peer id resp w d = Done (es, r, d') → ∃ n, settles c 0 n d es d'.
Proof.
  unfold Daemon.respond_elevation, ElevationManager.peek.
  destruct (ElevationManager.pending (Daemon.elevation d) !! id) as [p|] eqn:Hp; simpl.
  2: { intros; simplify_eq. exists 0%nat. by apply settles_nothing. }
  intros (x & Hx & Hr)%exec_bind_Done.
  assert (∀ o e, ElevationManager.pending e = delete id (ElevationManager.pending (Daemon.elevation d)) →
    ElevationOutcome.terminal o = true →
    ElevationOutcome.requester_conn o = PendingElevation.requester_conn p →
    x = Ok (Some o, e) → ∃ n, settles c 0 n d es d') as Hclose.
  { intros o e He Ht Hreq ->. simplify_eq. eexists. split.
    - rewrite Nat.add_0_r. by apply (owed_delete c _ e id).
    - simpl. intros Hc. rewrite answered_app. unfold Daemon.tell_resolved. rewrite Ht, !answered_app, Hreq.
      rewrite !answered_event, answered_audit, answered_response. simpl.
      repeat case_decide; naive_solver. }
  destruct resp as [pw|].
  - unfold SessionManager.get in Hx. destruct (_ !! PendingElevation.session_id p) as [ctx|]; simpl in Hx.
    2: { simplify_eq. exists 0%nat. by apply settles_nothing. }
    apply exec_bind_Done in Hx as ([o e] & Hat & Hx). simplify_eq.
    destruct (attempt_cases _ _ _ _ _ _ _ _ _ Hp Hat) as [(_ & -> & ->)|[(_ & _ & -> & ->)|(_ & _ & -> & ->)]].
    + eapply Hclose; [| | |reflexivity]; done.
    + simplify_eq. exists 0%nat. apply settles_nothing; [done|]. unfold Daemon.tell_resolved. simpl.
      by autorewrite with mitos_effects.
    + eapply Hclose; [| | |reflexivity]; done.
  - unfold ElevationManager.cancel in Hx. rewrite Hp in Hx. simplify_eq. eapply Hclose; [| | |reflexivity]; done.
Qed.

(** What a request opens: a prompt for its connection, when it is not answered now. *)
Definition opens (c conn : ConnId) (r : option Response.t) : nat :=
  if decide (r = None ∧ conn = c) then 1 else 0.

Lemma opens_Some c conn r : is_Some r → opens c conn r = 0%nat.
Proof. intros [x ->]. unfold opens. by rewrite decide_False by naive_solver. Qed.

Lemma dispatch_settles c conn peer req w d es r d' :
  Daemon.dispatch conn peer req w d = Done (es, r, d') → DaemonInv.wf d → DaemonInv.room 1 d →
  ∃ n, settles c (opens c conn r) n d es d'.
Proof.
  intros Hd Hwf Hroom. destruct (about_prompts req) eqn:Hreq.
  2: { exists 0%nat. destruct (dispatch_elevation_frame _ _ _ _ _ _ _ _ Hd Hreq) as (He & _ & Hr).
       rewrite opens_Some by done. apply settles_nothing; [by rewrite He|].
       eapply dispatch_quiet; [done|]. by destruct req. }
  pose proof (dispatch_quiet _ _ _ _ _ _ _ _ Hd) as Hquiet.
  unfold Daemon.dispatch, Daemon.replying in Hd. destruct req; try done.
  - unfold Daemon.terminate_session, ElevationManager.abandon_session, ElevationManager.abandon_where in Hd.
    destruct (SessionManager.terminate_session _ _) as [[calls [[]|e]] ss].
    2: { simplify_eq. exists 0%nat. rewrite opens_Some by done. apply settles_nothing; [done|apply responses_sys]. }
    simpl in Hd.
    match goal with Hd : context [ElevationManager.take_all_abandoned ?ids _] |- _ =>
      pose proof (λ d0 es0, settles_sweep c ids (Daemon.elevation d) "session ended" w d es0 d0 eq_refl) as Hs end.
    destruct (ElevationManager.take_all_abandoned _ _) as [ab e]. simplify_eq. rewrite opens_Some by done.
    rewrite cons_middle, (assoc_L app). apply Hs; [done|]. by autorewrite with mitos_effects.
  - specialize (Hquiet eq_refl). apply start_elevation_cases in Hd as (_ & [[He Hr]|(-> & k & He)]); exists 0%nat.
    + rewrite opens_Some by done. apply settles_nothing; [by rewrite He|done].
    + split; [|intros _; by apply answered_none]. unfold opens.
      rewrite (owed_insert c (Daemon.elevation d) (Daemon.elevation d') _ _ (begin_fresh _ (DaemonInv.wf_elevation _ Hwf)
        (proj2 (proj2 Hroom))) He). simpl. repeat case_decide; naive_solver lia.
  - apply exec_bind_Done in Hd as ([[es1 r1] d1] & Hu & Hd). simplify_eq. rewrite opens_Some by done.
    by eapply settles_respond.
Qed.

(** Any event: what [c] is told and what it is still owed add up. *)
Definition balanced (c : ConnId) (i : Daemon.input) d es d' : Prop :=
  (owed c (Daemon.elevation d') ≤ owed c (Daemon.elevation d) + asks c i)%nat ∧
  (is_Some (ConnRegistry.outboxes (Daemon.registry d') !! c) →
   (answered c es + owed c (Daemon.elevation d') = owed c (Daemon.elevation d) + asks c i)%nat).

Lemma handle_accounts c i w d es d' :
  Daemon.handle i w d = Done (es, d') → DaemonInv.wf d → DaemonInv.room 1 d → balanced c i d es d'.
Proof.
  intros Hh Hwf Hroom.
  assert (∀ n, asks c i = 0%nat → settles c 0 n d es d' → balanced c i d es d') as Hsettle.
  { intros n Ha [Ho Hn]. unfold balanced. rewrite Ha. split; [lia|]. intros Hc%Hn. lia. }
  destruct i as [[conn peer ob|[conn peer req]|conn]| |sig statuses]; simpl in Hh.
  - simplify_eq. apply (Hsettle 0%nat); [done|]. by apply settles_nothing.
  - clear Hsettle. unfold Daemon.handle_command in Hh. unfold balanced. simpl in *.
    destruct (Policy.authorize _ _ _ _ _ _).
    2: { simplify_eq. split; [lia|]. intros Hc. rewrite answered_response. repeat case_decide; naive_solver lia. }
    apply exec_bind_Done in Hh as ([[es1 r1] d1] & Hd & Hh). simplify_eq.
    destruct (dispatch_settles c _ _ _ _ _ _ _ _ Hd Hwf Hroom) as (n & Ho & Hn). unfold opens in Ho.
    split; [repeat case_decide; naive_solver lia|]. intros Hc. rewrite answered_app, (Hn Hc).
    destruct r1 as [x|]; [rewrite answered_response|rewrite (answered_none _ []) by done];
      repeat case_decide; naive_solver lia.
  - unfold Daemon.disconnected, ElevationManager.abandon_connection, ElevationManager.abandon_where in Hh. simpl in Hh.
    match goal with Hh : context [ElevationManager.take_all_abandoned ?ids _] |- _ =>
      pose proof (λ d0, settles_sweep c ids (Daemon.elevation d) "a required connection disconnected" w d [] d0 eq_refl)
        as Hs end.
    destruct (ElevationManager.take_all_abandoned _ _) as [ab e]. simplify_eq.
    edestruct Hs as [n Hn]; [| |by apply (Hsettle n)]; done.
  - injection Hh as Hh. unfold Daemon.on_idle_tick, ElevationManager.expire_pending in Hh.
    destruct (IdleDetector.tick _ _ _) as [changes idle].
    pose proof (responses_stages w changes (Daemon.with_idle idle d)) as Hes.
    destruct (on_stages_elevation w changes (Daemon.with_idle idle d)) as [He _].
    destruct (Daemon.on_stages _ _ _) as [es1 d1]. simpl in *.
    match goal with Hh : context [ElevationManager.take_all_abandoned ?ids ?m] |- _ =>
      pose proof (λ d0, settles_sweep c ids m "timed out waiting for a response" w d es1 d0) as Hs end.
    destruct (ElevationManager.take_all_abandoned _ _) as [ab e]. simplify_eq. simpl in Hs.
    destruct (clear_expired_frame (w_now w) (Daemon.elevation d1)) as (Hpe & _ & _ & _).
    match goal with Hb : ∀ n, _ → settles _ _ _ _ _ ?d2 → _ |- _ => destruct (Hs d2) as [n Hn] end;
      [by rewrite Hpe, He|done..|]. by apply (Hsettle n).
  - destruct (SignalEvent.classify sig) as [ev|]; injection Hh as Hh.
    2: { simplify_eq. apply (Hsettle 0%nat); [done|]. by apply settles_nothing. }
    pose proof (signal_frame ev statuses w d) as (_ & Hf & _). pose proof (responses_signal ev statuses w d) as Hes.
    rewrite Hh in Hf, Hes. apply (Hsettle 0%nat); [done|]. by apply settles_nothing.
Qed.
End accounts.
