(* ===== verification/Determinism.v ===== *)
(** * Determinism: the order of a HashMap does not matter

    [std::collections::HashMap] seeds its hasher at random, so two runs of the
    daemon visit their maps in different orders.  Two daemons that differ in
    nothing else are in the same state after the same event, and have done the
    same things, up to the order of what they did in that event and the order of
    the entries in a listing. *)

From stdpp Require Import base gmap strings pretty numbers list.
From S2P Require Import Prelude Errors System Config User Session Seat Auth Timers Lock Idle Elevation.
From S2P Require Import Ipc Policy Launcher Power Daemon DaemonInv DaemonSafety.

(** ** Effects up to order *)

Inductive same_response : Response.t → Response.t → Prop :=
| same_refl r : same_response r r
| same_sessions l1 l2 : l1 ≡ₚ l2 → same_response (Response.Sessions l1) (Response.Sessions l2)
| same_inhibitors l1 l2 : l1 ≡ₚ l2 → same_response (Response.Inhibitors l1) (Response.Inhibitors l2).

Inductive same_effect : Effect.t → Effect.t → Prop :=
| same_effect_refl e : same_effect e e
| same_effect_sent c r1 r2 :
    same_response r1 r2 →
    same_effect (Effect.Sent c (Message.Response r1)) (Effect.Sent c (Message.Response r2)).

(** The same effects, in some order. *)
Definition same_effects (es1 es2 : list Effect.t) : Prop :=
  ∃ es, es1 ≡ₚ es ∧ Forall2 same_effect es es2.

Lemma same_effects_perm es1 es2 : es1 ≡ₚ es2 → same_effects es1 es2.
Proof. intros Hp. exists es2. split; [done|]. apply Forall_Forall2_diag, Forall_true. constructor. Qed.

Lemma same_effects_refl es : same_effects es es.
Proof. by apply same_effects_perm. Qed.

Lemma same_effects_app a1 a2 b1 b2 :
  same_effects a1 a2 → same_effects b1 b2 → same_effects (a1 ++ b1) (a2 ++ b2).
Proof.
  intros (a & Ha & Hfa) (b & Hb & Hfb). exists (a ++ b). split; [by rewrite Ha, Hb|]. by apply Forall2_app.
Qed.

(** What a handler returns: the same state and the same effects, or a panic in
    both. *)
Definition same_outcome {R} (Q : R → R → Prop) (x y : exec (list Effect.t * R)) : Prop :=
  match x, y with
  | Done (es1, r1), Done (es2, r2) => same_effects es1 es2 ∧ Q r1 r2
  | Panicked, Panicked => True
  | _, _ => False
  end.

(** ** Folds over a permutation *)

Lemma foldl_perm {A B} (f : A → B → A) l1 l2 a :
  (∀ a x y, f (f a x) y = f (f a y) x) → l1 ≡ₚ l2 → foldl f a l1 = foldl f a l2.
Proof.
  intros Hf Hp. revert a. induction Hp as [|x l1 l2 _ IH|x y l|l1 l2 l3 _ IH1 _ IH2]; intros a; simpl.
  - done.
  - apply IH.
  - by rewrite Hf.
  - by rewrite IH1.
Qed.

Lemma delete_list_perm {K V} `{Countable K} (ks1 ks2 : list K) (m : gmap K V) :
  ks1 ≡ₚ ks2 → delete_list ks1 m = delete_list ks2 m.
Proof. apply foldl_perm. intros. apply delete_delete. Qed.

Lemma existsb_perm {A} (f : A → bool) l1 l2 : l1 ≡ₚ l2 → existsb f l1 = existsb f l2.
Proof.
  intros Hp. apply eq_true_iff_eq. rewrite !existsb_exists. setoid_rewrite <- list_elem_of_In.
  by setoid_rewrite Hp.
Qed.

Lemma concat_map_perm {A B} (f : A → list B) l1 l2 : l1 ≡ₚ l2 → concat (map f l1) ≡ₚ concat (map f l2).
Proof.
  induction 1 as [|x l1 l2 _ IH|x y l|l1 l2 l3 _ IH1 _ IH2]; simpl.
  - done.
  - by rewrite IH.
  - by rewrite !(assoc_L app), (comm app (f y)).
  - by rewrite IH1.
Qed.

(** ** What an idle tick does to the seats that changed stage *)

(** A pass over the seats locks sessions and shows some of them as locked; neither
    depends on the order, and neither changes what the next seat is to do. *)
Section stages.
Context `{HashOrder}.
Implicit Types (d : Daemon.t) (x : string * IdleStage.t).

Definition policy_of d : LockPolicy.t := LockPolicy.from (Settings.lock (Daemon.settings d)).

(** The session an idle seat is to lock. *)
Definition idle_target (w : World) d (seat : string) : option SessionId :=
  if LockPolicy.lock_on_idle (policy_of d) then
    match SeatManager.active_session seat (Daemon.seats d) with
    | Ok (Some s) => if Daemon.cannot_lock s w d then None else Some s
    | _ => None
    end
  else None.

Definition can_lock d : bool :=
  LockPolicy.enabled (policy_of d) &&
  negb (InhibitorRegistry.blocks InhibitWhat.Lock (LockManager.inhibitors (Daemon.locks d))).

(** The sessions locked, the sessions shown as locked, and the effects. *)
Definition locked_by (w : World) d x : list SessionId :=
  match x.2 with
  | IdleStage.LockRequested => option_list (idle_target w d x.1)
  | IdleStage.SuspendRequested =>
      if InhibitorRegistry.blocks InhibitWhat.Suspend (LockManager.inhibitors (Daemon.locks d)) then []
      else if LockPolicy.lock_on_suspend (policy_of d) then Power.session_ids (Daemon.sessions d) else []
  | _ => []
  end.
Definition shown_by (w : World) d x : list SessionId :=
  match x.2 with
  | IdleStage.LockRequested => if can_lock d then option_list (idle_target w d x.1) else []
  | _ => []
  end.
Definition did_by (w : World) d x : list Effect.t :=
  match x.2 with
  | IdleStage.Active => []
  | IdleStage.Dimmed => Daemon.notify_active_compositor x.1 (Event.Dim x.1) d
  | IdleStage.LockRequested =>
      concat (map (λ s, match SessionManager.get s (Daemon.sessions d) with
                        | Ok ctx => Daemon.send_to_compositor ctx (Event.ShowLockScreen s LockReason.Idle) d
                        | Err _ => []
                        end) (shown_by w d x))
  | IdleStage.SuspendRequested => (Daemon.suspend w d).1.1
  end.

Definition lock_all (p : LockPolicy.t) (ids : list SessionId) (m : LockManager.t) : LockManager.t :=
  foldl (λ m s, (LockManager.lock s p m).2) m ids.
Definition show_all (ids : list SessionId) (ss : SessionManager.t) : SessionManager.t :=
  foldl (λ ss s, SessionManager.update s (SessionContext.try_transition SessionState.Locked) ss) ss ids.

(** The daemon with the sessions [ids] locked and [shown] shown so. *)
Definition moved (ids shown : list SessionId) d : Daemon.t :=
  Daemon.with_sessions (show_all shown (Daemon.sessions d))
    (Daemon.with_locks (lock_all (policy_of d) ids (Daemon.locks d)) d).

Lemma lock_is_ok s d : is_ok (LockManager.lock s (policy_of d) (Daemon.locks d)).1 = can_lock d.
Proof. unfold LockManager.lock, can_lock. by destruct (LockPolicy.enabled _), (InhibitorRegistry.blocks _ _). Qed.

Lemma moved_nil d : moved [] [] d = d.
Proof. by destruct d. Qed.

Lemma lock_all_suspend p cs m :
  foldl (suspend_lock p) m cs =
  lock_all p (if LockPolicy.lock_on_suspend p then map SessionContext.id cs else []) m.
Proof.
  revert m. induction cs as [|c cs IH]; intros m; simpl; [by case_match|]. rewrite IH. unfold suspend_lock. by case_match.
Qed.

Lemma on_stage_moved w d x :
  Daemon.on_stage w x.1 x.2 d = (did_by w d x, moved (locked_by w d x) (shown_by w d x) d).
Proof.
  destruct x as [seat stage]. unfold Daemon.on_stage, did_by, locked_by, shown_by. cbn [fst snd]. fold (policy_of d).
  destruct stage; rewrite ?moved_nil; try done.
  - unfold idle_target. destruct (LockPolicy.lock_on_idle (policy_of d)); cbn [negb]; [|destruct (can_lock d); simpl; by rewrite moved_nil].
    destruct (SeatManager.active_session _ _) as [[s|]|]; try (destruct (can_lock d); simpl; by rewrite moved_nil).
    destruct (Daemon.cannot_lock s w d); [destruct (can_lock d); simpl; by rewrite moved_nil|].
    pose proof (lock_is_ok s d) as Hok.
    destruct (LockManager.lock s (policy_of d) (Daemon.locks d)) as [r l] eqn:Hl. simpl in Hok. rewrite Hok.
    destruct (can_lock d); unfold moved, lock_all, show_all; simpl; rewrite ?Hl; simpl.
    + unfold Daemon.transition_and_tell. simpl. destruct (SessionManager.get s (Daemon.sessions d)) eqn:Hg.
      * by rewrite app_nil_r.
      * unfold SessionManager.get in Hg. apply ok_or_Err in Hg as [Hg _].
        unfold SessionManager.update. rewrite alter_id; [by destruct d as [? []]|]. by rewrite Hg.
    + by destruct d.
  - unfold Daemon.suspend. pose proof (suspend_locks_eq (Daemon.sessions d) (policy_of d) (Daemon.registry d)
      (Daemon.power_backend d) (Daemon.suspend_grace d) w (Daemon.locks d)) as Hl.
    rewrite lock_all_suspend in Hl. fold (policy_of d).
    destruct (Power.suspend _ _ _ _ _ _ _) as [[es r] l]. cbn [fst snd] in *. subst l. f_equal.
    destruct (InhibitorRegistry.blocks _ _); [by destruct d|].
    unfold Power.session_ids. destruct (LockPolicy.lock_on_suspend _); by destruct d.
Qed.

(** What a pass reads of a session, and of the daemon. *)
Definition face (c : SessionContext.t) : Session.t * option ConnId :=
  (SessionContext.session c, SessionContext.compositor_conn c).

Record same_view d d' : Prop := {
  view_settings : Daemon.settings d' = Daemon.settings d;
  view_seats : Daemon.seats d' = Daemon.seats d;
  view_registry : Daemon.registry d' = Daemon.registry d;
  view_backend : Daemon.power_backend d' = Daemon.power_backend d;
  view_inhibitors : LockManager.inhibitors (Daemon.locks d') = LockManager.inhibitors (Daemon.locks d);
  view_faces : face <$> SessionManager.sessions (Daemon.sessions d') =
               face <$> SessionManager.sessions (Daemon.sessions d)
}.

Lemma same_view_refl d : same_view d d.
Proof. by split. Qed.

Lemma lock_inhibitors s p m : LockManager.inhibitors (LockManager.lock s p m).2 = LockManager.inhibitors m.
Proof. unfold LockManager.lock. by repeat case_match. Qed.

Lemma lock_all_inhibitors p ids m : LockManager.inhibitors (lock_all p ids m) = LockManager.inhibitors m.
Proof.
  unfold lock_all. revert m. induction ids as [|s ids IH]; intros m; simpl; [done|]. by rewrite IH, lock_inhibitors.
Qed.

Lemma face_transition next c : face (SessionContext.try_transition next c) = face c.
Proof. unfold SessionContext.try_transition, SessionContext.transition. by case_match. Qed.

Lemma show_all_faces ids ss :
  face <$> SessionManager.sessions (show_all ids ss) = face <$> SessionManager.sessions ss.
Proof.
  unfold show_all. revert ss. induction ids as [|s ids IH]; intros ss; simpl; [done|]. rewrite IH. simpl.
  apply map_eq. intros i. rewrite !lookup_fmap, lookup_alter. case_decide; [subst|done].
  destruct (SessionManager.sessions ss !! i); simpl; [|done]. by rewrite face_transition.
Qed.

Lemma moved_view ids shown d : same_view d (moved ids shown d).
Proof. split; try done; simpl; [apply lock_all_inhibitors|apply show_all_faces]. Qed.

(** Moving again, with what the first move read. *)
Lemma moved_moved ids1 shown1 ids2 shown2 d :
  moved ids2 shown2 (moved ids1 shown1 d) = moved (ids1 ++ ids2) (shown1 ++ shown2) d.
Proof. unfold moved, lock_all, show_all. simpl. by rewrite !foldl_app. Qed.

Lemma lock_comm s1 s2 p m :
  (LockManager.lock s2 p (LockManager.lock s1 p m).2).2 = (LockManager.lock s1 p (LockManager.lock s2 p m).2).2.
Proof.
  unfold LockManager.lock. destruct (negb (LockPolicy.enabled p)); [done|].
  destruct (InhibitorRegistry.blocks _ (LockManager.inhibitors m)) eqn:Hb; simpl; rewrite ?Hb; [done|]. simpl.
  unfold LockManager.with_entry, LockManager.entry. simpl. destruct (decide (s1 = s2)) as [->|Hne]; [done|].
  by rewrite !lookup_insert_ne, insert_insert_ne by done.
Qed.

Lemma show_comm s1 s2 ss :
  SessionManager.update s2 (SessionContext.try_transition SessionState.Locked)
    (SessionManager.update s1 (SessionContext.try_transition SessionState.Locked) ss) =
  SessionManager.update s1 (SessionContext.try_transition SessionState.Locked)
    (SessionManager.update s2 (SessionContext.try_transition SessionState.Locked) ss).
Proof.
  unfold SessionManager.update. simpl. f_equal. destruct (decide (s1 = s2)) as [->|]; [done|].
  rewrite alter_alter. by rewrite decide_False by done.
Qed.

Lemma moved_perm ids1 ids2 shown1 shown2 d :
  ids1 ≡ₚ ids2 → shown1 ≡ₚ shown2 → moved ids1 shown1 d = moved ids2 shown2 d.
Proof.
  intros Hi Hs. unfold moved, lock_all, show_all. f_equal; [|f_equal]; apply foldl_perm; try done; intros.
  - apply show_comm.
  - apply lock_comm.
Qed.
End stages.

Section determinism.
Context (h1 h2 : HashOrder) `{SerdeJson} `{TomlSettings}.

(** ** The maps *)

Lemma entries_perm {K V} `{Countable K} (m : gmap K V) :
  hash_entries (HashOrder := h1) m ≡ₚ hash_entries (HashOrder := h2) m.
Proof. by rewrite !hash_entries_perm. Qed.

Lemma values_perm {K V} `{Countable K} (m : gmap K V) : hash_values (H := h1) m ≡ₚ hash_values (H := h2) m.
Proof. unfold hash_values. by rewrite entries_perm. Qed.

Lemma count_perm {K V} `{Countable K} (P : V → Prop) `{!∀ v, Decision (P v)} (m : gmap K V) :
  count_values (H := h1) P m = count_values (H := h2) P m.
Proof. by rewrite !count_values_size. Qed.

Lemma drain_perm {K} `{Countable K} (m : gmap K Instant) now :
  (Timers.drain_expired (H := h1) m now).1 ≡ₚ (Timers.drain_expired (H := h2) m now).1 ∧
  (Timers.drain_expired (H := h1) m now).2 = (Timers.drain_expired (H := h2) m now).2.
Proof. simpl. assert (Hp := entries_perm m). split; [by rewrite Hp|]. apply delete_list_perm. by rewrite Hp. Qed.

(** ** The components *)

Lemma blocks_perm what r : InhibitorRegistry.blocks (H := h1) what r = InhibitorRegistry.blocks (H := h2) what r.
Proof. apply existsb_perm, values_perm. Qed.

Lemma lock_perm s p m : LockManager.lock (H := h1) s p m = LockManager.lock (H := h2) s p m.
Proof. unfold LockManager.lock. by rewrite blocks_perm. Qed.

Lemma delay_perm what l l' grace :
  LockManager.inhibitors l' = LockManager.inhibitors l →
  Power.delay (H := h1) what l grace = Power.delay (H := h2) what l' grace.
Proof.
  intros Hi. unfold Power.delay, InhibitorRegistry.delays. rewrite Hi.
  assert (map Inhibitor.who (filter (Inhibitor.holds what InhibitMode.Delay)
      (hash_values (H := h1) (InhibitorRegistry.inhibitors (LockManager.inhibitors l)))) ≡ₚ
    map Inhibitor.who (filter (Inhibitor.holds what InhibitMode.Delay)
      (hash_values (H := h2) (InhibitorRegistry.inhibitors (LockManager.inhibitors l))))) as Hp.
  { change (map Inhibitor.who) with (fmap (M := list) Inhibitor.who). by rewrite values_perm. }
  apply Permutation_length in Hp. revert Hp. generalize (map Inhibitor.who
    (filter (Inhibitor.holds what InhibitMode.Delay)
      (hash_values (H := h1) (InhibitorRegistry.inhibitors (LockManager.inhibitors l))))).
  intros l1 Hp. by destruct l1, (map _ _).
Qed.

Lemma create_perm user seat ty settings w m :
  SessionManager.create_session (H := h1) user seat ty settings w m =
  SessionManager.create_session (H := h2) user seat ty settings w m.
Proof. unfold SessionManager.create_session, SessionManager.sessions_of. by rewrite count_perm. Qed.

Lemma begin_perm s c q p ap now m :
  ElevationManager.begin (H := h1) s c q p ap now m = ElevationManager.begin (H := h2) s c q p ap now m.
Proof. unfold ElevationManager.begin, ElevationManager.pending_for_session. by rewrite count_perm. Qed.

Lemma sweep_perm now m :
  LockManager.sweep_lockouts (H := h1) now m = LockManager.sweep_lockouts (H := h2) now m.
Proof.
  unfold LockManager.sweep_lockouts, LockTimeouts.expired_lockouts.
  destruct (drain_perm (LockTimeouts.lockout_expiry (LockManager.timeouts m)) now) as [Hi Hm].
  destruct (Timers.drain_expired (H := h1) _ _) as [ids1 m1], (Timers.drain_expired (H := h2) _ _) as [ids2 m2].
  simpl in *. subst m2. apply foldl_perm; [|done]. clear. intros [ls i x] s1 s2.
  unfold LockManager.clear_lockout. simpl. f_equal. destruct (decide (s1 = s2)) as [->|]; [done|].
  rewrite alter_alter. by rewrite decide_False by done.
Qed.

Lemma clear_expired_perm now m :
  ElevationManager.clear_expired_lockouts (H := h1) now m = ElevationManager.clear_expired_lockouts (H := h2) now m.
Proof.
  unfold ElevationManager.clear_expired_lockouts, ElevationTimeouts.expired_lockouts.
  destruct (drain_perm (ElevationTimeouts.lockout_expiry (ElevationManager.timeouts m)) now) as [Hi Hm].
  destruct (Timers.drain_expired (H := h1) _ _) as [ids1 m1], (Timers.drain_expired (H := h2) _ _) as [ids2 m2].
  simpl in *. subst m2. apply foldl_perm; [|done]. clear. intros [? ? a ? ?] s1 s2. simpl. f_equal.
  destruct (decide (s1 = s2)) as [->|]; [done|]. rewrite alter_alter. by rewrite decide_False by done.
Qed.

(** Closing prompts in another order reports the same prompts. *)
Lemma take_all_perm ids1 ids2 m :
  ids1 ≡ₚ ids2 →
  (ElevationManager.take_all_abandoned ids1 m).1 ≡ₚ (ElevationManager.take_all_abandoned ids2 m).1 ∧
  (ElevationManager.take_all_abandoned ids1 m).2 = (ElevationManager.take_all_abandoned ids2 m).2.
Proof.
  intros Hp. split.
  2: { rewrite !take_all_state. by rewrite !(delete_list_perm ids1 ids2). }
  apply NoDup_Permutation.
  - eapply NoDup_fmap_1, NoDup_take_all.
  - eapply NoDup_fmap_1, NoDup_take_all.
  - intros a. rewrite !elem_of_take_all. by setoid_rewrite Hp.
Qed.

Lemma abandon_perm f m :
  (ElevationManager.abandon_where (H := h1) f m).1 ≡ₚ (ElevationManager.abandon_where (H := h2) f m).1 ∧
  (ElevationManager.abandon_where (H := h1) f m).2 = (ElevationManager.abandon_where (H := h2) f m).2.
Proof. apply take_all_perm. by rewrite entries_perm. Qed.

Lemma expire_perm now m :
  (ElevationManager.expire_pending (H := h1) now m).1 ≡ₚ (ElevationManager.expire_pending (H := h2) now m).1 ∧
  (ElevationManager.expire_pending (H := h1) now m).2 = (ElevationManager.expire_pending (H := h2) now m).2.
Proof.
  unfold ElevationManager.expire_pending, ElevationTimeouts.expired_prompts.
  destruct (drain_perm (ElevationTimeouts.prompt_expiry (ElevationManager.timeouts m)) now) as [Hi Hm].
  destruct (Timers.drain_expired (H := h1) _ _) as [ids1 m1], (Timers.drain_expired (H := h2) _ _) as [ids2 m2].
  simpl in *. subst m2. by apply take_all_perm.
Qed.

Lemma tick_perm now p d :
  (IdleDetector.tick (H := h1) now p d).1 ≡ₚ (IdleDetector.tick (H := h2) now p d).1 ∧
  (IdleDetector.tick (H := h1) now p d).2 = (IdleDetector.tick (H := h2) now p d).2.
Proof.
  unfold IdleDetector.tick.
  destruct (foldl _ _ (IdleTracker.seats (H := h1) _)) as [ch1 st1] eqn:H1'.
  destruct (foldl _ _ (IdleTracker.seats (H := h2) _)) as [ch2 st2] eqn:H2'.
  apply foldl_tick_seat in H1' as (Hs1 & Hc1 & Hn1); [|apply NoDup_hash_keys].
  apply foldl_tick_seat in H2' as (Hs2 & Hc2 & Hn2); [|apply NoDup_hash_keys].
  assert (∀ s, s ∈ IdleTracker.seats (H := h1) (IdleDetector.tracker d) ↔
               s ∈ IdleTracker.seats (H := h2) (IdleDetector.tracker d)) as Hin.
  { intros s. unfold IdleTracker.seats. by rewrite !elem_of_hash_keys. }
  simpl. split.
  - apply NoDup_Permutation.
    + eapply NoDup_fmap_1, Hn1; [apply NoDup_nil_2|set_solver].
    + eapply NoDup_fmap_1, Hn2; [apply NoDup_nil_2|set_solver].
    + intros [s g]. rewrite Hc1, Hc2, Hin. done.
  - f_equal. apply map_eq. intros s. rewrite Hs1, Hs2. pose proof (Hin s). repeat case_decide; tauto.
Qed.

(** *** Power *)

Lemma terminate_all_perm ids1 ids2 m :
  ids1 ≡ₚ ids2 →
  (Power.terminate_all ids1 m).1 ≡ₚ (Power.terminate_all ids2 m).1 ∧
  (Power.terminate_all ids1 m).2 = (Power.terminate_all ids2 m).2.
Proof.
  intros Hp. split; [|by rewrite !terminate_all_sessions, (delete_list_perm ids1 ids2)].
  revert m. induction Hp as [|x l1 l2 _ IH|x y l|l1 l2 l3 _ IH1 _ IH2]; intros m.
  - done.
  - simpl. destruct (SessionManager.terminate_session x m) as [[calls r] m1]. specialize (IH m1).
    destruct (Power.terminate_all l1 m1), (Power.terminate_all l2 m1). simpl in *. by rewrite IH.
  - simpl. unfold SessionManager.terminate_session. destruct (decide (x = y)) as [->|Hne]; [done|].
    destruct (SessionManager.sessions m !! x) as [cx|] eqn:Hx, (SessionManager.sessions m !! y) as [cy|] eqn:Hy;
      simpl; rewrite ?lookup_delete_ne, ?Hx, ?Hy by done; simpl; rewrite ?Hx, ?Hy.
    + rewrite delete_delete. destruct (Power.terminate_all l _). simpl.
      by rewrite !(assoc_L app), (comm app (Lifecycle.end_ cy).1).
    + by destruct (Power.terminate_all l _).
    + by destruct (Power.terminate_all l _).
    + by destruct (Power.terminate_all l _).
  - by rewrite IH1.
Qed.

Lemma lock_all_order p ids m : lock_all (H := h1) p ids m = lock_all (H := h2) p ids m.
Proof.
  unfold lock_all. revert m. induction ids as [|s ids IH]; intros m; simpl; [done|]. by rewrite lock_perm, IH.
Qed.

Lemma moved_order ids shown d : moved (H := h1) ids shown d = moved (H := h2) ids shown d.
Proof. unfold moved. by rewrite lock_all_order. Qed.

(** Two daemons with the same view, seen in two orders. *)
Section view.
Context (d d' : Daemon.t) (Hview : same_view d d').

Lemma view_values :
  face <$> SessionManager.list (H := h1) (Daemon.sessions d) ≡ₚ
  face <$> SessionManager.list (H := h2) (Daemon.sessions d').
Proof.
  unfold SessionManager.list. rewrite !hash_values_perm.
  assert (∀ m : gmap SessionId SessionContext.t, face <$> (map_to_list m).*2 = (map_to_list (face <$> m)).*2) as Hf.
  { intros m. rewrite map_to_list_fmap, <- !list_fmap_compose. by apply list_fmap_ext. }
  by rewrite !Hf, (view_faces _ _ Hview).
Qed.

Lemma view_get s :
  match SessionManager.get s (Daemon.sessions d), SessionManager.get s (Daemon.sessions d') with
  | Ok c, Ok c' => face c = face c'
  | Err _, Err _ => True
  | _, _ => False
  end.
Proof.
  pose proof (f_equal (.!! s) (view_faces _ _ Hview)) as Hs. simpl in Hs. rewrite !lookup_fmap in Hs.
  unfold SessionManager.get. destruct (_ !! s), (_ !! s); simpl in *; try done. congruence.
Qed.

Lemma view_send c c' ev :
  face c = face c' → Daemon.send_to_compositor c ev d = Daemon.send_to_compositor c' ev d'.
Proof.
  intros [= _ Hc]. unfold Daemon.send_to_compositor. by rewrite Hc, (view_registry _ _ Hview).
Qed.

Lemma view_policy : policy_of d' = policy_of d.
Proof. unfold policy_of. by rewrite (view_settings _ _ Hview). Qed.

Lemma view_target w seat : idle_target w d seat = idle_target w d' seat.
Proof.
  unfold idle_target. rewrite view_policy, (view_seats _ _ Hview).
  assert (∀ s, Daemon.cannot_lock s w d = Daemon.cannot_lock s w d') as Hc.
  { intros s. pose proof (view_get s) as Hg. unfold Daemon.cannot_lock.
    destruct (SessionManager.get s (Daemon.sessions d)), (SessionManager.get s (Daemon.sessions d')); try done.
    injection Hg as Hs _. by rewrite Hs. }
  case_match; [|done]. destruct (SeatManager.active_session _ _) as [[s|]|]; try done. by rewrite Hc.
Qed.

Lemma view_can_lock : can_lock (H := h1) d = can_lock (H := h2) d'.
Proof. unfold can_lock. by rewrite view_policy, (view_inhibitors _ _ Hview), blocks_perm. Qed.

Lemma view_ids : Power.session_ids (H := h1) (Daemon.sessions d) ≡ₚ Power.session_ids (H := h2) (Daemon.sessions d').
Proof.
  unfold Power.session_ids. pose proof view_values as Hv. apply (fmap_Permutation (Session.id ∘ fst)) in Hv.
  by rewrite <- !list_fmap_compose in Hv.
Qed.

Lemma view_locked w x : locked_by (H := h1) w d x ≡ₚ locked_by (H := h2) w d' x.
Proof.
  unfold locked_by. rewrite view_target, view_policy, (view_inhibitors _ _ Hview), blocks_perm.
  repeat case_match; try done. apply view_ids.
Qed.

Lemma view_shown w x : shown_by (H := h1) w d x = shown_by (H := h2) w d' x.
Proof. unfold shown_by. by rewrite view_can_lock, view_target. Qed.

(** The events for the compositors of a list of sessions. *)
Lemma view_events ev :
  concat (map (λ c, match SessionContext.compositor_conn c with
                    | Some conn => ConnRegistry.send_event conn ev (Daemon.registry d)
                    | None => [] end) (SessionManager.list (H := h1) (Daemon.sessions d))) ≡ₚ
  concat (map (λ c, match SessionContext.compositor_conn c with
                    | Some conn => ConnRegistry.send_event conn ev (Daemon.registry d')
                    | None => [] end) (SessionManager.list (H := h2) (Daemon.sessions d'))).
Proof.
  rewrite (view_registry _ _ Hview).
  assert (∀ l, map (λ c, match SessionContext.compositor_conn c with
      | Some conn => ConnRegistry.send_event conn ev (Daemon.registry d) | None => [] end) l =
    map (λ f : Session.t * option ConnId, match f.2 with
      | Some conn => ConnRegistry.send_event conn ev (Daemon.registry d) | None => [] end) (face <$> l)) as Hf.
  { intros l. change (map (B := ?B) ?g) with (fmap (M := list) (B := B) g). by rewrite <- list_fmap_compose. }
  rewrite !Hf. apply concat_map_perm, view_values.
Qed.

Lemma view_suspend w :
  (Daemon.suspend (H := h1) w d).1.1 ≡ₚ (Daemon.suspend (H := h2) w d').1.1 ∧
  (Daemon.suspend (H := h1) w d).1.2 = (Daemon.suspend (H := h2) w d').1.2.
Proof.
  unfold Daemon.suspend, Daemon.suspend_grace.
  rewrite (view_settings _ _ Hview), (view_backend _ _ Hview).
  destruct (InhibitorRegistry.blocks (H := h1) InhibitWhat.Suspend (LockManager.inhibitors (Daemon.locks d))) eqn:Hb.
  - rewrite (suspend_blocked (H := h1)) by done.
    rewrite (suspend_blocked (H := h2)); [done|]. by rewrite <- blocks_perm, (view_inhibitors _ _ Hview).
  - edestruct (suspend_effects (H := h1)) as (log1 & l1 & -> & Hlog1); [done|].
    edestruct (suspend_effects (H := h2)) as (log2 & l2 & -> & Hlog2); [by rewrite <- blocks_perm, (view_inhibitors _ _ Hview)|].
    simpl. split; [|done]. rewrite Hlog1, Hlog2. unfold notice. by rewrite view_events, (delay_perm _ _ _ _ (view_inhibitors _ _ Hview)).
Qed.

Lemma view_did w x : did_by (H := h1) w d x ≡ₚ did_by (H := h2) w d' x.
Proof.
  unfold did_by. destruct x.2; [done| | |apply view_suspend].
  - unfold Daemon.notify_active_compositor. rewrite (view_seats _ _ Hview).
    destruct (SeatManager.active_session _ _) as [[s|]|]; try done. pose proof (view_get s) as Hg.
    destruct (SessionManager.get s (Daemon.sessions d)), (SessionManager.get s (Daemon.sessions d')); try done.
    by rewrite (view_send _ _ _ Hg).
  - rewrite view_shown. induction (shown_by _ _ _) as [|s l IH]; [done|]. simpl. rewrite IH.
    pose proof (view_get s) as Hg.
    destruct (SessionManager.get s (Daemon.sessions d)), (SessionManager.get s (Daemon.sessions d')); try done.
    by rewrite (view_send _ _ _ Hg).
Qed.
End view.
End determinism.

(** The whole pass, from what the first seat reads. *)
Lemma on_stages_moved `{HashOrder} w l d :
  ∃ es ids shown,
    Daemon.on_stages w l d = (es, moved ids shown d) ∧
    es ≡ₚ concat (map (did_by w d) l) ∧
    ids ≡ₚ concat (map (locked_by w d) l) ∧ shown = concat (map (shown_by w d) l).
Proof.
  assert (∀ d', same_view d d' → ∃ es ids shown,
    Daemon.on_stages w l d' = (es, moved ids shown d') ∧
    es ≡ₚ concat (map (did_by w d) l) ∧
    ids ≡ₚ concat (map (locked_by w d) l) ∧ shown = concat (map (shown_by w d) l)) as Hall.
  2: { apply Hall, same_view_refl. }
  induction l as [|[seat stage] l IH]; intros d' Hv; simpl.
  { exists [], [], []. by rewrite moved_nil. }
  pose proof (on_stage_moved w d' (seat, stage)) as Hs. cbn [fst snd] in Hs. rewrite Hs.
  destruct (IH (moved (locked_by w d' (seat, stage)) (shown_by w d' (seat, stage)) d'))
    as (es & ids & shown & Heq & He & Hi & Hsh).
  { pose proof (moved_view (locked_by w d' (seat, stage)) (shown_by w d' (seat, stage)) d') as Hm.
    destruct Hv, Hm. split; congruence. }
  rewrite Heq, moved_moved. eexists _, _, _. split; [done|].
  rewrite He, Hi, Hsh, (view_did _ _ d d' Hv w (seat, stage)), (view_locked _ _ d d' Hv w (seat, stage)).
  by rewrite (view_shown _ _ d d' Hv w (seat, stage)).
Qed.

Section handlers.
Context (h1 h2 : HashOrder) `{SerdeJson} `{TomlSettings}.

Lemma on_stages_perm w l1 l2 d :
  l1 ≡ₚ l2 →
  (Daemon.on_stages (H := h1) w l1 d).1 ≡ₚ (Daemon.on_stages (H := h2) w l2 d).1 ∧
  (Daemon.on_stages (H := h1) w l1 d).2 = (Daemon.on_stages (H := h2) w l2 d).2.
Proof.
  intros Hl. destruct (on_stages_moved (H := h1) w l1 d) as (es1 & ids1 & sh1 & -> & He1 & Hi1 & Hs1).
  destruct (on_stages_moved (H := h2) w l2 d) as (es2 & ids2 & sh2 & -> & He2 & Hi2 & Hs2). simpl.
  pose proof (same_view_refl d) as Hv.
  assert (∀ {B} (f g : string * IdleStage.t → list B), (∀ x, f x ≡ₚ g x) →
    concat (map f l1) ≡ₚ concat (map g l2)) as Hc.
  { intros B f g Hfg. rewrite (concat_map_perm g _ _ (symmetry Hl)). clear -Hfg.
    induction l1 as [|x l IH]; [done|]. simpl. by rewrite Hfg, IH. }
  split.
  - rewrite He1, He2. apply Hc. intros x. by apply view_did.
  - rewrite (moved_order h1 h2). apply moved_perm.
    + rewrite Hi1, Hi2. apply Hc. intros x. by apply view_locked.
    + rewrite Hs1, Hs2. apply Hc. intros x. by rewrite (view_shown h1 h2 d d Hv).
Qed.

(** *** The arms of [dispatch] *)

Definition same_answer (x y : list Effect.t * Response.t * Daemon.t) : Prop :=
  same_effects x.1.1 y.1.1 ∧ same_response x.1.2 y.1.2 ∧ x.2 = y.2.

Lemma same_answer_refl x : same_answer x x.
Proof. split_and!; [apply same_effects_refl|constructor|done]. Qed.

Lemma same_answer_of es1 es2 r d : es1 ≡ₚ es2 → same_answer (es1, r, d) (es2, r, d).
Proof. intros. split_and!; [by apply same_effects_perm|constructor|done]. Qed.

(** A reply that may come later. *)
Definition same_reply (x y : list Effect.t * option Response.t) (d1 d2 : Daemon.t) : Prop :=
  same_effects x.1 y.1 ∧ option_Forall2 same_response x.2 y.2 ∧ d1 = d2.

Lemma notify_perm reason l1 l2 w d :
  l1 ≡ₚ l2 → Daemon.notify_all_abandoned reason l1 w d ≡ₚ Daemon.notify_all_abandoned reason l2 w d.
Proof. apply concat_map_perm. Qed.

Lemma lock_session_perm peer s reason w d :
  Daemon.lock_session (H := h1) peer s reason w d = Daemon.lock_session (H := h2) peer s reason w d.
Proof. unfold Daemon.lock_session. by rewrite (lock_perm h1 h2). Qed.

Lemma create_session_perm peer name seat ty w d :
  Daemon.create_session (H := h1) peer name seat ty w d = Daemon.create_session (H := h2) peer name seat ty w d.
Proof. unfold Daemon.create_session. destruct (User.by_name name w); [|done]. by rewrite (create_perm h1 h2). Qed.

Lemma start_elevation_perm conn peer s action w d :
  Daemon.start_elevation (H := h1) conn peer s action w d = Daemon.start_elevation (H := h2) conn peer s action w d.
Proof.
  unfold Daemon.start_elevation. repeat (case_match; try done). by rewrite (begin_perm h1 h2).
Qed.

Lemma terminate_session_perm peer s w d :
  same_answer (Daemon.terminate_session (H := h1) peer s w d) (Daemon.terminate_session (H := h2) peer s w d).
Proof.
  unfold Daemon.terminate_session. destruct (SessionManager.terminate_session s (Daemon.sessions d)) as [[calls r] ss].
  destruct r; [|apply same_answer_refl]. simpl. unfold ElevationManager.abandon_session.
  match goal with |- context [ElevationManager.abandon_where ?f ?m] => destruct (abandon_perm h1 h2 f m) as [Hl Hm] end.
  destruct (ElevationManager.abandon_where (H := h1) _ _) as [l1 m1], (ElevationManager.abandon_where (H := h2) _ _) as [l2 m2].
  simpl in *. subst m2. apply same_answer_of. by rewrite (notify_perm _ _ _ _ _ Hl).
Qed.

Lemma suspend_perm w d :
  (Daemon.suspend (H := h1) w d).1.1 ≡ₚ (Daemon.suspend (H := h2) w d).1.1 ∧
  (Daemon.suspend (H := h1) w d).1.2 = (Daemon.suspend (H := h2) w d).1.2 ∧
  (Daemon.suspend (H := h1) w d).2 = (Daemon.suspend (H := h2) w d).2.
Proof.
  destruct (view_suspend h1 h2 d d (same_view_refl d) w) as [He Hr]. split_and!; [done..|].
  destruct (on_stages_perm w [("", IdleStage.SuspendRequested)] [("", IdleStage.SuspendRequested)] d) as [_ Hd]; [done|].
  simpl in Hd. by destruct (Daemon.suspend (H := h1) w d) as [[? ?] ?], (Daemon.suspend (H := h2) w d) as [[? ?] ?].
Qed.

(** The kills of a shutdown, and the sessions after it. *)
Lemma kills_perm ss :
  (Power.terminate_all (Power.session_ids (H := h1) ss) ss).1 ≡ₚ (Power.terminate_all (Power.session_ids (H := h2) ss) ss).1 ∧
  (Power.terminate_all (Power.session_ids (H := h1) ss) ss).2 = (Power.terminate_all (Power.session_ids (H := h2) ss) ss).2.
Proof.
  apply terminate_all_perm. unfold Power.session_ids, SessionManager.list.
  change (map SessionContext.id) with (fmap (M := list) SessionContext.id). by rewrite (values_perm h1 h2).
Qed.

Lemma reboot_perm locks b grace w ss :
  (Power.reboot (H := h1) locks b grace w ss).1.1 ≡ₚ (Power.reboot (H := h2) locks b grace w ss).1.1 ∧
  (Power.reboot (H := h1) locks b grace w ss).1.2 = (Power.reboot (H := h2) locks b grace w ss).1.2 ∧
  (Power.reboot (H := h1) locks b grace w ss).2 = (Power.reboot (H := h2) locks b grace w ss).2.
Proof.
  unfold Power.reboot. rewrite (blocks_perm h1 h2), (delay_perm h1 h2 _ locks locks) by done.
  case_match; [done|]. destruct (kills_perm ss) as [Hk Hs].
  destruct (Power.terminate_all (Power.session_ids (H := h1) ss) ss), (Power.terminate_all (Power.session_ids (H := h2) ss) ss).
  destruct (backend_reboot b w). simpl in *. by rewrite Hk.
Qed.

Lemma poweroff_perm locks b grace w ss :
  (Power.poweroff (H := h1) locks b grace w ss).1.1 ≡ₚ (Power.poweroff (H := h2) locks b grace w ss).1.1 ∧
  (Power.poweroff (H := h1) locks b grace w ss).1.2 = (Power.poweroff (H := h2) locks b grace w ss).1.2 ∧
  (Power.poweroff (H := h1) locks b grace w ss).2 = (Power.poweroff (H := h2) locks b grace w ss).2.
Proof.
  unfold Power.poweroff. rewrite (blocks_perm h1 h2), (delay_perm h1 h2 _ locks locks) by done.
  case_match; [done|]. destruct (kills_perm ss) as [Hk Hs].
  destruct (Power.terminate_all (Power.session_ids (H := h1) ss) ss), (Power.terminate_all (Power.session_ids (H := h2) ss) ss).
  destruct (backend_poweroff b w). simpl in *. by rewrite Hk.
Qed.

(** Two answers of a request: both panic, or they agree. *)
Definition same_replies (x y : exec (list Effect.t * option Response.t * Daemon.t)) : Prop :=
  match x, y with
  | Done (es1, r1, d1), Done (es2, r2, d2) => same_reply (es1, r1) (es2, r2) d1 d2
  | Panicked, Panicked => True
  | _, _ => False
  end.

Lemma same_replies_refl x : same_replies x x.
Proof.
  destruct x as [[[es r] d]|]; [|done]. split_and!; [apply same_effects_refl| |done].
  destruct r; repeat constructor.
Qed.

Lemma same_replying x y : same_answer x y → same_replies (Daemon.replying x) (Daemon.replying y).
Proof.
  destruct x as [[es1 r1] d1], y as [[es2 r2] d2]. intros (? & ? & ?). split_and!; try done. by constructor.
Qed.

Lemma dispatch_perm conn peer req w d :
  same_replies (Daemon.dispatch (H := h1) conn peer req w d) (Daemon.dispatch (H := h2) conn peer req w d).
Proof.
  destruct req; try apply same_replies_refl; cbn [Daemon.dispatch].
  - rewrite create_session_perm. apply same_replies_refl.
  - apply same_replying, terminate_session_perm.
  - apply same_replying. split_and!; [apply same_effects_refl| |done]. constructor. simpl.
    change (map Daemon.session_info) with (fmap (M := list) Daemon.session_info).
    unfold SessionManager.list. by rewrite (values_perm h1 h2).
  - rewrite lock_session_perm. apply same_replies_refl.
  - apply same_replying. split_and!; [apply same_effects_refl| |done]. constructor. simpl.
    change (map Daemon.inhibitor_info) with (fmap (M := list) Daemon.inhibitor_info).
    unfold InhibitorRegistry.list. by rewrite (values_perm h1 h2).
  - destruct (suspend_perm w d) as (He & Hr & Hd).
    destruct (Daemon.suspend (H := h1) w d) as [[? ?] ?], (Daemon.suspend (H := h2) w d) as [[? ?] ?].
    cbn [fst snd] in *. subst. by apply same_replying, same_answer_of.
  - destruct (reboot_perm (Daemon.locks d) (Daemon.power_backend d) (Daemon.suspend_grace d) w (Daemon.sessions d))
      as (He & Hr & Hd).
    destruct (Power.reboot (H := h1) _ _ _ _ _) as [[? ?] ?], (Power.reboot (H := h2) _ _ _ _ _) as [[? ?] ?].
    cbn [fst snd] in *. subst. apply same_replying, same_answer_of. by apply fmap_Permutation.
  - destruct (poweroff_perm (Daemon.locks d) (Daemon.power_backend d) (Daemon.suspend_grace d) w (Daemon.sessions d))
      as (He & Hr & Hd).
    destruct (Power.poweroff (H := h1) _ _ _ _ _) as [[? ?] ?], (Power.poweroff (H := h2) _ _ _ _ _) as [[? ?] ?].
    cbn [fst snd] in *. subst. apply same_replying, same_answer_of. by apply fmap_Permutation.
  - rewrite start_elevation_perm. apply same_replies_refl.
Qed.

(** *** The events *)

Lemma handle_command_perm cmd w d :
  same_outcome eq (Daemon.handle_command (H := h1) cmd w d) (Daemon.handle_command (H := h2) cmd w d).
Proof.
  unfold Daemon.handle_command. destruct (Policy.authorize _ _ _ _ _ _).
  2: { split; [apply same_effects_refl|done]. }
  pose proof (dispatch_perm (ManagerCommand.conn_id cmd) (ManagerCommand.peer cmd) (ManagerCommand.request cmd) w d) as Hs.
  destruct (Daemon.dispatch (H := h1) _ _ _ _ _) as [[[es1 r1] d1]|],
    (Daemon.dispatch (H := h2) _ _ _ _ _) as [[[es2 r2] d2]|]; try done.
  destruct Hs as (He & Hr & <-). simpl in *. split; [|done]. apply same_effects_app; [done|].
  destruct Hr as [r1 r2 Hrr|]; [|apply same_effects_refl].
  unfold ConnRegistry.send_response, ConnRegistry.send. case_match; [|apply same_effects_refl].
  eexists. split; [done|]. by repeat constructor.
Qed.

Lemma disconnected_perm conn w d :
  (Daemon.disconnected (H := h1) conn w d).1 ≡ₚ (Daemon.disconnected (H := h2) conn w d).1 ∧
  (Daemon.disconnected (H := h1) conn w d).2 = (Daemon.disconnected (H := h2) conn w d).2.
Proof.
  unfold Daemon.disconnected, ElevationManager.abandon_connection.
  match goal with |- context [ElevationManager.abandon_where ?f ?m] => destruct (abandon_perm h1 h2 f m) as [Hl Hm] end.
  destruct (ElevationManager.abandon_where (H := h1) _ _) as [l1 m1], (ElevationManager.abandon_where (H := h2) _ _) as [l2 m2].
  cbn [fst snd] in *. subst m2. split; [by apply notify_perm|done].
Qed.

Lemma on_idle_tick_perm w d :
  (Daemon.on_idle_tick (H := h1) w d).1 ≡ₚ (Daemon.on_idle_tick (H := h2) w d).1 ∧
  (Daemon.on_idle_tick (H := h1) w d).2 = (Daemon.on_idle_tick (H := h2) w d).2.
Proof.
  unfold Daemon.on_idle_tick.
  destruct (tick_perm h1 h2 (w_now w) (IdlePolicy.from (Settings.idle (Daemon.settings d))) (Daemon.idle d)) as [Hc Hi].
  destruct (IdleDetector.tick (H := h1) _ _ _) as [ch1 i1], (IdleDetector.tick (H := h2) _ _ _) as [ch2 i2].
  cbn [fst snd] in *. subst i2. destruct (on_stages_perm w ch1 ch2 (Daemon.with_idle i1 d) Hc) as [He Hd].
  destruct (Daemon.on_stages (H := h1) _ _ _) as [es1 d1], (Daemon.on_stages (H := h2) _ _ _) as [es2 d2].
  cbn [fst snd] in *. subst d2. rewrite (sweep_perm h1 h2). cbn [Daemon.elevation Daemon.with_locks Daemon.with_elevation].
  rewrite (clear_expired_perm h1 h2).
  match goal with |- context [ElevationManager.expire_pending ?n ?m] => destruct (expire_perm h1 h2 n m) as [Hl Hm] end.
  destruct (ElevationManager.expire_pending (H := h1) _ _) as [l1 m1], (ElevationManager.expire_pending (H := h2) _ _) as [l2 m2].
  cbn [fst snd] in *. subst m2. split; [|done]. by rewrite He, (notify_perm _ _ _ _ _ Hl).
Qed.
End handlers.

(** *** The children that have exited *)

(** At most one session has [pid] for its compositor: the kernel gives no two
    children that have not been waited for the same id. *)
Definition one_compositor (pid : Pid) (d : Daemon.t) : Prop :=
  ∀ k1 k2 c1 c2,
    SessionManager.sessions (Daemon.sessions d) !! k1 = Some c1 → SessionContext.compositor_process c1 = Some pid →
    SessionManager.sessions (Daemon.sessions d) !! k2 = Some c2 → SessionContext.compositor_process c2 = Some pid →
    k1 = k2.

(** So for every child the loop of [reap_children] is told of. *)
Fixpoint reaps_one `{HashOrder} (statuses : list (WaitStatus.t * World)) (d : Daemon.t) : Prop :=
  match statuses with
  | [] | (WaitStatus.StillAlive, _) :: _ | (WaitStatus.Failed, _) :: _ => True
  | (WaitStatus.NoPid, _) :: rest => reaps_one rest d
  | (WaitStatus.Reaped pid, w) :: rest =>
      one_compositor pid d ∧ reaps_one rest (Daemon.handle_compositor_exit pid w d).2
  end.

Definition signals_one `{HashOrder} (i : Daemon.input) (d : Daemon.t) : Prop :=
  match i with
  | Daemon.Signalled _ statuses => reaps_one statuses d
  | _ => True
  end.

(** And for every signal of a run. *)
Fixpoint all_one `{HashOrder} `{TomlSettings} (l : list (Daemon.input * World)) (d : Daemon.t) : Prop :=
  match l with
  | [] => True
  | (i, w) :: l' =>
      signals_one i d ∧
      match Daemon.handle i w d with
      | Done (_, d') => all_one l' d'
      | Panicked => True
      end
  end.

Section runs.
Context (h1 h2 : HashOrder) `{SerdeJson} `{TomlSettings}.

Lemma find_compositor_perm pid d :
  one_compositor pid d →
  Daemon.find_compositor (H := h1) pid (Daemon.sessions d) = Daemon.find_compositor (H := h2) pid (Daemon.sessions d).
Proof.
  intros Hone. unfold Daemon.find_compositor.
  destruct (list_find _ (hash_entries (HashOrder := h1) _)) as [[i1 [k1 c1]]|] eqn:E1,
    (list_find _ (hash_entries (HashOrder := h2) _)) as [[i2 [k2 c2]]|] eqn:E2; try done; simpl.
  - apply list_find_Some in E1 as (E1%list_elem_of_lookup_2 & P1 & _).
    apply list_find_Some in E2 as (E2%list_elem_of_lookup_2 & P2 & _).
    rewrite hash_entries_perm, elem_of_map_to_list in E1.
    rewrite hash_entries_perm, elem_of_map_to_list in E2. simpl in P1, P2.
    pose proof (Hone _ _ _ _ E1 P1 E2 P2). subst. congruence.
  - apply list_find_Some in E1 as (E1%list_elem_of_lookup_2 & P1 & _). rewrite (entries_perm h1 h2) in E1.
    apply list_find_None in E2. rewrite Forall_forall in E2. by destruct (E2 _ E1).
  - apply list_find_Some in E2 as (E2%list_elem_of_lookup_2 & P2 & _). rewrite (entries_perm h2 h1) in E2.
    apply list_find_None in E1. rewrite Forall_forall in E1. by destruct (E1 _ E2).
Qed.

Lemma reap_perm statuses d :
  reaps_one (H := h1) statuses d →
  Daemon.reap_children (H := h1) statuses d = Daemon.reap_children (H := h2) statuses d.
Proof.
  revert d. induction statuses as [|[st w] rest IH]; intros d; simpl; [done|].
  destruct st as [| |pid|]; try done; [|apply IH]. intros [Hone Hrest].
  assert (Daemon.handle_compositor_exit (H := h1) pid w d = Daemon.handle_compositor_exit (H := h2) pid w d) as Heq.
  { unfold Daemon.handle_compositor_exit. by rewrite (find_compositor_perm _ _ Hone). }
  rewrite <- Heq. destruct (Daemon.handle_compositor_exit (H := h1) pid w d). simpl in *. by rewrite (IH _ Hrest).
Qed.

Lemma handle_perm i w d :
  signals_one (H := h1) i d →
  same_outcome eq (Daemon.handle (H := h1) i w d) (Daemon.handle (H := h2) i w d).
Proof.
  intros Hone. destruct i as [msg| |s statuses]; cbn [Daemon.handle].
  - destruct msg as [conn peer outbox|cmd|conn]; cbn [Daemon.handle_ipc].
    + split; [apply same_effects_refl|done].
    + apply handle_command_perm.
    + destruct (disconnected_perm h1 h2 conn w d) as [He Hd].
      destruct (Daemon.disconnected (H := h1) conn w d), (Daemon.disconnected (H := h2) conn w d).
      split; [by apply same_effects_perm|done].
  - destruct (on_idle_tick_perm h1 h2 w d) as [He Hd].
    destruct (Daemon.on_idle_tick (H := h1) w d), (Daemon.on_idle_tick (H := h2) w d).
    split; [by apply same_effects_perm|done].
  - destruct (SignalEvent.classify s) as [[| |]|]; cbn [Daemon.on_signal].
    + unfold Power.graceful_shutdown. destruct (kills_perm h1 h2 (Daemon.sessions d)) as [Hk Hs].
      destruct (Power.terminate_all (Power.session_ids (H := h1) _) _), (Power.terminate_all (Power.session_ids (H := h2) _) _).
      cbn [fst snd] in *. subst. destruct (w_exists _ _); simpl; (split; [|done]); apply same_effects_perm, perm_skip;
        apply fmap_Permutation; by rewrite Hk.
    + split; [apply same_effects_refl|done].
    + rewrite (reap_perm _ _ Hone). destruct (Daemon.reap_children (H := h2) _ _). split; [apply same_effects_refl|done].
    + split; [apply same_effects_refl|done].
Qed.

Lemma handle_all_perm l d :
  all_one (H := h1) l d →
  same_outcome eq (Daemon.handle_all (H := h1) l d) (Daemon.handle_all (H := h2) l d).
Proof.
  revert d. induction l as [|[i w] l IH]; intros d; simpl.
  { intros _. split; [apply same_effects_refl|done]. }
  intros [Hone Hrest]. pose proof (handle_perm i w d Hone) as Hh.
  destruct (Daemon.handle (H := h1) i w d) as [[es1 d1]|], (Daemon.handle (H := h2) i w d) as [[es2 d2]|]; try done.
  destruct Hh as [He <-]. specialize (IH _ Hrest). simpl.
  destruct (Daemon.handle_all (H := h1) l d1) as [[es1' d1']|], (Daemon.handle_all (H := h2) l d1) as [[es2' d2']|]; try done.
  destruct IH as [He' <-]. simpl. split; [by apply same_effects_app|done].
Qed.
End runs.
