(* ===== verification/DaemonSettings.v ===== *)
(** * DaemonSettings: when the settings change

    The settings are read at the start and on SIGHUP, and by no other event. *)

From stdpp Require Import base gmap strings pretty numbers list.
From S2P Require Import Prelude Errors System Config User Session Seat Auth Lock Idle Elevation.
From S2P Require Import Ipc Policy Launcher Power Daemon DaemonInv DaemonSafety DaemonPrompts Determinism.

Section settings.
Context `{HashOrder} `{SerdeJson} `{TomlSettings}.
Implicit Types (d : Daemon.t).

Lemma dispatch_settings conn peer req w d es r d' :
  Daemon.dispatch conn peer req w d = Done (es, r, d') → Daemon.settings d' = Daemon.settings d.
Proof.
  unfold Daemon.dispatch, Daemon.replying. intros Hd. destruct req; try (by simplify_eq).
  - unfold Daemon.create_session in Hd. destruct (User.by_name _ _); [|by simplify_eq].
    destruct (SessionManager.create_session _ _ _ _ _ _) as [[calls [id|e]] ss]; [|by simplify_eq].
    case_decide; [|by simplify_eq].
    match goal with Hd : context [Daemon.try_spawn_compositor ?i ?w ?d0] |- _ =>
      pose proof (try_spawn_frame i w d0) as (_ & _ & _ & _ & Hs & _); destruct (Daemon.try_spawn_compositor i w d0) end.
    by simplify_eq.
  - unfold Daemon.terminate_session in Hd.
    destruct (SessionManager.terminate_session _ _) as [[calls [[]|e]] ss]; [|by simplify_eq].
    destruct (ElevationManager.abandon_session _ _) as [ab e]. by simplify_eq.
  - unfold Daemon.register_compositor in Hd. repeat case_match; by simplify_eq.
  - unfold Daemon.lock_session in Hd. destruct (Daemon.cannot_lock _ _ _); [by simplify_eq|].
    destruct (LockManager.lock _ _ _) as [[[]|e] l]; [|by simplify_eq].
    match goal with Hd : context [Daemon.transition_and_tell ?a ?b ?c ?d0] |- _ =>
      pose proof (tell_frame a b c d0) as (_ & _ & _ & _ & Hs & _); destruct (Daemon.transition_and_tell a b c d0) end.
    by simplify_eq.
  - apply exec_bind_Done in Hd as ([[es1 r1] d1] & Hu & Hd). simplify_eq.
    apply exec_bind_Done in Hu as ([o l] & _ & Hu). destruct o; simplify_eq/=; try done.
    match goal with Hd : context [Daemon.transition_and_tell ?a ?b ?c ?d0] |- _ =>
      pose proof (tell_frame a b c d0) as (_ & _ & _ & _ & Hs & _); destruct (Daemon.transition_and_tell a b c d0) end.
    by simplify_eq.
  - destruct (SeatManager.switch_active _ _ _) as [[] ss]; by simplify_eq.
  - by destruct (LockManager.add_inhibitor _ _ _ _ _); simplify_eq.
  - by destruct (LockManager.release_inhibitor _ _); simplify_eq.
  - unfold Daemon.suspend in Hd. by destruct (Power.suspend _ _ _ _ _ _ _) as [[? ?] ?]; simplify_eq.
  - by destruct (Power.reboot _ _ _ _ _) as [[? ?] ?]; simplify_eq.
  - by destruct (Power.poweroff _ _ _ _ _) as [[? ?] ?]; simplify_eq.
  - unfold Daemon.start_elevation in Hd. repeat case_match; try by simplify_eq.
    apply exec_bind_Done in Hd as ([x e] & _ & Hd). by repeat case_match; simplify_eq.
  - apply exec_bind_Done in Hd as ([[es1 r1] d1] & Hu & Hd). simplify_eq. unfold Daemon.respond_elevation in Hu.
    case_match; [|by simplify_eq]. apply exec_bind_Done in Hu as (x & _ & Hu). by repeat case_match; simplify_eq.
Qed.

(** Only a reload changes the settings. *)
Definition reloads (i : Daemon.input) : bool :=
  match i with Daemon.Signalled Signal.SIGHUP _ => true | _ => false end.

Lemma handle_settings i w d es d' :
  Daemon.handle i w d = Done (es, d') → reloads i = false → Daemon.settings d' = Daemon.settings d.
Proof.
  destruct i as [[conn peer ob|[conn peer req]|conn]| |sig statuses]; simpl; intros Hh Hr.
  - by simplify_eq.
  - unfold Daemon.handle_command in Hh. destruct (Policy.authorize _ _ _ _ _ _); [|by simplify_eq].
    apply exec_bind_Done in Hh as ([[es1 r1] d1] & Hd & Hh). simplify_eq. by eapply dispatch_settings.
  - unfold Daemon.disconnected in Hh. destruct (ElevationManager.abandon_connection _ _). by simplify_eq.
  - injection Hh as Hh. unfold Daemon.on_idle_tick in Hh. destruct (IdleDetector.tick _ _ _) as [changes idle].
    destruct (on_stages_moved w changes (Daemon.with_idle idle d)) as (es1 & ids & shown & Hm & _). rewrite Hm in Hh.
    destruct (ElevationManager.expire_pending _ _) as [ab e]. by simplify_eq.
  - destruct sig; try done; injection Hh as Hh.
    all: try (destruct (Power.graceful_shutdown _ _ _) as [[? ?] ?]; by simplify_eq).
    + pose proof (reap_frame statuses d) as (_ & _ & _ & Hs). by rewrite Hh in Hs.
    + by simplify_eq.
Qed.

End settings.
