(* ===== verification/Locking.v ===== *)
(** * Locking: the lock of a session as a machine of its own

    The lock table of the daemon is written by four handlers (a lock request, an
    unlock request, a suspend, an idle tick) on behalf of every session.  Seen
    from one session it is a small machine: it is told to lock, it is given a
    password, the clock goes on.  [LockSpec] is that machine; the lemmas show
    that every event of the daemon is, for every session, the actions
    [LockSpec.actions] lists, in that order, and nothing else. *)

From stdpp Require Import base gmap strings pretty numbers list.
From S2P Require Import Prelude Errors System Config User Session Seat Auth Timers Lock Idle Elevation.
From S2P Require Import Ipc Policy Launcher Power Daemon DaemonInv DaemonSafety Determinism DaemonSettings.

Module LockSpec.
(** The state of a lock, the wrong passwords in a row, and the end of the
    lockout, if one is being timed. *)
Record t := mk {
  state : LockState.t;
  attempts : N;
  countdown : option Instant
}.

Inductive action : Type :=
| Lock
| Password (ok : bool) (max_attempts : N) (until : Instant)
| Clock (now : Instant).

Definition step (x : t) (a : action) : t :=
  match a with
  | Lock => mk LockState.Locked (attempts x) (countdown x)
  | Password ok max_attempts until =>
      if decide (state x = LockState.LockedOut) then x
      else if ok then mk LockState.Unlocked 0 (countdown x)
      else
        let n := u32_add (attempts x) 1 in
        if decide (n < max_attempts)%N then mk (state x) n (countdown x)
        else mk LockState.LockedOut n (Some until)
  | Clock now =>
      match countdown x with
      | Some t =>
          if decide (t ≤ now)%N then
            if decide (state x = LockState.LockedOut) then mk LockState.Locked 0 None
            else mk (state x) (attempts x) None
          else x
      | None => x
      end
  end.

(** The lock of a session in the daemon. *)
Definition of_manager (s : SessionId) (m : LockManager.t) : t :=
  let l := LockManager.entry s m in
  mk (SessionLock.state l) (SessionLock.attempts l) (LockTimeouts.lockout_expiry (LockManager.timeouts m) !! s).
Definition of_daemon (s : SessionId) (d : Daemon.t) : t := of_manager s (Daemon.locks d).

Section actions.
Context `{HashOrder}.

(** A request to lock is followed when locking is on and not inhibited. *)
Definition lock_if (d : Daemon.t) (wanted : bool) : list action :=
  if wanted && can_lock d then [Lock] else [].

(** What an accepted request means for the lock of session [s]. *)
Definition of_request (s : SessionId) (req : Request.t) (w : World) (d : Daemon.t) : list action :=
  match req with
  | Request.LockSession s' => lock_if d (bool_decide (s' = s) && negb (Daemon.cannot_lock s w d))
  | Request.Unlock s' u p =>
      if decide (s' = s) then
        let policy := Policy.auth_policy (Settings.authentication (Daemon.settings d))
                        (Settings.lock (Daemon.settings d)) in
        [Password (accepts (Daemon.auth d w) (AuthRequest.mk s u p)) (AuthPolicy.max_attempts policy)
           (w_now w + AuthPolicy.lockout policy)]
      else []
  | Request.Suspend => lock_if d (bool_decide (s ∈ locked_by w d ("", IdleStage.SuspendRequested)))
  | _ => []
  end.

(** What an event means for it. *)
Definition actions (s : SessionId) (i : Daemon.input) (w : World) (d : Daemon.t) : list action :=
  match i with
  | Daemon.Ipc (ManagerMessage.Command cmd) =>
      match Policy.authorize (ManagerCommand.peer cmd) (ManagerCommand.conn_id cmd) (ManagerCommand.request cmd)
              (Daemon.sessions d) (Daemon.elevation d) w with
      | Ok _ => of_request s (ManagerCommand.request cmd) w d
      | Err _ => []
      end
  | Daemon.IdleTick =>
      let changes := (IdleDetector.tick (w_now w) (IdlePolicy.from (Settings.idle (Daemon.settings d)))
                        (Daemon.idle d)).1 in
      lock_if d (bool_decide (s ∈ concat (map (locked_by w d) changes))) ++ [Clock (w_now w)]
  | _ => []
  end.
End actions.

Definition run (x : t) (l : list action) : t := foldl step x l.

(** What a sequence of events means for it, from daemon [d] on. *)
Fixpoint history `{HashOrder} `{TomlSettings} (s : SessionId) (l : list (Daemon.input * World)) (d : Daemon.t)
    : list action :=
  match l with
  | [] => []
  | (i, w) :: l' =>
      actions s i w d ++
      match Daemon.handle i w d with
      | Done (_, d') => history s l' d'
      | Panicked => []
      end
  end.

(** A lock nobody has touched. *)
Definition init : t := mk LockState.Unlocked 0 None.

(** ** Counting guesses *)

(** A wrong password that was looked at. *)
Definition wrong (x : t) (a : action) : N :=
  match a with
  | Password false _ _ => if decide (state x = LockState.LockedOut) then 0 else 1
  | _ => 0
  end.
(** What takes the counter back to zero: a right password, the end of a lockout. *)
Definition resets (x : t) (a : action) : N :=
  match a with
  | Password true _ _ => if decide (state x = LockState.LockedOut) then 0 else 1
  | Clock now =>
      match countdown x with
      | Some t => if decide (t ≤ now ∧ state x = LockState.LockedOut)%N then 1 else 0
      | None => 0
      end
  | _ => 0
  end.
(** Being told to lock during a lockout, which lifts it. *)
Definition relocks (x : t) (a : action) : N :=
  match a with
  | Lock => if decide (state x = LockState.LockedOut) then 1 else 0
  | _ => 0
  end.

Section limits.
Context (max_attempts : N).

Definition obeys (a : action) : Prop :=
  match a with Password _ m _ => m = max_attempts | _ => True end.
(** The wrong passwords looked at between two resets: even a limit of none lets one
    be tried. *)
Definition guesses : N := N.max 1 max_attempts.
Definition guesses_left (x : t) : N :=
  if decide (state x = LockState.LockedOut) then 0 else N.max 1 (guesses - attempts x).
(** With [n] steps to go the counter does not wrap. *)
Definition within (n : nat) (x : t) : Prop :=
  is_u32 (attempts x + N.of_nat n) ∧ (state x = LockState.LockedOut → (max_attempts ≤ attempts x)%N).
End limits.
End LockSpec.

(** A wrong password uses up a guess; a reset gives all of them back, and a relock
    one. *)
Lemma lock_step_within ma n x a :
  LockSpec.obeys ma a → LockSpec.within ma (S n) x →
  LockSpec.within ma n (LockSpec.step x a) ∧
  (LockSpec.wrong x a + LockSpec.guesses_left ma (LockSpec.step x a) ≤
   LockSpec.guesses_left ma x + (LockSpec.resets x a * LockSpec.guesses ma + LockSpec.relocks x a))%N.
Proof.
  unfold LockSpec.within, LockSpec.guesses_left, LockSpec.guesses, is_u32. destruct x as [st k cd]. simpl.
  intros Ha [Hk Hlo]. destruct a as [|ok m until|now]; simpl in *.
  - repeat case_decide; simplify_eq; split; try split; try done; try lia.
    assert (ma ≤ k)%N by auto. lia.
  - subst m. destruct (decide (st = LockState.LockedOut)) as [->|Hst]; simpl.
    { rewrite ?decide_True by done. split; [split; [lia|done]|destruct ok; lia]. }
    rewrite ?(decide_False (P := st = LockState.LockedOut)) by done.
    destruct ok; simpl; [split; [split; [lia|done]|lia]|].
    rewrite u32_add_small by (unfold is_u32; lia). case_decide; simpl.
    + rewrite ?decide_False by done. split; [split; [lia|done]|lia].
    + rewrite ?decide_True by done. split; [split; [lia|lia]|lia].
  - destruct cd as [t|]; simpl; [|split; [split; [lia|done]|lia]].
    repeat case_decide; simpl; destruct_and?; simplify_eq; try (split; [split; [lia|done]|]); try done; try lia; tauto.
Qed.

Lemma concat_map_elem {A B} (f : A → list B) l y : y ∈ concat (map f l) ↔ ∃ x, x ∈ l ∧ y ∈ f x.
Proof.
  induction l as [|x l IH]; simpl; [set_solver|]. rewrite elem_of_app, IH. set_solver.
Qed.

Section locking.
Context `{HashOrder} `{SerdeJson} `{TomlSettings}.
Implicit Types (d : Daemon.t) (s : SessionId).

(** ** The lock manager *)

(** Locking a list of sessions, under the policy of [d], is one [Lock] for each. *)
Lemma lock_all_spec s ids d :
  LockSpec.of_manager s (lock_all (policy_of d) ids (Daemon.locks d)) =
  LockSpec.run (LockSpec.of_daemon s d) (LockSpec.lock_if d (bool_decide (s ∈ ids))).
Proof.
  unfold LockSpec.of_daemon, LockSpec.lock_if, can_lock. generalize (Daemon.locks d) as m.
  induction ids as [|i ids IH]; intros m; [by rewrite bool_decide_false by set_solver|].
  change (lock_all (policy_of d) (i :: ids) m) with
    (lock_all (policy_of d) ids (LockManager.lock i (policy_of d) m).2). rewrite IH, lock_inhibitors. unfold LockManager.lock.
  destruct (LockPolicy.enabled _), (InhibitorRegistry.blocks _ _); simpl; rewrite ?andb_false_r; try done.
  rewrite !andb_true_r. unfold LockSpec.of_manager, LockManager.entry. simpl. rewrite lookup_insert.
  repeat case_bool_decide; case_decide; set_unfold; subst; naive_solver.
Qed.

Lemma sweep_timeouts now m s :
  LockTimeouts.lockout_expiry (LockManager.timeouts (LockManager.sweep_lockouts now m)) !! s =
  match LockTimeouts.lockout_expiry (LockManager.timeouts m) !! s with
  | Some t => if decide (t ≤ now)%N then None else Some t
  | None => None
  end.
Proof.
  unfold LockManager.sweep_lockouts, LockTimeouts.expired_lockouts.
  pose proof (drain_rest (LockTimeouts.lockout_expiry (LockManager.timeouts m)) now s) as Hl.
  destruct (Timers.drain_expired _ now) as [ids rest].
  match goal with |- context [foldl _ ?m0 ids] =>
    destruct (foldl_clear_lockout ids m0 s) as (_ & _ & ->) end. exact Hl.
Qed.

Lemma sweep_spec now m s :
  LockSpec.of_manager s (LockManager.sweep_lockouts now m) =
  LockSpec.step (LockSpec.of_manager s m) (LockSpec.Clock now).
Proof.
  unfold LockSpec.of_manager, LockManager.entry. rewrite sweep_timeouts, sweep_lookup. simpl.
  destruct (LockTimeouts.lockout_expiry _ !! s) as [t|]; [|done]. case_decide; [|done].
  destruct (LockManager.locks m !! s) as [[[] n]|]; done.
Qed.

Lemma attempt_spec a r p now m o m' s :
  LockManager.attempt_unlock a r p now m = Done (o, m') →
  LockSpec.of_manager s m' =
  LockSpec.run (LockSpec.of_manager s m)
    (if decide (AuthRequest.session_id r = s)
     then [LockSpec.Password (accepts a r) (AuthPolicy.max_attempts p) (now + AuthPolicy.lockout p)] else []).
Proof.
  intros Ha. case_decide as Hs.
  - subst s. unfold LockManager.attempt_unlock, accepts, Auth.check in *. simpl.
    case_bool_decide as Hlo.
    { simplify_eq. unfold LockSpec.of_manager. simpl. rewrite decide_True by done.
      unfold LockManager.with_entry, LockManager.entry. simpl. rewrite lookup_insert_eq. done. }
    rewrite decide_False by done. destruct (authenticate a r).
    { simplify_eq/=. unfold LockSpec.of_manager, LockManager.entry. simpl. by rewrite lookup_insert_eq. }
    simpl. destruct (N.leb_spec (AuthPolicy.max_attempts p)
      (u32_add (SessionLock.attempts (LockManager.entry (AuthRequest.session_id r) m)) 1)).
    + rewrite decide_False by lia. unfold LockTimeouts.start_lockout in Ha.
      destruct (instant_add _ _) eqn:Hi; simplify_eq/=. apply instant_add_Done in Hi as ->.
      unfold LockSpec.of_manager, LockManager.entry. simpl. by rewrite !lookup_insert_eq.
    + rewrite decide_True by lia. simplify_eq/=. unfold LockSpec.of_manager, LockManager.entry. simpl.
      by rewrite !lookup_insert_eq.
  - simpl. unfold LockManager.attempt_unlock, LockTimeouts.start_lockout in Ha.
    unfold LockSpec.of_manager, LockManager.entry.
    repeat case_match; simplify_eq/=; rewrite ?lookup_insert_ne by done; try done.
    destruct (instant_add _ _); simplify_eq/=. by rewrite !lookup_insert_ne by done.
Qed.

(** ** The handlers *)

Lemma of_daemon_same s d d' : Daemon.locks d' = Daemon.locks d → LockSpec.of_daemon s d' = LockSpec.of_daemon s d.
Proof. unfold LockSpec.of_daemon. by intros ->. Qed.

Lemma moved_spec s ids shown d :
  LockSpec.of_daemon s (moved ids shown d) =
  LockSpec.run (LockSpec.of_daemon s d) (LockSpec.lock_if d (bool_decide (s ∈ ids))).
Proof. apply lock_all_spec. Qed.

Lemma lock_session_spec s peer s' reason w d :
  LockSpec.of_daemon s (Daemon.lock_session peer s' reason w d).2 =
  LockSpec.run (LockSpec.of_daemon s d) (LockSpec.of_request s (Request.LockSession s') w d).
Proof.
  unfold Daemon.lock_session. simpl. destruct (Daemon.cannot_lock s' w d) eqn:Hc.
  { case_bool_decide; [subst; by rewrite Hc|done]. }
  assert (LockSpec.lock_if d (bool_decide (s' = s) && negb (Daemon.cannot_lock s w d)) =
    LockSpec.lock_if d (bool_decide (s ∈ [s']))) as ->.
  { f_equal. case_bool_decide; [subst; rewrite Hc|]; simpl; symmetry;
      [apply bool_decide_eq_true|apply bool_decide_eq_false]; set_solver. }
  rewrite <- lock_all_spec. unfold lock_all. cbn [foldl]. fold (policy_of d).
  destruct (LockManager.lock s' (policy_of d) (Daemon.locks d)) as [[[]|e] l] eqn:Hl; [|done].
  pose proof (tell_frame s' SessionState.Locked (Event.ShowLockScreen s' reason) (Daemon.with_locks l d)) as [Hf _].
  destruct (Daemon.transition_and_tell _ _ _ _) as [sent d1]. simpl in *. unfold LockSpec.of_daemon. by rewrite Hf.
Qed.

Lemma unlock_spec s peer s' u p w d es r d' :
  Daemon.unlock peer s' u p w d = Done (es, r, d') →
  LockSpec.of_daemon s d' =
  LockSpec.run (LockSpec.of_daemon s d) (LockSpec.of_request s (Request.Unlock s' u p) w d).
Proof.
  unfold Daemon.unlock. intros ([o l] & Ha & Hu)%exec_bind_Done.
  apply (attempt_spec _ _ _ _ _ _ _ s) in Ha. simpl in Ha.
  assert (Daemon.locks d' = l) as Hl.
  { destruct o; simplify_eq/=; try done.
    pose proof (tell_frame s' SessionState.Active (Event.HideLockScreen s') (Daemon.with_locks l d)) as [Hf _].
    destruct (Daemon.transition_and_tell _ _ _ _). by simplify_eq/=. }
  unfold LockSpec.of_daemon. rewrite Hl, Ha. simpl. case_decide; [by subst|done].
Qed.

Lemma suspend_spec s w d :
  LockSpec.of_daemon s (Daemon.suspend w d).2 =
  LockSpec.run (LockSpec.of_daemon s d) (LockSpec.of_request s Request.Suspend w d).
Proof.
  pose proof (on_stage_moved w d ("", IdleStage.SuspendRequested)) as Hm. simpl in Hm.
  destruct (Daemon.suspend w d) as [[es r] d']. injection Hm as _ ->. apply moved_spec.
Qed.

Lemma dispatch_spec s conn peer req w d es r d' :
  Daemon.dispatch conn peer req w d = Done (es, r, d') →
  LockSpec.of_daemon s d' = LockSpec.run (LockSpec.of_daemon s d) (LockSpec.of_request s req w d).
Proof.
  intros Hd. destruct (about_locks req) eqn:Ha.
  - unfold Daemon.dispatch, Daemon.replying in Hd. destruct req; try done.
    + rewrite <- (lock_session_spec s peer session_id LockReason.Manual).
      destruct (Daemon.lock_session _ _ _ _ _) as [[? ?] ?]. by simplify_eq.
    + apply exec_bind_Done in Hd as ([[? ?] ?] & Hu & Hd). simplify_eq. by eapply unlock_spec.
    + rewrite <- suspend_spec. destruct (Daemon.suspend w d) as [[? ?] ?]. by simplify_eq.
  - destruct (dispatch_locks _ _ _ _ _ _ _ _ Hd Ha) as [Hl Ht].
    unfold LockSpec.of_daemon, LockSpec.of_manager, LockManager.entry. rewrite Hl, Ht. by destruct req.
Qed.

Lemma idle_tick_spec s w d :
  LockSpec.of_daemon s (Daemon.on_idle_tick w d).2 =
  LockSpec.run (LockSpec.of_daemon s d) (LockSpec.actions s Daemon.IdleTick w d).
Proof.
  unfold Daemon.on_idle_tick. cbn [LockSpec.actions]. destruct (IdleDetector.tick _ _ _) as [changes idle]. cbn [fst].
  destruct (on_stages_moved w changes (Daemon.with_idle idle d)) as (es & ids & shown & -> & _ & Hi & _).
  destruct (ElevationManager.expire_pending _ _) as [ab e]. cbn [fst snd].
  unfold LockSpec.run. rewrite foldl_app. fold (LockSpec.run (LockSpec.of_daemon s d)).
  assert (bool_decide (s ∈ concat (map (locked_by w d) changes)) = bool_decide (s ∈ ids)) as ->.
  { apply bool_decide_ext. rewrite Hi. done. }
  transitivity (LockSpec.step (LockSpec.of_daemon s (moved ids shown (Daemon.with_idle idle d)))
    (LockSpec.Clock (w_now w))).
  - apply sweep_spec.
  - by rewrite moved_spec.
Qed.

(** Every event, for every session. *)
Lemma handle_spec s i w d es d' :
  Daemon.handle i w d = Done (es, d') →
  LockSpec.of_daemon s d' = LockSpec.run (LockSpec.of_daemon s d) (LockSpec.actions s i w d).
Proof.
  destruct i as [[conn peer ob|[conn peer req]|conn]| |sig statuses]; intros Hh; simpl in Hh.
  - by simplify_eq.
  - unfold Daemon.handle_command in Hh. simpl in *. destruct (Policy.authorize _ _ _ _ _ _) as [[]|e].
    2: { by simplify_eq. }
    apply exec_bind_Done in Hh as ([[es1 r1] d1] & Hd & Hh). simplify_eq. by eapply dispatch_spec.
  - unfold Daemon.disconnected in Hh. destruct (ElevationManager.abandon_connection _ _). by simplify_eq.
  - injection Hh as Hh. rewrite <- idle_tick_spec, Hh. done.
  - destruct (SignalEvent.classify sig) as [ev|]; injection Hh as Hh; [|by simplify_eq].
    apply of_daemon_same. pose proof (signal_frame ev statuses w d) as (Hf & _). by rewrite Hh in Hf.
Qed.

Lemma handle_all_spec s l d es d' :
  Daemon.handle_all l d = Done (es, d') →
  LockSpec.of_daemon s d' = LockSpec.run (LockSpec.of_daemon s d) (LockSpec.history s l d).
Proof.
  revert d es. induction l as [|[i w] l IH]; intros d es; cbn [Daemon.handle_all LockSpec.history].
  { by intros [= <- <-]. }
  intros ([es1 d1] & Hh & Ht)%exec_bind_Done. apply exec_bind_Done in Ht as ([es2 d2] & Hr & Ht). simplify_eq.
  rewrite Hh. unfold LockSpec.run. rewrite foldl_app. fold (LockSpec.run (LockSpec.of_daemon s d) (LockSpec.actions s i w d)).
  rewrite <- (handle_spec s i w d es1 d1 Hh). by apply (IH _ es2).
Qed.

(** The limit in force. *)
Definition unlock_attempts (d : Daemon.t) : N := LockSettings.max_auth_attempts (Settings.lock (Daemon.settings d)).

Lemma lock_actions_obey s i w d : Forall (LockSpec.obeys (unlock_attempts d)) (LockSpec.actions s i w d).
Proof.
  destruct i as [[conn peer ob|[conn peer req]|conn]| |sig statuses]; simpl; repeat constructor.
  - destruct (Policy.authorize _ _ _ _ _ _); [|constructor]. unfold LockSpec.of_request, LockSpec.lock_if.
    destruct req; repeat case_match; by repeat constructor.
  - unfold LockSpec.lock_if. case_match; by repeat constructor.
Qed.

(** An event means at most two actions for a lock. *)
Lemma actions_length s i w d : (length (LockSpec.actions s i w d) ≤ 2)%nat.
Proof.
  unfold LockSpec.actions, LockSpec.of_request, LockSpec.lock_if.
  destruct i as [[]| |]; simpl; repeat case_match; simpl; lia.
Qed.

Lemma lock_history_obeys s l d es d' :
  Daemon.handle_all l d = Done (es, d') → Forall (λ e, reloads e.1 = false) l →
  Forall (LockSpec.obeys (unlock_attempts d)) (LockSpec.history s l d) ∧
  (length (LockSpec.history s l d) ≤ 2 * length l)%nat.
Proof.
  revert d es. induction l as [|[i w] l IH]; intros d es; cbn [Daemon.handle_all LockSpec.history].
  { by intros [= <- <-] _. }
  intros ([es1 d1] & Hh & Ht)%exec_bind_Done [Hr Hl]%Forall_cons.
  apply exec_bind_Done in Ht as ([es2 d2] & Hd & Ht). simplify_eq. rewrite Hh.
  destruct (IH _ _ Hd Hl) as [Ho Hn]. pose proof (actions_length s i w d). rewrite length_app, length_cons.
  split; [|lia]. apply Forall_app. split; [apply lock_actions_obey|].
  unfold unlock_attempts in *. by rewrite <- (handle_settings _ _ _ _ _ Hh Hr).
Qed.

Lemma start_spec s path udev w d : Daemon.start path udev w = Ok d → LockSpec.of_daemon s d = LockSpec.init.
Proof.
  unfold Daemon.start. destruct (Config.load _ _ _) as [st|]; [|done]. simpl. intros Hd.
  destruct (Device.enumerate udev); by simplify_eq.
Qed.

(** ** Seats that go idle *)

Lemma is_locked_state s m :
  LockManager.is_locked s m = negb (bool_decide (LockSpec.state (LockSpec.of_manager s m) = LockState.Unlocked)).
Proof.
  unfold LockManager.is_locked, LockSpec.of_manager, LockManager.entry. simpl.
  by destruct (LockManager.locks m !! s) as [[[] n]|].
Qed.

(** The clock locks and unlocks nothing. *)
Lemma clock_locked x now :
  bool_decide (LockSpec.state (LockSpec.step x (LockSpec.Clock now)) = LockState.Unlocked) =
  bool_decide (LockSpec.state x = LockState.Unlocked).
Proof. destruct x as [[] n [t|]]; simpl; repeat case_decide; done. Qed.

(** The seats whose idle time has come to call for a lock or a suspend, since the
    last tick. *)
Definition turns (d : Daemon.t) (w : World) (seat : string) (g : IdleStage.t) : Prop :=
  is_Some (IdleTracker.last_activity (IdleDetector.tracker (Daemon.idle d)) !! seat) ∧
  stage_at (IdlePolicy.from (Settings.idle (Daemon.settings d))) (w_now w) (IdleDetector.tracker (Daemon.idle d)) seat = g ∧
  IdleDetector.stage seat (Daemon.idle d) ≠ g.

Definition ticked (d : Daemon.t) (w : World) : list (string * IdleStage.t) :=
  (IdleDetector.tick (w_now w) (IdlePolicy.from (Settings.idle (Daemon.settings d))) (Daemon.idle d)).1.

Lemma elem_of_ticked d w seat g : (seat, g) ∈ ticked d w ↔ turns d w seat g.
Proof.
  unfold ticked. destruct (IdleDetector.tick _ _ _) as [ch i] eqn:Ht.
  destruct (tick_spec _ _ _ _ _ Ht) as (_ & _ & Hc & _). simpl. rewrite Hc. unfold turns. naive_solver.
Qed.

Lemma idle_target_Some w d seat s ctx :
  LockPolicy.lock_on_idle (policy_of d) = true →
  SeatManager.active_session seat (Daemon.seats d) = Ok (Some s) →
  SessionManager.sessions (Daemon.sessions d) !! s = Some ctx →
  Shadow.user_has_password (Session.user_name (SessionContext.session ctx)) w = true →
  idle_target w d seat = Some s.
Proof.
  intros Hp Ha Hs Hpw. unfold idle_target, Daemon.cannot_lock, SessionManager.get. by rewrite Hp, Ha, Hs; simpl; rewrite Hpw.
Qed.

Lemma idle_target_active w d seat s :
  idle_target w d seat = Some s → SeatManager.active_session seat (Daemon.seats d) = Ok (Some s).
Proof. unfold idle_target. repeat case_match; naive_solver. Qed.

(** The tick at which a seat's idle time calls for the lock locks the session in
    front, and says so. *)
Lemma idle_tick_locks w d seat s ctx :
  turns d w seat IdleStage.LockRequested → LockPolicy.lock_on_idle (policy_of d) = true → can_lock d = true →
  SeatManager.active_session seat (Daemon.seats d) = Ok (Some s) →
  SessionManager.sessions (Daemon.sessions d) !! s = Some ctx →
  Shadow.user_has_password (Session.user_name (SessionContext.session ctx)) w = true →
  LockManager.is_locked s (Daemon.locks (Daemon.on_idle_tick w d).2) = true ∧
  ∀ e, e ∈ Daemon.send_to_compositor ctx (Event.ShowLockScreen s LockReason.Idle) d →
    e ∈ (Daemon.on_idle_tick w d).1.
Proof.
  intros Ht%elem_of_ticked Hp Hc Ha Hs Hpw.
  pose proof (idle_target_Some w d seat s ctx Hp Ha Hs Hpw) as Htg. split.
  - rewrite is_locked_state.
    change (LockSpec.of_manager s _) with (LockSpec.of_daemon s (Daemon.on_idle_tick w d).2).
    rewrite idle_tick_spec. unfold LockSpec.actions, LockSpec.lock_if. fold (ticked d w).
    rewrite (bool_decide_true (s ∈ _)).
    + rewrite Hc. simpl. repeat case_match; try done; simpl in *; congruence.
    + rewrite concat_map_elem. exists (seat, IdleStage.LockRequested). split; [done|].
      unfold locked_by. simpl. rewrite Htg. set_solver.
  - intros e He. unfold Daemon.on_idle_tick. unfold ticked in Ht. destruct (IdleDetector.tick _ _ _) as [ch i].
    destruct (on_stages_moved w ch (Daemon.with_idle i d)) as (es & ids & shown & -> & Hes & _).
    destruct (ElevationManager.expire_pending _ _) as [ab el]. simpl. apply elem_of_app. left. rewrite Hes.
    rewrite concat_map_elem. exists (seat, IdleStage.LockRequested). split; [done|].
    unfold did_by, shown_by. simpl. change (can_lock (Daemon.with_idle i d)) with (can_lock d). rewrite Hc.
    change (idle_target w (Daemon.with_idle i d) seat) with (idle_target w d seat). rewrite Htg. simpl.
    unfold SessionManager.get. rewrite Hs. simpl. by rewrite app_nil_r.
Qed.

(** At any other tick nothing is locked, whatever was released or switched since. *)
Lemma idle_tick_passes w d s :
  (∀ seat, SeatManager.active_session seat (Daemon.seats d) = Ok (Some s) → ¬ turns d w seat IdleStage.LockRequested) →
  (∀ seat, ¬ turns d w seat IdleStage.SuspendRequested) →
  LockSpec.of_daemon s (Daemon.on_idle_tick w d).2 =
  LockSpec.step (LockSpec.of_daemon s d) (LockSpec.Clock (w_now w)).
Proof.
  intros Hl Hsu. rewrite idle_tick_spec. unfold LockSpec.actions, LockSpec.lock_if. fold (ticked d w).
  rewrite bool_decide_false; [done|]. rewrite concat_map_elem. intros ([seat g] & Hin & Hs).
  apply elem_of_ticked in Hin. unfold locked_by in Hs. simpl in Hs.
  destruct g; [by apply not_elem_of_nil in Hs..| |by apply (Hsu seat)].
  destruct (idle_target w d seat) as [s'|] eqn:Htg; simpl in Hs; [|by apply not_elem_of_nil in Hs].
  apply list_elem_of_singleton in Hs. subst s'. apply (Hl seat); [by eapply idle_target_active|done].
Qed.
End locking.
