(* ===== verification/Prompting.v ===== *)
(** * Prompting: the prompts of a session as a machine of their own

    The elevation manager keeps the prompts of all sessions in one table, their
    deadlines in a second, the counters in a third and the countdowns in a
    fourth, and eight handlers write them.  Seen from one session it is a small
    machine: it is asked to open a prompt, an open prompt is answered or
    cancelled, the session ends, a connection goes away, the clock goes on.
    [PromptSpec] is that machine; the lemmas show that every event of the daemon
    is, for every session, the actions [PromptSpec.actions] lists. *)

From stdpp Require Import base gmap strings pretty numbers list fin_map_dom.
From S2P Require Import Prelude Errors System Config User Session Seat Auth Timers Lock Idle Elevation.
From S2P Require Import Ipc Policy Launcher Power Daemon DaemonInv DaemonSafety DaemonPrompts Determinism DaemonSettings.

Module Prompt.
(** An open prompt: who shows it, who waits for its answer, when it closes. *)
Record t := mk {
  screen : ConnId;
  requester : ConnId;
  deadline : Instant
}.
End Prompt.

Module PromptSpec.
(** The wrong passwords in a row, whether new prompts are refused and until
    when, and the open prompts. *)
Record t := mk {
  attempts : N;
  locked_out : bool;
  countdown : option Instant;
  open : gmap ElevationRequestId Prompt.t
}.

Inductive action : Type :=
| Ask (id : ElevationRequestId) (p : Prompt.t) (max_open : N)
| Answer (id : ElevationRequestId) (ok : bool) (max_attempts : N) (now : Instant) (lockout : Duration)
| Cancel (id : ElevationRequestId)
| End
| Gone (c : ConnId)
| Clock (now : Instant).

Definition with_open (o : gmap ElevationRequestId Prompt.t) (x : t) : t :=
  mk (attempts x) (locked_out x) (countdown x) o.

(** The end of a lockout, if its time has come. *)
Definition lift (now : Instant) (x : t) : t :=
  match countdown x with
  | Some t => if decide (t ≤ now)%N then mk 0 false None (open x) else x
  | None => x
  end.

Definition step (x : t) (a : action) : t :=
  match a with
  | Ask id p max_open =>
      if locked_out x || (max_open <=? N.of_nat (size (open x)))%N then x
      else with_open (<[id:=p]> (open x)) x
  | Answer id ok max_attempts now lockout =>
      match open x !! id with
      | None => x
      | Some _ =>
          if ok then mk 0 (locked_out x) (countdown x) (delete id (open x))
          else
            let n := u32_add (attempts x) 1 in
            if decide (n < max_attempts)%N then mk n (locked_out x) (countdown x) (open x)
            else mk n true (Some (now + lockout)%N) (delete id (open x))
      end
  | Cancel id => with_open (delete id (open x)) x
  | End => with_open ∅ x
  | Gone c =>
      with_open (filter (λ e, Prompt.screen e.2 ≠ c ∧ Prompt.requester e.2 ≠ c) (open x)) x
  | Clock now =>
      let x := lift now x in
      with_open (filter (λ e, (now < Prompt.deadline e.2)%N) (open x)) x
  end.

(** What the one who answers is told. *)
Definition verdict (x : t) (ok : bool) (max_attempts : N) (lockout : Duration) : AuthOutcome.t :=
  if ok then AuthOutcome.Success
  else
    let n := u32_add (attempts x) 1 in
    if decide (n < max_attempts)%N then AuthOutcome.Failure (u32_sub max_attempts n)
    else AuthOutcome.LockedOut (as_secs lockout).

(** The prompts of a session in the daemon. *)
Definition prompt_of (s : SessionId) (p : option PendingElevation.t) (t : option Instant) : option Prompt.t :=
  match p, t with
  | Some p, Some t =>
      if decide (PendingElevation.session_id p = s)
      then Some (Prompt.mk (PendingElevation.compositor_conn p) (PendingElevation.requester_conn p) t)
      else None
  | _, _ => None
  end.
Definition of_manager (s : SessionId) (m : ElevationManager.t) : t :=
  let e := ElevationManager.auth_entry s m in
  mk (SessionElevationAuth.attempts e) (SessionElevationAuth.locked_out e)
    (ElevationTimeouts.lockout_expiry (ElevationManager.timeouts m) !! s)
    (merge (prompt_of s) (ElevationManager.pending m)
       (ElevationTimeouts.prompt_expiry (ElevationManager.timeouts m))).
Definition of_daemon (s : SessionId) (d : Daemon.t) : t := of_manager s (Daemon.elevation d).

(** The connection a prompt for session [s] would be shown on, if elevation is
    on, the labels are in order, and the session is one with a password and a
    display. *)
Definition screen_for (s : SessionId) (action : ElevationAction.t) (w : World) (d : Daemon.t) : option ConnId :=
  match ElevationAction.validate action, SessionManager.sessions (Daemon.sessions d) !! s with
  | Ok _, Some ctx =>
      if ElevationSettings.enabled (Settings.elevation (Daemon.settings d)) &&
         Shadow.user_has_password (Session.user_name (SessionContext.session ctx)) w
      then SessionContext.compositor_conn ctx else None
  | _, _ => None
  end.

(** A request for a prompt is followed if there is a screen to show it on. *)
Definition asking (s : SessionId) (conn : ConnId) (label : ElevationAction.t) (w : World) (d : Daemon.t)
    : list action :=
  let settings := Settings.elevation (Daemon.settings d) in
  match screen_for s label w d with
  | Some c =>
      [Ask (u64_add (ElevationManager.next_id (Daemon.elevation d)) 1)
         (Prompt.mk c conn (w_now w + from_secs (ElevationSettings.prompt_timeout_secs settings)))
         (ElevationSettings.max_pending_per_session settings)]
  | None => []
  end.

(** What an accepted request of connection [conn] means for the prompts of
    session [s]. *)
Definition of_request (s : SessionId) (conn : ConnId) (req : Request.t) (w : World) (d : Daemon.t) : list action :=
  let settings := Settings.elevation (Daemon.settings d) in
  match req with
  | Request.TerminateSession s' =>
      if decide (s' = s ∧ is_Some (SessionManager.sessions (Daemon.sessions d) !! s)) then [End] else []
  | Request.RequestElevation s' action =>
      if decide (s' = s) then asking s conn action w d else []
  | Request.RespondElevation id ElevationResponse.Cancelled => [Cancel id]
  | Request.RespondElevation id (ElevationResponse.Password password) =>
      match SessionManager.sessions (Daemon.sessions d) !! s with
      | Some ctx =>
          let policy := Policy.elevation_auth_policy settings in
          [Answer id (accepts (Daemon.auth d w)
                        (AuthRequest.mk s (Session.user_name (SessionContext.session ctx)) password))
             (AuthPolicy.max_attempts policy) (w_now w) (AuthPolicy.lockout policy)]
      | None => []
      end
  | _ => []
  end.

(** What an event means for them. *)
Definition actions (s : SessionId) (i : Daemon.input) (w : World) (d : Daemon.t) : list action :=
  match i with
  | Daemon.Ipc (ManagerMessage.Command cmd) =>
      match Policy.authorize (ManagerCommand.peer cmd) (ManagerCommand.conn_id cmd) (ManagerCommand.request cmd)
              (Daemon.sessions d) (Daemon.elevation d) w with
      | Ok _ => of_request s (ManagerCommand.conn_id cmd) (ManagerCommand.request cmd) w d
      | Err _ => []
      end
  | Daemon.Ipc (ManagerMessage.Disconnected c) => [Gone c]
  | Daemon.IdleTick => [Clock (w_now w)]
  | _ => []
  end.

Definition run (x : t) (l : list action) : t := foldl step x l.

(** What a sequence of events means for them, from daemon [d] on. *)
Fixpoint history `{HashOrder} `{TomlSettings} (s : SessionId) (l : list (Daemon.input * World)) (d : Daemon.t)
    : list action :=
  match l with
  | [] => []
  | (i, w) :: l' =>
      actions s i w d ++
      match Daemon.handle i w d with
      | Done (_, d') => history s l' d'
      | Panicked => []
      end
  end.

(** A session nobody has asked anything of. *)
Definition init : t := mk 0 false None ∅.

(** ** Counting guesses *)

(** A wrong password that was looked at. *)
Definition wrong (x : t) (a : action) : N :=
  match a with
  | Answer id false _ _ _ => if decide (is_Some (open x !! id)) then 1 else 0
  | _ => 0
  end.
(** What takes the counter back to zero: a right password, the end of a lockout. *)
Definition resets (x : t) (a : action) : N :=
  match a with
  | Answer id true _ _ _ => if decide (is_Some (open x !! id)) then 1 else 0
  | Clock now =>
      match countdown x with
      | Some t => if decide (t ≤ now)%N then 1 else 0
      | None => 0
      end
  | _ => 0
  end.

Section limits.
Context (max_attempts max_open : N).

(** The limits in force. *)
Definition obeys (a : action) : Prop :=
  match a with
  | Ask _ _ m => m = max_open
  | Answer _ _ m _ _ => m = max_attempts
  | _ => True
  end.
(** The prompts that can still be answered before the counter is reset. *)
Definition prompts_left (x : t) : N := if locked_out x then N.of_nat (size (open x)) else max_open.
(** The wrong passwords that can be tried between two resets. *)
Definition guesses : N := max_attempts - 1 + max_open.
Definition guesses_left (x : t) : N := max_attempts - 1 - attempts x + prompts_left x.
Definition within (x : t) : Prop :=
  (N.of_nat (size (open x)) ≤ max_open)%N ∧ (attempts x + prompts_left x ≤ guesses)%N.
End limits.
End PromptSpec.

(** *** The machine, within its limits *)

Section guessing.
Context (ma mo : N).
Implicit Types (x : PromptSpec.t) (a : PromptSpec.action).

Lemma guesses_left_le x : PromptSpec.within ma mo x → (PromptSpec.guesses_left ma mo x ≤ PromptSpec.guesses ma mo)%N.
Proof.
  unfold PromptSpec.within, PromptSpec.guesses_left, PromptSpec.guesses, PromptSpec.prompts_left.
  destruct (PromptSpec.locked_out x); lia.
Qed.

(** Prompts that close leave fewer to answer. *)
Lemma closing_within x o :
  o ⊆ PromptSpec.open x → PromptSpec.within ma mo x →
  PromptSpec.within ma mo (PromptSpec.with_open o x) ∧
  (PromptSpec.guesses_left ma mo (PromptSpec.with_open o x) ≤ PromptSpec.guesses_left ma mo x)%N.
Proof.
  intros Ho%map_subseteq_size. unfold PromptSpec.within, PromptSpec.guesses_left, PromptSpec.prompts_left. simpl.
  destruct (PromptSpec.locked_out x); lia.
Qed.

Lemma lift_within x now :
  PromptSpec.within ma mo x → PromptSpec.within ma mo (PromptSpec.lift now x) ∧
  (PromptSpec.guesses_left ma mo (PromptSpec.lift now x) ≤ PromptSpec.guesses_left ma mo x +
     PromptSpec.resets x (PromptSpec.Clock now) * PromptSpec.guesses ma mo)%N.
Proof.
  intros Hx. unfold PromptSpec.lift. simpl. destruct (PromptSpec.countdown x) as [t|]; [|split; [done|lia]].
  case_decide; [|split; [done|lia]].
  unfold PromptSpec.within, PromptSpec.guesses_left, PromptSpec.guesses, PromptSpec.prompts_left in *.
  simpl. lia.
Qed.

(** A wrong password uses up a guess; only a reset gives guesses back. *)
Lemma step_within x a :
  is_u32 (PromptSpec.guesses ma mo + 1) → PromptSpec.obeys ma mo a → PromptSpec.within ma mo x →
  PromptSpec.within ma mo (PromptSpec.step x a) ∧
  (PromptSpec.wrong x a + PromptSpec.guesses_left ma mo (PromptSpec.step x a) ≤
   PromptSpec.guesses_left ma mo x + PromptSpec.resets x a * PromptSpec.guesses ma mo)%N.
Proof.
  intros Hu Ha Hx. destruct a as [id p m|id ok m now lo|id| |c|now].
  - simpl in Ha. subst m. cbn [PromptSpec.step PromptSpec.wrong PromptSpec.resets].
    destruct (PromptSpec.locked_out x) eqn:Hl; [split; [done|simpl; lia]|].
    destruct (N.leb_spec mo (N.of_nat (size (PromptSpec.open x)))); [split; [done|simpl; lia]|].
    pose proof (map_size_insert id p (PromptSpec.open x)) as Hs.
    unfold PromptSpec.within, PromptSpec.guesses_left, PromptSpec.prompts_left in *. simpl. rewrite Hl in *.
    split; [|lia]. split; [|lia]. rewrite Hs. destruct (_ !! id); unfold Datatypes.id; lia.
  - simpl in Ha. subst m. cbn [PromptSpec.step PromptSpec.wrong PromptSpec.resets].
    destruct (PromptSpec.open x !! id) as [q|] eqn:Hq.
    2: { destruct ok; (split; [done|]); rewrite decide_False by (by intros []); lia. }
    pose proof (map_size_delete id (PromptSpec.open x)) as Hs. rewrite Hq in Hs. simpl in Hs.
    assert (size (PromptSpec.open x) ≠ 0) as Hne.
    { intros He%map_size_empty_inv. rewrite He in Hq. by rewrite lookup_empty in Hq. }
    pose proof (guesses_left_le x Hx) as Hg.
    unfold PromptSpec.within, PromptSpec.guesses_left, PromptSpec.prompts_left, PromptSpec.guesses, is_u32 in *.
    destruct ok; rewrite ?decide_True by (by eexists); simpl.
    + destruct (PromptSpec.locked_out x); split; lia.
    + rewrite u32_add_small by (unfold is_u32; destruct (PromptSpec.locked_out x); lia).
      case_decide; simpl; destruct (PromptSpec.locked_out x); split; lia.
  - destruct (closing_within x (delete id (PromptSpec.open x))) as [Hw Hg]; [apply delete_subseteq|done|].
    split; [done|simpl in *; lia].
  - destruct (closing_within x ∅) as [Hw Hg]; [apply map_empty_subseteq|done|]. split; [done|simpl in *; lia].
  - destruct (closing_within x (PromptSpec.open (PromptSpec.step x (PromptSpec.Gone c)))) as [Hw Hg];
      [apply map_filter_subseteq|done|]. split; [exact Hw|simpl in *; lia].
  - destruct (lift_within x now Hx) as [Hw Hg].
    destruct (closing_within (PromptSpec.lift now x) (PromptSpec.open (PromptSpec.step x (PromptSpec.Clock now))))
      as [Hw' Hg']; [apply map_filter_subseteq|done|].
    split; [exact Hw'|]. change (PromptSpec.wrong x (PromptSpec.Clock now)) with 0%N. etrans; [|exact Hg].
    exact Hg'.
Qed.

Lemma run_within x l :
  is_u32 (PromptSpec.guesses ma mo + 1) → Forall (PromptSpec.obeys ma mo) l → PromptSpec.within ma mo x →
  PromptSpec.within ma mo (PromptSpec.run x l) ∧
  (tally PromptSpec.step PromptSpec.wrong x l + PromptSpec.guesses_left ma mo (PromptSpec.run x l) ≤
   PromptSpec.guesses_left ma mo x +
     tally PromptSpec.step PromptSpec.resets x l * PromptSpec.guesses ma mo)%N.
Proof.
  intros Hu Hl Hx. rewrite <- tally_scale.
  apply (tally_potential PromptSpec.step (λ _, PromptSpec.within ma mo) (PromptSpec.obeys ma mo)); [|done..].
  intros _ y a Ha Hy. by apply step_within.
Qed.

Lemma init_within : PromptSpec.within ma mo PromptSpec.init.
Proof.
  unfold PromptSpec.within, PromptSpec.guesses, PromptSpec.prompts_left. simpl. rewrite map_size_empty. lia.
Qed.
End guessing.

(** ** The elevation manager *)

Lemma lookup_open s m id :
  PromptSpec.open (PromptSpec.of_manager s m) !! id =
  PromptSpec.prompt_of s (ElevationManager.pending m !! id)
    (ElevationTimeouts.prompt_expiry (ElevationManager.timeouts m) !! id).
Proof.
  simpl. rewrite lookup_merge. by destruct (ElevationManager.pending m !! id),
    (ElevationTimeouts.prompt_expiry (ElevationManager.timeouts m) !! id).
Qed.

(** An open prompt is a pending request of the session. *)
Lemma open_pending s m id q :
  PromptSpec.open (PromptSpec.of_manager s m) !! id = Some q →
  ∃ p, ElevationManager.pending m !! id = Some p ∧ PendingElevation.session_id p = s.
Proof. rewrite lookup_open. unfold PromptSpec.prompt_of. repeat case_match; naive_solver. Qed.

Lemma pending_open s m id p :
  ElevationInv.wf m → ElevationManager.pending m !! id = Some p → PendingElevation.session_id p = s →
  is_Some (PromptSpec.open (PromptSpec.of_manager s m) !! id).
Proof.
  intros [Hd _] Hp Hs. destruct (proj1 (Hd id)) as [t Ht]; [by eexists|].
  rewrite lookup_open, Hp, Ht. simpl. by rewrite decide_True.
Qed.

(** Two states of the manager that agree on the session's entry, countdown and
    prompts look the same to it. *)
Lemma of_manager_eq s m x :
  ElevationManager.auth_entry s m = SessionElevationAuth.mk (PromptSpec.locked_out x) (PromptSpec.attempts x) →
  ElevationTimeouts.lockout_expiry (ElevationManager.timeouts m) !! s = PromptSpec.countdown x →
  (∀ id, PromptSpec.prompt_of s (ElevationManager.pending m !! id)
     (ElevationTimeouts.prompt_expiry (ElevationManager.timeouts m) !! id) = PromptSpec.open x !! id) →
  PromptSpec.of_manager s m = x.
Proof.
  intros He Hc Ho. destruct x as [n lo c o]. simpl in *.
  assert (PromptSpec.open (PromptSpec.of_manager s m) = o) as Heq.
  { apply map_eq. intros id. by rewrite lookup_open. }
  unfold PromptSpec.of_manager in *. simpl in Heq. by rewrite He, Hc, Heq.
Qed.

Lemma auth_entry_eta s m :
  ElevationManager.auth_entry s m =
  SessionElevationAuth.mk (PromptSpec.locked_out (PromptSpec.of_manager s m))
    (PromptSpec.attempts (PromptSpec.of_manager s m)).
Proof. simpl. by destruct (ElevationManager.auth_entry s m). Qed.

(** A change to the tables of prompts only. *)
Lemma of_manager_prompts s m m' o :
  ElevationManager.session_auth m' = ElevationManager.session_auth m →
  ElevationTimeouts.lockout_expiry (ElevationManager.timeouts m') =
    ElevationTimeouts.lockout_expiry (ElevationManager.timeouts m) →
  (∀ id, PromptSpec.prompt_of s (ElevationManager.pending m' !! id)
     (ElevationTimeouts.prompt_expiry (ElevationManager.timeouts m') !! id) = o !! id) →
  PromptSpec.of_manager s m' = PromptSpec.with_open o (PromptSpec.of_manager s m).
Proof.
  intros Ha Hl Ho. apply of_manager_eq; simpl; [|by rewrite Hl|done].
  unfold ElevationManager.auth_entry. rewrite Ha. by destruct (default _ _).
Qed.

Lemma drop_spec s id m :
  PromptSpec.of_manager s (ElevationManager.drop id m) =
  PromptSpec.with_open (delete id (PromptSpec.open (PromptSpec.of_manager s m))) (PromptSpec.of_manager s m).
Proof.
  apply of_manager_prompts; [done..|]. intros i. simpl.
  change (merge _ _ _) with (PromptSpec.open (PromptSpec.of_manager s m)).
  rewrite !lookup_delete, lookup_open. by case_decide.
Qed.

(** A prompt of another session is not seen. *)
Lemma drop_other s id m p :
  ElevationManager.pending m !! id = Some p → PendingElevation.session_id p ≠ s →
  PromptSpec.of_manager s (ElevationManager.drop id m) = PromptSpec.of_manager s m.
Proof.
  intros Hp Hs. rewrite drop_spec, delete_id; [by destruct (PromptSpec.of_manager s m)|].
  rewrite lookup_open, Hp. unfold PromptSpec.prompt_of. by repeat case_match.
Qed.

Section prompting.
Context `{HashOrder} `{SerdeJson} `{TomlSettings}.
Implicit Types (m : ElevationManager.t) (d : Daemon.t) (s : SessionId).

(** The count of the code is the number of open prompts. *)
Lemma open_size s m :
  ElevationInv.wf m →
  size (PromptSpec.open (PromptSpec.of_manager s m)) = ElevationManager.pending_for_session s m.
Proof.
  intros Hwf. unfold ElevationManager.pending_for_session. rewrite count_values_size.
  rewrite <- (size_dom (D := gset N)). symmetry. rewrite <- (size_dom (D := gset N)). f_equal.
  apply set_eq. intros id. rewrite !elem_of_dom. split.
  - intros [p [Hp Hs]%map_lookup_filter_Some]. by eapply pending_open.
  - intros [q (p & Hp & Hs)%open_pending]. exists p. by apply map_lookup_filter_Some.
Qed.

Lemma begin_spec s s' c q p ap now m r m' :
  ElevationManager.begin s' c q p ap now m = Done (r, m') →
  ElevationInv.wf m → is_u64 (ElevationManager.next_id m + 1) →
  PromptSpec.of_manager s m' =
  PromptSpec.run (PromptSpec.of_manager s m)
    (if decide (s' = s) then
       [PromptSpec.Ask (u64_add (ElevationManager.next_id m) 1)
          (Prompt.mk c q (now + ElevationPolicy.prompt_timeout p)) (ElevationPolicy.max_pending_per_session p)]
     else []).
Proof.
  intros Hb Hwf Hu. pose proof (begin_fresh m Hwf Hu) as Hf.
  assert (ElevationManager.is_locked_out s m = PromptSpec.locked_out (PromptSpec.of_manager s m)) as Hlo.
  { unfold ElevationManager.is_locked_out. simpl. unfold ElevationManager.auth_entry. by destruct (_ !! s). }
  apply begin_cases in Hb as [(Hl & -> & _)|[(Hl & -> & Hn & _)|(Hl & Hn & id & -> & _ & ->)]];
    case_decide as Hs; try done; try subst s'.
  - unfold PromptSpec.run. cbn [foldl PromptSpec.step]. by rewrite <- Hlo, Hl.
  - unfold PromptSpec.run. cbn [foldl PromptSpec.step]. rewrite open_size by done.
    by rewrite (proj2 (N.leb_le _ _) Hn), orb_true_r.
  - unfold PromptSpec.run. cbn [foldl PromptSpec.step]. rewrite open_size by done.
    rewrite <- Hlo, Hl, (proj2 (N.leb_gt _ _) Hn). cbn [orb]. apply of_manager_prompts; [done..|].
    intros i. cbn [ElevationManager.pending ElevationManager.timeouts ElevationTimeouts.prompt_expiry].
    rewrite !lookup_insert, lookup_open. case_decide; [|done]. simpl. by rewrite decide_True.
  - unfold PromptSpec.run. cbn [foldl]. apply of_manager_eq; [apply (auth_entry_eta s m)|done|]. intros i.
    cbn [ElevationManager.pending ElevationManager.timeouts ElevationTimeouts.prompt_expiry].
    rewrite lookup_open, !lookup_insert. case_decide; [|done]. subst i. rewrite Hf. simpl. by rewrite decide_False.
Qed.

Lemma with_auth_spec s a m :
  PromptSpec.of_manager s (ElevationManager.with_auth s a m) =
  PromptSpec.mk (SessionElevationAuth.attempts a) (SessionElevationAuth.locked_out a)
    (PromptSpec.countdown (PromptSpec.of_manager s m)) (PromptSpec.open (PromptSpec.of_manager s m)).
Proof.
  unfold PromptSpec.of_manager, ElevationManager.auth_entry. simpl. by rewrite lookup_insert_eq.
Qed.

Lemma with_auth_other s s' a m :
  s' ≠ s → PromptSpec.of_manager s (ElevationManager.with_auth s' a m) = PromptSpec.of_manager s m.
Proof.
  intros Hs. unfold PromptSpec.of_manager, ElevationManager.auth_entry. simpl. by rewrite lookup_insert_ne.
Qed.

Lemma answer_spec s id a r ap now m p o m' :
  ElevationManager.pending m !! id = Some p → ElevationInv.wf m →
  ElevationManager.attempt id a r ap now m = Done (o, m') →
  PendingElevation.session_id p = s →
  PromptSpec.of_manager s m' =
    PromptSpec.step (PromptSpec.of_manager s m)
      (PromptSpec.Answer id (accepts a r) (AuthPolicy.max_attempts ap) now (AuthPolicy.lockout ap)) ∧
  ∃ terminal, o = Some (ElevationOutcome.mk s (PendingElevation.compositor_conn p)
    (PendingElevation.requester_conn p)
    (PromptSpec.verdict (PromptSpec.of_manager s m) (accepts a r) (AuthPolicy.max_attempts ap) (AuthPolicy.lockout ap))
    terminal).
Proof.
  intros Hp Hwf Ha Hs. destruct (pending_open s m id p Hwf Hp Hs) as [q Hq].
  unfold PromptSpec.verdict. cbn [PromptSpec.step]. rewrite Hq.
  destruct (attempt_cases _ _ _ _ _ _ _ _ _ Hp Ha) as [(-> & -> & ->)|[(-> & Hlt & -> & ->)|(-> & Hle & -> & ->)]];
    rewrite Hs in *; simpl in *.
  - split; [|by eexists]. by rewrite drop_spec, with_auth_spec.
  - rewrite !decide_True by done. split; [by rewrite with_auth_spec|by eexists].
  - rewrite !decide_False by lia. split; [|by eexists]. rewrite drop_spec.
    unfold PromptSpec.of_manager, ElevationManager.auth_entry. simpl. by rewrite !lookup_insert_eq.
Qed.

Lemma answer_other s id a r ap now m p o m' :
  ElevationManager.pending m !! id = Some p →
  ElevationManager.attempt id a r ap now m = Done (o, m') →
  PendingElevation.session_id p ≠ s → PromptSpec.of_manager s m' = PromptSpec.of_manager s m.
Proof.
  intros Hp Ha Hs.
  destruct (attempt_cases _ _ _ _ _ _ _ _ _ Hp Ha) as [(_ & _ & ->)|[(_ & _ & _ & ->)|(_ & _ & _ & ->)]].
  - rewrite (drop_other s id _ p); [by apply with_auth_other|done..].
  - by apply with_auth_other.
  - rewrite (drop_other s id _ p) by done. unfold PromptSpec.of_manager, ElevationManager.auth_entry. simpl.
    by rewrite !lookup_insert_ne by done.
Qed.

Lemma take_all_spec s ids m :
  PromptSpec.of_manager s (ElevationManager.take_all_abandoned ids m).2 =
  PromptSpec.with_open (delete_list ids (PromptSpec.open (PromptSpec.of_manager s m))) (PromptSpec.of_manager s m).
Proof.
  rewrite take_all_state. apply of_manager_prompts; [done..|]. intros i. simpl.
  change (merge _ _ _) with (PromptSpec.open (PromptSpec.of_manager s m)).
  rewrite !lookup_delete_list, lookup_open. by case_decide.
Qed.

(** Closing the requests that satisfy [f] leaves the open prompts that satisfy [g],
    if [g] says of a prompt of the session that [f] does not hold. *)
Lemma abandon_where_spec s f (g : Prompt.t → Prop) `{!∀ q, Decision (g q)} m :
  (∀ p t, PendingElevation.session_id p = s →
     g (Prompt.mk (PendingElevation.compositor_conn p) (PendingElevation.requester_conn p) t) ↔ f p = false) →
  PromptSpec.of_manager s (ElevationManager.abandon_where f m).2 =
  PromptSpec.with_open (filter (λ e, g e.2) (PromptSpec.open (PromptSpec.of_manager s m))) (PromptSpec.of_manager s m).
Proof.
  intros Hfg. unfold ElevationManager.abandon_where. rewrite take_all_spec. f_equal. apply map_eq. intros i.
  rewrite lookup_delete_list, map_lookup_filter, lookup_open.
  assert (i ∈ (filter (λ e, f e.2 = true) (hash_entries (ElevationManager.pending m))).*1 ↔
    ∃ q, ElevationManager.pending m !! i = Some q ∧ f q = true) as Hin.
  { rewrite list_elem_of_fmap. setoid_rewrite list_elem_of_filter. split.
    - intros ([j q] & -> & Hq & Hin). rewrite elem_of_hash_entries in Hin. eauto.
    - intros (q & Hq & Hf). exists (i, q). by rewrite elem_of_hash_entries. }
  destruct (ElevationManager.pending m !! i) as [p|]; simpl; [|by case_decide].
  destruct (ElevationTimeouts.prompt_expiry _ !! i) as [t|]; simpl; [|by case_decide].
  destruct (decide (PendingElevation.session_id p = s)) as [Hs|]; simpl; [|by case_decide].
  specialize (Hfg p t Hs). destruct (f p) eqn:Hf.
  - rewrite decide_True by naive_solver. rewrite option_guard_False; [done|]. simpl. naive_solver.
  - rewrite decide_False by (rewrite Hin; intros (q & ? & ?); congruence). rewrite option_guard_True; [done|]. by apply Hfg.
Qed.

Lemma clear_countdown now m s :
  ElevationTimeouts.lockout_expiry (ElevationManager.timeouts (ElevationManager.clear_expired_lockouts now m)) !! s =
  match ElevationTimeouts.lockout_expiry (ElevationManager.timeouts m) !! s with
  | Some t => if decide (t ≤ now)%N then None else Some t
  | None => None
  end.
Proof.
  unfold ElevationManager.clear_expired_lockouts, ElevationTimeouts.expired_lockouts.
  pose proof (drain_rest (ElevationTimeouts.lockout_expiry (ElevationManager.timeouts m)) now s) as Hl.
  destruct (Timers.drain_expired _ now) as [ids rest].
  edestruct (foldl_clear_auth ids) as (_ & _ & _ & -> & _). exact Hl.
Qed.

Lemma lift_spec s now m :
  PromptSpec.of_manager s (ElevationManager.clear_expired_lockouts now m) =
  PromptSpec.lift now (PromptSpec.of_manager s m).
Proof.
  destruct (clear_expired_frame now m) as (Hp & _ & _ & Hx).
  unfold PromptSpec.of_manager, PromptSpec.lift, ElevationManager.auth_entry.
  rewrite clear_expired_auth, clear_countdown, Hp, Hx. cbn [PromptSpec.countdown PromptSpec.open].
  destruct (ElevationTimeouts.lockout_expiry _ !! s) as [t|]; [|done]. case_decide; [|done].
  by destruct (ElevationManager.session_auth m !! s).
Qed.

Lemma expire_spec s now m :
  PromptSpec.of_manager s (ElevationManager.expire_pending now m).2 =
  PromptSpec.with_open (filter (λ e, (now < Prompt.deadline e.2)%N) (PromptSpec.open (PromptSpec.of_manager s m)))
    (PromptSpec.of_manager s m).
Proof.
  rewrite expire_state, take_all_spec. f_equal. apply map_eq. intros i.
  rewrite lookup_delete_list, map_lookup_filter, lookup_open.
  pose proof (elem_of_drain (ElevationTimeouts.prompt_expiry (ElevationManager.timeouts m)) now i) as Hin.
  unfold ElevationTimeouts.expired_prompts. destruct (Timers.drain_expired _ now) as [ids rest]. simpl in *.
  destruct (ElevationManager.pending m !! i) as [p|]; simpl; [|by case_decide].
  destruct (ElevationTimeouts.prompt_expiry _ !! i) as [t|]; simpl; [|by case_decide].
  destruct (decide (PendingElevation.session_id p = s)) as [Hs|]; simpl; [|by case_decide].
  destruct (N.lt_ge_cases now t).
  - rewrite decide_False by (rewrite Hin; naive_solver lia). by rewrite option_guard_True.
  - rewrite decide_True by naive_solver. rewrite option_guard_False; [done|]. simpl. lia.
Qed.

Lemma prompts_clock_spec s now m :
  PromptSpec.of_manager s
    (ElevationManager.expire_pending now (ElevationManager.clear_expired_lockouts now m)).2 =
  PromptSpec.step (PromptSpec.of_manager s m) (PromptSpec.Clock now).
Proof. by rewrite expire_spec, lift_spec. Qed.

(** ** The handlers *)

Lemma abandon_session_spec s s' m :
  PromptSpec.of_manager s (ElevationManager.abandon_session s' m).2 =
  PromptSpec.run (PromptSpec.of_manager s m) (if decide (s' = s) then [PromptSpec.End] else []).
Proof.
  unfold ElevationManager.abandon_session, PromptSpec.run. case_decide as Hs; cbn [foldl PromptSpec.step].
  - subst s'. rewrite (abandon_where_spec s _ (λ _, False)); [|intros p t <-; by rewrite bool_decide_true].
    f_equal. apply map_empty. intros i. apply map_lookup_filter_None. right. by intros ? _ [].
  - rewrite (abandon_where_spec s _ (λ _, True)); [|intros p t <-; by rewrite bool_decide_false].
    rewrite map_filter_id by done. by destruct (PromptSpec.of_manager s m).
Qed.

Lemma end_spec s peer s' w d conn :
  PromptSpec.of_daemon s (Daemon.terminate_session peer s' w d).2 =
  PromptSpec.run (PromptSpec.of_daemon s d) (PromptSpec.of_request s conn (Request.TerminateSession s') w d).
Proof.
  unfold Daemon.terminate_session, PromptSpec.of_daemon. pose proof (terminate_session_spec s' (Daemon.sessions d)) as Ht.
  cbn [PromptSpec.of_request]. destruct (SessionManager.sessions (Daemon.sessions d) !! s') as [ctx|] eqn:Hc; rewrite Ht.
  2: { rewrite decide_False; [done|]. intros [-> [? ?]]. congruence. }
  simpl. pose proof (abandon_session_spec s s' (Daemon.elevation d)) as Ha.
  destruct (ElevationManager.abandon_session _ _) as [ab e]. simpl in *. rewrite Ha. f_equal.
  repeat case_decide; subst; naive_solver.
Qed.

(** Where a request for a prompt gets to. *)
Lemma start_elevation_screen conn peer s action w d es r d' :
  Daemon.start_elevation conn peer s action w d = Done (es, r, d') →
  match PromptSpec.screen_for s action w d with
  | None => Daemon.elevation d' = Daemon.elevation d
  | Some c => ∃ x, ElevationManager.begin s c conn (ElevationPolicy.from (Settings.elevation (Daemon.settings d)))
      (Policy.elevation_auth_policy (Settings.elevation (Daemon.settings d))) (w_now w) (Daemon.elevation d) =
      Done (x, Daemon.elevation d')
  end.
Proof.
  unfold Daemon.start_elevation, PromptSpec.screen_for, SessionManager.get.
  destruct (ElevationAction.validate action) as [[]|msg]; [|by intros; simplify_eq].
  unfold ElevationPolicy.enabled, ElevationPolicy.from.
  destruct (SessionManager.sessions (Daemon.sessions d) !! s) as [ctx|]; simpl.
  2: { case_match; by intros; simplify_eq. }
  destruct (ElevationSettings.enabled _); simpl; [|by intros; simplify_eq].
  destruct (Shadow.user_has_password _ _); simpl; [|by intros; simplify_eq].
  destruct (SessionContext.compositor_conn ctx) as [c|]; [|by intros; simplify_eq].
  intros ([x e] & Hb & Hd)%exec_bind_Done. exists x. rewrite Hb. do 2 f_equal. by repeat case_match; simplify_eq.
Qed.

Lemma ask_spec s conn peer s' action w d es r d' :
  Daemon.start_elevation conn peer s' action w d = Done (es, r, d') →
  ElevationInv.wf (Daemon.elevation d) → is_u64 (ElevationManager.next_id (Daemon.elevation d) + 1) →
  PromptSpec.of_daemon s d' =
  PromptSpec.run (PromptSpec.of_daemon s d) (PromptSpec.of_request s conn (Request.RequestElevation s' action) w d).
Proof.
  intros Hd%start_elevation_screen Hwf Hu. unfold PromptSpec.of_daemon. cbn [PromptSpec.of_request].
  destruct (PromptSpec.screen_for s' action w d) as [c|] eqn:Hc.
  - destruct Hd as [x Hb]. apply (begin_spec s) in Hb as ->; [|done..]. case_decide; [|done]. subst.
    unfold PromptSpec.asking. by rewrite Hc.
  - rewrite Hd. case_decide; [|done]. subst. unfold PromptSpec.asking. by rewrite Hc.
Qed.

Lemma respond_spec s peer rid resp w d es r d' conn :
  Daemon.respond_elevation peer rid resp w d = Done (es, r, d') → ElevationInv.wf (Daemon.elevation d) →
  PromptSpec.of_daemon s d' =
  PromptSpec.run (PromptSpec.of_daemon s d) (PromptSpec.of_request s conn (Request.RespondElevation rid resp) w d).
Proof.
  intros Hd Hwf. unfold Daemon.respond_elevation, ElevationManager.peek in Hd. unfold PromptSpec.run.
  destruct (ElevationManager.pending (Daemon.elevation d) !! rid) as [p|] eqn:Hp; simpl in Hd.
  2: { assert (PromptSpec.open (PromptSpec.of_daemon s d) !! rid = None) as Hn
         by (unfold PromptSpec.of_daemon; by rewrite lookup_open, Hp).
       simplify_eq. destruct resp; cbn [PromptSpec.of_request]; [case_match; [|done]|]; cbn [foldl PromptSpec.step].
       - by rewrite Hn.
       - rewrite delete_id by done. by destruct (PromptSpec.of_daemon s _). }
  apply exec_bind_Done in Hd as (x & Hx & Hd). destruct resp as [pw|]; cbn [PromptSpec.of_request].
  - unfold SessionManager.get in Hx. destruct (decide (PendingElevation.session_id p = s)) as [Hs|Hs].
    + rewrite Hs in Hx. destruct (_ !! s) as [ctx|]; simpl in Hx; [|by simplify_eq].
      apply exec_bind_Done in Hx as ([o e] & Ha & Hx). simplify_eq.
      destruct (answer_spec _ _ _ _ _ _ _ _ _ _ Hp Hwf Ha eq_refl) as [He [term ->]]. injection Hd as _ _ <-. apply He.
    + assert (PromptSpec.of_daemon s d' = PromptSpec.of_daemon s d) as ->.
      { destruct (_ !! PendingElevation.session_id p) as [ctx|]; simpl in Hx; [|by simplify_eq].
        apply exec_bind_Done in Hx as ([o e] & Ha & Hx). simplify_eq.
        destruct o; simplify_eq; by apply (answer_other s _ _ _ _ _ _ _ _ _ Hp Ha Hs). }
      assert (PromptSpec.open (PromptSpec.of_daemon s d) !! rid = None) as Hn.
      { unfold PromptSpec.of_daemon. rewrite lookup_open, Hp. unfold PromptSpec.prompt_of. by repeat case_match. }
      destruct (_ !! s); [|done]. cbn [foldl PromptSpec.step]. by rewrite Hn.
  - unfold ElevationManager.cancel in Hx. rewrite Hp in Hx. simplify_eq. apply drop_spec.
Qed.

(** The verdict on an answer is the reply. *)
Lemma respond_verdict s peer rid pw w d es r d' q ctx :
  Daemon.respond_elevation peer rid (ElevationResponse.Password pw) w d = Done (es, r, d') →
  ElevationInv.wf (Daemon.elevation d) →
  PromptSpec.open (PromptSpec.of_daemon s d) !! rid = Some q →
  SessionManager.sessions (Daemon.sessions d) !! s = Some ctx →
  let policy := Policy.elevation_auth_policy (Settings.elevation (Daemon.settings d)) in
  r = Response.AuthResult (PromptSpec.verdict (PromptSpec.of_daemon s d)
        (accepts (Daemon.auth d w) (AuthRequest.mk s (Session.user_name (SessionContext.session ctx)) pw))
        (AuthPolicy.max_attempts policy) (AuthPolicy.lockout policy)).
Proof.
  intros Hd Hwf (p & Hp & Hs)%open_pending Hc policy. unfold Daemon.respond_elevation, ElevationManager.peek in Hd.
  rewrite Hp in Hd. simpl in Hd. apply exec_bind_Done in Hd as (x & Hx & Hd). unfold SessionManager.get in Hx.
  rewrite Hs, Hc in Hx. simpl in Hx. apply exec_bind_Done in Hx as ([o e] & Ha & Hx). simplify_eq.
  destruct (answer_spec _ _ _ _ _ _ _ _ _ _ Hp Hwf Ha eq_refl) as [_ [term ->]]. by simplify_eq.
Qed.

Lemma respond_told s conn peer rid pw w d es d' q ctx :
  Daemon.handle (Daemon.Ipc (ManagerMessage.Command (ManagerCommand.mk conn peer
    (Request.RespondElevation rid (ElevationResponse.Password pw))))) w d = Done (es, d') →
  permitted peer conn (Request.RespondElevation rid (ElevationResponse.Password pw))
    (Daemon.sessions d) (Daemon.elevation d) w →
  DaemonInv.wf d → PromptSpec.open (PromptSpec.of_daemon s d) !! rid = Some q →
  SessionManager.sessions (Daemon.sessions d) !! s = Some ctx →
  is_Some (ConnRegistry.outboxes (Daemon.registry d) !! conn) →
  let policy := Policy.elevation_auth_policy (Settings.elevation (Daemon.settings d)) in
  Effect.Sent conn (Message.Response (Response.AuthResult (PromptSpec.verdict (PromptSpec.of_daemon s d)
    (accepts (Daemon.auth d w) (AuthRequest.mk s (Session.user_name (SessionContext.session ctx)) pw))
    (AuthPolicy.max_attempts policy) (AuthPolicy.lockout policy)))) ∈ es.
Proof.
  intros Hh Hp%authorize_permitted Hwf Hq Hc Hreg policy. simpl in Hh. unfold Daemon.handle_command in Hh. simpl in Hh.
  rewrite Hp in Hh. apply exec_bind_Done in Hh as ([[es1 r1] d1] & Hd & Hh).
  apply exec_bind_Done in Hd as ([[es2 r2] d2] & Hr & Hd). unfold Daemon.replying in Hd. simplify_eq.
  assert (Daemon.registry d' = Daemon.registry d) as Hd'.
  { unfold Daemon.respond_elevation in Hr. case_match; [|by simplify_eq].
    apply exec_bind_Done in Hr as (x & _ & Hr). by repeat case_match; simplify_eq. }
  rewrite (respond_verdict s _ _ _ _ _ _ _ _ _ _ Hr (DaemonInv.wf_elevation _ Hwf) Hq Hc), Hd'.
  apply elem_of_app. right. by apply elem_of_send_response.
Qed.

Lemma prompts_dispatch_spec s conn peer req w d es r d' :
  Daemon.dispatch conn peer req w d = Done (es, r, d') → DaemonInv.wf d → DaemonInv.room 1 d →
  PromptSpec.of_daemon s d' = PromptSpec.run (PromptSpec.of_daemon s d) (PromptSpec.of_request s conn req w d).
Proof.
  intros Hd Hwf (_ & _ & Hu). pose proof (DaemonInv.wf_elevation _ Hwf) as He.
  destruct (about_prompts req) eqn:Ha.
  - unfold Daemon.dispatch, Daemon.replying in Hd. destruct req; try done.
    + rewrite <- (end_spec s peer session_id w d conn). destruct (Daemon.terminate_session _ _ _ _) as [[? ?] ?].
      by simplify_eq.
    + by eapply ask_spec.
    + apply exec_bind_Done in Hd as ([[? ?] ?] & Hu' & Hd). simplify_eq. by eapply respond_spec.
  - destruct (dispatch_elevation_frame _ _ _ _ _ _ _ _ Hd Ha) as [Hf _].
    unfold PromptSpec.of_daemon. rewrite Hf. by destruct req.
Qed.

Lemma prompts_signal_spec s ev statuses w d :
  PromptSpec.of_daemon s (Daemon.on_signal ev statuses w d).2 = PromptSpec.of_daemon s d.
Proof.
  unfold PromptSpec.of_daemon. destruct ev; simpl.
  - by destruct (Power.graceful_shutdown _ _ _) as [[? ?] ?].
  - unfold Daemon.reload_config. by case_match.
  - by destruct (reap_frame statuses d) as (_ & -> & _).
Qed.

(** Every event, for every session. *)
Lemma prompts_handle_spec s i w d es d' :
  Daemon.handle i w d = Done (es, d') → DaemonInv.wf d → DaemonInv.room 1 d →
  PromptSpec.of_daemon s d' = PromptSpec.run (PromptSpec.of_daemon s d) (PromptSpec.actions s i w d).
Proof.
  intros Hh Hwf Hroom. destruct i as [[conn peer ob|[conn peer req]|conn]| |sig statuses]; simpl in Hh.
  - by simplify_eq.
  - unfold Daemon.handle_command in Hh. simpl in *. destruct (Policy.authorize _ _ _ _ _ _) as [[]|e].
    2: { by simplify_eq. }
    apply exec_bind_Done in Hh as ([[es1 r1] d1] & Hd & Hh). simplify_eq. by eapply prompts_dispatch_spec.
  - unfold Daemon.disconnected in Hh. simpl in Hh. unfold PromptSpec.of_daemon. cbn [PromptSpec.actions].
    pose proof (abandon_where_spec s (λ p, bool_decide (PendingElevation.compositor_conn p = conn)
      || bool_decide (PendingElevation.requester_conn p = conn))
      (λ q, Prompt.screen q ≠ conn ∧ Prompt.requester q ≠ conn) (Daemon.elevation d)) as Ha.
    unfold ElevationManager.abandon_connection in Hh.
    destruct (ElevationManager.abandon_where _ _) as [ab e]. injection Hh as _ <-. apply Ha.
    intros p t _. simpl. by rewrite orb_false_iff, !bool_decide_eq_false.
  - injection Hh as Hh. unfold Daemon.on_idle_tick in Hh. destruct (IdleDetector.tick _ _ _) as [changes idle].
    destruct (on_stages_elevation w changes (Daemon.with_idle idle d)) as [He _].
    destruct (Daemon.on_stages _ _ _) as [es1 d1]. simpl in *. rewrite He in Hh.
    pose proof (prompts_clock_spec s (w_now w) (Daemon.elevation d)) as Hc.
    destruct (ElevationManager.expire_pending _ _) as [ab e]. injection Hh as _ <-. apply Hc.
  - destruct (SignalEvent.classify sig) as [ev|]; injection Hh as Hh; [|by simplify_eq].
    pose proof (prompts_signal_spec s ev statuses w d) as Hf. by rewrite Hh in Hf.
Qed.

Lemma prompts_handle_all_spec s l d es d' :
  Daemon.handle_all l d = Done (es, d') → DaemonInv.wf d → DaemonInv.room (N.of_nat (length l)) d →
  PromptSpec.of_daemon s d' = PromptSpec.run (PromptSpec.of_daemon s d) (PromptSpec.history s l d).
Proof.
  revert d es. induction l as [|[i w] l IH]; intros d es; cbn [Daemon.handle_all PromptSpec.history].
  { by intros [= <- <-]. }
  intros ([es1 d1] & Hh & Ht)%exec_bind_Done Hwf Hroom.
  apply exec_bind_Done in Ht as ([es2 d2] & Hr & Ht). simplify_eq.
  rewrite length_cons, Nat2N.inj_succ, <- N.add_1_l in Hroom.
  destruct (keeps_handle _ _ _ _ _ Hh _ Hwf Hroom) as [Hwf1 Hroom1].
  rewrite Hh. unfold PromptSpec.run. rewrite foldl_app.
  fold (PromptSpec.run (PromptSpec.of_daemon s d) (PromptSpec.actions s i w d)).
  rewrite <- (prompts_handle_spec s i w d es1 d1 Hh Hwf); [by apply (IH _ es2)|].
  by eapply room_weaken; [|exact Hroom]; lia.
Qed.

(** ** The limits in force *)

Definition elevation_attempts (d : Daemon.t) : N :=
  AuthPolicy.max_attempts (Policy.elevation_auth_policy (Settings.elevation (Daemon.settings d))).
Definition elevation_open (d : Daemon.t) : N :=
  ElevationSettings.max_pending_per_session (Settings.elevation (Daemon.settings d)).

Lemma actions_obey s i w d : Forall (PromptSpec.obeys (elevation_attempts d) (elevation_open d)) (PromptSpec.actions s i w d).
Proof.
  destruct i as [[conn peer ob|[conn peer req]|conn]| |sig statuses]; simpl; repeat constructor.
  destruct (Policy.authorize _ _ _ _ _ _); [|constructor]. unfold PromptSpec.of_request, PromptSpec.asking.
  destruct req; repeat case_match; by repeat constructor.
Qed.

Lemma history_obeys s l d es d' :
  Daemon.handle_all l d = Done (es, d') → Forall (λ e, reloads e.1 = false) l →
  Forall (PromptSpec.obeys (elevation_attempts d) (elevation_open d)) (PromptSpec.history s l d).
Proof.
  revert d es. induction l as [|[i w] l IH]; intros d es; cbn [Daemon.handle_all PromptSpec.history].
  { by intros [= <- <-] _. }
  intros ([es1 d1] & Hh & Ht)%exec_bind_Done [Hr Hl]%Forall_cons.
  apply exec_bind_Done in Ht as ([es2 d2] & Hd & Ht). simplify_eq. rewrite Hh.
  apply Forall_app. split; [apply actions_obey|]. pose proof (IH _ _ Hd Hl) as Ho.
  unfold elevation_attempts, elevation_open in *. by rewrite <- (handle_settings _ _ _ _ _ Hh Hr).
Qed.

Lemma prompts_start_spec s path udev w d :
  Daemon.start path udev w = Ok d → PromptSpec.of_daemon s d = PromptSpec.init.
Proof.
  unfold Daemon.start. destruct (Config.load _ _ _) as [st|]; [|done]. simpl. intros Hd.
  destruct (Device.enumerate udev); by simplify_eq.
Qed.
End prompting.
