(* ===== verification/DaemonEvents.v ===== *)
(** * DaemonEvents: who is shown what

    The events the daemon sends unasked are for the display of a session.  Each
    goes to the connection that displays the session the event is about: the one
    registered as its compositor, or the one a prompt of it was opened on.  And a
    connection comes to display a session only by an authorized
    [RegisterCompositor]. *)

From stdpp Require Import base gmap strings pretty numbers list.
From S2P Require Import Prelude Errors System Config User Session Seat Auth Lock Idle Elevation.
From S2P Require Import Ipc Policy Launcher Power Daemon DaemonInv DaemonSafety DaemonPrompts Determinism Locking.

(** Connection [c] displays session [s]. *)
Definition displays (d : Daemon.t) (c : ConnId) (s : SessionId) : Prop :=
  (∃ ctx, SessionManager.sessions (Daemon.sessions d) !! s = Some ctx ∧ SessionContext.compositor_conn ctx = Some c) ∨
  (∃ id p, ElevationManager.pending (Daemon.elevation d) !! id = Some p ∧
     PendingElevation.session_id p = s ∧ PendingElevation.compositor_conn p = c).

(** Event [e] is about session [s].  Two events of the protocol are never sent. *)
Definition concerns (d : Daemon.t) (s : SessionId) (e : Event.t) : Prop :=
  match e with
  | Event.ShowLockScreen s' _ | Event.HideLockScreen s' | Event.AuthFeedback s' _
  | Event.SessionActivated _ s' | Event.ShowElevationPrompt _ s' _ => s' = s
  | Event.Dim seat => SeatManager.active_session seat (Daemon.seats d) = Ok (Some s)
  | Event.PrepareForSleep => True
  | Event.ElevationFeedback id _ | Event.HideElevationPrompt id =>
      ∃ p, ElevationManager.pending (Daemon.elevation d) !! id = Some p ∧ PendingElevation.session_id p = s
  | Event.Undim _ | Event.ResumedFromSleep => False
  end.

(** The connections an event makes the display of a session: those of an
    authorized [RegisterCompositor]. *)
Definition grant (i : Daemon.input) (w : World) (d : Daemon.t) : list (ConnId * SessionId) :=
  match i with
  | Daemon.Ipc (ManagerMessage.Command (ManagerCommand.mk c peer (Request.RegisterCompositor s) as cmd)) =>
      if is_ok (Policy.authorize peer c (ManagerCommand.request cmd) (Daemon.sessions d) (Daemon.elevation d) w)
      then [(c, s)] else []
  | _ => []
  end.

(** Every event in [es] goes where [P] allows. *)
Definition telling (P : ConnId → Event.t → Prop) (es : list Effect.t) : Prop :=
  Forall (λ x, match x with Effect.Sent c (Message.Event e) => P c e | _ => True end) es.

Section telling.
Context (P : ConnId → Event.t → Prop).

Lemma telling_app es1 es2 : telling P (es1 ++ es2) ↔ telling P es1 ∧ telling P es2.
Proof. apply Forall_app. Qed.

Lemma telling_nil : telling P [].
Proof. constructor. Qed.

Lemma telling_sys (l : list SysCall.t) : telling P (map Effect.Sys l).
Proof. by induction l; constructor. Qed.

Lemma telling_audit a d : telling P (Daemon.audit_log a d).
Proof. by repeat constructor. Qed.

Lemma telling_response c x r : telling P (ConnRegistry.send_response c x r).
Proof. unfold ConnRegistry.send_response, ConnRegistry.send. case_match; by repeat constructor. Qed.

Lemma telling_event c e r : P c e → telling P (ConnRegistry.send_event c e r).
Proof. intros Hp. unfold ConnRegistry.send_event, ConnRegistry.send. case_match; by repeat constructor. Qed.

Lemma telling_concat {A} (f : A → list Effect.t) l :
  (∀ x, x ∈ l → telling P (f x)) → telling P (concat (map f l)).
Proof.
  induction l as [|x l IH]; intros Hf; [constructor|]. simpl. apply telling_app.
  split; [apply Hf; left|]. apply IH. intros y Hy. apply Hf. by right.
Qed.

Lemma telling_compositor ctx e d :
  (∀ c, SessionContext.compositor_conn ctx = Some c → P c e) → telling P (Daemon.send_to_compositor ctx e d).
Proof. intros Hc. unfold Daemon.send_to_compositor. case_match; [by apply telling_event, Hc|constructor]. Qed.

Lemma telling_tell s next e d :
  (∀ ctx c, SessionManager.sessions (Daemon.sessions d) !! s = Some ctx →
     SessionContext.compositor_conn ctx = Some c → P c e) →
  telling P (Daemon.transition_and_tell s next e d).1.
Proof.
  intros Hs. unfold Daemon.transition_and_tell, SessionManager.get.
  destruct (_ !! s) as [ctx|] eqn:Hl; simpl; [|constructor]. apply telling_compositor. eauto.
Qed.

Lemma telling_abandoned reason l w d :
  (∀ a, a ∈ l → P (AbandonedElevation.compositor_conn a)
                  (Event.HideElevationPrompt (AbandonedElevation.request_id a))) →
  telling P (Daemon.notify_all_abandoned reason l w d).
Proof.
  intros Hl. apply telling_concat. intros a Ha. unfold Daemon.notify_elevation_abandoned.
  rewrite !telling_app. split_and!; [by apply telling_event, Hl|apply telling_response|apply telling_audit].
Qed.
End telling.

#[local] Hint Resolve telling_nil telling_sys telling_audit telling_response : mitos.
#[local] Hint Extern 1 (telling _ (_ ++ _)) => apply telling_app; split : mitos.
#[local] Hint Extern 1 (telling _ (_ :: _)) => constructor; [exact I|] : mitos.

(** ** What a handler may show *)

Section events.
Context `{HashOrder} `{SerdeJson} `{TomlSettings}.
Implicit Types (d : Daemon.t).

(** What may be sent to [c] in state [d]. *)
Definition may_show d (c : ConnId) (e : Event.t) : Prop := ∃ s, displays d c s ∧ concerns d s e.

Lemma may_show_compositor d s ctx c e :
  SessionManager.sessions (Daemon.sessions d) !! s = Some ctx → SessionContext.compositor_conn ctx = Some c →
  concerns d s e → may_show d c e.
Proof. intros Hs Hc He. exists s. split; [|done]. left. eauto. Qed.

Lemma may_hide d id p c :
  ElevationManager.pending (Daemon.elevation d) !! id = Some p → PendingElevation.compositor_conn p = c →
  may_show d c (Event.HideElevationPrompt id) ∧ ∀ o, may_show d c (Event.ElevationFeedback id o).
Proof.
  intros Hp Hc. assert (displays d c (PendingElevation.session_id p)) as Hd by (right; eauto).
  split; [|intros o]; exists (PendingElevation.session_id p); (split; [done|simpl; eauto]).
Qed.

(** Prompts closed in a sweep of the prompts of [d]. *)
Lemma sweep_shows reason ids m w d d' :
  ElevationManager.pending m = ElevationManager.pending (Daemon.elevation d) →
  telling (may_show d) (Daemon.notify_all_abandoned reason (ElevationManager.take_all_abandoned ids m).1 w d').
Proof.
  intros Hm. apply telling_abandoned. intros a (id & p & _ & Hp & ->)%elem_of_take_all. simpl.
  rewrite Hm in Hp. by apply (may_hide d id p).
Qed.

Lemma try_spawn_shows P id w d : telling P (Daemon.try_spawn_compositor id w d).1.
Proof. unfold Daemon.try_spawn_compositor. repeat case_match; simpl; auto with mitos. Qed.

Lemma create_shows P peer name seat ty w d : telling P (Daemon.create_session peer name seat ty w d).1.1.
Proof.
  unfold Daemon.create_session. destruct (User.by_name name w); simpl; [|auto with mitos].
  destruct (SessionManager.create_session _ _ _ _ _ _) as [[calls [id|e]] ss]; simpl; [|auto with mitos].
  case_decide; simpl; [|auto 10 with mitos].
  match goal with |- context [Daemon.try_spawn_compositor ?i ?w ?d0] =>
    pose proof (try_spawn_shows P i w d0) as Hf; destruct (Daemon.try_spawn_compositor i w d0) end.
  simpl in *. auto with mitos.
Qed.

Lemma terminate_shows peer s w d : telling (may_show d) (Daemon.terminate_session peer s w d).1.1.
Proof.
  unfold Daemon.terminate_session. destruct (SessionManager.terminate_session _ _) as [[calls [|]] ss]; simpl; [|auto with mitos].
  unfold ElevationManager.abandon_session, ElevationManager.abandon_where. simpl.
  destruct (ElevationManager.take_all_abandoned _ _) as [ab e] eqn:Ht. simpl.
  assert (ab = (ElevationManager.take_all_abandoned
    (filter (λ e, (λ p, bool_decide (PendingElevation.session_id p = s)) e.2 = true)
      (hash_entries (ElevationManager.pending (Daemon.elevation d)))).*1 (Daemon.elevation d)).1) as -> by by rewrite Ht.
  rewrite telling_app. split; [auto with mitos|]. constructor; [exact I|]. by apply sweep_shows.
Qed.

Lemma lock_shows peer s reason w d : telling (may_show d) (Daemon.lock_session peer s reason w d).1.1.
Proof.
  unfold Daemon.lock_session. case_match; [apply telling_nil|].
  destruct (LockManager.lock _ _ _) as [[[]|e] l]; [|apply telling_nil].
  pose proof (telling_tell (may_show d) s SessionState.Locked (Event.ShowLockScreen s reason) (Daemon.with_locks l d)) as Hf.
  destruct (Daemon.transition_and_tell _ _ _ _). simpl in *. apply telling_app. split; [|auto with mitos].
  apply Hf. intros ctx c Hs Hc. by eapply may_show_compositor.
Qed.

Lemma unlock_shows peer s u p w d es r d' :
  Daemon.unlock peer s u p w d = Done (es, r, d') → telling (may_show d) es.
Proof.
  unfold Daemon.unlock. intros ([o l] & _ & Hu)%exec_bind_Done.
  pose proof (telling_tell (may_show d) s SessionState.Active (Event.HideLockScreen s) (Daemon.with_locks l d)) as Hf.
  assert (telling (may_show d) match SessionManager.get s (Daemon.sessions d) with
    | Ok ctx => Daemon.send_to_compositor ctx (Event.AuthFeedback s o) (Daemon.with_locks l d)
    | Err _ => [] end) as Hc.
  { unfold SessionManager.get. destruct (_ !! s) as [ctx|] eqn:Hs; simpl; [|apply telling_nil].
    apply telling_compositor. intros c Hc. by eapply may_show_compositor. }
  destruct o; simplify_eq/=; try (apply telling_app; split; [exact Hc|auto with mitos]).
  destruct (Daemon.transition_and_tell _ _ _ _). simplify_eq/=. apply telling_app. split; [|auto with mitos].
  apply Hf. intros ctx c Hs Hcc. by eapply may_show_compositor.
Qed.

Lemma start_shows conn peer s action w d es r d' :
  Daemon.start_elevation conn peer s action w d = Done (es, r, d') → telling (may_show d) es.
Proof.
  unfold Daemon.start_elevation, SessionManager.get. intros Hs. case_match; [|simplify_eq; auto with mitos].
  case_match; [simplify_eq; auto with mitos|].
  destruct (SessionManager.sessions _ !! s) as [ctx|] eqn:Hl; simpl in Hs; [|simplify_eq; auto with mitos].
  case_match; [simplify_eq; auto with mitos|].
  destruct (SessionContext.compositor_conn ctx) as [c|] eqn:Hc; [|simplify_eq; auto with mitos].
  apply exec_bind_Done in Hs as ([r1 e1] & _ & Hs). repeat case_match; simplify_eq; auto with mitos.
  constructor; [exact I|]. apply telling_event. by eapply may_show_compositor.
Qed.

Lemma respond_shows peer id resp w d es r d' :
  Daemon.respond_elevation peer id resp w d = Done (es, r, d') → telling (may_show d) es.
Proof.
  unfold Daemon.respond_elevation, ElevationManager.peek.
  destruct (ElevationManager.pending (Daemon.elevation d) !! id) as [p|] eqn:Hp; simpl; [|intros; simplify_eq; auto with mitos].
  intros (x & Hx & Hr)%exec_bind_Done.
  assert (∀ o e, x = Ok (Some o, e) → ElevationOutcome.compositor_conn o = PendingElevation.compositor_conn p) as Ho.
  { intros o e ->. destruct resp as [pw|].
    - unfold SessionManager.get in Hx. destruct (_ !! PendingElevation.session_id p); simpl in Hx; [|done].
      apply exec_bind_Done in Hx as ([o' e'] & Hat & Hx). simplify_eq.
      destruct (attempt_cases _ _ _ _ _ _ _ _ _ Hp Hat) as [(_ & ? & _)|[(_ & _ & ? & _)|(_ & _ & ? & _)]]; by simplify_eq.
    - unfold ElevationManager.cancel in Hx. rewrite Hp in Hx. by simplify_eq. }
  destruct x as [[[o|] e]|er]; simplify_eq; auto with mitos. apply telling_app. split; [|auto with mitos].
  destruct (may_hide d id p (ElevationOutcome.compositor_conn o) Hp) as [Hh Hf]; [by rewrite (Ho o e)|].
  unfold Daemon.tell_resolved. apply telling_app. split; [by apply telling_event|].
  destruct (ElevationOutcome.terminal o); [|apply telling_nil]. apply telling_app.
  split; [by apply telling_event|apply telling_response].
Qed.

Lemma suspend_shows w d : telling (may_show d) (Daemon.suspend w d).1.1.
Proof.
  unfold Daemon.suspend. destruct (InhibitorRegistry.blocks InhibitWhat.Suspend
    (LockManager.inhibitors (Daemon.locks d))) eqn:Hb.
  - rewrite suspend_blocked by done. apply telling_nil.
  - edestruct suspend_effects as (log & l' & -> & Hlog); [done|]. simpl. rewrite Hlog. unfold notice. rewrite !telling_app.
    split_and!; auto with mitos. apply telling_concat. intros ctx Hin.
    unfold SessionManager.list in Hin. apply elem_of_hash_values in Hin as [s Hs].
    destruct (SessionContext.compositor_conn ctx) as [c|] eqn:Hc; [|apply telling_nil].
    apply telling_event. by eapply may_show_compositor.
Qed.

Lemma stage_shows w d x : telling (may_show d) (did_by w d x).
Proof.
  unfold did_by. destruct x.2; [apply telling_nil| | |apply suspend_shows].
  - unfold Daemon.notify_active_compositor, SessionManager.get.
    destruct (SeatManager.active_session x.1 (Daemon.seats d)) as [[s|]|] eqn:Ha; try apply telling_nil.
    destruct (_ !! s) as [ctx|] eqn:Hs; simpl; [|apply telling_nil].
    apply telling_compositor. intros c Hc. by eapply may_show_compositor.
  - apply telling_concat. intros s _. unfold SessionManager.get.
    destruct (_ !! s) as [ctx|] eqn:Hs; simpl; [|apply telling_nil].
    apply telling_compositor. intros c Hc. by eapply may_show_compositor.
Qed.

(** ** Any event *)

Lemma dispatch_shows conn peer req w d es r d' :
  Daemon.dispatch conn peer req w d = Done (es, r, d') →
  telling (λ c e, may_show d c e ∨ ∃ s, c = conn ∧ req = Request.RegisterCompositor s ∧ concerns d s e) es.
Proof.
  assert (∀ es, telling (may_show d) es →
    telling (λ c e, may_show d c e ∨ ∃ s, c = conn ∧ req = Request.RegisterCompositor s ∧ concerns d s e) es) as Hw.
  { intros es0 Hes. eapply Forall_impl; [exact Hes|]. intros [|c []|]; auto. }
  unfold Daemon.dispatch, Daemon.replying. intros Hd.
  destruct req; try (simplify_eq; apply telling_nil).
  - pose proof (create_shows (may_show d) peer user_name seat_id session_type w d).
    by destruct (Daemon.create_session _ _ _ _ _ _) as [[? ?] ?]; simplify_eq; apply Hw.
  - pose proof (terminate_shows peer session_id w d).
    by destruct (Daemon.terminate_session _ _ _ _) as [[? ?] ?]; simplify_eq; apply Hw.
  - unfold Daemon.register_compositor in Hd. repeat case_match; simplify_eq/=; try apply telling_nil.
    apply telling_event. right. by exists session_id.
  - pose proof (lock_shows peer session_id LockReason.Manual w d).
    by destruct (Daemon.lock_session _ _ _ _ _) as [[? ?] ?]; simplify_eq; apply Hw.
  - apply exec_bind_Done in Hd as ([[es1 r1] d1] & Hu & Hd). simplify_eq. by eapply Hw, unlock_shows.
  - destruct (SeatManager.switch_active _ _ _) as [[] ss]; simplify_eq; [|apply telling_nil].
    apply Hw. unfold SessionManager.get. simpl. destruct (_ !! session_id) as [ctx|] eqn:Hs; simpl; [|apply telling_nil].
    apply telling_compositor. intros c Hc. by eapply may_show_compositor.
  - destruct (LockManager.add_inhibitor _ _ _ _ _); simplify_eq; apply telling_nil.
  - destruct (LockManager.release_inhibitor _ _); simplify_eq; apply telling_nil.
  - pose proof (suspend_shows w d). by destruct (Daemon.suspend w d) as [[? ?] ?]; simplify_eq; apply Hw.
  - destruct (Power.reboot _ _ _ _ _) as [[? ?] ?]; simplify_eq; apply telling_sys.
  - destruct (Power.poweroff _ _ _ _ _) as [[? ?] ?]; simplify_eq; apply telling_sys.
  - by eapply Hw, start_shows.
  - apply exec_bind_Done in Hd as ([[es1 r1] d1] & Hu & Hd). simplify_eq. by eapply Hw, respond_shows.
Qed.

Lemma idle_tick_shows w d : telling (may_show d) (Daemon.on_idle_tick w d).1.
Proof.
  unfold Daemon.on_idle_tick. destruct (IdleDetector.tick _ _ _) as [ch i].
  destruct (on_stages_moved w ch (Daemon.with_idle i d)) as (es & ids & shown & -> & Hes & _). cbn [fst snd].
  match goal with |- context [ElevationManager.expire_pending ?n ?m] =>
    assert (ElevationManager.pending m = ElevationManager.pending (Daemon.elevation d)) as Hm
      by apply clear_expired_frame;
    destruct (ElevationManager.expire_pending n m) as [ab el] eqn:Hx end.
  simpl. apply telling_app. split.
  - unfold telling. rewrite Hes. apply (telling_concat (may_show d)). intros x _. apply (stage_shows w (Daemon.with_idle i d)).
  - unfold ElevationManager.expire_pending in Hx.
    destruct (ElevationTimeouts.expired_prompts _ _) as [ids' x].
    apply telling_abandoned. intros a Ha.
    match type of Hx with ElevationManager.take_all_abandoned ?l ?m = _ =>
      assert (a ∈ (ElevationManager.take_all_abandoned l m).1) as Ha' by by rewrite Hx end.
    apply elem_of_take_all in Ha' as (id & p & _ & Hp & ->). simpl in *. rewrite Hm in Hp. by apply (may_hide d id p).
Qed.

Lemma reap_shows P statuses d : telling P (Daemon.reap_children statuses d).1.
Proof.
  revert d. induction statuses as [|[[] w] statuses IH]; intros d; simpl; auto with mitos.
  assert (telling P (Daemon.handle_compositor_exit pid w d).1) as Hk.
  { unfold Daemon.handle_compositor_exit. case_match; [|apply telling_nil]. case_match. case_match.
    - apply try_spawn_shows.
    - repeat case_match; simpl; auto with mitos. }
  destruct (Daemon.handle_compositor_exit pid w d) as [es1 d1]. specialize (IH d1).
  destruct (Daemon.reap_children statuses d1). simpl in *. auto with mitos.
Qed.

Lemma handle_shows i w d es d' :
  Daemon.handle i w d = Done (es, d') →
  telling (λ c e, ∃ s, (displays d c s ∨ (c, s) ∈ grant i w d) ∧ concerns d s e) es.
Proof.
  assert (∀ es, telling (may_show d) es → telling (λ c e, ∃ s, (displays d c s ∨ (c, s) ∈ grant i w d) ∧ concerns d s e) es) as Hw.
  { intros es0 Hes. eapply Forall_impl; [exact Hes|]. intros [|c []|]; try done. intros (s & ? & ?). eauto. }
  destruct i as [[conn peer ob|[conn peer req]|conn]| |sig statuses]; intros Hh; simpl in Hh.
  - simplify_eq. apply telling_nil.
  - unfold Daemon.handle_command in Hh. simpl in Hh.
    destruct (Policy.authorize _ _ _ _ _ _) as [[]|e] eqn:Ha; [|simplify_eq; auto with mitos].
    apply exec_bind_Done in Hh as ([[es1 r1] d1] & Hd & Hh). simplify_eq. apply telling_app.
    split; [|case_match; auto with mitos]. eapply Forall_impl; [by eapply dispatch_shows|].
    intros [|c []|]; try done. intros [(s & ? & ?)|(s & -> & -> & ?)]; [by eauto|].
    exists s. split; [|done]. right. simpl. rewrite Ha. simpl. set_solver.
  - unfold Daemon.disconnected, ElevationManager.abandon_connection, ElevationManager.abandon_where in Hh.
    destruct (ElevationManager.take_all_abandoned _ _) as [ab el] eqn:Ht. simplify_eq.
    match type of Ht with ElevationManager.take_all_abandoned ?ids ?m = _ =>
      assert (ab = (ElevationManager.take_all_abandoned ids m).1) as -> by by rewrite Ht end.
    by apply Hw, sweep_shows.
  - injection Hh as Hh. pose proof (idle_tick_shows w d) as Hk. rewrite Hh in Hk. by apply Hw.
  - destruct (SignalEvent.classify sig) as [ev|]; injection Hh as Hh; [|simplify_eq; auto with mitos].
    destruct ev; simpl in Hh.
    + destruct (Power.graceful_shutdown _ _ _) as [[? ?] ?]. simplify_eq. constructor; [exact I|apply telling_sys].
    + simplify_eq. auto with mitos.
    + pose proof (reap_shows (may_show d) statuses d) as Hk. rewrite Hh in Hk. by apply Hw.
Qed.

(** ** Who comes to display a session *)

(** No session of [ss'] has a compositor it did not have in [ss]. *)
Definition keeps_conns (ss ss' : SessionManager.t) : Prop :=
  ∀ s ctx' c, SessionManager.sessions ss' !! s = Some ctx' → SessionContext.compositor_conn ctx' = Some c →
    ∃ ctx, SessionManager.sessions ss !! s = Some ctx ∧ SessionContext.compositor_conn ctx = Some c.

Lemma keeps_conns_refl ss : keeps_conns ss ss.
Proof. intros s ctx c. eauto. Qed.

Lemma keeps_conns_trans ss1 ss2 ss3 : keeps_conns ss1 ss2 → keeps_conns ss2 ss3 → keeps_conns ss1 ss3.
Proof. intros H12 H23 s ctx c Hs Hc. destruct (H23 _ _ _ Hs Hc) as (ctx2 & Hs2 & Hc2). by eapply H12. Qed.

Lemma keeps_conns_update ss s f :
  (∀ x c, SessionContext.compositor_conn (f x) = Some c → SessionContext.compositor_conn x = Some c) →
  keeps_conns ss (SessionManager.update s f ss).
Proof.
  intros Hf t ctx c. simpl. rewrite lookup_alter. case_decide; [subst|eauto].
  intros (x & Hx & ->)%fmap_Some Hc. eauto.
Qed.

Lemma keeps_conns_subset ss ss' :
  SessionManager.sessions ss' ⊆ SessionManager.sessions ss → keeps_conns ss ss'.
Proof. intros Hs t ctx c Ht Hc. exists ctx. split; [by eapply lookup_weaken|done]. Qed.

Lemma transition_conn next x : SessionContext.compositor_conn (SessionContext.try_transition next x) = SessionContext.compositor_conn x.
Proof. unfold SessionContext.try_transition, SessionContext.transition. by case_match. Qed.

Lemma keeps_conns_tell s next e d :
  keeps_conns (Daemon.sessions d) (Daemon.sessions (Daemon.transition_and_tell s next e d).2).
Proof.
  unfold Daemon.transition_and_tell. case_match; [|apply keeps_conns_refl].
  apply keeps_conns_update. intros x c. by rewrite transition_conn.
Qed.

Lemma keeps_conns_spawn id w d :
  keeps_conns (Daemon.sessions d) (Daemon.sessions (Daemon.try_spawn_compositor id w d).2).
Proof.
  unfold Daemon.try_spawn_compositor. repeat case_match; try apply keeps_conns_refl. by apply keeps_conns_update.
Qed.

Lemma keeps_conns_create peer name seat ty w d :
  keeps_conns (Daemon.sessions d) (Daemon.sessions (Daemon.create_session peer name seat ty w d).2).
Proof.
  unfold Daemon.create_session. destruct (User.by_name name w); [|apply keeps_conns_refl].
  destruct (SessionManager.create_session _ _ _ _ _ _) as [[calls res] ss] eqn:Hc.
  assert (keeps_conns (Daemon.sessions d) ss) as Hss.
  { apply create_session_cases in Hc as [(msg & _ & _ & -> & _)|(_ & _ & [(e & _ & Hs)|(_ & Hs)])].
    - apply keeps_conns_refl.
    - apply keeps_conns_subset. by rewrite Hs.
    - intros t ctx c. rewrite Hs. intros [[<- <-]|[_ Ht]]%lookup_insert_Some; [done|eauto]. }
  destruct res as [id|e]; [|done]. case_decide; [|done].
  match goal with |- context [Daemon.try_spawn_compositor ?i ?w ?d0] =>
    pose proof (keeps_conns_spawn i w d0) as Hf; destruct (Daemon.try_spawn_compositor i w d0) end.
  simpl in *. by eapply keeps_conns_trans.
Qed.

Lemma keeps_conns_terminate_all ids ss : keeps_conns ss (Power.terminate_all ids ss).2.
Proof.
  apply keeps_conns_subset. rewrite terminate_all_sessions. simpl. apply map_subseteq_spec. intros s ctx.
  rewrite lookup_delete_list. by case_decide.
Qed.

Lemma keeps_conns_exit pid w d :
  keeps_conns (Daemon.sessions d) (Daemon.sessions (Daemon.handle_compositor_exit pid w d).2).
Proof.
  unfold Daemon.handle_compositor_exit.
  destruct (Daemon.find_compositor pid _) as [[key ctx]|]; [|apply keeps_conns_refl].
  set (d1 := Daemon.with_sessions (SessionManager.update key Daemon.compositor_gone (Daemon.sessions d)) d).
  set (d2 := match SessionContext.compositor_conn ctx with Some conn => _ | None => d1 end).
  set (d3 := Daemon.with_sessions (SessionManager.update (SessionContext.id ctx) _ (Daemon.sessions d2)) d2).
  assert (Daemon.sessions d2 = Daemon.sessions d1) as H2 by (subst d2; by case_match).
  assert (keeps_conns (Daemon.sessions d) (Daemon.sessions d3)) as H3.
  { eapply (keeps_conns_trans _ (Daemon.sessions d1)); [by apply keeps_conns_update|]. rewrite <- H2.
    apply keeps_conns_update. intros x c. by rewrite transition_conn. }
  clearbody d3. clear d1 d2 H2. destruct (Launcher.decide_restart _ _).
  - eapply keeps_conns_trans; [exact H3|]. eapply keeps_conns_trans; [|apply keeps_conns_spawn].
    by apply keeps_conns_update.
  - repeat case_match; try done. eapply keeps_conns_trans; [exact H3|]. by apply keeps_conns_update.
Qed.

Lemma keeps_conns_reap statuses d :
  keeps_conns (Daemon.sessions d) (Daemon.sessions (Daemon.reap_children statuses d).2).
Proof.
  revert d. induction statuses as [|[[] w] statuses IH]; intros d; simpl; try apply keeps_conns_refl; [|apply IH].
  pose proof (keeps_conns_exit pid w d) as Hx. destruct (Daemon.handle_compositor_exit pid w d) as [es1 d1].
  specialize (IH d1). destruct (Daemon.reap_children statuses d1). simpl in *. by eapply keeps_conns_trans.
Qed.

Lemma keeps_conns_show ids ss : keeps_conns ss (show_all ids ss).
Proof.
  unfold show_all. revert ss. induction ids as [|s ids IH]; intros ss; [apply keeps_conns_refl|]. simpl.
  eapply keeps_conns_trans; [|apply IH]. apply keeps_conns_update. intros x c. by rewrite transition_conn.
Qed.

(** Requests other than [RegisterCompositor]. *)
Lemma dispatch_conns conn peer req w d es r d' :
  Daemon.dispatch conn peer req w d = Done (es, r, d') → (∀ s, req ≠ Request.RegisterCompositor s) →
  keeps_conns (Daemon.sessions d) (Daemon.sessions d').
Proof.
  unfold Daemon.dispatch, Daemon.replying. intros Hd Hreq.
  destruct req; try (simplify_eq; apply keeps_conns_refl); try (by destruct (Hreq session_id)).
  - pose proof (keeps_conns_create peer user_name seat_id session_type w d).
    by destruct (Daemon.create_session _ _ _ _ _ _) as [[? ?] ?]; simplify_eq.
  - unfold Daemon.terminate_session, SessionManager.terminate_session in Hd.
    destruct (SessionManager.sessions (Daemon.sessions d) !! session_id); simpl in Hd.
    + destruct (ElevationManager.abandon_session _ _). simplify_eq. apply keeps_conns_subset, delete_subseteq.
    + simplify_eq. apply keeps_conns_refl.
  - unfold Daemon.lock_session in Hd. destruct (Daemon.cannot_lock _ _ _); [simplify_eq; apply keeps_conns_refl|].
    destruct (LockManager.lock _ _ _) as [[[]|e] l]; [|simplify_eq; apply keeps_conns_refl].
    pose proof (keeps_conns_tell session_id SessionState.Locked
      (Event.ShowLockScreen session_id LockReason.Manual) (Daemon.with_locks l d)) as Ht.
    destruct (Daemon.transition_and_tell _ _ _ _). by simplify_eq.
  - apply exec_bind_Done in Hd as ([[es1 r1] d1] & Hu & Hd). simplify_eq.
    apply exec_bind_Done in Hu as ([o l] & _ & Hu).
    pose proof (keeps_conns_tell session_id SessionState.Active (Event.HideLockScreen session_id)
      (Daemon.with_locks l d)) as Ht.
    destruct o; simplify_eq/=; try apply keeps_conns_refl. destruct (Daemon.transition_and_tell _ _ _ _). by simplify_eq.
  - destruct (SeatManager.switch_active _ _ _) as [[] ss]; simplify_eq; apply keeps_conns_refl.
  - destruct (LockManager.add_inhibitor _ _ _ _ _); simplify_eq; apply keeps_conns_refl.
  - destruct (LockManager.release_inhibitor _ _); simplify_eq; apply keeps_conns_refl.
  - destruct (Daemon.suspend w d) as [[es0 r0] d0] eqn:Hs. simplify_eq.
    destruct (suspend_quiet w d _ _ _ Hs) as [-> _]. apply keeps_conns_refl.
  - unfold Power.reboot in Hd. destruct (InhibitorRegistry.blocks _ _); [simplify_eq; apply keeps_conns_refl|].
    match goal with _ : context [Power.terminate_all ?l ?ss] |- _ =>
      pose proof (keeps_conns_terminate_all l ss); destruct (Power.terminate_all l ss) end.
    destruct (backend_reboot _ _). by simplify_eq.
  - unfold Power.poweroff in Hd. destruct (InhibitorRegistry.blocks _ _); [simplify_eq; apply keeps_conns_refl|].
    match goal with _ : context [Power.terminate_all ?l ?ss] |- _ =>
      pose proof (keeps_conns_terminate_all l ss); destruct (Power.terminate_all l ss) end.
    destruct (backend_poweroff _ _). by simplify_eq.
  - unfold Daemon.start_elevation in Hd. repeat case_match; simplify_eq; try apply keeps_conns_refl.
    apply exec_bind_Done in Hd as ([r1 e1] & _ & Hd). repeat case_match; simplify_eq; apply keeps_conns_refl.
  - apply exec_bind_Done in Hd as ([[es1 r1] d1] & Hu & Hd). simplify_eq. unfold Daemon.respond_elevation in Hu.
    case_match; [|simplify_eq; apply keeps_conns_refl]. apply exec_bind_Done in Hu as (x & _ & Hr).
    repeat case_match; simplify_eq; apply keeps_conns_refl.
Qed.

(** The prompts of [d'] are prompts of [d], or were opened on a compositor of [d]. *)
Definition keeps_prompts d d' : Prop :=
  ∀ id p, ElevationManager.pending (Daemon.elevation d') !! id = Some p →
    ElevationManager.pending (Daemon.elevation d) !! id = Some p ∨
    ∃ ctx, SessionManager.sessions (Daemon.sessions d) !! PendingElevation.session_id p = Some ctx ∧
      SessionContext.compositor_conn ctx = Some (PendingElevation.compositor_conn p).

Lemma keeps_prompts_subset d d' :
  ElevationManager.pending (Daemon.elevation d') ⊆ ElevationManager.pending (Daemon.elevation d) → keeps_prompts d d'.
Proof. intros Hs id p Hp. left. by eapply lookup_weaken. Qed.

Lemma keeps_prompts_sweep ids m d d' :
  ElevationManager.pending m = ElevationManager.pending (Daemon.elevation d) →
  ElevationManager.pending (Daemon.elevation d') =
    ElevationManager.pending (ElevationManager.take_all_abandoned ids m).2 → keeps_prompts d d'.
Proof.
  intros Hm Hd. apply keeps_prompts_subset. rewrite Hd, take_all_state. simpl. rewrite Hm.
  apply map_subseteq_spec. intros id p. rewrite lookup_delete_list. by case_decide.
Qed.

Lemma start_prompts conn peer s action w d es r d' :
  Daemon.start_elevation conn peer s action w d = Done (es, r, d') → keeps_prompts d d'.
Proof.
  unfold Daemon.start_elevation, SessionManager.get. intros Hs.
  assert (d' = d → keeps_prompts d d') as Hsame by (intros ->; by apply keeps_prompts_subset).
  case_match; [|simplify_eq; auto]. case_match; [simplify_eq; auto|].
  destruct (SessionManager.sessions _ !! s) as [ctx|] eqn:Hl; simpl in Hs; [|simplify_eq; auto].
  case_match; [simplify_eq; auto|].
  destruct (SessionContext.compositor_conn ctx) as [c|] eqn:Hc; [|simplify_eq; auto].
  apply exec_bind_Done in Hs as ([r1 e1] & Hb & Hs).
  assert (Daemon.elevation d' = e1) as He by (repeat case_match; by simplify_eq).
  apply begin_cases in Hb as [(_ & -> & _)|[(_ & -> & _)|(_ & _ & id & -> & _ & ->)]];
    [by apply keeps_prompts_subset; rewrite He..|].
  intros id p. rewrite He. simpl. intros [[<- <-]|[_ Hp]]%lookup_insert_Some; [|by left].
  right. exists ctx. simpl. auto.
Qed.

Lemma respond_prompts peer id resp w d es r d' :
  Daemon.respond_elevation peer id resp w d = Done (es, r, d') → keeps_prompts d d'.
Proof.
  unfold Daemon.respond_elevation, ElevationManager.peek.
  assert (d' = d → keeps_prompts d d') as Hsame by (intros ->; by apply keeps_prompts_subset).
  destruct (ElevationManager.pending (Daemon.elevation d) !! id) as [p|] eqn:Hp; simpl; [|intros; simplify_eq; auto].
  intros (x & Hx & Hr)%exec_bind_Done.
  assert (∀ o e, x = Ok (o, e) → ElevationManager.pending e ⊆ ElevationManager.pending (Daemon.elevation d)) as Ho.
  { intros o e ->. destruct resp as [pw|].
    - unfold SessionManager.get in Hx. destruct (_ !! PendingElevation.session_id p); simpl in Hx; [|done].
      apply exec_bind_Done in Hx as ([o' e'] & Hat & Hx). simplify_eq.
      destruct (attempt_cases _ _ _ _ _ _ _ _ _ Hp Hat) as [(_ & _ & ->)|[(_ & _ & _ & ->)|(_ & _ & _ & ->)]];
        simpl; (apply delete_subseteq || done).
    - unfold ElevationManager.cancel in Hx. rewrite Hp in Hx. simplify_eq. simpl. apply delete_subseteq. }
  destruct x as [[[o|] e]|er]; simplify_eq; auto; apply keeps_prompts_subset; by eapply Ho.
Qed.

Lemma handle_prompts i w d es d' : Daemon.handle i w d = Done (es, d') → keeps_prompts d d'.
Proof.
  destruct i as [[conn peer ob|[conn peer req]|conn]| |sig statuses]; intros Hh; simpl in Hh.
  - simplify_eq. by apply keeps_prompts_subset.
  - unfold Daemon.handle_command in Hh. cbn [ManagerCommand.conn_id ManagerCommand.peer ManagerCommand.request] in Hh.
    destruct (Policy.authorize _ _ _ _ _ _); [|simplify_eq; by apply keeps_prompts_subset].
    apply exec_bind_Done in Hh as ([[es1 r1] d1] & Hd & Hh). simplify_eq.
    destruct (about_prompts req) eqn:Ha.
    2: { apply keeps_prompts_subset. by rewrite (proj1 (dispatch_elevation_frame _ _ _ _ _ _ _ _ Hd Ha)). }
    unfold Daemon.dispatch, Daemon.replying in Hd. destruct req; try done.
    + unfold Daemon.terminate_session in Hd. destruct (SessionManager.terminate_session _ _) as [[calls [|]] ss];
        [|simplify_eq; by apply keeps_prompts_subset].
      destruct (ElevationManager.abandon_session _ _) as [ab e] eqn:Hab. simplify_eq.
      eapply keeps_prompts_sweep; [reflexivity|]. simpl. change e with (ab, e).2. by rewrite <- Hab.
    + by eapply start_prompts.
    + apply exec_bind_Done in Hd as ([[es1' r1'] d1'] & Hu & Hd). simplify_eq. by eapply respond_prompts.
  - unfold Daemon.disconnected in Hh. destruct (ElevationManager.abandon_connection _ _) as [ab e] eqn:Hab. simplify_eq.
    eapply keeps_prompts_sweep; [reflexivity|]. simpl. change e with (ab, e).2. by rewrite <- Hab.
  - injection Hh as Hh. unfold Daemon.on_idle_tick in Hh. destruct (IdleDetector.tick _ _ _) as [ch idle].
    destruct (on_stages_elevation w ch (Daemon.with_idle idle d)) as [He _].
    destruct (Daemon.on_stages _ _ _) as [es1 d1]. simpl in *.
    destruct (ElevationManager.expire_pending _ _) as [ab e] eqn:Hx. simplify_eq.
    eapply (keeps_prompts_sweep _ (ElevationManager.clear_expired_lockouts (w_now w) (Daemon.elevation d1))).
    + rewrite <- He. apply clear_expired_frame.
    + simpl. rewrite <- (expire_state (w_now w)), Hx. done.
  - destruct (SignalEvent.classify sig) as [ev|]; injection Hh as Hh; [|simplify_eq; by apply keeps_prompts_subset].
    pose proof (signal_frame ev statuses w d) as (_ & Hp & _). rewrite Hh in Hp. apply keeps_prompts_subset.
    simpl in Hp. by rewrite Hp.
Qed.

Lemma handle_conns i w d es d' s ctx' c :
  Daemon.handle i w d = Done (es, d') →
  SessionManager.sessions (Daemon.sessions d') !! s = Some ctx' → SessionContext.compositor_conn ctx' = Some c →
  displays d c s ∨ (c, s) ∈ grant i w d.
Proof.
  intros Hh Hs Hc.
  assert (keeps_conns (Daemon.sessions d) (Daemon.sessions d') → displays d c s ∨ (c, s) ∈ grant i w d) as Hk.
  { intros Hk. destruct (Hk _ _ _ Hs Hc) as (ctx & ? & ?). left. left. eauto. }
  destruct i as [[conn peer ob|[conn peer req]|conn]| |sig statuses]; simpl in Hh.
  - simplify_eq. apply Hk, keeps_conns_refl.
  - unfold Daemon.handle_command in Hh. simpl in Hh.
    destruct (Policy.authorize _ _ _ _ _ _) as [[]|e] eqn:Ha; [|simplify_eq; apply Hk, keeps_conns_refl].
    apply exec_bind_Done in Hh as ([[es1 r1] d1] & Hd & Hh). simplify_eq.
    destruct req; try (apply Hk; by eapply dispatch_conns).
    simpl in *. rewrite Ha. simpl. clear Hk Ha. unfold Daemon.register_compositor, SessionManager.get, Daemon.replying in Hd.
    destruct (SessionManager.sessions (Daemon.sessions d) !! session_id) as [x|] eqn:Hx; simpl in Hd.
    2: { simplify_eq. left. left. eauto. }
    assert (∃ next, SessionManager.sessions (Daemon.sessions d') =
      alter (SessionContext.try_transition next)
        session_id (alter (SessionContext.with_conn (Some conn)) session_id
          (SessionManager.sessions (Daemon.sessions d)))) as [next Hd'].
    { destruct (LockManager.is_locked _ _); simplify_eq; by eexists. }
    rewrite Hd', lookup_alter in Hs. destruct (decide (session_id = s)) as [->|Hne].
    + rewrite lookup_alter_eq, Hx in Hs. simpl in Hs. simplify_eq. rewrite transition_conn in Hc. simpl in Hc.
      simplify_eq. right. set_solver.
    + rewrite lookup_alter_ne in Hs by done. left. left. eauto.
  - unfold Daemon.disconnected in Hh. destruct (ElevationManager.abandon_connection _ _). simplify_eq. apply Hk.
    intros s0 x k. simpl. rewrite lookup_fmap. intros (y & Hy & ->)%fmap_Some. unfold Daemon.clear_conn.
    case_decide; [done|eauto].
  - injection Hh as Hh. apply Hk. unfold Daemon.on_idle_tick in Hh. destruct (IdleDetector.tick _ _ _) as [ch idle].
    destruct (on_stages_moved w ch (Daemon.with_idle idle d)) as (es1 & ids & shown & Heq & _). rewrite Heq in Hh.
    destruct (ElevationManager.expire_pending _ _). simplify_eq. apply keeps_conns_show.
  - apply Hk. destruct (SignalEvent.classify sig) as [[]|]; simplify_eq/=; try apply keeps_conns_refl.
    + unfold Power.graceful_shutdown in Hh.
      match goal with _ : context [Power.terminate_all ?l ?ss] |- _ =>
        pose proof (keeps_conns_terminate_all l ss); destruct (Power.terminate_all l ss) end.
      destruct (w_exists _ _); by simplify_eq/=.
    + unfold Daemon.reload_config. case_match; apply keeps_conns_refl.
    + pose proof (keeps_conns_reap statuses d) as Hr. by rewrite Hh in Hr.
Qed.

Lemma handle_displays i w d es d' c s :
  Daemon.handle i w d = Done (es, d') → displays d' c s → displays d c s ∨ (c, s) ∈ grant i w d.
Proof.
  intros Hh [(ctx & Hs & Hc)|(id & p & Hp & <- & <-)]; [by eapply handle_conns|]. left.
  destruct (handle_prompts _ _ _ _ _ Hh id p Hp) as [?|(ctx & ? & ?)]; [right|left]; eauto.
Qed.

(** *** Over a run *)

Fixpoint grants (l : list (Daemon.input * World)) d : list (ConnId * SessionId) :=
  match l with
  | [] => []
  | (i, w) :: l' =>
      grant i w d ++ match Daemon.handle i w d with
                     | Done (_, d') => grants l' d'
                     | Panicked => []
                     end
  end.

Lemma grants_snoc l d es d' i w :
  Daemon.handle_all l d = Done (es, d') → grants (l ++ [(i, w)]) d = grants l d ++ grant i w d'.
Proof.
  revert d es. induction l as [|[j v] l IH]; intros d es; cbn [Daemon.handle_all grants app].
  { intros [= <- <-]. case_match; [|by rewrite app_nil_r]. case_match. by rewrite app_nil_r. }
  intros ([es1 d1] & Hh & Ht)%exec_bind_Done. apply exec_bind_Done in Ht as ([es2 d2] & Hr & Ht). simplify_eq.
  rewrite Hh, (IH _ _ Hr). by rewrite (assoc_L app).
Qed.

Lemma run_displays l d es d' c s :
  Daemon.handle_all l d = Done (es, d') → displays d' c s → displays d c s ∨ (c, s) ∈ grants l d.
Proof.
  revert d es. induction l as [|[i w] l IH]; intros d es; cbn [Daemon.handle_all grants].
  { intros [= <- <-]. auto. }
  intros ([es1 d1] & Hh & Ht)%exec_bind_Done Hd. apply exec_bind_Done in Ht as ([es2 d2] & Hr & Ht). simplify_eq.
  rewrite Hh, elem_of_app. destruct (IH _ _ Hr Hd) as [Hd1|]; [|auto].
  destruct (handle_displays _ _ _ _ _ _ _ Hh Hd1); auto.
Qed.

Lemma start_displays path udev w d c s : Daemon.start path udev w = Ok d → ¬ displays d c s.
Proof.
  unfold Daemon.start. destruct (Config.load _ _ _) as [st|]; [|done]. simpl. intros Hd.
  assert (SessionManager.sessions (Daemon.sessions d) = ∅ ∧ ElevationManager.pending (Daemon.elevation d) = ∅) as [Hs Hp].
  { destruct (Device.enumerate udev); by simplify_eq. }
  unfold displays. rewrite Hs, Hp. intros [(x & Hx & _)|(i & p & Hx & _)]; by rewrite lookup_empty in Hx.
Qed.
End events.
