(* ===== verification/Server.v ===== *)
(** * Server: the threads of the connections (src/src/ipc/server.rs)

    Every connection has a reader thread ([handle_connection]) and a writer
    thread.  Readers post messages to one channel that the event loop drains; the
    loop answers through an outbox per connection, which the writer drains.  The
    system of all of them is a transition system: each step of a thread is a
    partial function ([None] is a thread that blocks), and [step] interleaves
    them with the event loop. *)

From Stdlib Require Import Strings.Byte.
From stdpp Require Import base gmap strings pretty numbers list relations.
From S2P Require Import Prelude Errors System Config User Session Seat Auth Lock Idle Elevation.
From S2P Require Import Ipc Protocol Policy Launcher Power Daemon DaemonInv DaemonSafety DaemonPrompts.

(** ** One connection *)

Module Conn.
(** Where the reader thread is: before it announced the connection, in its read
    loop, past the loop (having dropped [out_tx]), or done; [Refused] is done
    without ever having announced the connection. *)
Inductive reader_phase : Type := Starting | Reading | Closing | Finished | Refused.
#[global] Instance reader_phase_eq_dec : EqDecision reader_phase.
Proof. solve_decision. Defined.

(** The writer thread: in its loop, out of it after a failed write, or out of it
    because every sender of its outbox is gone. *)
Inductive writer_phase : Type := Draining | Broke | Drained.
#[global] Instance writer_phase_eq_dec : EqDecision writer_phase.
Proof. solve_decision. Defined.

(** [arrived] is all the peer ever sends and [received] the requests parsed from
    it so far: they record the history and no step depends on them. *)
Record t := mk {
  peer : PeerCred.t;
  reader : reader_phase;
  writer : writer_phase;
  input : Reader.t;
  output : Writer.t;
  outbox : list Message.t;
  arrived : Reader.t;
  received : list Request.t
}.

Definition new (p : PeerCred.t) (i : Reader.t) (o : Writer.t) : t := mk p Starting Draining i o [] i [].

Definition with_reader (x : reader_phase) (k : t) : t :=
  mk (peer k) x (writer k) (input k) (output k) (outbox k) (arrived k) (received k).
Definition with_writer (x : writer_phase) (o : Writer.t) (q : list Message.t) (k : t) : t :=
  mk (peer k) (reader k) x (input k) o q (arrived k) (received k).
Definition with_request (r : Request.t) (i : Reader.t) (k : t) : t :=
  mk (peer k) (reader k) (writer k) i (output k) (outbox k) (arrived k) (received k ++ [r]).

(** [tx.send(message)]: an error, when the writer has gone, is ignored. *)
Definition push (m : Message.t) (k : t) : t :=
  if decide (writer k = Draining) then with_writer Draining (output k) (outbox k ++ [m]) k else k.
End Conn.

(** ** The server *)

Module Server.
(** [posted] is everything ever sent to the channel of the loop, of which it has
    taken the first [taken]. *)
Record t := mk {
  next_conn_id : ConnId;
  conns : gmap ConnId Conn.t;
  posted : list ManagerMessage.t;
  taken : nat;
  daemon : Daemon.t
}.

Definition start (d : Daemon.t) : t := mk 1 ∅ [] 0 d.

Definition channel (s : t) : list ManagerMessage.t := drop (taken s) (posted s).
Definition post (m : ManagerMessage.t) (s : t) : t :=
  mk (next_conn_id s) (conns s) (posted s ++ [m]) (taken s) (daemon s).
Definition set_conn (c : ConnId) (k : Conn.t) (s : t) : t :=
  mk (next_conn_id s) (<[c := k]> (conns s)) (posted s) (taken s) (daemon s).

Definition registered (c : ConnId) (s : t) : Prop :=
  is_Some (ConnRegistry.outboxes (Daemon.registry (daemon s)) !! c).
#[global] Instance registered_dec c s : Decision (registered c s).
Proof. unfold registered. apply _. Defined.

Definition announces (c : ConnId) (m : ManagerMessage.t) : bool :=
  match m with ManagerMessage.Connected c' _ _ => bool_decide (c' = c) | _ => false end.

(** Some sender of the outbox of [c] is alive: the reader's [out_tx], the clone
    travelling in [Connected], or the one the registry keeps. *)
Definition held (c : ConnId) (k : Conn.t) (s : t) : bool :=
  bool_decide (Conn.reader k = Conn.Starting) || bool_decide (Conn.reader k = Conn.Reading) ||
  existsb (announces c) (channel s) || bool_decide (registered c s).

(** [accept_loop] starts a thread, which takes the next connection id. *)
Definition accept (p : PeerCred.t) (i : Reader.t) (o : Writer.t) (s : t) : t :=
  mk (u64_add (next_conn_id s) 1) (<[next_conn_id s := Conn.new p i o]> (conns s)) (posted s) (taken s) (daemon s).

(** The thread up to its read loop: it gives up when the peer's credentials
    cannot be read or the socket cannot be cloned ([usable] is false), and
    otherwise announces the connection. *)
Definition announce (c : ConnId) (usable : bool) (s : t) : option t :=
  k ← conns s !! c;
  if decide (Conn.reader k = Conn.Starting) then
    if usable then Some (post (ManagerMessage.Connected c (Conn.peer k) c)
                          (set_conn c (Conn.with_reader Conn.Reading k) s))
    else Some (set_conn c (Conn.with_reader Conn.Refused k) s)
  else None.

(** One turn of the read loop. *)
Definition read `{Codec Request.t} (c : ConnId) (s : t) : option t :=
  k ← conns s !! c;
  if decide (Conn.reader k = Conn.Reading) then
    match Protocol.read_message (Conn.input k) with
    | (Ok request, i) =>
        Some (post (ManagerMessage.Command (ManagerCommand.mk c (Conn.peer k) request))
               (set_conn c (Conn.with_request request i k) s))
    | (Err _, _) => Some (set_conn c (Conn.with_reader Conn.Closing k) s)
    end
  else None.

(** One turn of the writer's loop over its outbox. *)
Definition write `{Codec Message.t} (c : ConnId) (s : t) : option t :=
  k ← conns s !! c;
  if decide (Conn.writer k = Conn.Draining) then
    match Conn.outbox k with
    | m :: rest =>
        match Protocol.write_message m (Conn.output k) with
        | (Ok _, o) => Some (set_conn c (Conn.with_writer Conn.Draining o rest k) s)
        | (Err _, o) => Some (set_conn c (Conn.with_writer Conn.Broke o [] k) s)
        end
    | [] => if held c k s then None
            else Some (set_conn c (Conn.with_writer Conn.Drained (Conn.output k) [] k) s)
    end
  else None.

(** The end of [handle_connection]: join the writer, then report. *)
Definition join (c : ConnId) (s : t) : option t :=
  k ← conns s !! c;
  if decide (Conn.reader k = Conn.Closing ∧ Conn.writer k ≠ Conn.Draining) then
    Some (post (ManagerMessage.Disconnected c) (set_conn c (Conn.with_reader Conn.Finished k) s))
  else None.

(** What the loop sends goes into the outboxes. *)
Definition deliver_one (m : gmap ConnId Conn.t) (e : Effect.t) : gmap ConnId Conn.t :=
  match e with
  | Effect.Sent c msg => alter (Conn.push msg) c m
  | _ => m
  end.
Definition deliver (es : list Effect.t) (m : gmap ConnId Conn.t) : gmap ConnId Conn.t :=
  foldl deliver_one m es.

Section loop.
Context `{HashOrder} `{SerdeJson} `{TomlSettings}.

(** The event loop handles one event: the head of the channel, or one of its
    other sources. *)
Definition handle (i : Daemon.input) (n : nat) (w : World) (s : t) : option (list Effect.t * t) :=
  match Daemon.handle i w (daemon s) with
  | Done (es, d) => Some (es, mk (next_conn_id s) (deliver es (conns s)) (posted s) (n + taken s) d)
  | Panicked => None
  end.
Definition receive (w : World) (s : t) : option (list Effect.t * t) :=
  m ← posted s !! taken s; handle (Daemon.Ipc m) 1 w s.
End loop.
End Server.

(** ** Interleaving *)

Section server_steps.
Context `{HashOrder} `{SerdeJson} `{TomlSettings} `{!Codec Request.t, !Codec Message.t}.

(** One step of the system; [es] is what the event loop did in it.  Ids of
    connections do not wrap: there are never [2^64] of them. *)
Inductive server_step (es : list Effect.t) (s : Server.t) : Server.t → Prop :=
| server_accept p i o :
    es = [] → is_u64 (Server.next_conn_id s + 1) → server_step es s (Server.accept p i o s)
| server_announce c usable s' : es = [] → Server.announce c usable s = Some s' → server_step es s s'
| server_read c s' : es = [] → Server.read c s = Some s' → server_step es s s'
| server_write c s' : es = [] → Server.write c s = Some s' → server_step es s s'
| server_join c s' : es = [] → Server.join c s = Some s' → server_step es s s'
| server_receive w s' : Server.receive w s = Some (es, s') → server_step es s s'
| server_event i w s' :
    (∀ m, i ≠ Daemon.Ipc m) → Server.handle i 0 w s = Some (es, s') → server_step es s s'.

Definition server_moves (s s' : Server.t) : Prop := ∃ es, server_step es s s'.
End server_steps.

(** ** The history of a connection *)

Definition msg_conn (m : ManagerMessage.t) : ConnId :=
  match m with
  | ManagerMessage.Connected c _ _ => c
  | ManagerMessage.Command cmd => ManagerCommand.conn_id cmd
  | ManagerMessage.Disconnected c => c
  end.

(** The messages of [c] among those posted. *)
Definition about (c : ConnId) (l : list ManagerMessage.t) : list ManagerMessage.t :=
  filter (λ m, msg_conn m = c) l.

Definition connected (c : ConnId) (k : Conn.t) : ManagerMessage.t :=
  ManagerMessage.Connected c (Conn.peer k) c.
Definition commands (c : ConnId) (k : Conn.t) : list ManagerMessage.t :=
  (λ r, ManagerMessage.Command (ManagerCommand.mk c (Conn.peer k) r)) <$> Conn.received k.

(** What a connection has posted, by where its reader is. *)
Definition conn_history (c : ConnId) (k : Conn.t) : list ManagerMessage.t :=
  match Conn.reader k with
  | Conn.Starting | Conn.Refused => []
  | Conn.Reading | Conn.Closing => connected c k :: commands c k
  | Conn.Finished => connected c k :: commands c k ++ [ManagerMessage.Disconnected c]
  end.

Lemma about_app c l1 l2 : about c (l1 ++ l2) = about c l1 ++ about c l2.
Proof. apply filter_app. Qed.

Lemma elem_of_about c m l : m ∈ about c l ↔ msg_conn m = c ∧ m ∈ l.
Proof. unfold about. by rewrite list_elem_of_filter. Qed.

Lemma about_all c l : Forall (λ m, msg_conn m = c) l → about c l = l.
Proof. induction 1 as [|m l Hm _ IH]; [done|]. unfold about in *. by rewrite filter_cons_True, IH. Qed.

Lemma about_none c l : Forall (λ m, msg_conn m ≠ c) l → about c l = [].
Proof. induction 1 as [|m l Hm _ IH]; [done|]. unfold about in *. by rewrite filter_cons_False, IH. Qed.

(** Messages in the outbox change nothing of what the reader does. *)
Definition same_reader (k k' : Conn.t) : Prop :=
  Conn.peer k' = Conn.peer k ∧ Conn.reader k' = Conn.reader k ∧ Conn.input k' = Conn.input k ∧
  Conn.arrived k' = Conn.arrived k ∧ Conn.received k' = Conn.received k.

Lemma same_reader_history c k k' : same_reader k k' → conn_history c k' = conn_history c k.
Proof.
  intros (Hp & Hr & _ & _ & Hq). unfold conn_history, connected, commands. by rewrite Hp, Hr, Hq.
Qed.

Lemma same_reader_push m k : same_reader k (Conn.push m k).
Proof. unfold Conn.push. by case_decide. Qed.

Lemma same_reader_trans k1 k2 k3 : same_reader k1 k2 → same_reader k2 k3 → same_reader k1 k3.
Proof. unfold same_reader. naive_solver congruence. Qed.

Lemma deliver_one_lookup e m c k :
  m !! c = Some k →
  ∃ k', Server.deliver_one m e !! c = Some k' ∧ same_reader k k' ∧
    ((∀ msg, e ≠ Effect.Sent c msg) → k' = k).
Proof.
  intros Hk. destruct e as [|c' msg|]; try by exists k. simpl.
  destruct (decide (c' = c)) as [->|Hne].
  - rewrite lookup_alter_eq, Hk. eexists. split; [done|]. split; [apply same_reader_push|]. naive_solver.
  - rewrite lookup_alter_ne by done. by exists k.
Qed.

Lemma deliver_lookup es m c k :
  m !! c = Some k →
  ∃ k', Server.deliver es m !! c = Some k' ∧ same_reader k k' ∧
    ((∀ msg, Effect.Sent c msg ∉ es) → k' = k).
Proof.
  revert m k. induction es as [|e es IH]; intros m k Hk; [by exists k|]. simpl.
  destruct (deliver_one_lookup e m c k Hk) as (k1 & Hk1 & Hs1 & He1).
  destruct (IH _ _ Hk1) as (k2 & Hk2 & Hs2 & He2). exists k2. split; [done|].
  split; [by eapply same_reader_trans|]. intros Hn.
  rewrite He2 by (intros msg ?; by apply (Hn msg), list_elem_of_further).
  apply He1. intros msg ->. apply (Hn msg). left.
Qed.

Lemma deliver_None es m c : Server.deliver es m !! c = None ↔ m !! c = None.
Proof.
  revert m. induction es as [|e es IH]; intros m; [done|]. simpl. rewrite IH.
  destruct e as [|c' msg|]; simpl; [done| |done].
  destruct (decide (c' = c)) as [->|Hne]; [rewrite lookup_alter_eq, fmap_None|rewrite lookup_alter_ne]; done.
Qed.

(** ** The invariant of the server *)

Module ServerInv.
Section inv.
Context `{!Codec Request.t}.

(** The requests parsed so far are the first of those the peer sends, and once
    the read loop is left there is nothing to parse. *)
Definition parsed (k : Conn.t) : Prop :=
  Connection.forwarded (Conn.arrived k) =
    (Conn.received k ++ (Connection.forwarded (Conn.input k)).1, (Connection.forwarded (Conn.input k)).2) ∧
  (Conn.reader k = Conn.Closing ∨ Conn.reader k = Conn.Finished → (Connection.forwarded (Conn.input k)).1 = []) ∧
  (Conn.reader k = Conn.Starting → Conn.received k = []).

Definition wf (s : Server.t) : Prop :=
  (∀ c, about c (Server.posted s) = from_option (conn_history c) [] (Server.conns s !! c)) ∧
  (∀ c k, Server.conns s !! c = Some k → (c < Server.next_conn_id s)%N ∧ parsed k).
End inv.
End ServerInv.

Section server_lemmas.
Context `{!Codec Request.t}.

Lemma forwarded_read r x r' :
  Protocol.read_message r = (Ok x, r') →
  Connection.forwarded r = (x :: (Connection.forwarded r').1, (Connection.forwarded r').2).
Proof.
  intros Hr. unfold Connection.forwarded.
  destruct (read_message_bounded r (Ok x) r' Hr) as [_ Hb]; [done|].
  rewrite (read_loop_fuel (S (length (Reader.bytes r'))) (length (Reader.bytes r)) r') by lia.
  simpl. rewrite Hr. by destruct (Protocol.read_loop _ r') as [[]].
Qed.

Lemma forwarded_closed r e r' : Protocol.read_message r = (Err e, r') → (Connection.forwarded r).1 = [].
Proof. intros Hr. unfold Connection.forwarded. simpl. by rewrite Hr. Qed.

(** A step that replaces one connection and may post one message of it. *)
Lemma wf_set_conn s s' c k k' l :
  ServerInv.wf s → Server.conns s !! c = Some k →
  Server.conns s' = <[c := k']> (Server.conns s) → Server.next_conn_id s' = Server.next_conn_id s →
  Server.posted s' = Server.posted s ++ l → Forall (λ m, msg_conn m = c) l →
  conn_history c k' = conn_history c k ++ l → ServerInv.parsed k' → ServerInv.wf s'.
Proof.
  intros [Ha Hc] Hk Hcs Hn Hp Hl Hh Hparsed. split.
  - intros c'. rewrite Hp, Hcs, about_app, Ha. destruct (decide (c' = c)) as [->|Hne].
    + rewrite lookup_insert_eq, Hk. simpl. rewrite Hh. f_equal. by apply about_all.
    + rewrite lookup_insert_ne by done. replace (about c' l) with (@nil ManagerMessage.t); [by rewrite app_nil_r|].
      symmetry. apply about_none. eapply Forall_impl; [done|]. simpl. congruence.
  - intros c' k0. rewrite Hcs, Hn. intros [[<- <-]|[_ Hk0]]%lookup_insert_Some; [|by apply Hc].
    split; [by eapply Hc|done].
Qed.

Lemma announce_wf c usable s s' : Server.announce c usable s = Some s' → ServerInv.wf s → ServerInv.wf s'.
Proof.
  unfold Server.announce. intros (k & Hk & Hs)%bind_Some Hwf. case_decide as Hr; [|done].
  destruct (proj2 Hwf c k Hk) as (_ & Hf & _ & H0). pose proof (H0 Hr) as Hrec.
  destruct usable; simplify_eq.
  - eapply (wf_set_conn s _ c k (Conn.with_reader Conn.Reading k) [connected c k]); try done.
    + by repeat constructor.
    + unfold conn_history, commands. simpl. by rewrite Hr, Hrec.
    + split; [done|]. split; [naive_solver|done].
  - eapply (wf_set_conn s _ c k (Conn.with_reader Conn.Refused k) []); try done.
    + by rewrite app_nil_r.
    + unfold conn_history. simpl. by rewrite Hr.
    + split; [done|]. split; [naive_solver|done].
Qed.

Lemma read_wf c s s' : Server.read c s = Some s' → ServerInv.wf s → ServerInv.wf s'.
Proof.
  unfold Server.read. intros (k & Hk & Hs)%bind_Some Hwf. case_decide as Hr; [|done].
  destruct (proj2 Hwf c k Hk) as (_ & Hf & _ & _).
  destruct (Protocol.read_message (Conn.input k)) as [[x|e] i] eqn:Hm; simplify_eq.
  - eapply (wf_set_conn s _ c k (Conn.with_request x i k)
      [ManagerMessage.Command (ManagerCommand.mk c (Conn.peer k) x)]); try done.
    + by repeat constructor.
    + unfold conn_history, commands. simpl. by rewrite Hr, fmap_app.
    + split; [|simpl; rewrite Hr; naive_solver]. simpl. rewrite Hf, (forwarded_read _ _ _ Hm). simpl.
      by rewrite <- (assoc_L app).
  - eapply (wf_set_conn s _ c k (Conn.with_reader Conn.Closing k) []); try done.
    + by rewrite app_nil_r.
    + unfold conn_history. simpl. by rewrite Hr, app_nil_r.
    + split; [done|]. split; [|done]. intros _. by eapply forwarded_closed.
Qed.

Lemma write_wf `{!Codec Message.t} c s s' : Server.write c s = Some s' → ServerInv.wf s → ServerInv.wf s'.
Proof.
  unfold Server.write. intros (k & Hk & Hs)%bind_Some Hwf. case_decide; [|done].
  destruct (proj2 Hwf c k Hk) as (_ & Hf).
  assert (∃ wr o q, s' = Server.set_conn c (Conn.with_writer wr o q k) s) as (wr & o & q & ->).
  { destruct (Conn.outbox k); [destruct (Server.held c k s)|destruct (Protocol.write_message _ _) as [[] ?]];
      simplify_eq; by eexists _, _, _. }
  eapply (wf_set_conn s _ c k (Conn.with_writer wr o q k) []); try done; by rewrite app_nil_r.
Qed.

Lemma join_wf c s s' : Server.join c s = Some s' → ServerInv.wf s → ServerInv.wf s'.
Proof.
  unfold Server.join. intros (k & Hk & Hs)%bind_Some Hwf. case_decide as Hr; [|done].
  destruct Hr as [Hr _]. destruct (proj2 Hwf c k Hk) as (_ & Hf & Hc & _). simplify_eq.
  eapply (wf_set_conn s _ c k (Conn.with_reader Conn.Finished k) [ManagerMessage.Disconnected c]); try done.
  - by repeat constructor.
  - unfold conn_history. simpl. by rewrite Hr.
  - split; [done|]. split; [|done]. intros _. apply Hc. by left.
Qed.

Lemma accept_wf p i o s : is_u64 (Server.next_conn_id s + 1) → ServerInv.wf s → ServerInv.wf (Server.accept p i o s).
Proof.
  intros Hn [Ha Hc].
  assert (Server.conns s !! Server.next_conn_id s = None) as Hnone.
  { destruct (Server.conns s !! _) as [k|] eqn:Hk; [|done]. destruct (Hc _ _ Hk). lia. }
  split; simpl.
  - intros c. rewrite Ha. destruct (decide (c = Server.next_conn_id s)) as [->|Hne].
    + by rewrite Hnone, lookup_insert_eq.
    + by rewrite lookup_insert_ne.
  - intros c k. rewrite u64_add_small by done. intros [[<- <-]|[_ Hk]]%lookup_insert_Some.
    + split; [lia|]. split; [|split; [naive_solver|done]]. simpl. by destruct (Connection.forwarded i).
    + destruct (Hc _ _ Hk). split; [lia|done].
Qed.

Lemma same_reader_parsed k k' : same_reader k k' → ServerInv.parsed k → ServerInv.parsed k'.
Proof. intros (_ & Hr & Hi & Ha & Hq). unfold ServerInv.parsed. by rewrite Hr, Hi, Ha, Hq. Qed.

Lemma deliver_wf es s d n :
  ServerInv.wf s →
  ServerInv.wf (Server.mk (Server.next_conn_id s) (Server.deliver es (Server.conns s)) (Server.posted s) n d).
Proof.
  intros [Ha Hc]. split; simpl.
  - intros c. rewrite Ha. destruct (Server.conns s !! c) as [k|] eqn:Hk.
    + destruct (deliver_lookup es _ _ _ Hk) as (k' & -> & Hs & _). simpl. by rewrite (same_reader_history _ _ _ Hs).
    + by rewrite (proj2 (deliver_None es _ c) Hk).
  - intros c k' Hk'. destruct (Server.conns s !! c) as [k|] eqn:Hk.
    + destruct (deliver_lookup es _ _ _ Hk) as (k2 & Hk2 & Hs & _). simplify_eq.
      destruct (Hc _ _ Hk). split; [done|]. by eapply same_reader_parsed.
    + by rewrite (proj2 (deliver_None es _ c) Hk) in Hk'.
Qed.

Lemma server_start_wf d : ServerInv.wf (Server.start d).
Proof. split; [done|]. simpl. intros c k Hk. by rewrite lookup_empty in Hk. Qed.
End server_lemmas.

Section server_runs.
Context `{HashOrder} `{SerdeJson} `{TomlSettings} `{!Codec Request.t, !Codec Message.t}.

Lemma server_handle_Some i n w s es s' :
  Server.handle i n w s = Some (es, s') →
  ∃ d, Daemon.handle i w (Server.daemon s) = Done (es, d) ∧
    s' = Server.mk (Server.next_conn_id s) (Server.deliver es (Server.conns s)) (Server.posted s)
           (n + Server.taken s) d.
Proof. unfold Server.handle. intros Hh. destruct (Daemon.handle _ _ _) as [[es' d]|]; simplify_eq. eauto. Qed.

Lemma server_step_wf es s s' : server_step es s s' → ServerInv.wf s → ServerInv.wf s'.
Proof.
  intros [p i o _ Hn|c u s1 _ Hs|c s1 _ Hs|c s1 _ Hs|c s1 _ Hs|w s1 Hs|i w s1 _ Hs] Hwf.
  - by apply accept_wf.
  - by eapply announce_wf.
  - by eapply read_wf.
  - by eapply write_wf.
  - by eapply join_wf.
  - apply bind_Some in Hs as (m & _ & Hs). apply server_handle_Some in Hs as (d & _ & ->). by apply deliver_wf.
  - apply server_handle_Some in Hs as (d & _ & ->). by apply deliver_wf.
Qed.

Lemma server_reachable_wf d s : rtc server_moves (Server.start d) s → ServerInv.wf s.
Proof.
  intros Hr. eapply (rtc_invariant _ ServerInv.wf); [|done|apply server_start_wf].
  intros s1 s2 [es Hs]. by eapply server_step_wf.
Qed.

(** Before any request of a connection comes its [Connected], and no
    [Disconnected]. *)
Lemma history_before c k l1 cmd l2 :
  conn_history c k = about c l1 ++ ManagerMessage.Command cmd :: about c l2 →
  connected c k ∈ l1 ∧ ManagerMessage.Disconnected c ∉ l1.
Proof.
  intros Hh.
  assert (∃ tl, conn_history c k = connected c k :: commands c k ++ tl ∧ (length tl ≤ 1)%nat) as (tl & Ht & Hlen).
  { unfold conn_history in *. destruct (Conn.reader k); try by (symmetry in Hh; apply app_nil in Hh as [_ ?]).
    - exists []. rewrite app_nil_r. split; [done|simpl; lia].
    - exists []. rewrite app_nil_r. split; [done|simpl; lia].
    - eexists. split; [done|simpl; lia]. }
  rewrite Ht in Hh. split.
  - assert (connected c k ∈ about c l1) as Hin%elem_of_about; [|tauto].
    destruct (about c l1) as [|m l]; simplify_eq/=. left.
  - intros Hd. assert (ManagerMessage.Disconnected c ∈ about c l1) as (i & Hi)%list_elem_of_lookup_1
      by (by apply elem_of_about).
    destruct (about c l1) as [|m l] eqn:Ha; [done|].
    injection Hh as <- Htl. destruct i as [|i]; [done|]. simpl in Hi.
    assert ((commands c k ++ tl) !! i = Some (ManagerMessage.Disconnected c)) as Hi'.
    { rewrite Htl. by apply lookup_app_l_Some. }
    apply lookup_app_Some in Hi' as [Hi'|[Hge _]].
    + unfold commands in Hi'. by apply list_lookup_fmap_Some in Hi' as (? & ? & ?).
    + apply lookup_lt_Some in Hi. apply (f_equal length) in Htl. rewrite !length_app in Htl. simpl in Htl. lia.
Qed.

(** *** A peer that hangs up *)

(** The reader of [c] has left its loop, the writer has nothing to write, and the
    daemon still knows the connection. *)
Definition hung (c : ConnId) (k : Conn.t) (s : Server.t) : Prop :=
  Server.conns s !! c = Some k ∧ Conn.reader k = Conn.Closing ∧ Conn.writer k = Conn.Draining ∧
  Conn.outbox k = [] ∧ Server.registered c s.

(** A step in which the daemon sends nothing to [c], nor forgets it. *)
Definition quiet (c : ConnId) (s s' : Server.t) : Prop :=
  ∃ es, server_step es s s' ∧ (∀ msg, Effect.Sent c msg ∉ es) ∧ Server.registered c s'.

Lemma hung_blocked c k s u :
  hung c k s →
  Server.announce c u s = None ∧ Server.read c s = None ∧ Server.write c s = None ∧ Server.join c s = None.
Proof.
  intros (Hk & Hr & Hw & Ho & Hreg).
  unfold Server.announce, Server.read, Server.write, Server.join. rewrite Hk. simpl. rewrite Hr, Hw, Ho. simpl.
  split_and!; [done..| |].
  - unfold Server.held. rewrite (bool_decide_true (Server.registered c s)) by done. by rewrite !orb_true_r.
  - done.
Qed.

Lemma thread_step_other c c' k s s' u :
  Server.conns s !! c = Some k → c' ≠ c →
  Server.announce c' u s = Some s' ∨ Server.read c' s = Some s' ∨ Server.write c' s = Some s' ∨
    Server.join c' s = Some s' →
  Server.conns s' !! c = Some k.
Proof.
  intros Hk Hne Hs.
  assert (∃ k' l, s' = Server.mk (Server.next_conn_id s) (<[c' := k']> (Server.conns s)) l (Server.taken s)
                        (Server.daemon s)) as (k' & l & ->).
  { unfold Server.announce, Server.read, Server.write, Server.join in Hs.
    destruct (Server.conns s !! c') as [k0|]; [|naive_solver]. simpl in Hs.
    repeat case_match; naive_solver. }
  simpl. by rewrite lookup_insert_ne.
Qed.

Lemma hung_step c k s s' : ServerInv.wf s → hung c k s → quiet c s s' → hung c k s'.
Proof.
  intros Hwf Hh (es & Hs & Hq & Hreg). pose proof Hh as (Hk & Hr & Hw & Ho & _).
  split; [|done].
  assert (∀ c' u, Server.announce c' u s = Some s' ∨ Server.read c' s = Some s' ∨ Server.write c' s = Some s' ∨
    Server.join c' s = Some s' → Server.conns s' !! c = Some k) as Hthread.
  { intros c' u Hcase. destruct (decide (c' = c)) as [->|Hne]; [|by eapply thread_step_other].
    destruct (hung_blocked c k s u Hh) as (H1' & H2' & H3' & H4'). naive_solver congruence. }
  destruct Hs as [p i o _ Hn|c' u s1 _ Hs|c' s1 _ Hs|c' s1 _ Hs|c' s1 _ Hs|w s1 Hs|i w s1 _ Hs].
  - simpl. rewrite lookup_insert_ne; [done|]. destruct (proj2 Hwf c k Hk). lia.
  - by eapply (Hthread c' u); left.
  - by eapply (Hthread c' true); right; left.
  - by eapply (Hthread c' true); right; right; left.
  - by eapply (Hthread c' true); right; right; right.
  - apply bind_Some in Hs as (m & _ & Hs). apply server_handle_Some in Hs as (d & _ & ->). simpl.
    destruct (deliver_lookup es _ _ _ Hk) as (k' & -> & _ & Heq). by rewrite Heq.
  - apply server_handle_Some in Hs as (d & _ & ->). simpl.
    destruct (deliver_lookup es _ _ _ Hk) as (k' & -> & _ & Heq). by rewrite Heq.
Qed.

Lemma hung_unreported c k s : ServerInv.wf s → hung c k s → ManagerMessage.Disconnected c ∉ Server.posted s.
Proof.
  intros [Ha _] (Hk & Hr & _) Hin.
  assert (ManagerMessage.Disconnected c ∈ about c (Server.posted s)) as Hab by by apply elem_of_about.
  rewrite Ha, Hk in Hab. simpl in Hab. unfold conn_history in Hab. rewrite Hr in Hab.
  apply elem_of_cons in Hab as [?|(? & ? & _)%list_elem_of_fmap]; done.
Qed.

Lemma hung_forever c k s s' :
  ServerInv.wf s → hung c k s → rtc (quiet c) s s' → hung c k s' ∧ ManagerMessage.Disconnected c ∉ Server.posted s'.
Proof.
  intros Hwf Hh Hr.
  assert (ServerInv.wf s' ∧ hung c k s') as [Hwf' Hh'].
  { eapply (rtc_invariant _ (λ s, ServerInv.wf s ∧ hung c k s)); [|done|done].
    intros s1 s2 Hq [Hw1 Hh1]. split; [|by eapply hung_step].
    destruct Hq as (es & Hs & _). by eapply server_step_wf. }
  split; [done|]. by eapply hung_unreported.
Qed.

(** Once the daemon has let go of the connection, its end is reported. *)
Lemma released_reported c k s :
  Server.conns s !! c = Some k → Conn.reader k = Conn.Closing → Conn.writer k = Conn.Draining →
  Conn.outbox k = [] → ¬ Server.registered c s → existsb (Server.announces c) (Server.channel s) = false →
  ∃ s1 s2, Server.write c s = Some s1 ∧ Server.join c s1 = Some s2 ∧
    Server.posted s2 = Server.posted s ++ [ManagerMessage.Disconnected c].
Proof.
  intros Hk Hr Hw Ho Hreg Hch. eexists _, _. split_and!.
  - unfold Server.write. rewrite Hk. simpl. rewrite Hw, Ho. simpl. unfold Server.held.
    rewrite Hr, Hch, (bool_decide_false (Server.registered c s)) by done. done.
  - unfold Server.join. simpl. rewrite lookup_insert_eq. simpl. rewrite decide_True by done. done.
  - done.
Qed.
End server_runs.
