(* ===== verification/Replies.v ===== *)
(** * Replies: from the event loop to the bytes a client reads

    What the loop sends to a connection passes through its outbox and its writer
    thread (src/src/ipc/server.rs).  Whatever the interleaving, the bytes on the
    socket are the frames of the first of those messages, in order, and at most
    the beginning of one more. *)

From Stdlib Require Import Strings.Byte.
From stdpp Require Import base gmap strings numbers list relations.
From S2P Require Import Prelude Errors System Config User Session Seat Auth Lock Idle Elevation.
From S2P Require Import Ipc Protocol Policy Launcher Power Daemon Server.

(** ** Runs, with what the loop did in them *)

Section runs.
Context `{HashOrder} `{SerdeJson} `{TomlSettings} `{!Codec Request.t, !Codec Message.t}.

Inductive server_run (s : Server.t) : list Effect.t → Server.t → Prop :=
| run_refl : server_run s [] s
| run_step es s1 es' s2 : server_run s es s1 → server_step es' s1 s2 → server_run s (es ++ es') s2.
End runs.

(** The messages of the loop to one connection. *)
Definition to_conn (c : ConnId) (es : list Effect.t) : list Message.t :=
  omap (λ e, match e with
             | Effect.Sent c' m => if decide (c' = c) then Some m else None
             | _ => None
             end) es.

Lemma to_conn_app c es1 es2 : to_conn c (es1 ++ es2) = to_conn c es1 ++ to_conn c es2.
Proof. apply omap_app. Qed.

(** ** The invariant of one connection *)

Section flow.
Context `{!Codec Message.t}.

(** The socket held [before] and has since been given the frames of [whole], the
    first of [all], and then [part], the beginning of the frame of the next. *)
Definition flows (before : list byte) (all : list Message.t) (k : Conn.t) : Prop :=
  ∃ whole ps part,
    Forall2 (λ m p, serialize m = Ok p) whole ps ∧ whole `prefix_of` all ∧
    Writer.out (Conn.output k) = before ++ concat (frame <$> ps) ++ part ∧
    (Conn.writer k = Conn.Draining → part = [] ∧ all = whole ++ Conn.outbox k) ∧
    (part = [] ∨ ∃ m p, serialize m = Ok p ∧ (whole ++ [m]) `prefix_of` all ∧ part `prefix_of` frame p).

Lemma flows_start k : Conn.writer k = Conn.Draining → flows (Writer.out (Conn.output k)) (Conn.outbox k) k.
Proof.
  intros Hw. exists [], [], []. split_and!; [constructor|apply prefix_nil| |done|by left].
  by rewrite !app_nil_r.
Qed.

Lemma flows_more before all more k :
  Conn.writer k ≠ Conn.Draining → flows before all k → flows before (all ++ more) k.
Proof.
  intros Hw (whole & ps & part & Hs & Hp & Ho & _ & Hpart). exists whole, ps, part.
  split_and!; try done; [by apply prefix_app_r|].
  destruct Hpart as [?|(m & p & ? & ? & ?)]; [by left|right]. exists m, p. split_and!; try done. by apply prefix_app_r.
Qed.

Lemma flows_push before all m k : flows before all k → flows before (all ++ [m]) (Conn.push m k).
Proof.
  intros Hf. unfold Conn.push. case_decide as Hw; [|by apply flows_more].
  destruct Hf as (whole & ps & part & Hs & Hp & Ho & Hd & Hpart). destruct (Hd Hw) as [-> ->].
  exists whole, ps, []. simpl. rewrite <- (assoc_L app). split_and!; try done; [by apply prefix_app_r|by left].
Qed.

(** The threads of the reader do not touch the flow. *)
Lemma flows_same before all k k' :
  Conn.writer k' = Conn.writer k → Conn.output k' = Conn.output k → Conn.outbox k' = Conn.outbox k →
  flows before all k → flows before all k'.
Proof. unfold flows. by intros -> -> ->. Qed.

(** One turn of the writer. *)
Lemma flows_written before all k m rest r o :
  Conn.writer k = Conn.Draining → Conn.outbox k = m :: rest →
  Protocol.write_message m (Conn.output k) = (r, o) → flows before all k →
  flows before all (if is_ok r then Conn.with_writer Conn.Draining o rest k
                    else Conn.with_writer Conn.Broke o [] k).
Proof.
  intros Hw Hq Hm (whole & ps & part & Hs & Hp & Ho & Hd & _). destruct (Hd Hw) as [-> ->]. rewrite Hq in *.
  rewrite app_nil_r in Ho. pose proof (write_message_prefix m _ _ _ Hm) as (sent & Hout & Hsent).
  destruct (serialize m) as [p|e] eqn:Hser.
  - destruct (Hsent p eq_refl) as [Hpre Hall]. destruct r as [[]|e]; simpl.
    + exists (whole ++ [m]), (ps ++ [p]), []. rewrite Hall in Hout by done. split_and!.
      * apply Forall2_app; [done|]. by repeat constructor.
      * by apply prefix_app, prefix_cons, prefix_nil.
      * simpl. rewrite Hout, Ho, fmap_app, concat_app. simpl. by rewrite !app_nil_r, (assoc_L app).
      * intros _. split; [done|]. simpl. by rewrite <- (assoc_L app).
      * by left.
    + exists whole, ps, sent. split_and!; try done.
      * simpl. by rewrite Hout, Ho, <- (assoc_L app).
      * right. exists m, p. split_and!; try done. by apply prefix_app, prefix_cons, prefix_nil.
  - unfold Protocol.write_message in Hm. rewrite Hser in Hm. simplify_eq/=.
    exists whole, ps, []. rewrite app_nil_r. split_and!; auto; done.
Qed.

Lemma flows_drained before all k :
  Conn.writer k = Conn.Draining → Conn.outbox k = [] → flows before all k →
  flows before all (Conn.with_writer Conn.Drained (Conn.output k) [] k).
Proof.
  intros Hw Hq (whole & ps & part & Hs & Hp & Ho & Hd & Hpart). destruct (Hd Hw) as [-> _].
  exists whole, ps, []. split_and!; auto; done.
Qed.

Lemma flows_deliver before c es m k all :
  m !! c = Some k → flows before all k →
  ∃ k', Server.deliver es m !! c = Some k' ∧ flows before (all ++ to_conn c es) k'.
Proof.
  revert m k all. induction es as [|e es IH]; intros m k all Hk Hf; [rewrite app_nil_r; by exists k|].
  simpl. destruct e as [|c' msg|]; simpl; [by apply (IH _ k)| |by apply (IH _ k)].
  case_decide as Hc; subst.
  - rewrite cons_middle, (assoc_L app). apply (IH _ (Conn.push msg k)); [|by apply flows_push].
    by rewrite lookup_alter_eq, Hk.
  - apply (IH _ k); [|done]. by rewrite lookup_alter_ne.
Qed.
End flow.

Section replies.
Context `{HashOrder} `{SerdeJson} `{TomlSettings} `{!Codec Request.t, !Codec Message.t}.

Lemma write_flows c before all s s' k :
  Server.conns s !! c = Some k → Server.write c s = Some s' → flows before all k →
  ∃ k', Server.conns s' !! c = Some k' ∧ flows before all k'.
Proof.
  unfold Server.write. intros Hk. rewrite Hk. simpl. case_decide as Hw; [|done]. intros Hs Hf.
  destruct (Conn.outbox k) as [|m rest] eqn:Hq.
  - destruct (Server.held c k s); simplify_eq. simpl. rewrite lookup_insert_eq.
    eexists. split; [done|]. by apply flows_drained.
  - destruct (Protocol.write_message m _) as [r o] eqn:Hm.
    pose proof (flows_written _ _ _ _ _ _ _ Hw Hq Hm Hf) as Hf'.
    destruct r; simplify_eq; simpl; rewrite lookup_insert_eq; by eauto.
Qed.

(** A step of the threads of [c] other than its writer. *)
Lemma reader_flows c u before all s s' k :
  Server.conns s !! c = Some k →
  Server.announce c u s = Some s' ∨ Server.read c s = Some s' ∨ Server.join c s = Some s' →
  flows before all k → ∃ k', Server.conns s' !! c = Some k' ∧ flows before all k'.
Proof.
  unfold Server.announce, Server.read, Server.join. intros Hk Hs Hf. rewrite Hk in Hs. simpl in Hs.
  assert (∃ k', Server.conns s' !! c = Some k' ∧ Conn.writer k' = Conn.writer k ∧
    Conn.output k' = Conn.output k ∧ Conn.outbox k' = Conn.outbox k) as (k' & Hk' & ? & ? & ?).
  { repeat case_match; destruct_or!; simplify_eq; simpl; rewrite lookup_insert_eq; by eauto. }
  exists k'. split; [done|]. by eapply flows_same.
Qed.

Lemma server_step_flows c es before all s s' k :
  ServerInv.wf s → Server.conns s !! c = Some k → flows before all k → server_step es s s' →
  ∃ k', Server.conns s' !! c = Some k' ∧ flows before (all ++ to_conn c es) k'.
Proof.
  intros Hwf Hk Hf Hs.
  assert (∀ c' u, es = [] → Server.announce c' u s = Some s' ∨ Server.read c' s = Some s' ∨
    Server.write c' s = Some s' ∨ Server.join c' s = Some s' →
    ∃ k', Server.conns s' !! c = Some k' ∧ flows before (all ++ to_conn c es) k') as Hthread.
  { intros c' u -> Hcase. simpl. rewrite app_nil_r. destruct (decide (c' = c)) as [->|Hne].
    - destruct_or! Hcase; [| |by eapply write_flows|]; by eapply (reader_flows c u); eauto.
    - exists k. split; [|done]. by eapply thread_step_other. }
  destruct Hs as [p i o -> Hn|c' u s1 ? Hs|c' s1 ? Hs|c' s1 ? Hs|c' s1 ? Hs|w s1 Hs|i w s1 _ Hs].
  - simpl. rewrite app_nil_r, lookup_insert_ne; [by exists k|]. destruct (proj2 Hwf c k Hk). lia.
  - by apply (Hthread c' u); auto.
  - by apply (Hthread c' true); auto.
  - by apply (Hthread c' true); auto.
  - by apply (Hthread c' true); auto.
  - apply bind_Some in Hs as (m & _ & Hs). apply server_handle_Some in Hs as (d & _ & ->). by eapply flows_deliver.
  - apply server_handle_Some in Hs as (d & _ & ->). by eapply flows_deliver.
Qed.

Lemma server_run_flows c s es s' k :
  ServerInv.wf s → Server.conns s !! c = Some k → Conn.writer k = Conn.Draining → server_run s es s' →
  ∃ k', Server.conns s' !! c = Some k' ∧
    flows (Writer.out (Conn.output k)) (Conn.outbox k ++ to_conn c es) k'.
Proof.
  intros Hwf Hk Hw Hr.
  assert (ServerInv.wf s' ∧ ∃ k', Server.conns s' !! c = Some k' ∧
    flows (Writer.out (Conn.output k)) (Conn.outbox k ++ to_conn c es) k') as [_ ?]; [|done].
  induction Hr as [|es s1 es' s2 _ (Hwf1 & k1 & Hk1 & Hf1) Hs].
  - split; [done|]. exists k. rewrite app_nil_r. split; [done|]. by apply flows_start.
  - split; [by eapply server_step_wf|]. rewrite to_conn_app, (assoc_L app). by eapply server_step_flows.
Qed.
End replies.

(** ** What the client reads *)

Section reading.
Context `{!Codec Message.t, !CodecLaws Message.t}.

(** A reader of the bytes written gets the first of the messages and nothing else,
    when they are within the size limit. *)
Lemma flows_read all k :
  (∀ m p, m ∈ all → serialize m = Ok p → (N.of_nat (length p) ≤ Protocol.MAX_MESSAGE_LEN)%N) →
  flows [] all k →
  let bytes := Writer.out (Conn.output k) in
  (Protocol.read_loop (T:=Message.t) (S (length bytes)) (Reader.mk bytes None)).1.1 `prefix_of` all.
Proof.
  intros Hsize (whole & ps & part & Hs & Hp & Ho & _ & Hpart). simpl in Ho. cbv zeta. rewrite Ho.
  assert (Forall2 sendable whole ps) as Hsend.
  { clear Ho Hpart. revert all Hsize Hp. induction Hs as [|m p whole ps Hm _ IH]; intros all Hsize Hp; [constructor|].
    destruct Hp as [rest ->]. constructor.
    - split; [done|]. eapply Hsize; [|done]. left.
    - apply (IH (whole ++ rest)); [|by exists rest]. intros m' p' Hin. apply Hsize. by right. }
  pose proof (frames_length ps) as Hlen. pose proof (Forall2_length _ _ _ Hs) as Hl.
  rewrite (read_loop_frames whole) by (done || rewrite length_app; lia).
  destruct (S _ - _)%nat as [|n] eqn:Hn; [rewrite length_app in Hn; lia|]. cbn [Protocol.read_loop].
  destruct Hpart as [->|(m & p & Hm & Hpre & Hpart)].
  - unfold Protocol.read_message. rewrite read_exact_short by (simpl; lia). simpl. by rewrite app_nil_r.
  - assert (sendable m p) as Hmp.
    { split; [done|]. eapply Hsize; [|done]. destruct Hpre as [rest ->]. set_solver. }
    destruct (list_eq_dec (dec := Byte.byte_eq_dec) part (frame p)) as [->|Hne].
    + rewrite <- (app_nil_r (frame p)), (read_written m) by done. destruct n as [|n].
      { by rewrite <- (app_nil_r (frame p)) in Hn. }
      cbn [Protocol.read_loop]. unfold Protocol.read_message. by rewrite read_exact_short by (simpl; lia).
    + destruct (read_truncated (T:=Message.t) p part) as (e & He & _); [apply Hmp|done..|].
      destruct (Protocol.read_message _) as [r i]. simpl in He. subst r. simpl. by rewrite app_nil_r.
Qed.
End reading.
