(* ===== verification/Progress.v ===== *)
(** * Progress: the threads finish their work

    Between two clients that connect and two ticks of the clock, the threads of
    the server (src/src/ipc/server.rs) have a finite amount of work: however they
    are scheduled they come to rest, and at rest every request that arrived has
    been handled, and every message for a client is on its socket.  The requests
    are accounted for over the whole run: each has had its reply, or is a prompt
    that is still open. *)

From Stdlib Require Import Strings.Byte.
From stdpp Require Import base gmap strings numbers list relations well_founded.
From S2P Require Import Prelude Errors System Config User Session Seat Auth Lock Idle Elevation.
From S2P Require Import Ipc Protocol Policy Launcher Power Daemon DaemonInv DaemonSafety DaemonPrompts.
From S2P Require Import DaemonProcess DaemonReplies Server Replies.

(** ** Sums over the connections *)

Section total.
Context {A : Type}.
Implicit Types (f : A → nat) (m : gmap ConnId A).

Definition total f m : nat := sum_list_with snd (map_to_list (f <$> m)).

(** Only the values of [f] count. *)
Lemma total_ext f m m' : (∀ c, f <$> m' !! c = f <$> m !! c) → total f m' = total f m.
Proof.
  intros Hm. unfold total. replace (f <$> m') with (f <$> m); [done|].
  apply map_eq. intros c. by rewrite !lookup_fmap, Hm.
Qed.

Lemma total_delete f m c k : m !! c = Some k → total f m = (f k + total f (delete c m))%nat.
Proof.
  intros Hk. unfold total. rewrite <- (map_to_list_delete (f <$> m) c (f k)) by (by rewrite lookup_fmap, Hk).
  simpl. by rewrite fmap_delete.
Qed.

Lemma total_insert f m c k k' :
  m !! c = Some k → (total f (<[c := k']> m) + f k = total f m + f k')%nat.
Proof.
  intros Hk. rewrite (total_delete f m c k) by done.
  rewrite (total_delete f (<[c := k']> m) c k') by apply lookup_insert_eq. rewrite delete_insert_eq. lia.
Qed.
End total.

(** ** The work left *)

(** What a reader may still do: every turn takes at least the four bytes of a
    length, and posts at most one message. *)
Definition reader_work (k : Conn.t) : nat :=
  match Conn.reader k with
  | Conn.Starting => 2 * length (Reader.bytes (Conn.input k)) + 6
  | Conn.Reading => 2 * length (Reader.bytes (Conn.input k)) + 4
  | Conn.Closing => 2
  | Conn.Finished | Conn.Refused => 0
  end.

(** What a writer may still do: the messages in its outbox, and then its end. *)
Definition writer_work (k : Conn.t) : nat :=
  length (Conn.outbox k) + match Conn.writer k with Conn.Draining => 1 | _ => 0 end.

Definition loop_work (s : Server.t) : nat := length (Server.channel s) + total reader_work (Server.conns s).
Definition outbox_work (s : Server.t) : nat := total writer_work (Server.conns s).

Section work.
Context `{HashOrder} `{SerdeJson} `{TomlSettings} `{!Codec Request.t, !Codec Message.t}.

(** A step of the threads or of the loop on a message that is in the channel. *)
Inductive server_works (s : Server.t) : Server.t → Prop :=
| works_announce c usable s' : Server.announce c usable s = Some s' → server_works s s'
| works_read c s' : Server.read c s = Some s' → server_works s s'
| works_write c s' : Server.write c s = Some s' → server_works s s'
| works_join c s' : Server.join c s = Some s' → server_works s s'
| works_receive w es s' : Server.receive w s = Some (es, s') → server_works s s'.

Lemma server_works_moves s s' : server_works s s' → server_moves s s'.
Proof.
  intros [c u s1 Hs|c s1 Hs|c s1 Hs|c s1 Hs|w es s1 Hs].
  - exists []. by eapply server_announce.
  - exists []. by eapply server_read.
  - exists []. by eapply server_write.
  - exists []. by eapply server_join.
  - exists es. by eapply server_receive.
Qed.

Lemma channel_post m s : (length (Server.channel (Server.post m s)) ≤ S (length (Server.channel s)))%nat.
Proof. unfold Server.channel. simpl. rewrite !length_drop, length_app. simpl. lia. Qed.

Lemma loop_work_post m s : (loop_work (Server.post m s) ≤ S (loop_work s))%nat.
Proof. unfold loop_work. pose proof (channel_post m s). simpl in *. lia. Qed.

Lemma loop_work_set c k k' s :
  Server.conns s !! c = Some k →
  (loop_work (Server.set_conn c k' s) + reader_work k = loop_work s + reader_work k')%nat.
Proof. intros Hk. unfold loop_work. pose proof (total_insert reader_work _ c k k' Hk). simpl in *. unfold Server.channel in *. simpl. lia. Qed.

Lemma announce_works c u s s' : Server.announce c u s = Some s' → (loop_work s' < loop_work s)%nat.
Proof.
  unfold Server.announce. intros (k & Hk & Hs)%bind_Some. case_decide as Hr; [|done].
  pose proof (loop_work_set c k (Conn.with_reader (if u then Conn.Reading else Conn.Refused) k) s Hk) as Hset.
  unfold reader_work in Hset at 1. rewrite Hr in Hset. destruct u; simplify_eq; unfold reader_work in Hset; simpl in Hset.
  - eapply Nat.le_lt_trans; [apply loop_work_post|]. lia.
  - lia.
Qed.

Lemma read_works c s s' : Server.read c s = Some s' → (loop_work s' < loop_work s)%nat.
Proof.
  unfold Server.read. intros (k & Hk & Hs)%bind_Some. case_decide as Hr; [|done].
  destruct (Protocol.read_message (Conn.input k)) as [[x|e] i] eqn:Hm; simplify_eq.
  - destruct (read_message_bounded _ _ _ Hm) as [_ Hb]; [done|].
    pose proof (loop_work_set c k (Conn.with_request x i k) s Hk) as Hset.
    unfold reader_work in Hset. simpl in Hset. rewrite Hr in Hset.
    eapply Nat.le_lt_trans; [apply loop_work_post|]. lia.
  - pose proof (loop_work_set c k (Conn.with_reader Conn.Closing k) s Hk) as Hset.
    unfold reader_work in Hset. simpl in Hset. rewrite Hr in Hset. lia.
Qed.

Lemma join_works c s s' : Server.join c s = Some s' → (loop_work s' < loop_work s)%nat.
Proof.
  unfold Server.join. intros (k & Hk & Hs)%bind_Some. case_decide as Hr; [|done]. destruct Hr as [Hr _]. simplify_eq.
  pose proof (loop_work_set c k (Conn.with_reader Conn.Finished k) s Hk) as Hset.
  unfold reader_work in Hset. simpl in Hset. rewrite Hr in Hset.
  eapply Nat.le_lt_trans; [apply loop_work_post|]. lia.
Qed.

Lemma receive_works w es s s' : Server.receive w s = Some (es, s') → (loop_work s' < loop_work s)%nat.
Proof.
  unfold Server.receive. intros (m & Hm & Hs)%bind_Some. apply server_handle_Some in Hs as (d & _ & ->).
  unfold loop_work, Server.channel. simpl. rewrite (total_ext reader_work (Server.conns s)).
  - apply lookup_lt_Some in Hm. rewrite !length_drop. lia.
  - intros c. destruct (Server.conns s !! c) as [k|] eqn:Hk.
    + destruct (deliver_lookup es _ _ _ Hk) as (k' & -> & (_ & Hr & Hi & _) & _). simpl.
      f_equal. unfold reader_work. by rewrite Hr, Hi.
    + by rewrite (proj2 (deliver_None es _ c) Hk).
Qed.

Lemma write_works c s s' :
  Server.write c s = Some s' → loop_work s' = loop_work s ∧ (outbox_work s' < outbox_work s)%nat.
Proof.
  unfold Server.write. intros (k & Hk & Hs)%bind_Some. case_decide as Hw; [|done].
  assert (∃ wr o q, s' = Server.set_conn c (Conn.with_writer wr o q k) s ∧
    (writer_work (Conn.with_writer wr o q k) < writer_work k)%nat) as (wr & o & q & -> & Hlt).
  { unfold writer_work. rewrite Hw. destruct (Conn.outbox k) as [|m rest]; [destruct (Server.held c k s)|
      destruct (Protocol.write_message _ _) as [[] ?]]; simplify_eq; eexists _, _, _; (split; [done|simpl; lia]). }
  split.
  - pose proof (loop_work_set c k (Conn.with_writer wr o q k) s Hk) as Hset.
    change (reader_work (Conn.with_writer wr o q k)) with (reader_work k) in Hset. lia.
  - unfold outbox_work. simpl. pose proof (total_insert writer_work _ c k (Conn.with_writer wr o q k) Hk). lia.
Qed.

(** However the threads are scheduled, they come to rest. *)
Lemma server_works_sn s : sn server_works s.
Proof.
  remember (loop_work s) as n eqn:Hn. revert s Hn.
  induction (lt_wf n) as [n _ IHn]. intros s. remember (outbox_work s) as j eqn:Hj. revert s Hj.
  induction (lt_wf j) as [j _ IHj]. intros s -> ->. constructor. intros s' Hs.
  assert (∀ s', (loop_work s' < loop_work s)%nat → sn server_works s') as Hless by (intros; by eapply IHn).
  destruct Hs as [c u s1 Hs|c s1 Hs|c s1 Hs|c s1 Hs|w es s1 Hs].
  - by eapply Hless, announce_works.
  - by eapply Hless, read_works.
  - destruct (write_works _ _ _ Hs) as [Hl Ho]. by eapply (IHj _ Ho).
  - by eapply Hless, join_works.
  - by eapply Hless, receive_works.
Qed.
End work.

(** ** At rest *)

Section rest.
Context `{HashOrder} `{SerdeJson} `{TomlSettings} `{!Codec Request.t, !Codec Message.t}.

(** The loop can handle the message at the head of the channel. *)
Definition loop_ready (s : Server.t) : Prop := ∃ w, clock_sane (Daemon.settings (Server.daemon s)) w.

Lemma rest_channel s : loop_ready s → nf server_works s → Server.channel s = [].
Proof.
  intros [w Hw] Hnf. unfold Server.channel. destruct (Server.posted s !! Server.taken s) as [m|] eqn:Hm.
  2: { apply drop_ge. by apply lookup_ge_None. }
  destruct Hnf. destruct (handle_total (Daemon.Ipc m) w (Server.daemon s) Hw) as (es & d & Hd).
  eexists. eapply (works_receive s w es). unfold Server.receive, Server.handle. rewrite Hm. simpl in *. by rewrite Hd.
Qed.

(** The states a connection can rest in: never announced, over and reported, or
    hung up and unreported, as the daemon still holds its outbox. *)
Definition conn_rests (c : ConnId) (k : Conn.t) (s : Server.t) : Prop :=
  Conn.reader k = Conn.Refused ∨
  (Conn.reader k = Conn.Finished ∧ Conn.writer k ≠ Conn.Draining) ∨
  hung c k s.

Lemma rest_conn s c k :
  loop_ready s → nf server_works s → ServerInv.wf s → Server.conns s !! c = Some k →
  (Conn.reader k = Conn.Finished → Conn.writer k ≠ Conn.Draining) → conn_rests c k s.
Proof.
  intros Hready Hnf Hwf Hk Hfin. pose proof (rest_channel s Hready Hnf) as Hch. unfold conn_rests.
  destruct (Conn.reader k) eqn:Hr; auto.
  - exfalso. destruct Hnf. eexists. eapply (works_announce s c true). unfold Server.announce. rewrite Hk. simpl. by rewrite Hr.
  - exfalso. destruct Hnf. assert (∃ s', Server.read c s = Some s') as [s' Hs]; [|eexists; by eapply works_read].
    unfold Server.read. rewrite Hk. simpl. rewrite Hr. simpl.
    destruct (Protocol.read_message (Conn.input k)) as [[] ?]; eauto.
  - right. right. destruct (decide (Conn.writer k = Conn.Draining)) as [Hw|Hw].
    2: { destruct Hnf. eexists. eapply (works_join s c). unfold Server.join. rewrite Hk. simpl.
         by rewrite decide_True. }
    split_and!; [done..| |].
    + destruct (Conn.outbox k) as [|m rest] eqn:Hq; [done|]. destruct Hnf.
      assert (∃ s', Server.write c s = Some s') as [s' Hs]; [|eexists; by eapply works_write].
      unfold Server.write. rewrite Hk. simpl. rewrite Hw, Hq. simpl.
      destruct (Protocol.write_message m _) as [[] ?]; eauto.
    + destruct (decide (Server.registered c s)) as [|Hn]; [done|]. destruct Hnf.
      assert (∃ s', Server.write c s = Some s') as [s' Hs]; [|eexists; by eapply works_write].
      unfold Server.write. rewrite Hk. simpl. rewrite Hw. simpl. unfold Server.held. rewrite Hr, Hch.
      rewrite (bool_decide_false (Server.registered c s)) by done. simpl.
      destruct (Conn.outbox k); [|destruct (Protocol.write_message _ _) as [[] ?]]; eauto.
Qed.

(** Past its read loop a connection has parsed all it will ever parse. *)
Lemma rest_parsed s c k :
  ServerInv.wf s → Server.conns s !! c = Some k → Conn.reader k = Conn.Closing ∨ Conn.reader k = Conn.Finished →
  Conn.received k = (Connection.forwarded (Conn.arrived k)).1.
Proof.
  intros [_ Hc] Hk Hr. destruct (Hc c k Hk) as (_ & Hf & He & _). rewrite Hf. simpl. by rewrite (He Hr), app_nil_r.
Qed.

(** A reader finishes only after its writer. *)
Definition joined (s : Server.t) : Prop :=
  map_Forall (λ _ k, Conn.reader k = Conn.Finished → Conn.writer k ≠ Conn.Draining) (Server.conns s).

Lemma joined_set c k' s :
  joined s → (Conn.reader k' = Conn.Finished → Conn.writer k' ≠ Conn.Draining) →
  map_Forall (λ _ k, Conn.reader k = Conn.Finished → Conn.writer k ≠ Conn.Draining) (<[c := k']> (Server.conns s)).
Proof. intros Hj Hk. by apply map_Forall_insert_2. Qed.

Lemma joined_deliver es m :
  map_Forall (λ _ k, Conn.reader k = Conn.Finished → Conn.writer k ≠ Conn.Draining) m →
  map_Forall (λ _ k, Conn.reader k = Conn.Finished → Conn.writer k ≠ Conn.Draining) (Server.deliver es m).
Proof.
  unfold Server.deliver. revert m. induction es as [|e es IH]; intros m Hm; [done|]. simpl. apply IH.
  destruct e as [|c msg|]; simpl; [done| |done]. intros c' k'. rewrite lookup_alter. case_decide; [subst|apply Hm].
  intros (k & Hk & ->)%fmap_Some. specialize (Hm _ _ Hk). unfold Conn.push. case_decide; [|done]. naive_solver.
Qed.

Lemma server_step_joined es s s' : server_step es s s' → joined s → joined s'.
Proof.
  intros Hs Hj. destruct Hs as [p i o _ Hn|c u s1 _ Hs|c s1 _ Hs|c s1 _ Hs|c s1 _ Hs|w s1 Hs|i w s1 _ Hs].
  - by apply joined_set.
  - unfold Server.announce in Hs. apply bind_Some in Hs as (k & Hk & Hs). repeat case_match; simplify_eq; by apply joined_set.
  - unfold Server.read in Hs. apply bind_Some in Hs as (k & Hk & Hs). specialize (Hj _ _ Hk) as Hjk.
    repeat case_match; simplify_eq; by apply joined_set.
  - unfold Server.write in Hs. apply bind_Some in Hs as (k & Hk & Hs). specialize (Hj _ _ Hk) as Hjk.
    case_decide; [|done]. repeat case_match; simplify_eq; apply joined_set; simpl; naive_solver.
  - unfold Server.join in Hs. apply bind_Some in Hs as (k & Hk & Hs). case_decide; [|done]. simplify_eq.
    apply joined_set; simpl; naive_solver.
  - apply bind_Some in Hs as (m & _ & Hs). apply server_handle_Some in Hs as (d & _ & ->). by apply joined_deliver.
  - apply server_handle_Some in Hs as (d & _ & ->). by apply joined_deliver.
Qed.

Lemma server_reachable_joined d s : rtc server_moves (Server.start d) s → joined s.
Proof.
  intros Hr. eapply (rtc_invariant _ joined); [|done|apply map_Forall_empty].
  intros s1 s2 [es Hs]. by eapply server_step_joined.
Qed.
End rest.

(** ** The account of a connection *)

Section account.
Context `{HashOrder} `{SerdeJson} `{TomlSettings} `{!Codec Request.t, !Codec Message.t}.

(** A step of the acceptor or of a connection's threads. *)
Inductive thread_step (s : Server.t) : Server.t → Prop :=
| thread_accept p i o : is_u64 (Server.next_conn_id s + 1) → thread_step s (Server.accept p i o s)
| thread_announce c usable s' : Server.announce c usable s = Some s' → thread_step s s'
| thread_read c s' : Server.read c s = Some s' → thread_step s s'
| thread_write c s' : Server.write c s = Some s' → thread_step s s'
| thread_join c s' : Server.join c s = Some s' → thread_step s s'.

(** A step of the event loop, on event [i]. *)
Definition loop_step (i : Daemon.input) (w : World) (es : list Effect.t) (s s' : Server.t) : Prop :=
  (∃ m, i = Daemon.Ipc m ∧ Server.posted s !! Server.taken s = Some m ∧ Server.handle i 1 w s = Some (es, s')) ∨
  ((∀ m, i ≠ Daemon.Ipc m) ∧ Server.handle i 0 w s = Some (es, s')).

(** A run, with the events the loop has handled and what it did. *)
Inductive server_trace (s : Server.t) : list (Daemon.input * World) → list Effect.t → Server.t → Prop :=
| trace_refl : server_trace s [] [] s
| trace_thread l es s1 s2 : server_trace s l es s1 → thread_step s1 s2 → server_trace s l es s2
| trace_loop l es s1 i w es' s2 :
    server_trace s l es s1 → loop_step i w es' s1 s2 → server_trace s (l ++ [(i, w)]) (es ++ es') s2.

Lemma thread_step_server s s' : thread_step s s' → server_step [] s s'.
Proof.
  intros [p i o Hn|c u s1 Hs|c s1 Hs|c s1 Hs|c s1 Hs].
  - by apply server_accept.
  - by eapply server_announce.
  - by eapply server_read.
  - by eapply server_write.
  - by eapply server_join.
Qed.

Lemma loop_step_server i w es s s' : loop_step i w es s s' → server_step es s s'.
Proof.
  intros [(m & -> & Hm & Hs)|[Hi Hs]]; [|by eapply server_event].
  eapply server_receive. unfold Server.receive. rewrite Hm. simpl. exact Hs.
Qed.

Lemma loop_receive m w es s s' :
  Server.posted s !! Server.taken s = Some m → Server.receive w s = Some (es, s') →
  loop_step (Daemon.Ipc m) w es s s'.
Proof. intros Hm Hs. left. exists m. unfold Server.receive in Hs. by rewrite Hm in Hs. Qed.

Lemma server_trace_moves s l es s' : server_trace s l es s' → rtc server_moves s s'.
Proof.
  induction 1 as [|l es s1 s2 _ IH Hs|l es s1 i w es' s2 _ IH Hs]; [done|..].
  - eapply rtc_r; [done|]. eexists. by apply thread_step_server.
  - eapply rtc_r; [done|]. eexists. by eapply loop_step_server.
Qed.

(** The requests of [c] among the messages the loop has taken. *)
Definition taken_msgs (s : Server.t) : list ManagerMessage.t := take (Server.taken s) (Server.posted s).
Definition asked (c : ConnId) (l : list ManagerMessage.t) : nat := sum_list_with (λ m, asks c (Daemon.Ipc m)) l.

Lemma asked_app c l1 l2 : asked c (l1 ++ l2) = (asked c l1 + asked c l2)%nat.
Proof. apply sum_list_with_app. Qed.

Lemma asked_about c l : asked c (about c l) = asked c l.
Proof.
  induction l as [|m l IH]; [done|]. unfold about, asked in *. rewrite filter_cons. case_decide as Hm.
  - simpl. f_equal. exact IH.
  - etrans; [exact IH|]. simpl. destruct m as [| [c' p r] |]; simpl in *; try done. by rewrite decide_False.
Qed.

Lemma asked_none c l : about c l = [] → asked c l = 0%nat.
Proof. intros Ha. by rewrite <- asked_about, Ha. Qed.

Lemma asked_history c k :
  asked c (conn_history c k) = match Conn.reader k with
                               | Conn.Starting | Conn.Refused => 0%nat
                               | _ => length (Conn.received k)
                               end.
Proof.
  assert (asked c (commands c k) = length (Conn.received k)) as Hc.
  { unfold commands. induction (Conn.received k) as [|r l IH]; [done|]. unfold asked in *. simpl.
    rewrite decide_True by done. f_equal. exact IH. }
  unfold conn_history. destruct (Conn.reader k); try done.
  change (asked c (commands c k ++ [ManagerMessage.Disconnected c]) = length (Conn.received k)).
  rewrite asked_app, Hc. simpl. unfold asked. simpl. lia.
Qed.

(** The books of connection [c] after a run that did [es]. *)
Record books (c : ConnId) (es : list Effect.t) (s : Server.t) : Prop := {
  books_taken : (Server.taken s ≤ length (Server.posted s))%nat;
  books_sent : about c (taken_msgs s) = [] → to_conn c es = [] ∧ ¬ Server.registered c s;
  books_owed : (owed c (Daemon.elevation (Server.daemon s)) ≤ asked c (taken_msgs s))%nat;
  books_balance : Server.registered c s →
    (answered c es + owed c (Daemon.elevation (Server.daemon s)) = asked c (taken_msgs s))%nat;
  books_flow : ∀ k, Server.conns s !! c = Some k → ∃ before, flows before (to_conn c es) k
}.

(** The threads only add to the channel. *)
Lemma thread_step_frame s s' :
  thread_step s s' →
  Server.daemon s' = Server.daemon s ∧ Server.taken s' = Server.taken s ∧
  ∃ l, Server.posted s' = Server.posted s ++ l.
Proof.
  assert (∃ l, Server.posted s = Server.posted s ++ l) as Hnil by (exists []; by rewrite app_nil_r).
  intros [p i o Hn|c u s1 Hs|c s1 Hs|c s1 Hs|c s1 Hs]; [done|..];
    unfold Server.announce, Server.read, Server.write, Server.join in Hs;
    apply bind_Some in Hs as (k & Hk & Hs); repeat case_match; simplify_eq; simpl; eauto.
Qed.

Lemma answered_to_conn c es : to_conn c es = [] → answered c es = 0%nat.
Proof.
  intros Hc. unfold answered. destruct (replies_to c es) as [|x l] eqn:Hr; [done|].
  assert (x ∈ replies_to c es) as Hx by (rewrite Hr; left).
  unfold replies_to in Hx. apply list_elem_of_fmap in Hx as ([c' r] & -> & Hin).
  apply list_elem_of_filter in Hin as [Hc' Hin]. simpl in Hc'. subst c'. apply elem_of_responses in Hin.
  assert (Message.Response r ∈ to_conn c es) as Hm; [|rewrite Hc in Hm; by apply not_elem_of_nil in Hm].
  apply list_elem_of_omap. eexists. split; [done|]. simpl. by rewrite decide_True.
Qed.

Lemma taken_prefix c s : about c (Server.posted s) = [] → about c (taken_msgs s) = [].
Proof.
  rewrite <- (take_drop (Server.taken s) (Server.posted s)), about_app. fold (taken_msgs s).
  by intros [? _]%app_nil.
Qed.

Lemma thread_books c es s s' : thread_step s s' → ServerInv.wf s → books c es s → books c es s'.
Proof.
  intros Hs Hwf [Ht Hsent Ho Hb Hfl]. destruct (thread_step_frame s s' Hs) as (Hd & Htk & l & Hp).
  assert (taken_msgs s' = taken_msgs s) as Hm.
  { unfold taken_msgs. by rewrite Htk, Hp, take_app_le. }
  assert (∀ c, Server.registered c s' ↔ Server.registered c s) as Hreg.
  { intros c'. unfold Server.registered. by rewrite Hd. }
  split; rewrite ?Hm, ?Hd, ?Htk, ?Hp, ?Hreg; try done.
  - rewrite length_app. lia.
  - intros k' Hk'. destruct (Server.conns s !! c) as [k|] eqn:Hk.
    + destruct (Hfl k eq_refl) as [before Hf].
      destruct (server_step_flows c [] before (to_conn c es) s s' k Hwf Hk Hf (thread_step_server _ _ Hs))
        as (k2 & Hk2 & Hf2). simplify_eq. exists before. by rewrite app_nil_r in Hf2.
    + assert (about c (Server.posted s) = []) as Ha by (by rewrite (proj1 Hwf c), Hk).
      rewrite (proj1 (Hsent (taken_prefix c s Ha))). exists (Writer.out (Conn.output k')).
      destruct Hs as [p i o Hn|c' u s1 Hs|c' s1 Hs|c' s1 Hs|c' s1 Hs].
      { simpl in Hk'. destruct (decide (c = Server.next_conn_id s)) as [->|Hne].
        - rewrite lookup_insert_eq in Hk'. simplify_eq. by apply flows_start.
        - rewrite lookup_insert_ne in Hk' by done. congruence. }
      all: exfalso; unfold Server.announce, Server.read, Server.write, Server.join in Hs;
        apply bind_Some in Hs as (k0 & Hk0 & Hs); assert (c ≠ c') by congruence;
        repeat case_match; simplify_eq/=; rewrite lookup_insert_ne in Hk' by done; congruence.
Qed.

(** [Connected] is the first a connection posts, and it posts it once. *)
Lemma connected_first c s p ob :
  ServerInv.wf s → Server.posted s !! Server.taken s = Some (ManagerMessage.Connected c p ob) →
  about c (taken_msgs s) = [].
Proof.
  intros [Ha _] Hm. specialize (Ha c). rewrite <- (take_drop_middle _ _ _ Hm), about_app in Ha.
  fold (taken_msgs s) in Ha. unfold about in Ha at 2. rewrite filter_cons_True in Ha by done.
  destruct (about c (taken_msgs s)) as [|x l]; [done|]. exfalso.
  assert (ManagerMessage.Connected c p ob ∈ tail (from_option (conn_history c) [] (Server.conns s !! c))) as Hin.
  { rewrite <- Ha. simpl. set_solver. }
  destruct (Server.conns s !! c) as [k|]; simpl in Hin; [|by apply not_elem_of_nil in Hin].
  unfold conn_history, commands in Hin. destruct (Conn.reader k); simpl in Hin;
    rewrite ?elem_of_app, ?list_elem_of_fmap in Hin; set_solver.
Qed.

Lemma loop_taken i w es s s' :
  loop_step i w es s s' → (Server.taken s ≤ length (Server.posted s))%nat →
  (Server.taken s' ≤ length (Server.posted s'))%nat ∧
  ((∀ m, i ≠ Daemon.Ipc m) ∧ taken_msgs s' = taken_msgs s ∨
   ∃ m, i = Daemon.Ipc m ∧ Server.posted s !! Server.taken s = Some m ∧ taken_msgs s' = taken_msgs s ++ [m]).
Proof.
  intros [(m & -> & Hm & Hs)|[Hi Hs]] Ht; apply server_handle_Some in Hs as (d & _ & ->); unfold taken_msgs; simpl.
  - pose proof (lookup_lt_Some _ _ _ Hm). split; [lia|]. right. exists m. split_and!; try done.
    by rewrite (take_S_r _ _ m).
  - split; [lia|]. by left.
Qed.

Lemma loop_daemon i w es s s' :
  loop_step i w es s s' → Daemon.handle i w (Server.daemon s) = Done (es, Server.daemon s').
Proof. by intros [(m & -> & Hm & Hs)|[Hi Hs]]; apply server_handle_Some in Hs as (d & ? & ->). Qed.

Lemma to_conn_known c d es : known (Daemon.registry d) es → to_conn c es ≠ [] →
  is_Some (ConnRegistry.outboxes (Daemon.registry d) !! c).
Proof.
  intros Hk Hne. destruct (to_conn c es) as [|m l] eqn:Ht; [done|].
  assert (m ∈ to_conn c es) as Hm by (rewrite Ht; left).
  apply list_elem_of_omap in Hm as (e & He & Hf). destruct e as [|c' m'|]; try done.
  case_decide; [|done]. subst. by apply (proj1 (Forall_forall _ _) Hk _ He).
Qed.

Lemma loop_books c i w es' es s s' :
  loop_step i w es' s s' → ServerInv.wf s → DaemonInv.wf (Server.daemon s) → DaemonInv.room 1 (Server.daemon s) →
  books c es s → books c (es ++ es') s'.
Proof.
  intros Hs Hwf Hdwf Hroom [Ht Hsent Ho Hb Hfl].
  pose proof (loop_daemon _ _ _ _ _ Hs) as Hh.
  pose proof (handle_accounts c i w _ _ _ Hh Hdwf Hroom) as [Hle Hbal].
  pose proof (handle_known i w _ _ _ Hh) as Hkn.
  destruct (loop_taken _ _ _ _ _ Hs Ht) as [Ht' Htaken].
  assert (asked c (taken_msgs s') = asked c (taken_msgs s) + asks c i)%nat as Hask.
  { destruct Htaken as [[Hi ->]|(m & -> & _ & ->)].
    - destruct i as [m| |]; [by destruct (Hi m)|simpl; lia..].
    - rewrite asked_app. unfold asked. cbn [sum_list_with]. lia. }
  assert (about c (taken_msgs s') = [] → about c (taken_msgs s) = []) as Habout.
  { destruct Htaken as [[_ ->]|(m & _ & _ & ->)]; [done|]. rewrite about_app. by intros [? _]%app_nil. }
  assert (about c (taken_msgs s) = [] → to_conn c es' = []) as Hquiet.
  { intros Ha. destruct (to_conn c es') eqn:Hes; [done|]. destruct (proj2 (Hsent Ha)).
    apply (to_conn_known c _ es'); [done|]. by rewrite Hes. }
  split.
  - done.
  - intros Ha. rewrite to_conn_app, (Hquiet (Habout Ha)), (proj1 (Hsent (Habout Ha))). split; [done|].
    unfold Server.registered. intros Hr.
    destruct (handle_registry _ _ _ _ _ _ Hh Hr) as [Hr0|(p & ob & ->)]; [by destruct (Hsent (Habout Ha))|].
    destruct Htaken as [[Hi _]|(m & ? & _ & Hm)]; [by destruct (Hi (ManagerMessage.Connected c p ob))|].
    simplify_eq. rewrite Hm, about_app in Ha. apply app_nil in Ha as [_ Ha]. unfold about in Ha.
    by rewrite filter_cons_True in Ha.
  - rewrite Hask. lia.
  - unfold Server.registered. rewrite Hask, answered_app. intros Hr. specialize (Hbal Hr).
    destruct (handle_registry _ _ _ _ _ _ Hh Hr) as [Hr0|(p & ob & ->)].
    + specialize (Hb Hr0). lia.
    + destruct Htaken as [[Hi _]|(m & ? & Hm & _)]; [by destruct (Hi (ManagerMessage.Connected c p ob))|].
      simplify_eq. pose proof (connected_first c s p ob Hwf Hm) as Ha.
      rewrite (answered_to_conn c es) by apply (Hsent Ha). rewrite (asked_none _ _ Ha) in *. lia.
  - intros k' Hk'. destruct (Server.conns s !! c) as [k|] eqn:Hk.
    + destruct (Hfl k eq_refl) as [before Hf].
      destruct (server_step_flows c es' before (to_conn c es) s s' k Hwf Hk Hf (loop_step_server _ _ _ _ _ Hs))
        as (k2 & Hk2 & Hf2). simplify_eq. exists before. by rewrite to_conn_app.
    + exfalso. destruct Hs as [(m & -> & Hm & Hs)|[Hi Hs]]; apply server_handle_Some in Hs as (d' & ? & ->);
        simpl in Hk'; by rewrite (proj2 (deliver_None es' _ c) Hk) in Hk'.
Qed.

(** The books balance in every state of every run. *)
Lemma trace_books c d0 l es s :
  DaemonInv.wf d0 → DaemonInv.room (N.of_nat (length l)) d0 → (∀ c, owed c (Daemon.elevation d0) = 0%nat) →
  Daemon.registry d0 = ConnRegistry.new →
  server_trace (Server.start d0) l es s → ServerInv.wf s ∧ books c es s.
Proof.
  intros Hwf Hroom Hnone Hreg Htr.
  assert (∀ n, DaemonInv.room (N.of_nat (length l) + n) d0 →
    ServerInv.wf s ∧ books c es s ∧ DaemonInv.wf (Server.daemon s) ∧ DaemonInv.room n (Server.daemon s)) as Hall.
  { clear Hroom. induction Htr as [|l es s1 s2 _ IH Hs|l es s1 i w es' s2 _ IH Hs]; intros n Hn.
    - split_and!; [apply server_start_wf| |done|done]. split; simpl; try done.
      + intros _. split; [done|]. unfold Server.registered. simpl. rewrite Hreg. intros [x Hx]. done.
      + rewrite Hnone. lia.
    - destruct (IH n Hn) as (Hw & Hb & Hd & Hr). rewrite (proj1 (thread_step_frame _ _ Hs)).
      split_and!; [|by eapply thread_books|done..]. by eapply server_step_wf; [apply thread_step_server|].
    - destruct (IH (1 + n)%N) as (Hw & Hb & Hd & Hr).
      { rewrite length_app in Hn. simpl in Hn. by rewrite Nat2N.inj_add, <- N.add_assoc in Hn. }
      split_and!.
      + by eapply server_step_wf; [eapply loop_step_server|].
      + eapply loop_books; try done. unfold DaemonInv.room, is_u32, is_u64 in *. split_and!; lia.
      + by eapply (keeps_handle _ _ _ _ _ (loop_daemon _ _ _ _ _ Hs) n).
      + by eapply (keeps_handle _ _ _ _ _ (loop_daemon _ _ _ _ _ Hs) n). }
  destruct (Hall 0%N) as (? & ? & _); [by rewrite N.add_0_r|done].
Qed.

(** A daemon that has just started owes nothing to anybody. *)
Lemma start_owes path udev w d :
  Daemon.start path udev w = Ok d →
  (∀ c, owed c (Daemon.elevation d) = 0%nat) ∧ Daemon.registry d = ConnRegistry.new.
Proof.
  unfold Daemon.start. destruct (Config.load _ _ _) as [s|]; [|done]. simpl. intros Hd.
  assert (∀ c, owed c (Daemon.elevation (Daemon.new s w)) = 0%nat) as Ho.
  { intros c. unfold owed. simpl. by rewrite map_filter_empty, map_size_empty. }
  destruct (Device.enumerate udev); simplify_eq; by split.
Qed.

(** What a client at the other end of a connection that works has been sent:
    all of it, once the outbox is empty. *)
Lemma flows_all before all k :
  flows before all k → Conn.writer k = Conn.Draining → Conn.outbox k = [] →
  ∃ ps, Forall2 (λ m p, serialize m = Ok p) all ps ∧
    Writer.out (Conn.output k) = before ++ concat (frame <$> ps).
Proof.
  intros (whole & ps & part & Hs & _ & Ho & Hd & _) Hw Hq. destruct (Hd Hw) as [-> Hall].
  rewrite Hq, app_nil_r in Hall. subst. exists ps. split; [done|]. by rewrite Ho, app_nil_r.
Qed.
End account.
