(* ===== verification/Provenance.v ===== *)
(** * Provenance: from the bytes of a connection to the daemon

    A run of the whole server, with all its threads, is for the daemon a sequence
    of events; every command among them was sent, byte for byte, by the peer of
    one connection, and carries the credentials the kernel gave for that peer. *)

From Stdlib Require Import Strings.Byte.
From stdpp Require Import base gmap strings pretty numbers list relations.
From S2P Require Import Prelude Errors System Config User Session Seat Auth Lock Idle Elevation.
From S2P Require Import Ipc Protocol Policy Launcher Power Daemon DaemonInv DaemonSafety DaemonPrompts.
From S2P Require Import Server Replies Progress.

Section provenance.
Context `{HashOrder} `{SerdeJson} `{TomlSettings} `{!Codec Request.t, !Codec Message.t}.
Implicit Types (d : Daemon.t) (s : Server.t) (c : ConnId) (k : Conn.t).

Lemma handle_all_app l1 l2 d es d' :
  Daemon.handle_all l1 d = Done (es, d') →
  Daemon.handle_all (l1 ++ l2) d = (x ← Daemon.handle_all l2 d'; Done (es ++ x.1, x.2)).
Proof.
  revert d es. induction l1 as [|[j v] l IH]; intros d es; cbn [Daemon.handle_all app].
  { intros [= <- <-]. by destruct (Daemon.handle_all l2 d) as [[]|]. }
  intros ([es1 d1] & Hj & Ht)%exec_bind_Done. apply exec_bind_Done in Ht as ([es2 d3] & Hr & Ht). simplify_eq.
  rewrite Hj. simpl. rewrite (IH _ _ Hr). destruct (Daemon.handle_all l2 d') as [[]|]; simpl; [|done].
  by rewrite (assoc_L app).
Qed.

(** The threads do not touch the daemon: it sees the events, one after the other. *)
Lemma trace_daemon d0 l es s :
  server_trace (Server.start d0) l es s → Daemon.handle_all l d0 = Done (es, Server.daemon s).
Proof.
  induction 1 as [|l es s1 s2 _ IH Hs|l es s1 i w es' s2 _ IH Hs]; [done| |].
  - destruct (thread_step_frame _ _ Hs) as (-> & _). done.
  - rewrite (handle_all_app _ _ _ _ _ IH). cbn [Daemon.handle_all]. rewrite (loop_daemon _ _ _ _ _ Hs). simpl.
    by rewrite app_nil_r.
Qed.

(** The loop handles what was posted. *)
Lemma trace_posted d0 l es s m w :
  server_trace (Server.start d0) l es s → (Daemon.Ipc m, w) ∈ l → m ∈ Server.posted s.
Proof.
  induction 1 as [|l es s1 s2 _ IH Hs|l es s1 i v es' s2 _ IH Hs]; intros Hin.
  - by apply not_elem_of_nil in Hin.
  - destruct (thread_step_frame _ _ Hs) as (_ & _ & l' & ->). apply elem_of_app. auto.
  - assert (Server.posted s2 = Server.posted s1) as ->.
    { destruct Hs as [(? & _ & _ & Hs)|[_ Hs]]; by apply server_handle_Some in Hs as (? & _ & ->). }
    apply elem_of_app in Hin as [?|Hin]; [auto|]. apply list_elem_of_singleton in Hin. simplify_eq.
    destruct Hs as [(m' & [= <-] & Hm & _)|[Hne _]]; [by eapply list_elem_of_lookup_2|by destruct (Hne m)].
Qed.

(** The peer of the connection sent it. *)
Lemma posted_sent s c peer req :
  ServerInv.wf s → ManagerMessage.Command (ManagerCommand.mk c peer req) ∈ Server.posted s →
  ∃ k, Server.conns s !! c = Some k ∧ peer = Conn.peer k ∧ req ∈ (Connection.forwarded (Conn.arrived k)).1.
Proof.
  intros [Ha Hc] Hin.
  assert (ManagerMessage.Command (ManagerCommand.mk c peer req) ∈ about c (Server.posted s)) as Hb
    by by apply elem_of_about.
  rewrite Ha in Hb. destruct (Server.conns s !! c) as [k|] eqn:Hk; simpl in Hb; [|by apply not_elem_of_nil in Hb].
  assert (ManagerMessage.Command (ManagerCommand.mk c peer req) ∈ commands c k) as Hcmd.
  { unfold conn_history, connected in Hb. destruct (Conn.reader k); set_solver. }
  apply list_elem_of_fmap in Hcmd as (r & [= -> ->] & Hr). exists k. split; [done|]. split; [done|].
  destruct (Hc c k Hk) as (_ & Hf & _). rewrite Hf. simpl. apply elem_of_app. by left.
Qed.

Lemma trace_command d0 l es s c peer req w :
  server_trace (Server.start d0) l es s →
  (Daemon.Ipc (ManagerMessage.Command (ManagerCommand.mk c peer req)), w) ∈ l →
  ∃ k, Server.conns s !! c = Some k ∧ peer = Conn.peer k ∧ req ∈ (Connection.forwarded (Conn.arrived k)).1.
Proof.
  intros Ht Hin. eapply posted_sent; [|by eapply trace_posted].
  eapply server_reachable_wf. by eapply server_trace_moves.
Qed.

(** In a run after which a locked session is not locked any more, some event
    unlocked it. *)
Lemma run_unlocked l d es d' x :
  Daemon.handle_all l d = Done (es, d') →
  LockManager.is_locked x (Daemon.locks d) = true → LockManager.is_locked x (Daemon.locks d') = false →
  ∃ l1 c peer u p w l2 es1 d1,
    l = l1 ++ (Daemon.Ipc (ManagerMessage.Command (ManagerCommand.mk c peer (Request.Unlock x u p))), w) :: l2 ∧
    Daemon.handle_all l1 d = Done (es1, d1) ∧
    permitted peer c (Request.Unlock x u p) (Daemon.sessions d1) (Daemon.elevation d1) w ∧
    accepts (Daemon.auth d1 w) (AuthRequest.mk x u p) = true ∧
    SessionLock.state (LockManager.entry x (Daemon.locks d1)) ≠ LockState.LockedOut.
Proof.
  revert d es. induction l as [|[i w] l IH]; intros d es; cbn [Daemon.handle_all].
  { intros [= <- <-]. congruence. }
  intros ([es1 d1] & Hh & Ht)%exec_bind_Done Hl Hl'. apply exec_bind_Done in Ht as ([es2 d2] & Hr & Ht). simplify_eq.
  destruct (LockManager.is_locked x (Daemon.locks d1)) eqn:Hl1.
  - destruct (IH _ _ Hr Hl1 Hl') as (l1 & c & peer & u & p & v & l2 & es3 & d3 & -> & Hh3 & Hp).
    exists ((i, w) :: l1), c, peer, u, p, v, l2, (es1 ++ es3), d3. split; [done|]. split; [|done].
    cbn [Daemon.handle_all]. rewrite Hh. simpl. by rewrite Hh3.
  - destruct (unlocked_by_password i w d es1 d1 x Hh Hl Hl1) as (c & peer & u & p & -> & Hp).
    exists [], c, peer, u, p, w, l, [], d. done.
Qed.
End provenance.
