(* ===== verification/Boot.v ===== *)
(** * Boot: from the command line to the first event
    ([run] and [main] of src/src/main.rs, [spawn] of src/src/ipc/server.rs)

    The calls that set the daemon up, in their order and with their errors, and
    the whole process: the set-up, the event loop, the exit status. *)

From Stdlib Require Import Ascii.
From stdpp Require Import base gmap strings pretty numbers list.
From S2P Require Import Prelude Errors System Config Text User Session Seat Auth Lock Idle Elevation.
From S2P Require Import Ipc Policy Launcher Power Daemon DaemonInv DaemonAudit.

(** [Path::parent].  Paths are read from the end: a slash there, and a [.] after
    a slash, are no components. *)
Fixpoint trim_components (rev : string) : string :=
  match rev with
  | String "/"%char EmptyString => rev
  | String "/"%char r => trim_components r
  | String "."%char (String "/"%char EmptyString as r) => r
  | String "."%char (String "/"%char r) => trim_components r
  | _ => rev
  end.
Fixpoint drop_component (rev : string) : string :=
  match rev with
  | EmptyString => ""
  | String "/"%char _ => rev
  | String _ r => drop_component r
  end.
Definition path_parent (p : Path) : option Path :=
  let rev := trim_components (string_reverse p) in
  if String.eqb rev "" || String.eqb rev "/" then None
  else Some (string_reverse (trim_components (drop_component rev))).

Example parents :
  path_parent <$> ["/run/mitos/session.sock"; "/x"; "x"; "/"; ""; "a/b/"; "./x"; "/."; "a//b/./c"]
  = [Some "/run/mitos"; Some "/"; Some ""; None; None; Some "a"; Some "."; None; Some "a//b"].
Proof. reflexivity. Qed.

(** What the process has done when it ends, or is waiting for more events. *)
Module Exit.
Inductive t : Type :=
| Waiting
| Success
| Fatal (message : string)
| Panic.
End Exit.

(** The set-up of [tracing] (src/src/logging/mod.rs), for any [EnvFilter]: its
    strict parser, and the [new] that leaves out what it cannot parse. *)
Module Logging.
Section init.
Context {EnvFilter : Type} (try_new : string → result string EnvFilter) (new : string → EnvFilter).

Record subscriber := fmt {
  env_filter : EnvFilter;
  json : bool
}.

(** [EnvFilter::try_from_default_env]. *)
Definition try_from_default_env (w : World) : result string EnvFilter :=
  match w_env_var w "RUST_LOG" with
  | Some var => try_new var
  | None => Err "environment variable not found"
  end.

Definition init (settings : LoggingSettings.t) (w : World) : subscriber :=
  let filter := match try_from_default_env w with
                | Ok filter => filter
                | Err _ => new (LoggingSettings.level settings)
                end in
  fmt filter (LoggingSettings.json settings).

(** What the daemon logs with: nothing, while its settings cannot be read. *)
Definition of_run `{TomlSettings} (config_path : option Path) (w : World) : Result subscriber :=
  settings ← Config.load toml_from_str config_path w; Ok (init (Settings.logging settings) w).

(** [RUST_LOG] wins when it is set and well formed; a malformed one is passed over
    for the configured level. *)
Lemma init_filter settings w :
  env_filter (init settings w) =
  match w_env_var w "RUST_LOG" ≫= λ var, match try_new var with Ok f => Some f | Err _ => None end with
  | Some filter => filter
  | None => new (LoggingSettings.level settings)
  end.
Proof.
  unfold init, try_from_default_env. simpl. destruct (w_env_var w "RUST_LOG") as [var|]; [|done]. simpl.
  by destruct (try_new var).
Qed.
End init.
End Logging.

Module Boot.
(** A call whose failure is reported as a protocol error. *)
Definition or_protocol (message : string) (c : SysCall.t) : io () := λ w,
  ([c], map_err (λ e, SessionError.Protocol (message +:+ io_text e)) (w_syscall w c)).

(** A call whose failure is ignored. *)
Definition ignoring (c : SysCall.t) : io () := λ w, ([c], Ok ()).

Definition when (b : World → bool) (m : io ()) : io () := λ w, if b w then m w else ([], Ok ()).

(** [ipc::spawn]: replace a stale socket, listen, open it to its mode, and start
    the thread that accepts connections. *)
Definition ipc_spawn (socket_path : Path) (mode : N) : io () :=
  _ ← when (λ w, w_exists w socket_path) (syscall (SysCall.RemoveFile socket_path));
  _ ← match path_parent socket_path with
      | Some parent => syscall (SysCall.CreateDirAll parent)
      | None => mret ()
      end;
  _ ← syscall (SysCall.BindSocket socket_path);
  _ ← syscall (SysCall.SetPermissions socket_path mode);
  syscall (SysCall.SpawnThread "mitos-session-ipc-accept").

Definition notify_service_manager_ready : io () := ignoring (SysCall.SdNotify NotifyState.Ready).

Section boot.
Context `{HashOrder} `{SerdeJson} `{TomlSettings}.

(** [run], up to its loop. *)
Definition setup (config_path : option Path) (udev : Device.udev_enumerator) : io Daemon.t :=
  daemon ← io_lift (Daemon.start config_path udev);
  _ ← or_protocol "failed to create event loop: " SysCall.NewEventLoop;
  _ ← ipc_spawn (Daemon.socket_path daemon) (IpcSettings.socket_mode (Settings.ipc (Daemon.settings daemon)));
  _ ← or_protocol "failed to register IPC channel: " (SysCall.InsertSource "ipc channel");
  _ ← or_protocol "failed to register idle timer: " (SysCall.InsertSource "idle timer");
  _ ← syscall (SysCall.WatchSignals SignalEvent.WATCHED);
  _ ← or_protocol "failed to register signal source: " (SysCall.InsertSource "signal source");
  _ ← notify_service_manager_ready;
  mret daemon.

Definition fatal (e : SessionError.t) : Exit.t :=
  Exit.Fatal ("mitos-session: fatal: " +:+ SessionError.to_string e).

(** [main]: the set-up, then the loop over the events that come.  [broken] is the
    error of the [dispatch] that follows them, if it fails.  A panic unwinds out of
    the loop; what the events before it did is then not listed. *)
Definition main (config_path : option Path) (udev : Device.udev_enumerator)
    (batches : list (list (Daemon.input * World))) (broken : option string) (w : World)
    : list Effect.t * Exit.t :=
  match setup config_path udev w with
  | (calls, Err e) => (map Effect.Sys calls, fatal e)
  | (calls, Ok daemon) =>
      match Daemon.run batches daemon with
      | Done (effects, daemon) =>
          (map Effect.Sys calls ++ effects,
           if Daemon.should_exit daemon then Exit.Success
           else match broken with
                | Some e => fatal (SessionError.Protocol ("event loop error: " +:+ e))
                | None => Exit.Waiting
                end)
      | Panicked => (map Effect.Sys calls, Exit.Panic)
      end
  end.
End boot.
End Boot.

(** ** Lemmas *)

Lemma or_protocol_Ok m c w calls u :
  Boot.or_protocol m c w = (calls, Ok u) → calls = [c] ∧ w_syscall w c = Ok u.
Proof. unfold Boot.or_protocol. destruct (w_syscall w c); naive_solver. Qed.

Lemma when_Ok b m w calls u :
  Boot.when b m w = (calls, Ok u) → (b w = true ∧ m w = (calls, Ok u)) ∨ (b w = false ∧ calls = []).
Proof. unfold Boot.when. destruct (b w); naive_solver. Qed.

(** The calls of [ipc_spawn], when they all succeed. *)
Definition listen_calls (p : Path) (mode : N) (w : World) : list SysCall.t :=
  (if w_exists w p then [SysCall.RemoveFile p] else [])
  ++ (match path_parent p with Some parent => [SysCall.CreateDirAll parent] | None => [] end)
  ++ [SysCall.BindSocket p; SysCall.SetPermissions p mode; SysCall.SpawnThread "mitos-session-ipc-accept"].

Lemma ipc_spawn_Ok p mode w calls u :
  Boot.ipc_spawn p mode w = (calls, Ok u) → calls = listen_calls p mode w.
Proof.
  unfold Boot.ipc_spawn, listen_calls. intros Hs. inv_io.
  apply when_Ok in Hio as [(-> & Hio)|(-> & ->)]; inv_io; destruct (path_parent p); inv_io; done.
Qed.

(** A call that a computation does not make, or does not make when it fails. *)
Definition never {A} (c : SysCall.t) (m : io A) : Prop := ∀ w, c ∉ (m w).1.
Definition fails_without {A} (c : SysCall.t) (m : io A) : Prop := ∀ w calls e, m w = (calls, Err e) → c ∉ calls.

Lemma never_bind {A B} c (m : io A) (f : A → io B) : never c m → (∀ a, never c (f a)) → never c (m ≫= f).
Proof.
  intros Hm Hf w. specialize (Hm w). unfold mbind, io_bind. destruct (m w) as [c1 [a|e]]; [|done].
  specialize (Hf a w). destruct (f a w). simpl in *. set_solver.
Qed.
Lemma never_single {A} c c' (r : World → Result A) : c ≠ c' → never c (λ w, ([c'], r w)).
Proof. intros Hne w. simpl. set_solver. Qed.
Lemma never_syscall c c' : c ≠ c' → never c (syscall c').
Proof. apply never_single. Qed.
Lemma never_ret {A} c (a : A) : never c (mret a).
Proof. intros w. simpl. set_solver. Qed.

Lemma fails_bind {A B} c (m : io A) (f : A → io B) :
  never c m → (∀ a, fails_without c (f a)) → fails_without c (m ≫= f).
Proof.
  intros Hm Hf w calls e. specialize (Hm w). unfold mbind, io_bind. destruct (m w) as [c1 [a|e']].
  - specialize (Hf a w). destruct (f a w) as [c2 r]. intros [= <- ->]. specialize (Hf _ _ eq_refl). set_solver.
  - by intros [= <- _].
Qed.

Lemma ipc_spawn_never_notifies n p mode : never (SysCall.SdNotify n) (Boot.ipc_spawn p mode).
Proof.
  unfold Boot.ipc_spawn. apply never_bind; [|intros _].
  { intros w. unfold Boot.when. case_match; [by apply never_syscall|set_solver]. }
  apply never_bind; [case_match; [by apply never_syscall|apply never_ret]|intros _].
  by repeat (apply never_bind; [|intros _]); apply never_syscall.
Qed.

Section boot_lemmas.
Context `{HashOrder} `{SerdeJson} `{TomlSettings}.

(** Everything is in place before readiness is announced, and it is announced
    when everything is. *)
Lemma setup_Ok path udev w calls d :
  Boot.setup path udev w = (calls, Ok d) →
  Daemon.start path udev w = Ok d ∧
  calls = SysCall.NewEventLoop
    :: listen_calls (Daemon.socket_path d) (IpcSettings.socket_mode (Settings.ipc (Daemon.settings d))) w
    ++ [SysCall.InsertSource "ipc channel"; SysCall.InsertSource "idle timer";
        SysCall.WatchSignals SignalEvent.WATCHED; SysCall.InsertSource "signal source";
        SysCall.SdNotify NotifyState.Ready].
Proof.
  unfold Boot.setup. intros Hs. inv_io. unfold io_lift in *. simplify_eq.
  repeat match goal with H : Boot.or_protocol _ _ _ = _ |- _ => apply or_protocol_Ok in H as [-> _] end.
  match goal with H : Boot.ipc_spawn _ _ _ = _ |- _ => apply ipc_spawn_Ok in H as -> end.
  unfold Boot.notify_service_manager_ready, Boot.ignoring in *. simplify_eq/=. split; [done|].
  by rewrite <- ?(assoc_L app).
Qed.

Lemma setup_Err path udev : fails_without (SysCall.SdNotify NotifyState.Ready) (Boot.setup path udev).
Proof.
  unfold Boot.setup. apply fails_bind; [intros w; simpl; set_solver|intros d].
  repeat (apply fails_bind; [first [by apply never_single|apply ipc_spawn_never_notifies]|intros _]).
  by intros w calls e.
Qed.

(** ** The way out *)

Lemma handle_should_exit i w d es d' :
  Daemon.handle i w d = Done (es, d') → Daemon.should_exit d = false → Daemon.should_exit d' = true →
  Effect.Sys (SysCall.SdNotify NotifyState.Stopping) ∈ es.
Proof.
  intros Ha%handle_accounted Hd Hd'.
  destruct Ha as [[= _ ?]|[(?&?&?&?&?&?&?&[= _ ?]&?)|[(?&?&?&?&[= _ ?]&?)|(_ & _ & [?|[_ ?]])]]]; congruence.
Qed.

Lemma handle_all_should_exit l d es d' :
  Daemon.handle_all l d = Done (es, d') → Daemon.should_exit d = false → Daemon.should_exit d' = true →
  Effect.Sys (SysCall.SdNotify NotifyState.Stopping) ∈ es.
Proof.
  revert d es. induction l as [|[i w] l IH]; intros d es; simpl; [by intros [= _ ->] -> |].
  intros ([es1 d1] & H1' & ([es2 d2] & H2' & Hh)%exec_bind_Done)%exec_bind_Done Hd Hd'. simplify_eq.
  rewrite elem_of_app. destruct (Daemon.should_exit d1) eqn:Hd1; [left; by eapply handle_should_exit|right; by eapply IH].
Qed.

Lemma run_should_exit batches d es d' :
  Daemon.run batches d = Done (es, d') → Daemon.should_exit d = false → Daemon.should_exit d' = true →
  Effect.Sys (SysCall.SdNotify NotifyState.Stopping) ∈ es.
Proof.
  revert d es. induction batches as [|l batches IH]; intros d es; simpl; [by intros [= _ ->] -> |].
  intros Hr Hd Hd'. rewrite Hd in Hr.
  apply exec_bind_Done in Hr as ([es1 d1] & H1' & ([es2 d2] & H2' & Hh)%exec_bind_Done). simplify_eq.
  rewrite elem_of_app. destruct (Daemon.should_exit d1) eqn:Hd1; [left; by eapply handle_all_should_exit|right; by eapply IH].
Qed.

Lemma start_should_exit path udev w d : Daemon.start path udev w = Ok d → Daemon.should_exit d = false.
Proof.
  unfold Daemon.start. destruct (Config.load _ _ _); [|done]. intros [= <-]. by case_match.
Qed.
End boot_lemmas.
