(* ===== verification/Examples.v ===== *)
(** * Examples: a concrete machine to run the daemon on

    A small world (two accounts, a shadow file, a PAM stack with one password),
    an iteration order, stand-ins for the JSON and TOML parsers, and a daemon
    that has been through a few events.  The witnesses evaluate on them. *)

From Stdlib Require Import Ascii Strings.Byte.
From stdpp Require Import base gmap strings pretty numbers list relations.
From S2P Require Import Prelude Errors System Config Text User Session Seat Auth Lock Idle Elevation.
From S2P Require Import Ipc Protocol Policy Launcher Power Daemon DaemonInv Server Replies.

Module Ex.
#[export] Existing Instance trie_order.

Definition not_found : IoError := {| io_kind := ErrorKind.NotFound; io_text := "not found" |}.

Definition alice : NixUser :=
  {| nix_uid := 1000; nix_gid := 1000; nix_name := "alice"; nix_dir := "/home/alice"; nix_shell := "/bin/sh" |}.
Definition service : NixUser :=
  {| nix_uid := 900; nix_gid := 900; nix_name := "mitos-service"; nix_dir := "/"; nix_shell := "/bin/false" |}.

Definition nl : string := String newline "".

Definition shadow : string := "root:!:1:" +:+ nl +:+ "alice:$6$salt$hash:1:" +:+ nl.
Definition group : string := "users:x:100:alice,bob" +:+ nl +:+ "video:x:44:alice" +:+ nl.

(** PAM knows one password. *)
Definition pam : PamStack :=
  {| pam_with_password _ := Ok ();
     pam_authenticate _ _ p := if String.eqb p "secret" then Ok () else Err "Authentication failure";
     pam_open_session _ _ _ := Ok () |}.

Definition socket : PowerSocket :=
  {| ps_connect := Ok (); ps_set_read_timeout := Ok (); ps_try_clone := Ok ();
     ps_set_write_timeout := Ok (); ps_write := Ok (); ps_lines := [Ok nl; Ok ("event" +:+ nl); Ok ("ok" +:+ nl)] |}.

Definition world_at (secs : N) : World :=
  {| w_now := from_secs secs;
     w_system_time := from_secs 1700000000;
     w_env_var _ := None;
     w_from_name n := Ok (if String.eqb n "alice" then Some alice
                          else if String.eqb n "mitos-service" then Some service else None);
     w_from_uid _ := Ok None;
     w_exists _ := false;
     w_read_to_string p := if String.eqb p "/etc/shadow" then Ok shadow
                           else if String.eqb p "/etc/group" then Ok group else Err not_found;
     w_metadata p := if String.eqb p "/home/alice"
                     then Ok {| meta_uid := 1000; meta_gid := 1000; meta_mode := 448;
                                meta_is_dir := true; meta_is_symlink := false |}
                     else Err not_found;
     w_syscall _ := Ok ();
     w_spawn _ := Ok 4242%N;
     w_pam := pam;
     w_power_socket _ := socket |}.
Definition world : World := world_at 1000.

#[export] Instance json : SerdeJson :=
  {| from_str s := Ok (Value.Object
       [("kind", Value.Str (if String.eqb s "ok" then "response" else "event")); ("ok", Value.Bool true)]);
     to_string _ := Ok "request" |}.

#[export] Instance toml : TomlSettings := {| toml_from_str _ := Ok Settings.default |}.

Definition udev : Device.udev_enumerator :=
  {| Device.enum_new := Ok (); Device.enum_match_subsystem _ := Ok (); Device.enum_scan_devices _ := Ok [] |}.

Definition root : PeerCred.t := PeerCred.mk 0 0 1.
Definition user : PeerCred.t := PeerCred.mk 1000 1000 500.
Definition stranger : PeerCred.t := PeerCred.mk 1001 1001 501.
Definition asker : PeerCred.t := PeerCred.mk 900 900 502.

Definition from (conn : ConnId) (peer : PeerCred.t) (r : Request.t) : Daemon.input :=
  Daemon.Ipc (ManagerMessage.Command (ManagerCommand.mk conn peer r)).
Definition connect (conn : ConnId) (peer : PeerCred.t) : Daemon.input :=
  Daemon.Ipc (ManagerMessage.Connected conn peer conn).

(** The daemon after one more event, and what the event did. *)
Definition after (i : Daemon.input) (w : World) (d : Daemon.t) : list Effect.t * Daemon.t :=
  match Daemon.handle i w d with Done x => x | Panicked => ([], d) end.
Definition completes (i : Daemon.input) (w : World) (d : Daemon.t) : bool :=
  match Daemon.handle i w d with Done _ => true | Panicked => false end.

Lemma after_step i w d :
  completes i w d = true → Daemon.handle i w d = Done ((after i w d).1, (after i w d).2).
Proof. unfold completes, after. by destruct (Daemon.handle i w d) as [[]|]. Qed.

(** The same for a run of the event loop. *)
Definition ran (l : list (list Daemon.input)) (d : Daemon.t) : exec (list Effect.t * Daemon.t) :=
  Daemon.run (map (map (λ i, (i, world))) l) d.
Definition ran_to (l : list (list Daemon.input)) (d : Daemon.t) : list Effect.t * Daemon.t :=
  match ran l d with Done x => x | Panicked => ([], d) end.

Lemma ran_step l d :
  match ran l d with Done _ => true | Panicked => false end = true →
  Daemon.run (map (map (λ i, (i, world))) l) d = Done ((ran_to l d).1, (ran_to l d).2).
Proof. unfold ran_to. fold (ran l d). by destruct (ran l d) as [[]|]. Qed.

Definition play (l : list Daemon.input) (d : Daemon.t) : Daemon.t :=
  foldl (λ d i, (after i world d).2) d l.

(** The daemon as it starts, and then with alice's session 1 on a seat, its
    compositor on connection 2 and the elevation service on connection 3. *)
Definition booted : Daemon.t :=
  match Daemon.start None udev world with Ok d => d | Err _ => Daemon.new Settings.default world end.
Definition logged_in : Daemon.t :=
  play [connect 1 root; connect 2 user; connect 3 asker;
        from 1 root (Request.CreateSession "alice" None None);
        from 2 user (Request.RegisterCompositor 1)] booted.
Definition locked : Daemon.t := play [from 2 user (Request.LockSession 1)] logged_in.

Definition action : ElevationAction.t :=
  ElevationAction.mk "Video Editor" "Raw Disk Access" ElevationRisk.Critical "5 minutes".
Definition prompted : Daemon.t :=
  play [from 3 asker (Request.RequestElevation 1 action)] logged_in.

Lemma start_ok : Daemon.start None udev world = Ok booted.
Proof. reflexivity. Qed.

(** The example states satisfy the invariant. *)
Lemma play_wf l d :
  DaemonInv.wf d → DaemonInv.room (N.of_nat (length l)) d → DaemonInv.wf (play l d).
Proof.
  revert d. induction l as [|i l IH]; intros d Hwf Hroom; [done|].
  unfold play. cbn [foldl]. rewrite length_cons, Nat2N.inj_succ, <- N.add_1_l in Hroom.
  assert (DaemonInv.wf (after i world d).2 ∧ DaemonInv.room (N.of_nat (length l)) (after i world d).2) as [Hw Hr].
  { unfold after. destruct (Daemon.handle i world d) as [[es d']|] eqn:Hh; simpl.
    - by eapply (keeps_handle _ _ _ _ _ Hh).
    - by eapply (keeps_refl 1 d). }
  by apply IH.
Qed.

Lemma booted_wf : DaemonInv.wf booted.
Proof. by apply (start_wf None udev world). Qed.

Lemma logged_in_wf : DaemonInv.wf logged_in ∧ DaemonInv.room 1 logged_in.
Proof.
  split; [|vm_compute; tauto]. apply play_wf; [apply booted_wf|]. vm_compute. tauto.
Qed.

Lemma prompted_wf : DaemonInv.wf prompted ∧ DaemonInv.room 1 prompted.
Proof. split; [|vm_compute; tauto]. apply play_wf; [apply logged_in_wf|]. vm_compute. tauto. Qed.

(** Encodings to instantiate the wire theorems with: bytes as themselves, and a
    byte for each of a few messages. *)
#[export] Instance bytes_codec : Codec (list byte) := {| serialize := Ok; deserialize := Ok |}.
#[export] Instance bytes_codec_laws : CodecLaws (list byte).
Proof. constructor. by intros x bs [= ->]. Qed.

#[export] Instance request_codec : Codec Request.t :=
  {| serialize r := match r with Request.Suspend => Ok [x02] | _ => Err "unsupported" end;
     deserialize bs := match bs with
                       | [x02] => Ok Request.Suspend
                       | [x03] => Ok (Request.Unlock 1 "alice" "secret")
                       | _ => Err "unsupported" end |}.
#[export] Instance request_codec_laws : CodecLaws Request.t.
Proof. constructor. intros [] bs [= <-]; reflexivity. Qed.
#[export] Instance message_codec : Codec Message.t :=
  {| serialize m := match m with
                    | Message.Response Response.Ok => Ok [x00]
                    | Message.Event Event.PrepareForSleep => Ok [x01]
                    | _ => Err "unsupported" end;
     deserialize bs := match bs with
                       | [x00] => Ok (Message.Response Response.Ok)
                       | [x01] => Ok (Message.Event Event.PrepareForSleep)
                       | _ => Err "unsupported" end |}.
#[export] Instance message_codec_laws : CodecLaws Message.t.
Proof. constructor. intros [[]|[]] bs [= <-]; reflexivity. Qed.

Lemma ex_sendable {T} `{Codec T} (x : T) p :
  serialize x = Ok p → (N.of_nat (length p) <=? Protocol.MAX_MESSAGE_LEN)%N = true → sendable x p.
Proof. by intros Hx Hl%N.leb_le. Qed.

(** A client of root's asks for a suspend and has its answer written. *)
Definition ex_accepted : Server.t :=
  Server.accept root (Reader.mk (frame [x02]) None) (Writer.mk [] None) (Server.start booted).
Definition ex_announced : Server.t := default ex_accepted (Server.announce 1 true ex_accepted).
Definition ex_known : list Effect.t * Server.t := default ([], ex_announced) (Server.receive world ex_announced).
Definition ex_asked : Server.t := default ex_known.2 (Server.read 1 ex_known.2).
Definition ex_handled : list Effect.t * Server.t := default ([], ex_asked) (Server.receive world ex_asked).
Definition ex_answered : Server.t := default ex_handled.2 (Server.write 1 ex_handled.2).

Lemma ex_some {A} (o : option A) x : (match o with Some _ => true | None => false end) = true → o = Some (default x o).
Proof. by destruct o. Qed.

Lemma ex_some_pair {A B} (o : option (A * B)) x :
  (match o with Some _ => true | None => false end) = true → o = Some ((default x o).1, (default x o).2).
Proof. by destruct o as [[]|]. Qed.

Lemma ex_answered_run : server_run ex_accepted (ex_known.1 ++ ex_handled.1) ex_answered.
Proof.
  assert (server_run ex_accepted [] ex_announced) as H1.
  { eapply (run_step _ [] _ []); [apply run_refl|]. apply (server_announce [] _ 1 true); [done|].
    apply ex_some. vm_compute. reflexivity. }
  assert (server_run ex_accepted ex_known.1 ex_known.2) as H2.
  { apply (run_step _ [] _ ex_known.1 _ H1), (server_receive _ _ world).
    apply ex_some_pair. vm_compute. reflexivity. }
  assert (server_run ex_accepted ex_known.1 ex_asked) as H3.
  { rewrite <- (app_nil_r ex_known.1). apply (run_step _ _ _ _ _ H2), (server_read [] _ 1); [done|].
    apply ex_some. vm_compute. reflexivity. }
  assert (server_run ex_accepted (ex_known.1 ++ ex_handled.1) ex_handled.2) as H4.
  { apply (run_step _ _ _ ex_handled.1 _ H3), (server_receive _ _ world).
    apply ex_some_pair. vm_compute. reflexivity. }
  rewrite <- (app_nil_r (_ ++ _)). apply (run_step _ _ _ _ _ H4), (server_write [] _ 1); [done|].
  apply ex_some. vm_compute. reflexivity.
Qed.

(** The client has nothing more to say. *)
Definition ex_rest : Server.t := default ex_answered (Server.read 1 ex_answered).

(** A map with one key. *)
Lemma only_key {K V} `{Countable K} (m : gmap K V) i j :
  size m = 1%nat → is_Some (m !! i) → is_Some (m !! j) → i = j.
Proof.
  intros Hs [x Hx] [y Hy]. destruct (decide (i = j)) as [|Hne]; [done|]. exfalso.
  rewrite <- (insert_delete_id m i x Hx), map_size_insert_None in Hs by apply lookup_delete_eq.
  assert (delete i m = ∅) as Hd by (apply map_size_empty_inv; lia).
  assert (delete i m !! j = Some y) as Hj by (by rewrite lookup_delete_ne). by rewrite Hd in Hj.
Qed.
End Ex.
