(* ===== verification/UnitTests.v ===== *)
(** * UnitTests: the [#[cfg(test)]] modules of the crate

    A test is a computation in [exec]: an assertion that does not hold panics, as
    does an [unwrap] of an error, and a test passes when it is done.  Each test
    module is a module here, its tests are translated statement by statement
    ([now] is what [Instant::now()] gives), and each is then run: a definition
    that strays from the code on a tested input fails here.  One test of the crate
    does not pass, and the run says so ([elevation_manager_tests_run]). *)

From Stdlib Require Import Ascii Strings.Byte.
From stdpp Require Import base gmap strings pretty numbers list.
From S2P Require Import Prelude Errors System Config Text User Session Seat Auth Lock Idle Elevation.
From S2P Require Import Ipc Policy Launcher Power Examples.

Module Testing.
Definition assert (b : bool) : exec () := if b then Done () else Panicked.
Definition assert_eq {A} `{EqDecision A} (x y : A) : exec () := assert (bool_decide (x = y)).
Definition is_err {E A} (r : result E A) : bool := negb (is_ok r).
Definition is_some {A} (o : option A) : bool := match o with Some _ => true | None => false end.
Definition is_none {A} (o : option A) : bool := negb (is_some o).
Definition is_empty {A} (l : list A) : bool := match l with [] => true | _ => false end.
(** [unwrap], and indexing a [Vec]. *)
Definition unwrap {E A} (r : result E A) : exec A :=
  match r with Ok a => Done a | Err _ => Panicked end.
Definition unwrap_some {A} (o : option A) : exec A :=
  match o with Some a => Done a | None => Panicked end.
Definition unwrap_err {E A} (r : result E A) : exec E :=
  match r with Ok _ => Panicked | Err e => Done e end.

(** [str::contains]. *)
Fixpoint contains (needle s : string) : bool :=
  String.prefix needle s || match s with String _ s' => contains needle s' | EmptyString => false end.

(** The patterns of the tests' [matches!]. *)
Definition is_failure (o : AuthOutcome.t) : bool :=
  match o with AuthOutcome.Failure _ => true | _ => false end.
Definition is_locked_out (o : AuthOutcome.t) : bool :=
  match o with AuthOutcome.LockedOut _ => true | _ => false end.

(** When the tests are run here. *)
Definition t0 : Instant := from_secs 1000.
End Testing.
Import Ex Testing.

(** ** authentication/authenticator.rs *)

Module AuthenticatorTests.
Definition AlwaysFail : Authenticator := {| authenticate _ := Err (SessionError.AuthFailed "nope") |}.
Definition AlwaysSucceed : Authenticator := {| authenticate _ := Ok () |}.
Definition request : AuthRequest.t := AuthRequest.mk 1 "alice" "hunter2".

Definition locks_out_after_max_attempts : exec () :=
  let policy := AuthPolicy.mk "test" false 3 (from_secs 30) in
  let attempts := 0%N in
  let '(outcome, attempts) := Auth.check AlwaysFail request policy attempts in
  _ ← assert (match outcome with AuthOutcome.Failure 2 => true | _ => false end);
  let '(outcome, attempts) := Auth.check AlwaysFail request policy attempts in
  _ ← assert (match outcome with AuthOutcome.Failure 1 => true | _ => false end);
  let '(outcome, attempts) := Auth.check AlwaysFail request policy attempts in
  assert (match outcome with AuthOutcome.LockedOut 30 => true | _ => false end).

Definition success_resets_attempt_counter : exec () :=
  let policy := AuthPolicy.mk "test" false 3 (from_secs 30) in
  let attempts := 2%N in
  let '(outcome, attempts) := Auth.check AlwaysSucceed request policy attempts in
  _ ← assert_eq outcome AuthOutcome.Success;
  assert_eq attempts 0%N.
End AuthenticatorTests.

Example authenticator_tests_pass :
  [AuthenticatorTests.locks_out_after_max_attempts; AuthenticatorTests.success_resets_attempt_counter] =
  replicate 2 (Done ()).
Proof. vm_compute. reflexivity. Qed.

(** ** elevation/action.rs *)

Module ActionTests.
Import ElevationAction.

Definition action : t := mk "Video Editor" "Raw Disk Access" ElevationRisk.Critical "5 minutes".
Definition with_description (s : string) (a : t) : t := mk (requesting_app a) s (risk a) (duration_label a).
(** ["x".repeat(n)]. *)
Definition xs (n : nat) : string := String.concat "" (replicate n "x").

Definition ordinary_action_validates : exec () := assert (is_ok (validate action)).

Definition empty_requesting_app_is_rejected : exec () :=
  let a := action in
  let a := mk "" (description a) (risk a) (duration_label a) in
  assert (is_err (validate a)).

Definition oversized_label_is_rejected_not_truncated : exec () :=
  let a := with_description (xs (MAX_LABEL_LEN + 1)) action in
  assert (is_err (validate a)).

Definition label_at_exactly_the_limit_is_fine : exec () :=
  let a := with_description (xs MAX_LABEL_LEN) action in
  assert (is_ok (validate a)).
End ActionTests.

Example action_tests_pass :
  [ActionTests.ordinary_action_validates; ActionTests.empty_requesting_app_is_rejected;
   ActionTests.oversized_label_is_rejected_not_truncated; ActionTests.label_at_exactly_the_limit_is_fine] =
  replicate 4 (Done ()).
Proof. vm_compute. reflexivity. Qed.

(** ** elevation/timeout.rs *)

Module ElevationTimeoutTests.
Import ElevationTimeouts.

Definition a_prompt_expires_only_once_its_timeout_has_elapsed (now : Instant) : exec () :=
  x ← start_prompt 1 now (from_secs 10) new;
  at5 ← instant_add now (from_secs 5);
  let '(ids, x) := expired_prompts at5 x in
  _ ← assert (is_empty ids);
  at10 ← instant_add now (from_secs 10);
  let '(ids, x) := expired_prompts at10 x in
  _ ← assert_eq ids [1%N];
  at20 ← instant_add now (from_secs 20);
  let '(ids, x) := expired_prompts at20 x in
  assert (is_empty ids).

Definition cancelling_a_prompt_stops_it_from_expiring (now : Instant) : exec () :=
  x ← start_prompt 1 now (from_secs 10) new;
  let x := cancel_prompt 1 x in
  at20 ← instant_add now (from_secs 20);
  let '(ids, x) := expired_prompts at20 x in
  assert (is_empty ids).

Definition lockouts_and_prompts_dont_interfere_with_each_other (now : Instant) : exec () :=
  x ← start_prompt 1 now (from_secs 10) new;
  x ← start_lockout 1 now (from_secs 10) x;
  at10 ← instant_add now (from_secs 10);
  let '(ids, x) := expired_prompts at10 x in
  _ ← assert_eq ids [1%N];
  let '(sessions, x) := expired_lockouts at10 x in
  assert_eq sessions [1%N].
End ElevationTimeoutTests.

Example elevation_timeout_tests_pass :
  (λ test, test t0) <$>
    [ElevationTimeoutTests.a_prompt_expires_only_once_its_timeout_has_elapsed;
     ElevationTimeoutTests.cancelling_a_prompt_stops_it_from_expiring;
     ElevationTimeoutTests.lockouts_and_prompts_dont_interfere_with_each_other] =
  replicate 3 (Done ()).
Proof. vm_compute. reflexivity. Qed.

(** ** elevation/manager.rs *)

Module ElevationManagerTests.
Import ElevationManager.

Definition AlwaysFail : Authenticator := {| authenticate _ := Err (SessionError.AuthFailed "nope") |}.
Definition AlwaysSucceed : Authenticator := {| authenticate _ := Ok () |}.
Definition policy : ElevationPolicy.t := ElevationPolicy.mk true (from_secs 120) 2.
Definition auth_policy : AuthPolicy.t := AuthPolicy.mk "test" false 2 (from_secs 30).
Definition req (session_id : SessionId) : AuthRequest.t := AuthRequest.mk session_id "alice" "hunter2".

(** [mgr.begin(..).unwrap()] and [mgr.attempt(..).unwrap()]. *)
Definition begin_unwrap (session : SessionId) (compositor requester : ConnId) (now : Instant) (mgr : t)
    : exec (ElevationRequestId * t) :=
  '(r, mgr) ← begin session compositor requester policy auth_policy now mgr;
  id ← unwrap r; Done (id, mgr).
Definition attempt_unwrap (id : ElevationRequestId) (a : Authenticator) (now : Instant) (mgr : t)
    : exec (ElevationOutcome.t * t) :=
  '(o, mgr) ← attempt id a (req 1) auth_policy now mgr;
  o ← unwrap_some o; Done (o, mgr).

Definition only_the_configured_uid_is_an_authorized_requester (now : Instant) : exec () :=
  let mgr := new in
  _ ← assert (negb (is_authorized_requester 1000 mgr));
  let mgr := set_requester_uid (Some 1000%N) mgr in
  _ ← assert (is_authorized_requester 1000 mgr);
  assert (negb (is_authorized_requester 1001 mgr)).

Definition full_ask_answer_success_cycle (now : Instant) : exec () :=
  '(id, mgr) ← begin_unwrap 1 100 200 now new;
  info ← unwrap_some (peek id mgr);
  _ ← assert_eq (PendingElevationInfo.session_id info) 1%N;
  _ ← assert_eq (compositor_conn_for id mgr) (Some 100%N);
  '(outcome, mgr) ← attempt_unwrap id AlwaysSucceed now mgr;
  _ ← assert_eq (ElevationOutcome.outcome outcome) AuthOutcome.Success;
  _ ← assert (ElevationOutcome.terminal outcome);
  _ ← assert_eq (ElevationOutcome.compositor_conn outcome) 100%N;
  _ ← assert_eq (ElevationOutcome.requester_conn outcome) 200%N;
  assert (is_none (compositor_conn_for id mgr)).

Definition a_wrong_attempt_leaves_the_prompt_open_until_locked_out (now : Instant) : exec () :=
  '(id, mgr) ← begin_unwrap 1 100 200 now new;
  '(first, mgr) ← attempt_unwrap id AlwaysFail now mgr;
  _ ← assert (is_failure (ElevationOutcome.outcome first));
  _ ← assert (negb (ElevationOutcome.terminal first));
  _ ← assert (is_some (compositor_conn_for id mgr));
  '(second, mgr) ← attempt_unwrap id AlwaysFail now mgr;
  _ ← assert (Testing.is_locked_out (ElevationOutcome.outcome second));
  _ ← assert (ElevationOutcome.terminal second);
  assert (is_none (compositor_conn_for id mgr)).

Definition a_lockout_blocks_brand_new_requests_for_the_same_session (now : Instant) : exec () :=
  '(id, mgr) ← begin_unwrap 1 100 200 now new;
  '(_, mgr) ← attempt id AlwaysFail (req 1) auth_policy now mgr;
  '(_, mgr) ← attempt id AlwaysFail (req 1) auth_policy now mgr;
  '(second_request, mgr) ← begin 1 100 201 policy auth_policy now mgr;
  _ ← assert (match second_request with Err (SessionError.LockedOut _) => true | _ => false end);
  '(other, mgr) ← begin 2 100 202 policy auth_policy now mgr;
  assert (is_ok other).

Definition lockout_clears_once_its_timer_elapses (now : Instant) : exec () :=
  '(id, mgr) ← begin_unwrap 1 100 200 now new;
  '(_, mgr) ← attempt id AlwaysFail (req 1) auth_policy now mgr;
  '(_, mgr) ← attempt id AlwaysFail (req 1) auth_policy now mgr;
  later ← instant_add now (from_secs 31);
  let mgr := clear_expired_lockouts later mgr in
  '(again, mgr) ← begin 1 100 203 policy auth_policy later mgr;
  assert (is_ok again).

Definition cancelling_never_touches_the_attempt_counter (now : Instant) : exec () :=
  '(id, mgr) ← begin_unwrap 1 100 200 now new;
  '(_, mgr) ← attempt id AlwaysFail (req 1) auth_policy now mgr;
  '(id2, mgr) ← begin_unwrap 1 100 201 now mgr;
  let '(cancelled, mgr) := cancel id2 mgr in
  cancelled ← unwrap_some cancelled;
  _ ← assert_eq (ElevationOutcome.outcome cancelled) AuthOutcome.Cancelled;
  '(id3, mgr) ← begin_unwrap 1 100 202 now mgr;
  '(outcome, mgr) ← attempt_unwrap id3 AlwaysFail now mgr;
  assert (is_failure (ElevationOutcome.outcome outcome)).

Definition max_pending_per_session_is_enforced (now : Instant) : exec () :=
  '(_, mgr) ← begin_unwrap 1 100 200 now new;
  '(_, mgr) ← begin_unwrap 1 100 201 now mgr;
  '(third, mgr) ← begin 1 100 202 policy auth_policy now mgr;
  assert (match third with Err (SessionError.PermissionDenied _) => true | _ => false end).

Definition an_unanswered_prompt_expires_and_is_reported_once (now : Instant) : exec () :=
  '(id, mgr) ← begin_unwrap 1 100 200 now new;
  later ← instant_add now (from_secs 200);
  let '(abandoned, mgr) := expire_pending later mgr in
  _ ← assert_eq (length abandoned) 1;
  a ← unwrap_some (abandoned !! 0);
  _ ← assert_eq (AbandonedElevation.request_id a) id;
  _ ← assert_eq (AbandonedElevation.compositor_conn a) 100%N;
  _ ← assert_eq (AbandonedElevation.requester_conn a) 200%N;
  assert (is_empty (expire_pending later mgr).1).

Definition terminating_a_session_abandons_only_its_own_prompts (now : Instant) : exec () :=
  '(a, mgr) ← begin_unwrap 1 100 200 now new;
  '(b, mgr) ← begin_unwrap 2 101 201 now mgr;
  let '(abandoned, mgr) := abandon_session 1 mgr in
  _ ← assert_eq (length abandoned) 1;
  first ← unwrap_some (abandoned !! 0);
  _ ← assert_eq (AbandonedElevation.request_id first) a;
  assert (is_some (peek b mgr)).

Definition a_dropped_connection_abandons_prompts_it_holds_either_role_in (now : Instant) : exec () :=
  '(a, mgr) ← begin_unwrap 1 100 200 now new;
  '(b, mgr) ← begin_unwrap 2 300 100 now mgr;
  let '(abandoned, mgr) := abandon_connection 100 mgr in
  let ids := AbandonedElevation.request_id <$> abandoned in
  _ ← assert (bool_decide (a ∈ ids));
  assert (bool_decide (b ∈ ids)).
End ElevationManagerTests.

(** The counter belongs to the session: the wrong answer to the third prompt of
    [cancelling_never_touches_the_attempt_counter] is the second of two, and locks
    out where the test wants a failure. *)
Example elevation_manager_tests_run :
  let run := fmap (λ test : Instant → exec (), test t0) in
  run [ElevationManagerTests.only_the_configured_uid_is_an_authorized_requester;
       ElevationManagerTests.full_ask_answer_success_cycle;
       ElevationManagerTests.a_wrong_attempt_leaves_the_prompt_open_until_locked_out;
       ElevationManagerTests.a_lockout_blocks_brand_new_requests_for_the_same_session;
       ElevationManagerTests.lockout_clears_once_its_timer_elapses;
       ElevationManagerTests.max_pending_per_session_is_enforced;
       ElevationManagerTests.an_unanswered_prompt_expires_and_is_reported_once;
       ElevationManagerTests.terminating_a_session_abandons_only_its_own_prompts;
       ElevationManagerTests.a_dropped_connection_abandons_prompts_it_holds_either_role_in] =
    replicate 9 (Done ()) ∧
  run [ElevationManagerTests.cancelling_never_touches_the_attempt_counter] = [Panicked].
Proof. vm_compute. split; reflexivity. Qed.

(** ** idle/detector.rs *)

Module DetectorTests.
Import IdleDetector.

Definition policy : IdlePolicy.t := IdlePolicy.mk (from_secs 10) (from_secs 20) (from_secs 30).

Definition crosses_thresholds_in_order (t0 : Instant) : exec () :=
  let detector := record_activity "seat0" t0 new in
  at5 ← instant_add t0 (from_secs 5);
  let '(changes, detector) := tick at5 policy detector in
  _ ← assert (is_empty changes);
  at11 ← instant_add t0 (from_secs 11);
  let '(changes, detector) := tick at11 policy detector in
  _ ← assert_eq changes [("seat0", IdleStage.Dimmed)];
  at21 ← instant_add t0 (from_secs 21);
  let '(changes, detector) := tick at21 policy detector in
  assert_eq changes [("seat0", IdleStage.LockRequested)].

Definition activity_resets_to_active (t0 : Instant) : exec () :=
  let detector := record_activity "seat0" t0 new in
  at15 ← instant_add t0 (from_secs 15);
  let '(_, detector) := tick at15 policy detector in
  _ ← assert_eq (stage "seat0" detector) IdleStage.Dimmed;
  at16 ← instant_add t0 (from_secs 16);
  let detector := record_activity "seat0" at16 detector in
  assert_eq (stage "seat0" detector) IdleStage.Active.
End DetectorTests.

Example detector_tests_pass :
  (λ test, test t0) <$> [DetectorTests.crosses_thresholds_in_order; DetectorTests.activity_resets_to_active] =
  replicate 2 (Done ()).
Proof. vm_compute. reflexivity. Qed.

(** ** launcher/compositor.rs *)

Module CompositorTests.
Import Launcher.

Definition restarts_until_the_limit_then_falls_back : exec () :=
  _ ← assert_eq (decide_restart 0 3) RestartDecision.Restart;
  _ ← assert_eq (decide_restart 2 3) RestartDecision.Restart;
  _ ← assert_eq (decide_restart 3 3) RestartDecision.FallbackToTerminal;
  assert_eq (decide_restart 9 3) RestartDecision.FallbackToTerminal.

Definition a_zero_limit_never_restarts : exec () :=
  assert_eq (decide_restart 0 0) RestartDecision.FallbackToTerminal.
End CompositorTests.

Example compositor_tests_pass :
  [CompositorTests.restarts_until_the_limit_then_falls_back; CompositorTests.a_zero_limit_never_restarts] =
  replicate 2 (Done ()).
Proof. vm_compute. reflexivity. Qed.

(** ** lock/inhibitor.rs *)

Module InhibitorTests.
Import InhibitorRegistry.

Definition block_is_visible_to_blocks_query : exec () :=
  let reg := new in
  _ ← assert (negb (blocks InhibitWhat.Suspend reg));
  let '(id, reg) := add InhibitWhat.Suspend "backup-daemon" "running backup" InhibitMode.Block reg in
  _ ← assert (blocks InhibitWhat.Suspend reg);
  let '(removed, reg) := remove id reg in
  _ ← unwrap removed;
  assert (negb (blocks InhibitWhat.Suspend reg)).

Definition removing_unknown_id_errors : exec () := assert (is_err (remove 999 new).1).
End InhibitorTests.

Example inhibitor_tests_pass :
  [InhibitorTests.block_is_visible_to_blocks_query; InhibitorTests.removing_unknown_id_errors] =
  replicate 2 (Done ()).
Proof. vm_compute. reflexivity. Qed.

(** ** lock/lock.rs *)

Module LockTests.
Import LockManager.

Definition AlwaysFail : Authenticator := {| authenticate _ := Err (SessionError.AuthFailed "nope") |}.
Definition auth_policy : AuthPolicy.t := AuthPolicy.mk "test" false 2 (from_secs 10).
Definition lock_policy : LockPolicy.t := LockPolicy.mk true true true (from_secs 5).

Definition repeated_failures_lock_out_further_attempts (now : Instant) : exec () :=
  let '(locked, mgr) := lock 1 lock_policy new in
  _ ← unwrap locked;
  let req := AuthRequest.mk 1 "alice" "wrong" in
  '(_, mgr) ← attempt_unlock AlwaysFail req auth_policy now mgr;
  '(outcome, mgr) ← attempt_unlock AlwaysFail req auth_policy now mgr;
  _ ← assert (is_locked_out outcome);
  '(outcome, mgr) ← attempt_unlock AlwaysFail req auth_policy now mgr;
  assert (is_locked_out outcome).

Definition inhibitor_blocks_locking : exec () :=
  let '(_, mgr) := add_inhibitor InhibitWhat.Lock "kiosk-app" "kiosk mode" InhibitMode.Block new in
  assert (is_err (lock 1 lock_policy mgr).1).
End LockTests.

Example lock_tests_pass :
  [LockTests.repeated_failures_lock_out_further_attempts t0; LockTests.inhibitor_blocks_locking] =
  replicate 2 (Done ()).
Proof. vm_compute. reflexivity. Qed.

(** ** lock/timeout.rs *)

Module LockTimeoutTests.
Import LockTimeouts.

Definition grace_period_expires_once (t0 : Instant) : exec () :=
  timeouts ← start_grace 1 t0 (from_secs 5) new;
  at3 ← instant_add t0 (from_secs 3);
  let '(ids, timeouts) := expired_grace at3 timeouts in
  _ ← assert (is_empty ids);
  at6 ← instant_add t0 (from_secs 6);
  let '(ids, timeouts) := expired_grace at6 timeouts in
  _ ← assert_eq ids [1%N];
  at10 ← instant_add t0 (from_secs 10);
  let '(ids, timeouts) := expired_grace at10 timeouts in
  assert (is_empty ids).
End LockTimeoutTests.

Example lock_timeout_tests_pass : LockTimeoutTests.grace_period_expires_once t0 = Done ().
Proof. vm_compute. reflexivity. Qed.

(** ** policy/session_policy.rs *)

Module SessionPolicyTests.
Definition unknown_type_falls_back_to_wayland : exec () :=
  _ ← assert_eq (SessionPolicy.parse_session_type "carrier-pigeon") SessionType.Wayland;
  _ ← assert_eq (SessionPolicy.parse_session_type "x11") SessionType.X11;
  assert_eq (SessionPolicy.parse_session_type "tty") SessionType.Tty.
End SessionPolicyTests.

Example session_policy_tests_pass : SessionPolicyTests.unknown_type_falls_back_to_wayland = Done ().
Proof. vm_compute. reflexivity. Qed.

(** ** seat/manager.rs *)

Module SeatManagerTests.
Import SeatManager.

Definition first_session_becomes_active : exec () :=
  let mgr := attach_session "seat0" 1 new in
  active ← unwrap (active_session "seat0" mgr);
  assert_eq active (Some 1%N).

Definition second_session_is_queued_then_promoted_on_logout : exec () :=
  let mgr := attach_session "seat0" 1 new in
  let mgr := attach_session "seat0" 2 mgr in
  active ← unwrap (active_session "seat0" mgr);
  _ ← assert_eq active (Some 1%N);
  let mgr := detach_session 1 mgr in
  active ← unwrap (active_session "seat0" mgr);
  assert_eq active (Some 2%N).

Definition switch_active_round_trips : exec () :=
  let mgr := attach_session "seat0" 1 new in
  let mgr := attach_session "seat0" 2 mgr in
  let '(switched, mgr) := switch_active "seat0" 2 mgr in
  previous ← unwrap switched;
  _ ← assert_eq previous (Some 1%N);
  active ← unwrap (active_session "seat0" mgr);
  assert_eq active (Some 2%N).

#[local] Instance device_eq_dec : EqDecision Device.t.
Proof. solve_decision. Defined.
Definition set_devices_creates_the_seat_if_needed : exec () :=
  let devices := [Device.mk "/sys/class/input/event3" DeviceKind.Keyboard] in
  let mgr := set_devices "seat0" devices new in
  s ← unwrap (seat "seat0" mgr);
  assert_eq (Seat.devices s) devices.
End SeatManagerTests.

Example seat_manager_tests_pass :
  [SeatManagerTests.first_session_becomes_active;
   SeatManagerTests.second_session_is_queued_then_promoted_on_logout;
   SeatManagerTests.switch_active_round_trips; SeatManagerTests.set_devices_creates_the_seat_if_needed] =
  replicate 4 (Done ()).
Proof. vm_compute. reflexivity. Qed.

(** ** session/manager.rs *)

Module SessionManagerTests.
Definition fake_user (name : string) (uid : Uid) : User.t :=
  User.mk uid uid name ("/home/" +:+ name) "/bin/sh".

Definition enforces_max_sessions_per_user : exec () :=
  let mgr := SessionManager.new in
  let settings := SessionSettings.mk (SessionSettings.runtime_dir SessionSettings.default) 0
    (SessionSettings.default_session_type SessionSettings.default)
    (SessionSettings.compositor_binary SessionSettings.default)
    (SessionSettings.max_compositor_restarts SessionSettings.default) in
  let user := fake_user "alice" 1000 in
  let existing := N.of_nat (count_values (λ c, User.uid (SessionContext.user c) = User.uid user)
                              (SessionManager.sessions mgr)) in
  assert (SessionSettings.max_sessions_per_user settings <=? existing)%N.
End SessionManagerTests.

Example session_manager_tests_pass : SessionManagerTests.enforces_max_sessions_per_user = Done ().
Proof. vm_compute. reflexivity. Qed.

(** ** session/state.rs *)

Module StateTests.
Import SessionState.

Definition valid_transitions_succeed : exec () :=
  _ ← assert (is_ok (transition Starting Active));
  _ ← assert (is_ok (transition Active Locked));
  _ ← assert (is_ok (transition Locked Active));
  assert (is_ok (transition Closing Closed)).

Definition skipping_closing_is_rejected : exec () := assert (is_err (transition Active Closed)).

Definition closed_is_terminal : exec () := assert (is_err (transition Closed Active)).

Definition a_live_session_can_fall_back_to_starting_when_its_compositor_dies : exec () :=
  _ ← assert (is_ok (transition Active Starting));
  _ ← assert (is_ok (transition Idle Starting));
  _ ← assert (is_ok (transition Locked Starting));
  assert (is_err (transition Starting Idle)).

Definition a_relaunched_compositor_can_come_back_straight_into_locked : exec () :=
  assert (is_ok (transition Starting Locked)).
End StateTests.

Example state_tests_pass :
  [StateTests.valid_transitions_succeed; StateTests.skipping_closing_is_rejected; StateTests.closed_is_terminal;
   StateTests.a_live_session_can_fall_back_to_starting_when_its_compositor_dies;
   StateTests.a_relaunched_compositor_can_come_back_straight_into_locked] = replicate 5 (Done ()).
Proof. vm_compute. reflexivity. Qed.

(** ** user/groups.rs *)

Module GroupsTests.
(** The machine, with one more file. *)
Definition with_file (path : Path) (content : string) (w : World) : World :=
  {| w_now := w_now w; w_system_time := w_system_time w; w_env_var := w_env_var w;
     w_from_name := w_from_name w; w_from_uid := w_from_uid w; w_exists := w_exists w;
     w_read_to_string p := if String.eqb p path then Ok content else w_read_to_string w p;
     w_metadata := w_metadata w; w_syscall := w_syscall w; w_spawn := w_spawn w; w_pam := w_pam w;
     w_power_socket := w_power_socket w |}.

(** [w] is the machine without the file of the test in [dir]. *)
Definition finds_membership_by_name (dir : Path) (w : World) : exec () :=
  let path := dir +:+ "/group" in
  let w := with_file path
    ("wheel:x:10:root,alice" +:+ nl +:+ "video:x:44:alice,bob" +:+ nl +:+ "empty:x:99:" +:+ nl) w in
  gids ← unwrap (Groups.gids_from_group_file path "alice" w);
  _ ← assert_eq gids [10; 44]%N;
  gids ← unwrap (Groups.gids_from_group_file path "carol" w);
  assert (is_empty gids).

Definition missing_file_is_not_an_error (w : World) : exec () :=
  gids ← unwrap (Groups.gids_from_group_file "/nonexistent/group" "alice" w);
  assert (is_empty gids).
End GroupsTests.

Example groups_tests_pass :
  [GroupsTests.finds_membership_by_name "/tmp/x" world; GroupsTests.missing_file_is_not_an_error world] =
  replicate 2 (Done ()).
Proof. vm_compute. reflexivity. Qed.

(** ** power/mitos_power.rs *)

Module MitosPowerTests.
Section stand_in.
Context `{SerdeJson}.

Definition reply (ok : bool) (message : string) (request : Value.t) : Value.t :=
  let id := default Value.Null (Value.get "id" request) in
  if ok then
    Value.Object [("kind", Value.Str "response"); ("id", id); ("ok", Value.Bool true); ("result", Value.Object [])]
  else
    Value.Object [("kind", Value.Str "response"); ("id", id); ("ok", Value.Bool false);
      ("error", Value.Object [("code", Value.Str "HARDWARE_ERROR"); ("message", Value.Str message)])].

(** The thread that answers the line [sent] to it; if it panics the connection is
    closed. *)
Definition fake_mitos_power (ok : bool) (message : string) (sent : string) : PowerSocket :=
  let answer := request ← from_str (trim sent); to_string (reply ok message request) in
  {| ps_connect := Ok (); ps_set_read_timeout := Ok (); ps_try_clone := Ok ();
     ps_set_write_timeout := Ok (); ps_write := Ok ();
     ps_lines := match answer with Ok out => [Ok (out +:+ nl)] | Err _ => [] end |}.

(** The machine on which the stand-in listens on every path, and one on which
    nobody does; [w] is the rest of it. *)
Definition with_power (s : PowerSocket) (w : World) : World :=
  {| w_now := w_now w; w_system_time := w_system_time w; w_env_var := w_env_var w;
     w_from_name := w_from_name w; w_from_uid := w_from_uid w; w_exists := w_exists w;
     w_read_to_string := w_read_to_string w; w_metadata := w_metadata w;
     w_syscall := w_syscall w; w_spawn := w_spawn w; w_pam := w_pam w; w_power_socket _ := s |}.
Definition absent : PowerSocket :=
  {| ps_connect := Err not_found; ps_set_read_timeout := Ok (); ps_try_clone := Ok ();
     ps_set_write_timeout := Ok (); ps_write := Ok (); ps_lines := [] |}.
(** What a client that calls [method] sends. *)
Definition sent (method : string) : string :=
  match to_string (MitosPowerBackend.request method) with Ok line => line +:+ nl | Err _ => nl end.

Definition successful_reply_is_ok (socket : Path) (w : World) : exec () :=
  let w := with_power (fake_mitos_power true "" (sent "Reboot")) w in
  assert (is_ok (backend_reboot (MitosPowerBackend.backend (MitosPowerBackend.mk socket)) w).2).

Definition error_reply_surfaces_the_message (socket : Path) (w : World) : exec () :=
  let w := with_power (fake_mitos_power false "no 'disk' support reported by the kernel" (sent "Suspend")) w in
  err ← unwrap_err (backend_suspend (MitosPowerBackend.backend (MitosPowerBackend.mk socket)) w).2;
  assert (contains "no 'disk' support" (SessionError.to_string err)).

Definition unreachable_socket_is_an_error_not_a_panic (missing : Path) (w : World) : exec () :=
  let w := with_power absent w in
  assert (is_err (backend_poweroff (MitosPowerBackend.backend (MitosPowerBackend.mk missing)) w).2).
End stand_in.

(** As much of JSON as one exchange needs: a line for the request, another for its
    reply. *)
Definition json (method : string) (ok : bool) (message : string) : SerdeJson :=
  {| to_string v := Ok (if is_some (Value.get "method" v) then "request" else "reply");
     from_str s := Ok (if String.eqb s "request" then MitosPowerBackend.request method
                       else reply ok message (MitosPowerBackend.request method)) |}.
End MitosPowerTests.

Example mitos_power_tests_pass :
  let disk := "no 'disk' support reported by the kernel" in
  [MitosPowerTests.successful_reply_is_ok (H := MitosPowerTests.json "Reboot" true "") "/tmp/power.sock" world;
   MitosPowerTests.error_reply_surfaces_the_message (H := MitosPowerTests.json "Suspend" false disk) "/tmp/power.sock" world;
   MitosPowerTests.unreachable_socket_is_an_error_not_a_panic (H := MitosPowerTests.json "Poweroff" true "")
     "/tmp/absent.sock" world] = replicate 3 (Done ()).
Proof. vm_compute. reflexivity. Qed.
