(* ===== verification/Conformance.v ===== *)
(** * Conformance: the crate's integration tests, evaluated on the definitions

    The tests under src/tests/ call the operations of several modules on concrete
    inputs and assert what they return.  Here each is run on the definitions that
    model those operations, as in [UnitTests]: [= Done true] also says that no step
    panics, and several assertions are a conjunction.

    Left out are the tests that only exercise what the model takes as given (the
    kernel's peer credentials, the bincode encoding, threads) and those of
    src/tests/root.rs that need root (a real runtime directory, a real PAM
    stack). *)

From Stdlib Require Import Ascii Strings.Byte.
From stdpp Require Import base gmap strings pretty numbers list.
From S2P Require Import Prelude Errors System Config Text User Session Seat Auth Lock Idle Elevation.
From S2P Require Import Ipc Protocol Policy Launcher Power Examples UnitTests.

Module Conformance.
Import Ex Testing.

(** ** What the tests share *)

Definition AlwaysFail : Authenticator := {| authenticate _ := Err (SessionError.AuthFailed "nope") |}.
Definition AlwaysSucceed : Authenticator := {| authenticate _ := Ok () |}.
Definition after_secs (s : N) : Instant := (t0 + from_secs s)%N.
Definition auth_policy (max_attempts lockout : N) : AuthPolicy.t :=
  AuthPolicy.mk "test" false max_attempts (from_secs lockout).
Definition req (session : SessionId) : AuthRequest.t := AuthRequest.mk session "alice" "hunter2".

(** ** tests/authentication.rs *)

Example policy_pulls_attempt_limits_from_lock_settings :
  AuthPolicy.new (AuthSettings.mk "svc" false) (LockSettings.mk true true true 5 5 60) =
  AuthPolicy.mk "svc" false 5 (from_secs 60).
Proof. vm_compute. reflexivity. Qed.

Example check_counts_failures_and_resets_on_success :
  let check a := Auth.check a (AuthRequest.mk 1 "bob" "x") (auth_policy 3 10) in
  let one := (check AlwaysFail 0%N).2 in
  let two := (check AlwaysFail one).2 in
  (one, two, (check AlwaysSucceed two).2) = (1, 2, 0)%N.
Proof. vm_compute. reflexivity. Qed.

(** ** tests/lock.rs *)

Section locks.
Import LockManager.

Definition lock_policy : LockPolicy.t := LockPolicy.mk true true true (from_secs 0).
Definition kiosk (m : t) : N * t := add_inhibitor InhibitWhat.Lock "kiosk" "kiosk mode" InhibitMode.Block m.
Definition lock_unwrap (session : SessionId) (m : t) : exec t :=
  let '(r, m) := lock session lock_policy m in _ ← unwrap r; Done m.

Example lockout_after_max_failed_attempts_blocks_further_tries :
  let wrong := AuthRequest.mk 1 "alice" "wrong" in
  (m ← lock_unwrap 1 new;
   '(_, m) ← attempt_unlock AlwaysFail wrong (auth_policy 2 5) t0 m;
   '(second, m) ← attempt_unlock AlwaysFail wrong (auth_policy 2 5) t0 m;
   '(third, m) ← attempt_unlock AlwaysFail wrong (auth_policy 2 5) t0 m;
   Done (is_locked_out second && is_locked_out third)) = Done true.
Proof. vm_compute. reflexivity. Qed.

Example full_lock_unlock_cycle :
  (m ← lock_unwrap 1 new;
   '(outcome, m') ← attempt_unlock AlwaysSucceed (req 1) (auth_policy 2 5) t0 m;
   Done (is_locked 1 m, outcome, is_locked 1 m')) = Done (true, AuthOutcome.Success, false).
Proof. vm_compute. reflexivity. Qed.

Example inhibitor_blocks_lock_and_release_restores_it :
  let '(id, m) := kiosk new in
  let '(r, m') := release_inhibitor id m in
  (is_err (lock 1 lock_policy m).1, r, is_ok (lock 1 lock_policy m').1) = (true, Ok (), true).
Proof. vm_compute. reflexivity. Qed.
End locks.

(** ** tests/idle.rs *)

Section idle.
Import IdleDetector.

Definition thresholds (dim lock suspend : N) : IdlePolicy.t :=
  IdlePolicy.mk (from_secs dim) (from_secs lock) (from_secs suspend).

Example policy_converts_seconds_to_durations :
  let p := IdlePolicy.from (IdleSettings.mk 30 90 0) in
  (p, IdlePolicy.stage_for p (from_secs 10000)) = (thresholds 30 90 0, IdleStage.LockRequested).
Proof. vm_compute. reflexivity. Qed.

Example independent_seats_track_independently :
  let d := record_activity "seat1" (after_secs 4)
             (record_activity "seat1" t0 (record_activity "seat0" t0 new)) in
  let '(changes, d) := tick (after_secs 6) (thresholds 5 10 0) d in
  (changes, stage "seat1" d) = ([("seat0", IdleStage.Dimmed)], IdleStage.Active).
Proof. vm_compute. reflexivity. Qed.
End idle.

(** ** tests/seat.rs *)

Section seats.
Import SeatManager.

Example first_session_on_a_seat_becomes_active :
  active_session "seat0" (attach_session "seat0" 10 new) = Ok (Some 10%N).
Proof. vm_compute. reflexivity. Qed.

Example queued_session_is_promoted_after_active_one_logs_out :
  let m := attach_session "seat0" 20 (attach_session "seat0" 10 new) in
  (active_session "seat0" m, active_session "seat0" (detach_session 10 m)) = (Ok (Some 10%N), Ok (Some 20%N)).
Proof. vm_compute. reflexivity. Qed.

Definition one : t := attach_session "seat0" 1 new.

Example switch_active_promotes_the_requested_session :
  let '(previous, m) := switch_active "seat0" 2 (attach_session "seat0" 2 one) in
  (previous, active_session "seat0" m) = (Ok (Some 1%N), Ok (Some 2%N)).
Proof. vm_compute. reflexivity. Qed.

Example switching_to_a_session_not_on_that_seat_is_an_error :
  is_err (switch_active "seat0" 999 one).1 = true.
Proof. vm_compute. reflexivity. Qed.

Example unknown_seat_is_reported_rather_than_silently_created : is_err (seat "seat9" new) = true.
Proof. vm_compute. reflexivity. Qed.
End seats.

(** ** tests/session.rs, tests/lifecycle.rs *)

Example state_machine_enforces_the_documented_transitions :
  let ok a b := is_ok (SessionState.transition a b) in
  ok SessionState.Starting SessionState.Active && ok SessionState.Active SessionState.Locked
  && ok SessionState.Locked SessionState.Active && ok SessionState.Active SessionState.Closing
  && ok SessionState.Closing SessionState.Closed && negb (ok SessionState.Active SessionState.Closed)
  && negb (ok SessionState.Closed SessionState.Active) = true.
Proof. vm_compute. reflexivity. Qed.

Section sessions.
Import SessionManager.

(** The tests run as the owner of a fresh home directory. *)
Definition fake_user : User.t := User.mk 1000 1000 "testuser" "/tmp/home" "/bin/sh".
Definition settings (max : N) : SessionSettings.t :=
  SessionSettings.mk "/tmp/run" max "wayland" "/usr/bin/mitos-gui" 3.
Definition create (max : N) (m : t) :=
  create_session fake_user "seat0" SessionType.Wayland (settings max) world m.

Example create_and_terminate_session :
  let '(calls, r, m) := create 4 new in
  (id ← unwrap r;
   c ← unwrap (get id m);
   let '(_, ended, m) := terminate_session id m in
   Done (bool_decide (Session.seat_id (SessionContext.session c) = "seat0")
         && bool_decide (Session.session_type (SessionContext.session c) = SessionType.Wayland)
         && bool_decide (SessionContext.state c = SessionState.Starting)
         && match Environment.get "XDG_RUNTIME_DIR" (SessionContext.environment c) with
            | Some dir => existsb (λ call, match call with
                                           | SysCall.CreateDirAll p => String.eqb p dir
                                           | _ => false end) calls
            | None => false
            end
         && is_ok ended && is_err (get id m)
         && is_err (terminate_session id m).1.2)) = Done true.
Proof. vm_compute. reflexivity. Qed.

Example respects_max_sessions_per_user :
  let '(_, first, m) := create 1 new in
  let '(_, second, m) := create 1 m in
  (is_ok first, is_err second, is_err (create 0 new).1.2) = (true, true, true).
Proof. vm_compute. reflexivity. Qed.

Example unknown_session_id_is_reported_distinctly :
  get 999 new = Err (SessionError.UnknownSession 999).
Proof. vm_compute. reflexivity. Qed.
End sessions.

(** ** tests/security.rs *)

Section security.
Definition peer (uid : Uid) : PeerCred.t := PeerCred.mk uid uid 1.
Definition allowed (uid : Uid) (conn : ConnId) (r : Request.t) (m : SessionManager.t)
    (e : ElevationManager.t) : bool := is_ok (Policy.authorize (peer uid) conn r m e world).
Definition no_elevation : ElevationManager.t := ElevationManager.new.
Definition requester : ElevationManager.t := ElevationManager.set_requester_uid (Some 9000%N) no_elevation.

Example a_session_owner_may_act_on_it_but_a_stranger_may_not :
  let '(_, r, m) := create 4 SessionManager.new in
  (id ← unwrap r;
   Done (allowed 1000 1 (Request.LockSession id) m no_elevation,
         allowed (1000 + 12345) 1 (Request.LockSession id) m no_elevation)) = Done (true, false).
Proof. vm_compute. reflexivity. Qed.

Example root_bypasses_ownership_checks_entirely :
  allowed 0 1 (Request.LockSession 42) SessionManager.new no_elevation = true.
Proof. vm_compute. reflexivity. Qed.

Example system_wide_requests_need_no_session_ownership :
  forallb (λ r, allowed 1000 1 r SessionManager.new no_elevation)
    [Request.ListSessions; Request.ListInhibitors; Request.Suspend] = true.
Proof. vm_compute. reflexivity. Qed.

Example only_root_or_the_account_itself_may_start_its_session :
  let may uid := allowed uid 1 (Request.CreateSession "alice" None None) SessionManager.new no_elevation in
  (may 0%N, may 1000%N, may 65534%N) = (true, true, false).
Proof. vm_compute. reflexivity. Qed.

Example only_the_configured_elevation_service_or_root_may_request_elevation :
  let may uid := allowed uid 1 (Request.RequestElevation 1 action) SessionManager.new in
  (may 9000%N requester, may 0%N requester, may 1234%N requester,
   may 9000%N no_elevation, may 0%N no_elevation) = (true, true, false, false, true).
Proof. vm_compute. reflexivity. Qed.

Example only_the_expected_compositor_connection_or_root_may_answer_a_prompt :
  ('(r, e) ← ElevationManager.begin 1 42 100 (ElevationPolicy.mk true (from_secs 120) 3)
               (auth_policy 3 30) t0 requester;
   id ← unwrap r;
   let may uid conn := allowed uid conn (Request.RespondElevation id ElevationResponse.Cancelled)
                         SessionManager.new e in
   Done (may 1234%N 42%N, may 1234%N 99%N, may 0%N 99%N)) = Done (true, false, true).
Proof. vm_compute. reflexivity. Qed.

Example responding_to_an_unknown_request_id_is_denied_like_a_wrong_connection :
  allowed 1234 42 (Request.RespondElevation 999 ElevationResponse.Cancelled) SessionManager.new
    no_elevation = false.
Proof. vm_compute. reflexivity. Qed.
End security.

(** ** tests/root.rs and tests/ipc.rs: framing *)

(** [(0..len).map(|i| (i % 251) as u8)]. *)
Definition payload (len : nat) : list byte := (λ i, Protocol.byte_of (N.of_nat i mod 251)) <$> seq 0 len.
Definition socket_pair : Writer.t := Writer.mk [] None.

Example ipc_framing_roundtrip_small_messages :
  let lens := [0; 1; 2; 3; 4; 5; 16; 64; 255; 256; 1024]%nat in
  (λ len, let '(r, w) := Protocol.write_message (payload len) socket_pair in
          (r, (Protocol.read_message (T:=list byte) (Reader.mk (Writer.out w) None)).1)) <$> lens =
  (λ len, (Ok (), Ok (payload len))) <$> lens.
Proof. vm_compute. reflexivity. Qed.

Example ipc_framing_rejects_oversized_length_before_payload_allocation :
  is_err (Protocol.read_message (T:=list byte)
    (Reader.mk (Protocol.to_le_bytes (16 * 1024 * 1024 + 1)) None)).1 = true.
Proof. vm_compute. reflexivity. Qed.

Example a_closed_connection_is_reported_as_disconnected_not_a_generic_error :
  (Protocol.read_message (T:=Request.t) (Reader.mk [] None)).1 = Err SessionError.Disconnected.
Proof. vm_compute. reflexivity. Qed.

End Conformance.
