(* ===== verification/DaemonProps.v ===== *)
(** * DaemonProps: what the daemon as a whole guarantees

    The theorems about [Daemon.handle] and [Daemon.run], each with a concrete
    instance on the machine of [Examples]. *)

From stdpp Require Import base gmap strings pretty numbers list.
From S2P Require Import Prelude Errors System Config Text User Session Seat Auth Lock Idle Elevation.
From S2P Require Import Ipc Policy Launcher Power Daemon DaemonInv DaemonSafety DaemonPrompts DaemonProcess Examples.

Section daemon_properties.
Context `{HashOrder} `{SerdeJson} `{TomlSettings}.
Implicit Types (d : Daemon.t) (w : World) (es : list Effect.t).

(** C2. Nobody is told of a success that did not happen.  If handling an event
    puts [AuthResult Success] into the outbox of a connection, the event was
    either an authorized [Unlock] from that very connection, for which PAM accepted
    the password with the user name the request itself names, whatever account that
    is; or an authorized [RespondElevation] to an open prompt, for which PAM
    accepted the password with the user of the session the prompt is about, and the
    receiver is then the connection that answered or the one that asked for the
    prompt. *)
Theorem success_needs_password i w d es d' c :
  Daemon.handle i w d = Done (es, d') →
  Effect.Sent c (Message.Response (Response.AuthResult AuthOutcome.Success)) ∈ es →
  ∃ conn peer req,
    i = Daemon.Ipc (ManagerMessage.Command (ManagerCommand.mk conn peer req)) ∧
    permitted peer conn req (Daemon.sessions d) (Daemon.elevation d) w ∧
    ((∃ s u p, req = Request.Unlock s u p ∧ c = conn ∧
        accepts (Daemon.auth d w) (AuthRequest.mk s u p) = true) ∨
     (∃ id pw p ctx, req = Request.RespondElevation id (ElevationResponse.Password pw) ∧
        ElevationManager.pending (Daemon.elevation d) !! id = Some p ∧
        SessionManager.sessions (Daemon.sessions d) !! PendingElevation.session_id p = Some ctx ∧
        accepts (Daemon.auth d w) (AuthRequest.mk (PendingElevation.session_id p)
          (Session.user_name (SessionContext.session ctx)) pw) = true ∧
        (c = conn ∨ c = PendingElevation.requester_conn p))).
Proof. apply success_by_password. Qed.

(** C3. The invariant of the whole state holds in every state the daemon can
    reach.  Starting from any configuration, after any sequence of fewer than
    [2^32 - 1] events in which it does not panic: every registered session is
    filed under its own id with its user's identity, ids in use are below the
    next one, no session is on two seats or twice on one, a seat only holds
    sessions that were created, every locked out session has a countdown, every
    open prompt has exactly one deadline and an id already handed out, and every
    session reported as locked is locked. *)
Theorem reachable_invariant path udev w0 batches d0 es d :
  Daemon.start path udev w0 = Ok d0 →
  (N.of_nat (length (concat batches)) < 2 ^ 32 - 1)%N →
  Daemon.run batches d0 = Done (es, d) →
  DaemonInv.wf d.
Proof.
  intros [Hwf Hroom]%start_wf Hlen Hrun. eapply (keeps_run _ _ _ _ Hrun 0%N); [done|].
  rewrite N.add_0_r. by apply Hroom.
Qed.

(** C4. The daemon does not panic on any event, from any state, as long as the
    monotonic clock and the three configured delays (screen lockout, elevation
    lockout, prompt timeout) are below [2^62] seconds. *)
Theorem handle_completes i w d :
  clock_sane (Daemon.settings d) w → ∃ es d', Daemon.handle i w d = Done (es, d').
Proof. apply handle_total. Qed.

(** C5. A prompt is answered exactly when it is closed.  Across any event, a
    prompt that was open either is still open with the same session, compositor
    and requester, or is closed, and then the requester has been sent an
    [AuthResult] and the compositor told to hide the prompt, if they are still
    connected. *)
Theorem prompt_closed_is_answered i w d es d' id p :
  Daemon.handle i w d = Done (es, d') → DaemonInv.wf d → DaemonInv.room 1 d →
  ElevationManager.pending (Daemon.elevation d) !! id = Some p →
  ElevationManager.pending (Daemon.elevation d') !! id = Some p ∨
  (ElevationManager.pending (Daemon.elevation d') !! id = None ∧
   (is_Some (ConnRegistry.outboxes (Daemon.registry d') !! PendingElevation.requester_conn p) →
    ∃ o, Effect.Sent (PendingElevation.requester_conn p)
           (Message.Response (Response.AuthResult o)) ∈ es) ∧
   (is_Some (ConnRegistry.outboxes (Daemon.registry d') !! PendingElevation.compositor_conn p) →
    Effect.Sent (PendingElevation.compositor_conn p)
      (Message.Event (Event.HideElevationPrompt id)) ∈ es)).
Proof. apply handle_prompt_step. Qed.

(** C6. A request that is not permitted changes nothing: the daemon after it is
    the daemon before it, and the only effect is one [Error] reply to the
    connection it came from, when that is registered. *)
Theorem refused_changes_nothing conn peer req w d :
  ¬ permitted peer conn req (Daemon.sessions d) (Daemon.elevation d) w →
  ∃ msg, Daemon.handle (Daemon.Ipc (ManagerMessage.Command (ManagerCommand.mk conn peer req))) w d =
    Done (ConnRegistry.send_response conn (Response.Error msg) (Daemon.registry d), d).
Proof.
  rewrite <- authorize_permitted. intros Hp. simpl. unfold Daemon.handle_command. simpl.
  destruct (Policy.authorize _ _ _ _ _ _) as [[]|e]; [done|]. by eexists.
Qed.


(** C8. The daemon never starts a process as anyone but the user of a session.
    Every command an event starts is run with the uid, the gid, the home and the
    environment of a session that is registered when the event is done. *)
Theorem processes_run_as_session_user i w d es d' cmd :
  Daemon.handle i w d = Done (es, d') → standard_backend d → Effect.Sys (SysCall.Spawn cmd) ∈ es →
  ∃ s c, SessionManager.sessions (Daemon.sessions d') !! s = Some c ∧
    cmd_setuid cmd = User.uid (SessionContext.user c) ∧
    cmd_setgid cmd = User.gid (SessionContext.user c) ∧
    cmd_current_dir cmd = User.home (SessionContext.user c) ∧
    cmd_env cmd = Environment.vars (SessionContext.environment c).
Proof.
  intros Hh Hb Hin. pose proof (handle_runs_for _ _ _ _ _ Hh Hb) as Hall.
  unfold all_run_for in Hall. rewrite Forall_forall in Hall. apply Hall. by apply elem_of_spawned.
Qed.

(** C9. A logout leaves nothing behind.  [TerminateSession] on a registered
    session unregisters it and nothing else, takes it off every seat, closes
    exactly the prompts open for it, and kills and reaps its compositor. *)
Theorem logout_is_complete peer s w d es r d' c :
  Daemon.terminate_session peer s w d = (es, r, d') → DaemonInv.wf d →
  SessionManager.sessions (Daemon.sessions d) !! s = Some c →
  r = Response.Ok ∧
  SessionManager.sessions (Daemon.sessions d') = delete s (SessionManager.sessions (Daemon.sessions d)) ∧
  ¬ seated s (Daemon.seats d') ∧
  (∀ id p, ElevationManager.pending (Daemon.elevation d') !! id = Some p ↔
     ElevationManager.pending (Daemon.elevation d) !! id = Some p ∧ PendingElevation.session_id p ≠ s) ∧
  (∀ pid, SessionContext.compositor_process c = Some pid →
     Effect.Sys (SysCall.KillChild pid) ∈ es ∧ Effect.Sys (SysCall.WaitChild pid) ∈ es).
Proof. apply terminate_complete. Qed.

(** C10. A dropped connection is forgotten.  After [Disconnected] the connection
    has no outbox, no session is shown on it, exactly the prompts it took part
    in are closed, and nothing was sent to it. *)
Theorem disconnect_is_complete conn w d es d' :
  Daemon.handle (Daemon.Ipc (ManagerMessage.Disconnected conn)) w d = Done (es, d') →
  ConnRegistry.outboxes (Daemon.registry d') !! conn = None ∧
  (∀ s c, SessionManager.sessions (Daemon.sessions d') !! s = Some c →
     SessionContext.compositor_conn c ≠ Some conn) ∧
  (∀ id p, ElevationManager.pending (Daemon.elevation d') !! id = Some p ↔
     ElevationManager.pending (Daemon.elevation d) !! id = Some p ∧
     PendingElevation.compositor_conn p ≠ conn ∧ PendingElevation.requester_conn p ≠ conn) ∧
  (∀ m, Effect.Sent conn m ∉ es).
Proof. intros [= Hd]. by eapply disconnected_complete. Qed.

End daemon_properties.

(** ** Instances *)

Import Ex.

(** The service on connection 3 learns that alice typed her password. *)
Lemma success_needs_password_witness :
  let i := from 2 user (Request.RespondElevation 1 (ElevationResponse.Password "secret")) in
  ∃ conn peer req,
    i = Daemon.Ipc (ManagerMessage.Command (ManagerCommand.mk conn peer req)) ∧
    permitted peer conn req (Daemon.sessions prompted) (Daemon.elevation prompted) world ∧
    ((∃ s u p, req = Request.Unlock s u p ∧ 3%N = conn ∧
        accepts (Daemon.auth prompted world) (AuthRequest.mk s u p) = true) ∨
     (∃ id pw p ctx, req = Request.RespondElevation id (ElevationResponse.Password pw) ∧
        ElevationManager.pending (Daemon.elevation prompted) !! id = Some p ∧
        SessionManager.sessions (Daemon.sessions prompted) !! PendingElevation.session_id p = Some ctx ∧
        accepts (Daemon.auth prompted world) (AuthRequest.mk (PendingElevation.session_id p)
          (Session.user_name (SessionContext.session ctx)) pw) = true ∧
        (3%N = conn ∨ 3%N = PendingElevation.requester_conn p))).
Proof.
  intros i. apply (success_needs_password i world prompted (after i world prompted).1 (after i world prompted).2).
  - apply after_step. vm_compute. reflexivity.
  - apply elem_of_responses. vm_compute. apply list_elem_of_here.
Defined.

(** Six events, in two rounds, from a fresh start. *)
Definition ex_events : list (list Daemon.input) :=
  [[connect 1 root; connect 2 user; connect 3 asker;
    from 1 root (Request.CreateSession "alice" None None)];
   [from 2 user (Request.RegisterCompositor 1); Daemon.IdleTick]].

Lemma reachable_invariant_witness : DaemonInv.wf (ran_to ex_events booted).2.
Proof.
  apply (reachable_invariant None udev world (map (map (λ i, (i, world))) ex_events) booted
    (ran_to ex_events booted).1 (ran_to ex_events booted).2).
  - apply start_ok.
  - vm_compute. reflexivity.
  - apply ran_step. vm_compute. reflexivity.
Defined.

Lemma handle_completes_witness :
  ∃ es d', Daemon.handle (from 2 user (Request.Unlock 1 "alice" "wrong")) world locked = Done (es, d').
Proof. apply (handle_completes (from 2 user (Request.Unlock 1 "alice" "wrong")) world locked). vm_compute. tauto. Defined.

(** Cancelling the prompt. *)
Lemma prompt_closed_is_answered_witness :
  let i := from 2 user (Request.RespondElevation 1 ElevationResponse.Cancelled) in
  let p := PendingElevation.mk 1 2 3 in
  let x := after i world prompted in
  ElevationManager.pending (Daemon.elevation x.2) !! 1%N = Some p ∨
  (ElevationManager.pending (Daemon.elevation x.2) !! 1%N = None ∧
   (is_Some (ConnRegistry.outboxes (Daemon.registry x.2) !! PendingElevation.requester_conn p) →
    ∃ o, Effect.Sent (PendingElevation.requester_conn p)
           (Message.Response (Response.AuthResult o)) ∈ x.1) ∧
   (is_Some (ConnRegistry.outboxes (Daemon.registry x.2) !! PendingElevation.compositor_conn p) →
    Effect.Sent (PendingElevation.compositor_conn p)
      (Message.Event (Event.HideElevationPrompt 1)) ∈ x.1)).
Proof.
  intros i p x. apply (prompt_closed_is_answered i world prompted x.1 x.2 1 p).
  - apply after_step. vm_compute. reflexivity.
  - apply prompted_wf.
  - apply prompted_wf.
  - vm_compute. reflexivity.
Defined.

(** A stranger tries to log alice out. *)
Lemma refused_changes_nothing_witness :
  ∃ msg, Daemon.handle (from 1 stranger (Request.TerminateSession 1)) world logged_in =
    Done (ConnRegistry.send_response 1 (Response.Error msg) (Daemon.registry logged_in), logged_in).
Proof.
  apply (refused_changes_nothing 1 stranger (Request.TerminateSession 1) world logged_in).
  intros [?|(c & Hc & Hu)]; [done|]. vm_compute in Hc. injection Hc as <-. done.
Defined.


(** Alice's compositor. *)
Lemma processes_run_as_session_user_witness :
  let i := from 1 root (Request.CreateSession "alice" None None) in
  let x := after i world booted in
  ∃ cmd, Effect.Sys (SysCall.Spawn cmd) ∈ x.1 ∧
  ∃ s c, SessionManager.sessions (Daemon.sessions x.2) !! s = Some c ∧
    cmd_setuid cmd = User.uid (SessionContext.user c) ∧
    cmd_setgid cmd = User.gid (SessionContext.user c) ∧
    cmd_current_dir cmd = User.home (SessionContext.user c) ∧
    cmd_env cmd = Environment.vars (SessionContext.environment c).
Proof.
  intros i x.
  assert (spawned x.1 ≠ []) as Hs by (vm_compute; discriminate).
  destruct (spawned x.1) as [|cmd l] eqn:Hx; [done|]. exists cmd.
  assert (Effect.Sys (SysCall.Spawn cmd) ∈ x.1) as Hin by (apply elem_of_spawned; rewrite Hx; left).
  split; [exact Hin|]. apply (processes_run_as_session_user i world booted x.1 x.2 cmd).
  - apply after_step. vm_compute. reflexivity.
  - by exists PowerBackendKind.MitosPower, "/run/mitos/power.sock".
  - exact Hin.
Defined.

Lemma logout_is_complete_witness :
  let x := Daemon.terminate_session user 1 world prompted in
  x.1.2 = Response.Ok ∧ ¬ seated 1 (Daemon.seats x.2) ∧
  ElevationManager.pending (Daemon.elevation x.2) !! 1%N = None.
Proof.
  intros x.
  destruct (logout_is_complete user 1 world prompted x.1.1 x.1.2 x.2
    (default (fresh_context 1 (User.from_nix alice) "" SessionType.Tty SessionSettings.default 0)
       (SessionManager.sessions (Daemon.sessions prompted) !! 1%N))) as (Hr & _ & Hs & Hp & _).
  - subst x. by destruct (Daemon.terminate_session user 1 world prompted) as [[? ?] ?].
  - apply prompted_wf.
  - vm_compute. reflexivity.
  - split; [done|]. split; [done|].
    destruct (ElevationManager.pending (Daemon.elevation x.2) !! 1%N) as [p|] eqn:He; [|done].
    apply Hp in He as [Hq Hne]. vm_compute in Hq. injection Hq as <-. done.
Defined.

Lemma disconnect_is_complete_witness :
  let i := Daemon.Ipc (ManagerMessage.Disconnected 2) in
  let x := after i world prompted in
  ConnRegistry.outboxes (Daemon.registry x.2) !! 2%N = None ∧ ∀ m, Effect.Sent 2 m ∉ x.1.
Proof.
  intros i x. destruct (disconnect_is_complete 2 world prompted x.1 x.2) as (Hr & _ & _ & Hm).
  - apply after_step. vm_compute. reflexivity.
  - done.
Defined.
