(* ===== verification/SecurityProps.v ===== *)
(** * SecurityProps: authorization, the shadow check and lockouts

    What each of these components promises, with concrete instances. *)

From Stdlib Require Import Ascii.
From stdpp Require Import base gmap strings pretty numbers list relations.
From S2P Require Import Prelude Errors System Config Text User Session Auth Timers Lock Elevation.
From S2P Require Import Ipc Policy Launcher Power Daemon DaemonInv Examples.

Section security_properties.
Context `{HashOrder}.

(** C11. The authorization table.  A request is authorized exactly when the peer
    is root, or: it creates a session for the account that has the peer's uid;
    it acts on a session the peer's uid owns (terminate, register, status, lock,
    switch, unlock); it asks for a prompt and the peer is the configured
    service; it answers a prompt and comes from the very connection the prompt
    was shown to; or it is one of the requests open to every local user. *)
Theorem authorize_iff_permitted peer conn req ss e w :
  Policy.authorize peer conn req ss e w = Ok () ↔ permitted peer conn req ss e w.
Proof. apply authorize_permitted. Qed.

(** C20. The shadow check fails secure: it reports "no password" only for a user
    whom a readable shadow file lists, on the first line for that user, with an
    empty, a [*] or a [!]-prefixed hash. *)
Theorem no_password_only_if_listed username w :
  Shadow.user_has_password username w = false ↔
  ∃ content hash, w_read_to_string w "/etc/shadow" = Ok content ∧
    shadow_entry username (lines content) = Some hash ∧
    (hash = "" ∨ hash = "*" ∨ starts_with "!" hash = true).
Proof. apply user_has_password_false. Qed.

(** C37. Locking a session again lifts its lockout.  While a session is locked
    out every unlock attempt is refused, the right password included; but a lock
    request in between, which the session's own user may make and which succeeds
    whenever locking is enabled and not inhibited, puts the session back to
    plain [Locked] with the countdown still running, and the next right password
    is accepted. *)
Theorem relocking_lifts_lockout s p a r ap now m l :
  LockManager.locks m !! s = Some l → SessionLock.state l = LockState.LockedOut →
  LockPolicy.enabled p = true → InhibitorRegistry.blocks InhibitWhat.Lock (LockManager.inhibitors m) = false →
  AuthRequest.session_id r = s → accepts a r = true →
  LockManager.attempt_unlock a r ap now m =
    Done (AuthOutcome.LockedOut (as_secs (AuthPolicy.lockout ap)), m) ∧
  ∃ m1 m2, LockManager.lock s p m = (Ok (), m1) ∧ LockManager.timeouts m1 = LockManager.timeouts m ∧
    LockManager.attempt_unlock a r ap now m1 = Done (AuthOutcome.Success, m2) ∧
    LockManager.is_locked s m2 = false.
Proof.
  intros Hl Hs Hp Hb <- Ha. split; [by eapply attempt_locked_out|].
  set (s := AuthRequest.session_id r) in *.
  pose (m1 := LockManager.with_entry s (SessionLock.mk LockState.Locked (SessionLock.attempts l)) m).
  destruct (attempt_accepted a r ap now m1) as (m2 & Hm2 & Hlocks & _); [|done|].
  - rewrite (entry_state_eq _ _ (SessionLock.mk LockState.Locked (SessionLock.attempts l))); [done|].
    unfold m1. by rewrite lookup_with_entry, decide_True.
  - exists m1, m2. split_and!; [|done..|].
    + rewrite lock_Ok by done. by rewrite (entry_state_eq _ _ _ Hl).
    + unfold LockManager.is_locked. by rewrite Hlocks, lookup_insert_eq.
Qed.
End security_properties.

(** ** Instances *)

Import Ex.

Definition ex_auth : Authenticator := PamAuthenticator.authenticator (PamAuthenticator.mk "mitos-session") pam.
Definition ex_policy : AuthPolicy.t := AuthPolicy.mk "mitos-session" false 3 (from_secs 30).
Definition ex_right : AuthRequest.t := AuthRequest.mk 1 "alice" "secret".

(** A lock manager in which session 1 is locked out until second 1030. *)
Definition ex_locked_out : LockManager.t :=
  LockManager.mk {[ 1%N := SessionLock.mk LockState.LockedOut 3 ]} InhibitorRegistry.new
    (LockTimeouts.mk ∅ {[ 1%N := from_secs 1030 ]}).

Lemma relocking_lifts_lockout_witness :
  ∃ m1 m2, LockManager.lock 1 (LockPolicy.from (Settings.lock Settings.default)) ex_locked_out = (Ok (), m1) ∧
    LockManager.timeouts m1 = LockManager.timeouts ex_locked_out ∧
    LockManager.attempt_unlock ex_auth ex_right ex_policy (from_secs 1001) m1 = Done (AuthOutcome.Success, m2) ∧
    LockManager.is_locked 1 m2 = false.
Proof.
  destruct (relocking_lifts_lockout 1 (LockPolicy.from (Settings.lock Settings.default)) ex_auth ex_right
    ex_policy (from_secs 1001) ex_locked_out (SessionLock.mk LockState.LockedOut 3)) as [_ Hx].
  - reflexivity.
  - reflexivity.
  - reflexivity.
  - vm_compute. reflexivity.
  - reflexivity.
  - vm_compute. reflexivity.
  - exact Hx.
Defined.
