(* ===== verification/SystemProps.v ===== *)
(** * SystemProps: sessions, seats, idle detection, power, processes and the wire

    What each of these components promises, with concrete instances. *)

From Stdlib Require Import Ascii Strings.Byte.
From stdpp Require Import base gmap strings pretty numbers list relations.
From S2P Require Import Prelude Errors System Config Text User Session Seat Auth Lock Idle Elevation.
From S2P Require Import Ipc Protocol Policy Launcher Power Daemon DaemonInv DaemonSafety DaemonProcess DaemonStates Server Examples.

Section system_properties.
Context `{HashOrder}.

(** C16. What a reload does.  On SIGHUP the daemon reads the file named by
    [$MITOS_SESSION_CONFIG], or else the system file; the file given on the command
    line, if there was one, is not looked at.  If that file is missing the settings
    go back to their defaults; if it can be read and parsed its settings are taken;
    otherwise nothing changes at all.  Settings that are taken replace the PAM
    service, the account that may ask for prompts and the audit log along with the
    rest; the sessions, seats, locks, timers, connections and open prompts, and the
    power backend and socket made at the start, stay as they are, and nothing is
    sent or called. *)
Theorem reload_reads_the_default_file `{SerdeJson} `{TomlSettings} statuses w d es d' :
  Daemon.handle (Daemon.Signalled Signal.SIGHUP statuses) w d = Done (es, d') →
  let file := default "/etc/mitos/session.toml" (w_env_var w "MITOS_SESSION_CONFIG") in
  let takes (s : Settings.t) :=
    Daemon.settings d' = s ∧
    (∀ w', Daemon.auth d' w' =
       PamAuthenticator.authenticator (PamAuthenticator.mk (AuthSettings.pam_service (Settings.authentication s)))
         (w_pam w')) ∧
    ElevationManager.requester_uid (Daemon.elevation d') =
      match User.by_name (ElevationSettings.service_user (Settings.elevation s)) w with
      | Ok u => Some (User.uid u) | Err _ => None end ∧
    Daemon.audit_path d' = LoggingSettings.audit_log_path (Settings.logging s) in
  es = [] ∧
  ((w_exists w file = false ∧ takes Settings.default) ∨
   (w_exists w file = true ∧ ∃ raw s, w_read_to_string w file = Ok raw ∧ toml_from_str raw = Ok s ∧ takes s) ∨
   (w_exists w file = true ∧ d' = d ∧ ∀ raw s, w_read_to_string w file = Ok raw → toml_from_str raw ≠ Ok s)) ∧
  Daemon.sessions d' = Daemon.sessions d ∧ Daemon.seats d' = Daemon.seats d ∧ Daemon.locks d' = Daemon.locks d ∧
  Daemon.idle d' = Daemon.idle d ∧ Daemon.registry d' = Daemon.registry d ∧
  Daemon.power_backend d' = Daemon.power_backend d ∧ Daemon.socket_path d' = Daemon.socket_path d ∧
  Daemon.should_exit d' = Daemon.should_exit d ∧
  ElevationManager.set_requester_uid None (Daemon.elevation d') =
    ElevationManager.set_requester_uid None (Daemon.elevation d).
Proof.
  intros [= <- <-] file takes. split; [done|]. unfold takes, Daemon.reload_config, Config.load. simpl.
  change (default Config.SYSTEM_CONFIG_PATH _) with file. destruct (w_exists w file); simpl.
  2: { split; [left; by split_and!|]. by split_and!. }
  destruct (w_read_to_string w file) as [raw|e] eqn:Hr; simpl.
  2: { split; [do 2 right; by split_and!|]. by split_and!. }
  destruct (toml_from_str raw) as [s|e] eqn:Hs; simpl.
  - split; [right; left; split; [done|]; exists raw, s; by split_and!|]. by split_and!.
  - split; [do 2 right; split_and!; [done..|]; intros raw' s [= <-]; congruence|]. by split_and!.
Qed.

(** C21. The lifecycle of a session.  Of the transitions the table allows,
    [Closing] has the one to [Closed], [Closed] has none, and every other state has
    those to every other state but [Closed], except that only [Active] leads to
    [Idle].  So in every sequence of valid transitions a [Closed] comes directly
    after a [Closing], and ends the sequence; and every state can be brought to
    [Closed].  The daemon uses half of this: whatever happens from its start, a
    session in its table is [Starting], [Active] or [Locked]; and ending one makes
    it [Closed] at once, which is not a transition of the table. *)
Theorem session_lifecycle `{SerdeJson} `{TomlSettings} path udev w0 batches d0 es d :
  Daemon.start path udev w0 = Ok d0 → Daemon.run batches d0 = Done (es, d) →
  (∀ s s', lifecycle_step s s' ↔
     (s = SessionState.Closing ∧ s' = SessionState.Closed) ∨
     (s ≠ SessionState.Closing ∧ s ≠ SessionState.Closed ∧ s' ≠ SessionState.Closed ∧ s ≠ s' ∧
      (s' = SessionState.Idle → s = SessionState.Active))) ∧
  (∀ l i, lifecycle_history l → l !! S i = Some SessionState.Closed →
     l !! i = Some SessionState.Closing ∧ l !! S (S i) = None) ∧
  (∀ s, rtc lifecycle_step s SessionState.Closed) ∧
  (∀ s c, SessionManager.sessions (Daemon.sessions d) !! s = Some c →
     SessionContext.state c ∈ [SessionState.Starting; SessionState.Active; SessionState.Locked] ∧
     SessionContext.state (Lifecycle.end_ c).2 = SessionState.Closed ∧
     ¬ lifecycle_step (SessionContext.state c) SessionState.Closed).
Proof.
  intros Hu%start_in_use Hrun. split_and!.
  - apply lifecycle_step_iff.
  - apply history_closed.
  - apply closed_reachable.
  - intros s c Hc. specialize (run_in_use _ _ _ _ Hrun Hu s c Hc) as Hin. simpl in Hin. rewrite end_closed.
    assert (¬ lifecycle_step (SessionContext.state c) SessionState.Closed) as Hn.
    { intros Hx%lifecycle_step_to_closed. by rewrite Hx in Hin. }
    split_and!; [|done|done]. destruct (SessionContext.state c); try done; rewrite !elem_of_cons; auto.
Qed.


(** C23. The directories of a session.  A session that was started has
    [XDG_RUNTIME_DIR] set to the directory of its user, and the last thing done
    for it was to create that directory, restrict it to its owner and hand it to
    the user, in this order.  If the user's home was there already, that is all
    that was done: the home is the user's own directory, and nothing touched it. *)
Theorem session_runtime_dir id user seat ty settings w calls ctx :
  Lifecycle.begin id user seat ty settings w = (calls, Ok ctx) →
  let dir := path_join (SessionSettings.runtime_dir settings) (pretty (User.uid user)) in
  Environment.get "XDG_RUNTIME_DIR" (SessionContext.environment ctx) = Some dir ∧
  ∃ before, calls = before ++
    [SysCall.CreateDirAll dir; SysCall.SetPermissions dir 448;
     SysCall.Chown dir (User.uid user) (User.gid user)] ∧
    ∀ meta, w_metadata w (User.home user) = Ok meta →
      before = [] ∧ meta_uid meta = User.uid user ∧ meta_is_dir meta = true.
Proof.
  intros Hb dir. destruct (begin_runtime_dir _ _ _ _ _ _ _ _ Hb) as (Henv & before & Hhome & Hcalls).
  split; [done|]. exists before. split; [done|]. intros meta Hmeta.
  destruct (home_exists_untouched user w meta Hmeta) as (r & Hr & Hok).
  rewrite Hhome in Hr. injection Hr as -> <-. split; [done|]. by apply Hok.
Qed.

(** C24. The seats implement queues, over the daemon's whole life.  In every state
    reachable by creating seats, setting devices, logging sessions in and out and
    switching, each seat is filed under its id, holds no session twice, has an
    active session whenever it holds one, and no session is on two seats.  There,
    reading each seat as the list of its sessions, the active one first: logging
    in appends to the seat named and leaves the others alone; logging out removes
    the session wherever it is; switching to a session the seat has brings it to
    the front and the one it displaces to the back, losing nobody, and reports
    whom it displaced; switching to one the seat has not is an error that changes
    nothing. *)
Theorem seats_refine_queues m seat x :
  rtc seat_step SeatManager.new m →
  let '(r, m') := SeatManager.switch_active seat x m in
  SeatInv.mgr_wf m ∧
  (∀ i, SeatSpec.queue (SeatManager.attach_session seat x m) i =
     if decide (i = seat) then SeatSpec.attach x (SeatSpec.queue m i) else SeatSpec.queue m i) ∧
  (∀ i, SeatSpec.queue (SeatManager.detach_session x m) i = SeatSpec.detach x (SeatSpec.queue m i)) ∧
  (x ∈ SeatSpec.queue m seat →
   r = Ok (SeatSpec.displaced x (SeatSpec.queue m seat)) ∧
   (∀ i, SeatSpec.queue m' i =
      if decide (i = seat) then SeatSpec.switch x (SeatSpec.queue m i) else SeatSpec.queue m i) ∧
   head (SeatSpec.queue m' seat) = Some x ∧ SeatSpec.queue m' seat ≡ₚ SeatSpec.queue m seat) ∧
  (x ∉ SeatSpec.queue m seat → is_ok r = false ∧ m' = m).
Proof.
  intros Hsteps. assert (SeatInv.mgr_wf m) as Hwf.
  { eapply (rtc_invariant _ SeatInv.mgr_wf); [apply seat_step_wf|done|apply new_seats_wf]. }
  pose proof (queue_switch m seat x Hwf) as Hs. pose proof (switch_refused m seat x) as Hr.
  destruct (SeatManager.switch_active seat x m) as [r m']. simpl in *. split_and!; [done|..|done].
  - intros i. by apply queue_attach.
  - intros i. by apply queue_detach.
  - intros Hx. destruct (Hs Hx) as [-> Hq]. split_and!; [done..| |]; rewrite Hq, decide_True by done.
    + by apply spec_switch_head.
    + apply spec_switch_perm; [by apply queue_NoDup|done].
Qed.

(** C28. Suspending, in order, and without a lock screen.  Unless a blocking
    inhibitor is held, the pause for delay inhibitors comes first, then one
    [PrepareForSleep] per session with a connected compositor, and only then the
    calls of the backend, whose result is returned.  When the configuration asks
    for it and no lock inhibitor is held, a compositor is told to prepare at a
    moment when its session is locked already, and at the moment of each call of
    the backend every registered session is locked: the log of [Power.suspend]
    has the lock table at every effect.  The locks are recorded in the lock
    manager only: every session is left in the state it was in, and no compositor
    is told to show a lock screen. *)
Theorem suspend_locks_before_sleep `{SerdeJson} `{TomlSettings} w d es r d' :
  Daemon.suspend w d = (es, r, d') →
  InhibitorRegistry.blocks InhibitWhat.Suspend (LockManager.inhibitors (Daemon.locks d)) = false →
  let policy := LockPolicy.from (Settings.lock (Daemon.settings d)) in
  let locking := LockPolicy.lock_on_suspend policy = true ∧ LockPolicy.enabled policy = true ∧
    InhibitorRegistry.blocks InhibitWhat.Lock (LockManager.inhibitors (Daemon.locks d)) = false in
  ∃ pause prepare sleep,
    Power.suspend (Daemon.sessions d) policy (Daemon.registry d) (Daemon.power_backend d)
      (Daemon.suspend_grace d) w (Daemon.locks d) = (pause ++ prepare ++ sleep, r, Daemon.locks d') ∧
    es = (pause ++ prepare ++ sleep).*1 ∧
    pause.*1 = map Effect.Sys (Power.delay InhibitWhat.Suspend (Daemon.locks d) (Daemon.suspend_grace d)) ∧
    prepare.*1 = concat (map (λ c, Daemon.send_to_compositor c Event.PrepareForSleep d)
                   (SessionManager.list (Daemon.sessions d))) ∧
    sleep.*1 = map Effect.Sys (backend_suspend (Daemon.power_backend d) w).1 ∧
    r = (backend_suspend (Daemon.power_backend d) w).2 ∧
    (locking → ∀ e locks, (e, locks) ∈ prepare →
       ∃ c, c ∈ SessionManager.list (Daemon.sessions d) ∧
         e ∈ Daemon.send_to_compositor c Event.PrepareForSleep d ∧
         LockManager.is_locked (SessionContext.id c) locks = true) ∧
    (locking → DaemonInv.wf d →
       ∀ s, is_Some (SessionManager.sessions (Daemon.sessions d) !! s) →
         (∀ e locks, (e, locks) ∈ sleep → LockManager.is_locked s locks = true) ∧
         LockManager.is_locked s (Daemon.locks d') = true) ∧
    Daemon.sessions d' = Daemon.sessions d ∧
    ∀ conn s reason, Effect.Sent conn (Message.Event (Event.ShowLockScreen s reason)) ∉ es.
Proof.
  intros Hs Hb policy locking. destruct (suspend_quiet w d es r d' Hs) as [Hss Hq]. unfold Daemon.suspend in Hs.
  pose proof (suspend_order (Daemon.sessions d) policy (Daemon.registry d) (Daemon.power_backend d)
    (Daemon.suspend_grace d) w (Daemon.locks d) Hb) as Heq. cbn zeta in Heq.
  fold policy in Hs. rewrite Heq in Hs. simplify_eq. eexists _, _, _. split_and!; [exact Heq|done|..]; try done.
  - apply fst_log.
  - apply notices_effects.
  - apply fst_log.
  - intros (Hp & He & Hi) e locks Hin. by eapply notices_locked.
  - intros (Hp & He & Hi) Hwf s Hreg. assert (LockManager.is_locked s (foldl (suspend_lock policy) (Daemon.locks d)
      (SessionManager.list (Daemon.sessions d))) = true) as Hl by by apply suspend_all_locked, Hreg; try apply Hwf.
    split; [|done]. intros e locks (e' & [= -> ->] & _)%list_elem_of_fmap. done.
Qed.

(** C29. Powering off, in order.  A blocking inhibitor refuses it with nothing
    done; otherwise the pause for delay inhibitors comes first, then every
    session is ended and exactly their compositors are killed, and only then is
    the machine asked to power off. *)
Theorem poweroff_ends_sessions_first locks b grace w m :
  SessionInv.wf m →
  if InhibitorRegistry.blocks InhibitWhat.Shutdown (LockManager.inhibitors locks) then
    Power.poweroff locks b grace w m =
      ([], Err (SessionError.PermissionDenied "an application is inhibiting shutdown"), m)
  else
    ∃ kills m', Power.poweroff locks b grace w m =
        (Power.delay InhibitWhat.Shutdown locks grace ++ kills ++ (backend_poweroff b w).1,
         (backend_poweroff b w).2, m') ∧
      SessionManager.sessions m' = ∅ ∧
      ∀ pid, SysCall.KillChild pid ∈ kills ↔
        ∃ id c, SessionManager.sessions m !! id = Some c ∧ SessionContext.compositor_process c = Some pid.
Proof.
  intros Hwf. destruct (InhibitorRegistry.blocks _ _) eqn:Hb; [by apply poweroff_blocked|by apply poweroff_order].
Qed.

(** C30. What one side writes the other reads.  With an encoding that decoding
    inverts, messages written one after the other to a socket (each within the
    size limit) are read back by the peer's loop as the same messages in the same
    order, and then the loop sees the disconnection.  A frame cut short is never
    accepted, and is reported as a disconnection only if not even its length
    arrived; and whatever arrives, a message that is accepted took at least four
    bytes and at most the size limit beyond its header. *)
Theorem conversation_is_lossless {T} `{!Codec T, !CodecLaws T} (xs : list T) ps :
  Forall2 sendable xs ps →
  let w := (write_messages xs (Writer.mk [] None)).2 in
  (Protocol.read_loop (S (length (Writer.out w))) (Reader.mk (Writer.out w) None)).1 =
    (xs, SessionError.Disconnected) ∧
  (∀ p bs, p ∈ ps → bs `prefix_of` frame p → bs ≠ frame p →
   ∃ e, (Protocol.read_message (T:=T) (Reader.mk bs None)).1 = Err e ∧
     (e = SessionError.Disconnected ↔ (length bs < 4)%nat)) ∧
  (∀ r y r', Protocol.read_message (T:=T) r = (y, r') → is_ok y = true →
   (N.of_nat (length (Reader.bytes r)) ≤
      N.of_nat (length (Reader.bytes r')) + 4 + Protocol.MAX_MESSAGE_LEN)%N ∧
   (length (Reader.bytes r') + 4 ≤ length (Reader.bytes r))%nat).
Proof.
  intros Hxs w. split_and!; [by apply (conversation_roundtrip xs ps)| |apply read_message_bounded].
  intros p bs Hp. apply read_truncated. apply list_elem_of_lookup_1 in Hp as [i Hi].
  destruct (Forall2_lookup_r _ _ _ _ _ Hxs Hi) as (x & _ & _ & Hl). exact Hl.
Qed.

(** The one-shot client returns the first reply, however many events arrive
    before it, and leaves what follows unread. *)
Theorem client_returns_first_reply `{!Codec Request.t, !Codec Message.t, !CodecLaws Message.t}
    req payload evs ps resp p rest e :
  serialize req = Ok payload → (N.of_nat (length payload) ≤ u32_MAX)%N →
  Forall2 sendable (Message.Event <$> evs) ps → sendable (Message.Response resp) p →
  IpcClient.call req (Writer.mk [] None) (Reader.mk (concat (frame <$> ps) ++ frame p ++ rest) e) =
    (Ok resp, Writer.mk (frame payload) None, Reader.mk rest e).
Proof. apply call_first_reply. Qed.


(** C36. A compositor that exits is replaced.  If the groups of the session's user
    can be resolved, exactly one process is started, as that user and with the
    session's environment: the compositor again while the configured number of
    restarts is not reached, the user's shell from then on.  The process recorded
    for the session is the one started, or none if it could not be started.  The
    session forgets its connection and goes back to [Starting] from [Active],
    [Idle] and [Locked]; the restart counter goes up by one below the limit and
    stays at it.  The connection it had leaves the registry.  Everything else of
    the daemon, all other sessions and the locks included, is as it was. *)
Theorem compositor_exit `{SerdeJson} `{TomlSettings} pid w d s c es d' :
  DaemonInv.wf d → Daemon.find_compositor pid (Daemon.sessions d) = Some (s, c) →
  Daemon.handle_compositor_exit pid w d = (es, d') →
  let settings := Settings.session (Daemon.settings d) in
  let restarts := SessionContext.compositor_restarts c in
  let below := bool_decide (restarts < SessionSettings.max_compositor_restarts settings)%N in
  ∃ child,
    match Groups.supplementary_gids (User.name (SessionContext.user c)) w with
    | Err _ => es = [] ∧ child = None
    | Ok gids =>
        ∃ cmd, es = [Effect.Sys (SysCall.Spawn cmd)] ∧
          cmd_program cmd = (if below then SessionSettings.compositor_binary settings
                             else User.shell (SessionContext.user c)) ∧
          cmd_args cmd = [] ∧ cmd_setgroups cmd = gids ∧ runs_for c cmd ∧
          child = match w_spawn w cmd with Ok new => Some new | Err _ => None end
    end ∧
    let c' := SessionContext.mk (SessionContext.session c) (SessionContext.user c)
      (match SessionContext.state c with
       | SessionState.Active | SessionState.Idle | SessionState.Locked => SessionState.Starting
       | other => other
       end) (SessionContext.environment c) None child (if below then u32_add restarts 1 else restarts) in
    let registry := match SessionContext.compositor_conn c with
                    | Some conn => ConnRegistry.unregister conn (Daemon.registry d)
                    | None => Daemon.registry d
                    end in
    let sessions := SessionManager.mk (<[s := c']> (SessionManager.sessions (Daemon.sessions d)))
                      (SessionManager.next_id (Daemon.sessions d)) in
    d' = Daemon.mk (Daemon.settings d) sessions (Daemon.seats d) (Daemon.locks d) (Daemon.idle d) registry
           (Daemon.authenticator d) (Daemon.elevation d) (Daemon.power_backend d) (Daemon.socket_path d)
           (Daemon.should_exit d) (Daemon.audit_path d).
Proof.
  intros Hwf Hf Hx settings restarts below. pose proof (exit_spec pid w d s c Hwf Hf) as Hs.
  rewrite Hx in Hs. destruct Hs as (child & Hr & Hd). exists child.
  assert (∀ A (x y : A), (if below then x else y) = if decide (restarts <
    SessionSettings.max_compositor_restarts settings)%N then x else y) as Hb.
  { intros A x y. subst below. case_bool_decide; [by rewrite decide_True|by rewrite decide_False]. }
  rewrite !Hb. split; [exact Hr|]. rewrite Hd. unfold context_after, state_after. by destruct (SessionContext.state c).
Qed.

(** C39. What reaches the event loop from a connection, however the threads of
    all connections, the loop and its other events interleave: its [Connected],
    then the requests its peer sent, in the order sent, none lost once the read
    loop has ended, and last, at most once, its [Disconnected].  So the loop never
    sees a request of a connection it was not told of or was told is gone. *)
Theorem connection_order `{SerdeJson} `{TomlSettings} `{!Codec Request.t, !Codec Message.t} d s c k :
  rtc server_moves (Server.start d) s → Server.conns s !! c = Some k →
  about c (Server.posted s) = conn_history c k ∧
  Conn.received k `prefix_of` (Connection.forwarded (Conn.arrived k)).1 ∧
  (Conn.reader k = Conn.Closing ∨ Conn.reader k = Conn.Finished →
   Conn.received k = (Connection.forwarded (Conn.arrived k)).1) ∧
  (∀ l1 cmd l2, Server.posted s = l1 ++ ManagerMessage.Command cmd :: l2 → ManagerCommand.conn_id cmd = c →
   connected c k ∈ l1 ∧ ManagerMessage.Disconnected c ∉ l1).
Proof.
  intros [Ha Hc]%server_reachable_wf Hk. destruct (Hc _ _ Hk) as (_ & Hf & He & _).
  assert (about c (Server.posted s) = conn_history c k) as Hh by by rewrite Ha, Hk.
  rewrite Hf. split_and!; [done|by eexists| |].
  - intros Hr. rewrite He by done. simpl. by rewrite app_nil_r.
  - intros l1 cmd l2 Hp Hcmd. rewrite Hp, about_app in Hh. unfold about at 2 in Hh.
    rewrite filter_cons_True in Hh by done. by eapply history_before.
Qed.

(** C40. A peer that hangs up may go unnoticed.  Once the read loop of a
    connection has ended and its outbox is empty, its threads stay blocked, and
    its [Disconnected] is not posted, for as long as the daemon keeps its registry
    entry and sends it nothing, whatever else happens; when the entry is gone,
    two steps of its threads report the end. *)
Theorem silent_disconnect `{SerdeJson} `{TomlSettings} `{!Codec Request.t, !Codec Message.t} d s c k :
  rtc server_moves (Server.start d) s → Server.conns s !! c = Some k →
  Conn.reader k = Conn.Closing → Conn.writer k = Conn.Draining → Conn.outbox k = [] →
  (Server.registered c s → ∀ s', rtc (quiet c) s s' →
   Server.conns s' !! c = Some k ∧ ManagerMessage.Disconnected c ∉ Server.posted s') ∧
  (¬ Server.registered c s → existsb (Server.announces c) (Server.channel s) = false →
   ∃ s1 s2, Server.write c s = Some s1 ∧ Server.join c s1 = Some s2 ∧
     Server.posted s2 = Server.posted s ++ [ManagerMessage.Disconnected c]).
Proof.
  intros Hwf%server_reachable_wf Hk Hr Hw Ho. split.
  - intros Hreg s' Hq. destruct (hung_forever c k s s') as [(Hk' & _) Hd]; done.
  - by eapply released_reported.
Qed.
End system_properties.

(** ** Instances *)

Import Ex.

(** A daemon that was started from a file of its own, with locking off. *)
Definition ex_custom : Daemon.t :=
  Daemon.new (Settings.mk SessionSettings.default SeatSettings.default (LockSettings.mk false true true 5 3 30)
    IdleSettings.default AuthSettings.default ElevationSettings.default PowerSettings.default IpcSettings.default
    LoggingSettings.default) world.

Lemma reload_reads_the_default_file_witness :
  LockSettings.enabled (Settings.lock (Daemon.settings ex_custom)) = false ∧
  Daemon.settings (after (Daemon.Signalled Signal.SIGHUP []) world ex_custom).2 = Settings.default.
Proof.
  split; [reflexivity|].
  destruct (reload_reads_the_default_file [] world ex_custom
    (after (Daemon.Signalled Signal.SIGHUP []) world ex_custom).1
    (after (Daemon.Signalled Signal.SIGHUP []) world ex_custom).2) as (_ & [(_ & Ht & _)|[(He & _)|(He & _)]] & _).
  - apply after_step. vm_compute. reflexivity.
  - exact Ht.
  - exfalso. revert He. vm_compute. discriminate.
  - exfalso. revert He. vm_compute. discriminate.
Defined.

Definition ex_user : User.t := User.from_nix alice.
Definition ex_session : SessionSettings.t := Settings.session Settings.default.

(** alice logs in, locks her screen and is then [Locked]; a session that was
    [Active], [Closing] and [Closed] has a valid history. *)
Definition ex_login : list (list Daemon.input) :=
  [[connect 1 root; connect 2 user; from 1 root (Request.CreateSession "alice" None None)];
   [from 2 user (Request.RegisterCompositor 1); from 2 user (Request.LockSession 1)]].

Lemma session_lifecycle_witness :
  SessionContext.state <$> SessionManager.sessions (Daemon.sessions (ran_to ex_login booted).2) !! 1%N =
    Some SessionState.Locked ∧
  (∀ s c, SessionManager.sessions (Daemon.sessions (ran_to ex_login booted).2) !! s = Some c →
     SessionContext.state c ∈ [SessionState.Starting; SessionState.Active; SessionState.Locked]) ∧
  lifecycle_history [SessionState.Active; SessionState.Closing; SessionState.Closed].
Proof.
  destruct (session_lifecycle None udev world (map (map (λ i, (i, world))) ex_login) booted
    (ran_to ex_login booted).1 (ran_to ex_login booted).2) as (_ & _ & _ & Hs).
  - apply start_ok.
  - apply ran_step. vm_compute. reflexivity.
  - split; [vm_compute; reflexivity|]. split.
    + intros s c Hc. apply (Hs s c Hc).
    + intros [|[|[|i]]] s s'; simpl; intros [= <-] [= <-]; reflexivity.
Defined.


Lemma session_runtime_dir_witness :
  let x := Lifecycle.begin 7 ex_user "seat0" SessionType.Wayland ex_session world in
  ∃ before, x.1 = before ++
    [SysCall.CreateDirAll "/run/mitos-session/1000"; SysCall.SetPermissions "/run/mitos-session/1000" 448;
     SysCall.Chown "/run/mitos-session/1000" 1000 1000] ∧ before = [].
Proof.
  intros x.
  destruct (session_runtime_dir 7 ex_user "seat0" SessionType.Wayland ex_session world x.1
    (fresh_context 7 ex_user "seat0" SessionType.Wayland ex_session (w_system_time world)))
    as (_ & before & Hx & Hhome).
  - vm_compute. reflexivity.
  - exists before. split; [exact Hx|].
    apply (Hhome {| meta_uid := 1000; meta_gid := 1000; meta_mode := 448; meta_is_dir := true;
                    meta_is_symlink := false |}). reflexivity.
Defined.

(** Two sessions on a seat; switching to the second displaces the first. *)
Definition ex_seats : SeatManager.t :=
  SeatManager.attach_session "seat0" 2 (SeatManager.attach_session "seat0" 1 SeatManager.new).

Lemma ex_seats_steps : rtc seat_step SeatManager.new ex_seats.
Proof.
  eapply rtc_l; [apply (seat_step_attach _ "seat0" 1)|]; [|apply rtc_once, seat_step_attach].
  - by intros (i & s & Hs & _).
  - intros (i & s & Hs & Hx). unfold SeatManager.attach_session, SeatManager.with_seat in Hs. simpl in Hs.
    apply lookup_singleton_Some in Hs as [_ <-]. vm_compute in Hx. by apply list_elem_of_singleton in Hx.
Qed.

Lemma seats_refine_queues_witness :
  let '(r, m') := SeatManager.switch_active "seat0" 2 ex_seats in
  r = Ok (Some 1%N) ∧ SeatSpec.queue m' "seat0" = [2; 1]%N.
Proof.
  pose proof (seats_refine_queues ex_seats "seat0" 2) as Hx.
  destruct (SeatManager.switch_active "seat0" 2 ex_seats) as [r m'].
  destruct Hx as (_ & _ & _ & Hs & _).
  - apply ex_seats_steps.
  - destruct Hs as (-> & -> & _); [vm_compute; by right; left|]. split; reflexivity.
Defined.

Lemma suspend_locks_before_sleep_witness :
  let x := Daemon.suspend world logged_in in
  ∃ pause prepare sleep,
    x.1.1 = (pause ++ prepare ++ sleep).*1 ∧
    sleep.*1 = map Effect.Sys (backend_suspend (Daemon.power_backend logged_in) world).1 ∧ sleep ≠ [] ∧
    (∀ e locks, (e, locks) ∈ sleep → LockManager.is_locked 1 locks = true) ∧
    ∀ conn s reason, Effect.Sent conn (Message.Event (Event.ShowLockScreen s reason)) ∉ x.1.1.
Proof.
  intros x.
  destruct (suspend_locks_before_sleep world logged_in x.1.1 x.1.2 x.2) as
    (pause & prepare & sleep & _ & He & _ & _ & Hs & _ & _ & Hl & _ & Hq).
  - apply triple_eta.
  - vm_compute. reflexivity.
  - exists pause, prepare, sleep. split; [exact He|]. split; [exact Hs|]. split; [|split; [|exact Hq]].
    + intros ->. revert Hs. vm_compute. discriminate.
    + apply Hl.
      * vm_compute. auto.
      * apply logged_in_wf.
      * apply not_eq_None_Some. vm_compute. discriminate.
Defined.

Lemma poweroff_ends_sessions_first_witness :
  ∃ kills m', Power.poweroff (Daemon.locks logged_in) DirectBackend.backend 0 world (Daemon.sessions logged_in) =
      (kills ++ [SysCall.Reboot RebootMode.RB_POWER_OFF], Ok (), m') ∧ SessionManager.sessions m' = ∅.
Proof.
  pose proof (poweroff_ends_sessions_first (Daemon.locks logged_in) DirectBackend.backend 0 world
    (Daemon.sessions logged_in) (DaemonInv.wf_sessions _ (proj1 logged_in_wf))) as Hx.
  replace (InhibitorRegistry.blocks _ _) with false in Hx by (vm_compute; reflexivity).
  destruct Hx as (kills & m' & -> & Hm & _). exists kills, m'. split; [|exact Hm].
  replace (Power.delay _ _ _) with (@nil SysCall.t) by (vm_compute; reflexivity). reflexivity.
Defined.

Lemma conversation_is_lossless_witness :
  let xs := [[x01; x02]; []; [x03]] in
  let w := (write_messages xs (Writer.mk [] None)).2 in
  (Protocol.read_loop (S (length (Writer.out w))) (Reader.mk (Writer.out w) None)).1 =
    (xs, SessionError.Disconnected) ∧
  ∃ e, (Protocol.read_message (T:=list byte) (Reader.mk [x02; x00; x00] None)).1 = Err e ∧
    (e = SessionError.Disconnected ↔ (3 < 4)%nat).
Proof.
  destruct (conversation_is_lossless [[x01; x02]; []; [x03]] [[x01; x02]; []; [x03]]) as (Hr & Ht & _).
  - repeat constructor; vm_compute; discriminate.
  - split; [exact Hr|]. apply (Ht [x01; x02]); [left|by exists [x00; x01; x02]|discriminate].
Defined.

Lemma client_returns_first_reply_witness :
  IpcClient.call Request.Suspend (Writer.mk [] None)
    (Reader.mk (concat (frame <$> [[x01]; [x01]]) ++ frame [x00] ++ [x03]) None) =
    (Ok Response.Ok, Writer.mk (frame [x02]) None, Reader.mk [x03] None).
Proof.
  apply (client_returns_first_reply Request.Suspend [x02] [Event.PrepareForSleep; Event.PrepareForSleep]
    [[x01]; [x01]] Response.Ok [x00] [x03] None).
  - reflexivity.
  - vm_compute. discriminate.
  - repeat constructor; vm_compute; discriminate.
  - apply ex_sendable; reflexivity.
Defined.



(** The compositor of alice's session, process 4242, exits and is started again. *)
Lemma compositor_exit_witness :
  let x := Daemon.handle_compositor_exit 4242 world logged_in in
  ∃ cmd, x.1 = [Effect.Sys (SysCall.Spawn cmd)] ∧ cmd_program cmd = "/usr/bin/mitos-gui" ∧
    Daemon.locks x.2 = Daemon.locks logged_in.
Proof.
  intros x.
  destruct (Daemon.find_compositor 4242 (Daemon.sessions logged_in)) as [[s c]|] eqn:Hf;
    [|exfalso; revert Hf; vm_compute; discriminate].
  assert (c = from_option snd c (Daemon.find_compositor 4242 (Daemon.sessions logged_in))) as Hc by by rewrite Hf.
  destruct (compositor_exit 4242 world logged_in s c x.1 x.2) as (child & Hr & Hd).
  - apply logged_in_wf.
  - exact Hf.
  - apply surjective_pairing.
  - clear Hf. revert Hc. vm_compute (from_option _ _ _). intros ->.
    destruct (Groups.supplementary_gids _ world) as [gids|e] eqn:Hg; [|exfalso; revert Hg; vm_compute; discriminate].
    destruct Hr as (cmd & He & Hp & _). exists cmd. split; [exact He|]. split; [|by rewrite Hd].
    rewrite Hp. vm_compute. reflexivity.
Defined.

(** A client connects, sends one request and hangs up; the loop has taken the
    announcement only. *)
Definition ex_server0 : Server.t :=
  Server.accept root (Reader.mk (frame [x02]) None) (Writer.mk [] None) (Server.start booted).
Definition ex_server1 : Server.t := default ex_server0 (Server.announce 1 true ex_server0).
Definition ex_server2 : Server.t := default ex_server1 (Server.read 1 ex_server1).
Definition ex_server3 : Server.t := default ex_server2 (Server.read 1 ex_server2).
Definition ex_server : Server.t := from_option snd ex_server3 (Server.receive world ex_server3).

Lemma ex_server_reachable : rtc server_moves (Server.start booted) ex_server.
Proof.
  apply (rtc_l _ _ ex_server0); [eexists; by apply (server_accept [])|].
  apply (rtc_l _ _ ex_server1).
  { exists []. apply (server_announce [] _ 1 true); [done|]. apply ex_some. vm_compute. reflexivity. }
  apply (rtc_l _ _ ex_server2).
  { exists []. apply (server_read [] _ 1); [done|]. apply ex_some. vm_compute. reflexivity. }
  apply (rtc_l _ _ ex_server3).
  { exists []. apply (server_read [] _ 1); [done|]. apply ex_some. vm_compute. reflexivity. }
  apply rtc_once. exists (from_option fst [] (Server.receive world ex_server3)).
  apply (server_receive _ _ world). unfold ex_server.
  assert (match Server.receive world ex_server3 with Some _ => true | None => false end = true) as Hs
    by (vm_compute; reflexivity).
  by destruct (Server.receive world ex_server3) as [[]|].
Qed.

Definition ex_conn : Conn.t := default (Conn.new root (Reader.mk [] None) (Writer.mk [] None)) (Server.conns ex_server !! 1%N).

Lemma ex_conn_lookup : Server.conns ex_server !! 1%N = Some ex_conn.
Proof. apply ex_some. vm_compute. reflexivity. Qed.

Lemma connection_order_witness :
  Conn.received ex_conn = [Request.Suspend] ∧
  Conn.received ex_conn = (Connection.forwarded (Conn.arrived ex_conn)).1.
Proof.
  destruct (connection_order booted ex_server 1 ex_conn ex_server_reachable ex_conn_lookup) as (_ & _ & Hr & _).
  split; [vm_compute; reflexivity|]. apply Hr. left. vm_compute. reflexivity.
Defined.

Lemma silent_disconnect_witness :
  Server.conns ex_server !! 1%N = Some ex_conn ∧ ManagerMessage.Disconnected 1 ∉ Server.posted ex_server.
Proof.
  destruct (silent_disconnect booted ex_server 1 ex_conn ex_server_reachable ex_conn_lookup) as [Hx _].
  - vm_compute. reflexivity.
  - vm_compute. reflexivity.
  - vm_compute. reflexivity.
  - apply Hx; [|apply rtc_refl]. apply not_eq_None_Some. vm_compute. discriminate.
Defined.
