(* ===== verification/BoundaryProps.v ===== *)
(** * BoundaryProps: the edges of the daemon

    What is on record of its actions, what reaches its clients, the directories
    and applications it prepares for a user, its command-line tool, and how the
    process starts and ends; with concrete instances. *)

From Stdlib Require Import Ascii Strings.Byte.
From stdpp Require Import base gmap strings pretty numbers list relations.
From S2P Require Import Prelude Errors System Config Text Runtime User Session Seat Auth Lock Idle Elevation.
From S2P Require Import Ipc Protocol Policy Launcher Autostart Power Daemon Sessionctl DaemonInv DaemonSafety.
From S2P Require Import DaemonAudit Server Replies Boot Examples.

Section boundary_properties.
Context `{HashOrder} `{SerdeJson} `{TomlSettings}.

(** C15. The audit log accounts for the daemon's actions.  Across any event, the
    set of sessions changes only by a login or a logout, one session at a time,
    that is on record with the uid of the peer who asked, or by an event that
    ends all sessions (a reboot, a power off, a termination signal, which are not
    on record).  And an [Unlock] or a [RespondElevation] is either answered with
    an error, nobody being told anything else, or its outcome is on record with
    the uid of the peer: the messages to the compositor and to the requester of
    the prompt come first, and no other outcome is in them, then the record, and
    last the answer to the connection that sent the password. *)
Theorem actions_are_audited i w d es d' :
  Daemon.handle i w d = Done (es, d') →
  accounted i w es d d' ∧
  ∀ conn peer req action,
    i = Daemon.Ipc (ManagerMessage.Command (ManagerCommand.mk conn peer req)) →
    password_action req = Some action →
    (∃ msg, es = ConnRegistry.send_response conn (Response.Error msg) (Daemon.registry d')) ∨
    ∃ o told path target,
      es = told ++
           [Effect.Audit path (AuditEvent.mk (as_secs (w_system_time w)) (PeerCred.uid peer) action
              (Some target) None (AuthOutcome.debug o))] ++
           ConnRegistry.send_response conn (Response.AuthResult o) (Daemon.registry d') ∧
      ∀ c m o', Effect.Sent c m ∈ told → outcome_told m = Some o' → o' = o.
Proof.
  intros Hh. split; [by apply handle_accounted|]. intros conn peer req action -> Hact.
  destruct (password_recorded _ _ _ _ _ _ _ _ Hh Hact) as [?|(o & es0 & -> & told & path & target & Ht & ->)]; [by left|].
  right. exists o, told, path, target. split; [by rewrite <- (assoc_L app)|].
  intros c m o' Hin Hm. eapply Forall_forall in Ht; [|exact Hin]. naive_solver congruence.
Qed.

(** C25. Replies arrive in order.  Take a connection from the moment it is
    accepted, in any reachable state, and any interleaving of its threads, the
    other connections and the event loop from there.  The bytes on its socket are
    the frames of the first of the messages the loop has sent to it, in the order
    sent, and then at most the beginning of the frame of the next.  So a client
    that reads what has arrived gets a prefix of those messages and nothing else,
    as long as they are within the size limit. *)
Theorem replies_in_order `{!Codec Request.t, !Codec Message.t, !CodecLaws Message.t} d s p i room es s' :
  rtc server_moves (Server.start d) s → is_u64 (Server.next_conn_id s + 1) →
  server_run (Server.accept p i (Writer.mk [] room) s) es s' →
  let c := Server.next_conn_id s in
  ∃ k, Server.conns s' !! c = Some k ∧ flows [] (to_conn c es) k ∧
    ((∀ m q, m ∈ to_conn c es → serialize m = Ok q → (N.of_nat (length q) ≤ Protocol.MAX_MESSAGE_LEN)%N) →
     let bytes := Writer.out (Conn.output k) in
     (Protocol.read_loop (T:=Message.t) (S (length bytes)) (Reader.mk bytes None)).1.1 `prefix_of` to_conn c es).
Proof.
  intros Hwf%server_reachable_wf Hn Hr c.
  destruct (server_run_flows c _ es s' (Conn.new p i (Writer.mk [] room))
    (accept_wf p i (Writer.mk [] room) s Hn Hwf)) as (k & Hk & Hf); [by apply lookup_insert_eq|done|done|].
  exists k. split_and!; [done..|]. intros Hsize. by apply flows_read.
Qed.

(** C27. The runtime directory of a user, against other processes.  Whatever they
    do to the file system between any two calls, and whichever calls fail: the
    only path whose mode is changed is the base; ownership is only ever given to
    the user and mode 0700 only ever set on an inode that was itself a directory
    (not a link to one) under the directory's name when it was opened; nothing is
    removed; and success means that the open directory was seen to belong to the
    user alone.  A name that could lead out of the base makes no call at all.
    Undisturbed, with a real base: a directory that is missing or there ends up
    private; anything else under that name is refused
    and left alone. *)
Theorem runtime_dir_is_safe refusal base name uid gid fs :
  let dir := path_join base name in
  (∀ env fault,
    let '(r, s) := Runtime.ensure_named_runtime_dir env fault refusal base name uid gid (Run.start fs) in
    safe_trace base dir uid gid (Run.trace s) ∧
    (∀ p, r = Ok p → p = dir ∧ seen_private dir uid gid (Run.trace s)) ∧
    (Runtime.bad_name name = true → is_ok r = false ∧ Run.trace s = [])) ∧
  (∀ bi bn,
    Runtime.bad_name name = false → Fs.lookup base fs = Some (bi, bn) → Fs.node_kind bn = Fs.Directory →
    let fs1 := opened_up bi bn fs in
    let r := Runtime.ensure_named_runtime_dir undisturbed no_fault refusal base name uid gid (Run.start fs) in
    match Fs.lookup dir fs with
    | None => r.1 = Ok dir ∧ Run.fs r.2 = Fs.with_node (Fs.fresh fs) (private_dir uid gid) (Fs.make_dir dir fs1)
    | Some (i, n) =>
        if decide (Fs.node_kind n = Fs.Directory)
        then r.1 = Ok dir ∧ Run.fs r.2 = Fs.with_node i (private_dir uid gid) fs1
        else (∃ e, r.1 = Err ("failed to open runtime directory securely" :: e)) ∧ Run.fs r.2 = fs1
    end).
Proof.
  intros dir. split; [|intros bi bn; by apply ensure_undisturbed].
  intros env fault. pose proof (ensure_safe env fault refusal base name uid gid (Run.start fs)
    (safe_nil _ _ _ _) I) as [Hs Hq].
  destruct (Runtime.ensure_named_runtime_dir _ _ _ _ _ _ _ _) as [r s] eqn:Hr. split_and!; [done..|].
  intros Hbad. unfold Runtime.ensure_named_runtime_dir in Hr. rewrite Hbad in Hr. by injection Hr as <- <-.
Qed.



End boundary_properties.

(** ** Instances *)

Import Ex.

(** Alice unlocks her session. *)
Lemma actions_are_audited_witness :
  let i := from 2 user (Request.Unlock 1 "alice" "secret") in
  let x := after i world locked in
  accounted i world x.1 locked x.2 ∧
  ∃ o told path target, x.1 = told ++
    [Effect.Audit path (AuditEvent.mk (as_secs (w_system_time world)) 1000 "unlock_attempt"
       (Some target) None (AuthOutcome.debug o))] ++
    ConnRegistry.send_response 2 (Response.AuthResult o) (Daemon.registry x.2).
Proof.
  intros i x. destruct (actions_are_audited i world locked x.1 x.2) as [Ha Hp].
  - apply after_step. vm_compute. reflexivity.
  - split; [exact Ha|].
    destruct (Hp 2%N user (Request.Unlock 1 "alice" "secret") "unlock_attempt" eq_refl eq_refl)
      as [(msg & Hes)|(o & told & path & target & Hes & _)].
    + exfalso. revert Hes. vm_compute. discriminate.
    + exists o, told, path, target. exact Hes.
Defined.

Lemma replies_in_order_witness :
  to_conn 1 (ex_known.1 ++ ex_handled.1) = [Message.Response Response.Ok] ∧
  ∃ k, Server.conns ex_answered !! 1%N = Some k ∧
    let bytes := Writer.out (Conn.output k) in
    (Protocol.read_loop (T:=Message.t) (S (length bytes)) (Reader.mk bytes None)).1.1
      `prefix_of` [Message.Response Response.Ok].
Proof.
  destruct (replies_in_order booted (Server.start booted) root (Reader.mk (frame [x02]) None) None
    (ex_known.1 ++ ex_handled.1) ex_answered) as (k & Hk & _ & Hread).
  - apply rtc_refl.
  - vm_compute. reflexivity.
  - apply ex_answered_run.
  - split; [vm_compute; reflexivity|]. exists k. split; [exact Hk|]. apply Hread.
    intros [[]|[]] q _ Hq; cbn in Hq; (discriminate || injection Hq as <-; vm_compute; discriminate).
Defined.

(** A base directory, and under the name of uid 1000 a link to a directory of
    root's. *)
Definition ex_fs : Fs.t :=
  Fs.mk (<["/run/user" := 1%N]> {["/run/user/1000" := 2%N]})
    (<[1%N := Fs.mk_node Fs.Directory 0 0 511]>
      (<[2%N := Fs.mk_node (Fs.Symlink (Some 3%N)) 1000 1000 511]>
        {[3%N := Fs.mk_node Fs.Directory 0 0 448]})) 4.

(** How Linux refuses to open it. *)
Definition ex_refusal : OsError :=
  {| os_error := {| io_kind := ErrorKind.Other; io_text := "Not a directory (os error 20)" |}; os_errno := 20 |}.

Lemma runtime_dir_is_safe_witness :
  let r := Runtime.ensure_user_runtime_dir undisturbed no_fault ex_refusal 1000 1000 (Run.start ex_fs) in
  (∃ e, r.1 = Err ("failed to open runtime directory securely" :: e)) ∧
  Run.fs r.2 = opened_up 1 (Fs.mk_node Fs.Directory 0 0 511) ex_fs.
Proof.
  destruct (runtime_dir_is_safe ex_refusal "/run/user" "1000" 1000 1000 ex_fs) as [_ Hx].
  specialize (Hx 1%N (Fs.mk_node Fs.Directory 0 0 511) eq_refl eq_refl eq_refl). exact Hx.
Defined.





