(* ===== verification/RunProps.v ===== *)
(** * RunProps: what holds of whole runs

    The locks and the prompts of all sessions over any sequence of events and the
    passwords that can be tried on them, what unlocks a session and the requests
    and replies of a connection over any interleaving of the threads, the threads
    coming to rest, and the independence of all of it from the order in which a
    [HashMap] is visited. *)

From Stdlib Require Import Strings.Byte.
From stdpp Require Import base gmap strings pretty numbers list relations well_founded.
From S2P Require Import Prelude Errors System Config User Session Seat Auth Timers Lock Idle Elevation.
From S2P Require Import Ipc Protocol Policy Launcher Power Daemon DaemonInv DaemonSafety DaemonProcess.
From S2P Require Import DaemonPrompts DaemonReplies Determinism DaemonSettings Locking Prompting DaemonEvents.
From S2P Require Import Server Replies Progress Provenance Examples.

Section run_properties.
Context `{HashOrder} `{SerdeJson} `{TomlSettings}.

(** C13. The locks implement one small machine per session.  A lock is born
    unlocked; from then on, over any sequence of events in which the daemon does
    not panic, the lock of a session goes through exactly the actions those
    events mean for it: being told to lock (by an authorized request, by its seat
    going idle, by a suspend), being given a password (by an authorized request),
    and the clock of the idle tick, in the order of the events.  Locking keeps the
    count of wrong passwords; a password is not looked at during a lockout, and
    otherwise unlocks, is counted, or starts the countdown; the clock ends a
    lockout that is over, and leaves the session locked.  No other event, and no
    event of another session, touches it. *)
Theorem locks_refine_machine path udev w0 d0 l es d s :
  Daemon.start path udev w0 = Ok d0 → Daemon.handle_all l d0 = Done (es, d) →
  LockSpec.of_daemon s d = LockSpec.run LockSpec.init (LockSpec.history s l d0) ∧
  ∀ i w es' d', Daemon.handle i w d = Done (es', d') →
    LockSpec.of_daemon s d' = LockSpec.run (LockSpec.of_daemon s d) (LockSpec.actions s i w d).
Proof.
  intros Hs Hr. split; [|intros; by eapply handle_spec].
  rewrite <- (start_spec s _ _ _ _ Hs). by eapply handle_all_spec.
Qed.


(** C14. Idle seats are locked, once.  The tick at which the idle time of a seat
    has come to call for the lock locks the session in front of it, if locking and
    locking on idle are on, no blocking lock inhibitor is held and the user has a
    password, and its compositor is told to show the lock screen; an inhibitor of
    any other kind, one of idleness included, does not keep it from that.  At
    every other tick, as long as no seat has come to call for a suspend, the
    session is as locked or unlocked as it was: a lock that was inhibited when its
    time came is not made up for when the inhibitor is released. *)
Theorem idle_lock_happens_once w d es d' s :
  Daemon.handle Daemon.IdleTick w d = Done (es, d') →
  (∀ seat ctx,
     turns d w seat IdleStage.LockRequested → LockPolicy.lock_on_idle (policy_of d) = true →
     LockPolicy.enabled (policy_of d) = true →
     InhibitorRegistry.blocks InhibitWhat.Lock (LockManager.inhibitors (Daemon.locks d)) = false →
     SeatManager.active_session seat (Daemon.seats d) = Ok (Some s) →
     SessionManager.sessions (Daemon.sessions d) !! s = Some ctx →
     Shadow.user_has_password (Session.user_name (SessionContext.session ctx)) w = true →
     LockManager.is_locked s (Daemon.locks d') = true ∧
     ∀ c, SessionContext.compositor_conn ctx = Some c →
       is_Some (ConnRegistry.outboxes (Daemon.registry d) !! c) →
       Effect.Sent c (Message.Event (Event.ShowLockScreen s LockReason.Idle)) ∈ es) ∧
  ((∀ seat, SeatManager.active_session seat (Daemon.seats d) = Ok (Some s) →
      ¬ turns d w seat IdleStage.LockRequested) →
   (∀ seat, ¬ turns d w seat IdleStage.SuspendRequested) →
   LockManager.is_locked s (Daemon.locks d') = LockManager.is_locked s (Daemon.locks d)).
Proof.
  intros [= Hh]. assert (es = (Daemon.on_idle_tick w d).1 ∧ d' = (Daemon.on_idle_tick w d).2) as [-> ->] by by rewrite Hh.
  split.
  - intros seat ctx Ht Hp He Hb Ha Hs Hpw. assert (can_lock d = true) as Hc by (unfold can_lock; by rewrite He, Hb).
    destruct (idle_tick_locks w d seat s ctx Ht Hp Hc Ha Hs Hpw) as [Hl Hsent]. split; [done|].
    intros c Hcc [x Hx]. apply Hsent. unfold Daemon.send_to_compositor. rewrite Hcc.
    unfold ConnRegistry.send_event, ConnRegistry.send. rewrite Hx. set_solver.
  - intros Hl Hsu. pose proof (idle_tick_passes w d s Hl Hsu) as Hp. rewrite !is_locked_state.
    unfold LockSpec.of_daemon in Hp. rewrite Hp, clock_locked. done.
Qed.

(** C17. The prompts implement one small machine per session.  A session starts
    with no prompt and no wrong password; from then on, over any run of fewer than
    [2^32 - 2] events, its prompts, its counter and its lockout go through exactly
    the actions those events mean for it: a service asks for a prompt (refused
    during a lockout and at the limit of open prompts, and otherwise open until its
    deadline), an open prompt is given a password (a right one closes it and clears
    the counter, a wrong one is counted, the one that reaches the limit closes it
    and starts the lockout) or is cancelled, the session ends (all its prompts
    close), a connection goes (the prompts it shows or waits for close), and the
    clock (a lockout that is over ends, and the prompts whose deadline has come
    close).  No other event, and no prompt of another session, touches them; and
    the one who gives a password is told the machine's verdict on it. *)
Theorem prompts_refine_machine path udev w0 d0 l es d s :
  Daemon.start path udev w0 = Ok d0 → (N.of_nat (length l) + 1 < 2 ^ 32 - 1)%N →
  Daemon.handle_all l d0 = Done (es, d) →
  PromptSpec.of_daemon s d = PromptSpec.run PromptSpec.init (PromptSpec.history s l d0) ∧
  ∀ i w es' d', Daemon.handle i w d = Done (es', d') →
    PromptSpec.of_daemon s d' = PromptSpec.run (PromptSpec.of_daemon s d) (PromptSpec.actions s i w d) ∧
    ∀ conn peer id pw q ctx,
      i = Daemon.Ipc (ManagerMessage.Command (ManagerCommand.mk conn peer
            (Request.RespondElevation id (ElevationResponse.Password pw)))) →
      permitted peer conn (Request.RespondElevation id (ElevationResponse.Password pw))
        (Daemon.sessions d) (Daemon.elevation d) w →
      PromptSpec.open (PromptSpec.of_daemon s d) !! id = Some q →
      SessionManager.sessions (Daemon.sessions d) !! s = Some ctx →
      is_Some (ConnRegistry.outboxes (Daemon.registry d) !! conn) →
      let policy := Policy.elevation_auth_policy (Settings.elevation (Daemon.settings d)) in
      Effect.Sent conn (Message.Response (Response.AuthResult (PromptSpec.verdict (PromptSpec.of_daemon s d)
        (accepts (Daemon.auth d w) (AuthRequest.mk s (Session.user_name (SessionContext.session ctx)) pw))
        (AuthPolicy.max_attempts policy) (AuthPolicy.lockout policy)))) ∈ es'.
Proof.
  intros Hs Hl Hr. destruct (start_wf _ _ _ _ Hs) as [Hwf0 Hroom0]. specialize (Hroom0 _ Hl).
  destruct (keeps_handle_all _ _ _ _ Hr 1%N Hwf0 Hroom0) as [Hwf Hroom].
  assert (DaemonInv.room (N.of_nat (length l)) d0) as Hroom1 by (by eapply room_weaken; [|exact Hroom0]; lia).
  split; [rewrite <- (prompts_start_spec s _ _ _ _ Hs); by eapply prompts_handle_all_spec|].
  intros i w es' d' Hh. split; [by eapply prompts_handle_spec|].
  intros conn peer id pw q ctx -> Hp Hq Hc Hreg policy. by eapply respond_told.
Qed.


(** C26. What is shown stays with the session it is about.  Whatever has happened
    since the start, an event of the protocol (a lock screen, the feedback on a
    password, a prompt with what an application asks for, ...) that the daemon
    sends is about a session for which the receiving connection has made an
    authorized [RegisterCompositor]; a dimmed seat is one that session is in front
    of, and the prompt reported on or hidden is one of that session.  [Undim] and
    [ResumedFromSleep] are never sent. *)
Theorem events_reach_their_display path udev w0 d0 l es d i w es' d' c e :
  Daemon.start path udev w0 = Ok d0 → Daemon.handle_all l d0 = Done (es, d) →
  Daemon.handle i w d = Done (es', d') → Effect.Sent c (Message.Event e) ∈ es' →
  ∃ s, (c, s) ∈ grants (l ++ [(i, w)]) d0 ∧ concerns d s e.
Proof.
  intros Hs Hr Hh He. pose proof (handle_shows i w d es' d' Hh) as Ht. unfold telling in Ht.
  rewrite Forall_forall in Ht. destruct (Ht _ He) as (s & Hd & Hc). exists s. split; [|done].
  rewrite (grants_snoc l d0 es d i w Hr), elem_of_app. destruct Hd as [Hd|?]; [|by right]. left.
  destruct (run_displays l d0 es d c s Hr Hd) as [Hd0|?]; [|done].
  by destruct (start_displays path udev w0 d0 c s Hs).
Qed.

(** C38. The order of a [HashMap] decides nothing.  Two daemons that differ only
    in the order in which they visit their maps, given the same events, both
    panic or are in the same state at the end, and have done the same things, up
    to the order of what they did and the order of the entries of a listing.  As
    this holds of every sequence of events, and so of its beginnings, the orders
    differ only within one event.  The kernel is trusted not to give two children
    that were not waited for the same id. *)
Theorem hash_order_irrelevant (h1 h2 : HashOrder) l d :
  all_one (H := h1) l d →
  same_outcome eq (Daemon.handle_all (H := h1) l d) (Daemon.handle_all (H := h2) l d).
Proof. apply handle_all_perm. Qed.

Context `{!Codec Request.t, !Codec Message.t}.

(** C1. A locked session is unlocked from outside only by its password.  Take any
    run of the whole server, with any clients, threads and timing, and a session
    that was locked at some point of it and is not at the end.  Then at some
    moment in between the loop handled an [Unlock] for that session which is
    among the requests in the bytes that the peer of one connection sent; that
    peer was root or the owner of the session at that moment, by the credentials
    the kernel gave for the socket; and PAM accepted the user name and password in
    it.  The session was not locked out at that moment.  In particular a compositor
    crash, a restart, a dropped connection, a reload, the idle timer, a suspend and
    the end of a lockout never unlock. *)
Theorem unlocking_takes_a_password d0 l1 es1 d1 l2 es s x :
  server_trace (Server.start d0) (l1 ++ l2) es s →
  Daemon.handle_all l1 d0 = Done (es1, d1) → LockManager.is_locked x (Daemon.locks d1) = true →
  LockManager.is_locked x (Daemon.locks (Server.daemon s)) = false →
  ∃ c k u p w l3 l4 es2 d2,
    l2 = l3 ++ (Daemon.Ipc (ManagerMessage.Command (ManagerCommand.mk c (Conn.peer k) (Request.Unlock x u p))), w) :: l4 ∧
    Daemon.handle_all (l1 ++ l3) d0 = Done (es2, d2) ∧
    Server.conns s !! c = Some k ∧ Request.Unlock x u p ∈ (Connection.forwarded (Conn.arrived k)).1 ∧
    (PeerCred.uid (Conn.peer k) = 0%N ∨
     ∃ ctx, SessionManager.sessions (Daemon.sessions d2) !! x = Some ctx ∧
       Session.uid (SessionContext.session ctx) = PeerCred.uid (Conn.peer k)) ∧
    accepts (Daemon.auth d2 w) (AuthRequest.mk x u p) = true ∧
    SessionLock.state (LockManager.entry x (Daemon.locks d2)) ≠ LockState.LockedOut.
Proof.
  intros Ht Hd1 Hl Hl'. pose proof (trace_daemon _ _ _ _ Ht) as Hall. rewrite (handle_all_app _ l2 _ _ _ Hd1) in Hall.
  apply exec_bind_Done in Hall as ([es3 d3] & Hd3 & Heq). simplify_eq/=.
  destruct (run_unlocked _ _ _ _ _ Hd3 Hl Hl') as (l3 & c & peer & u & p & w & l4 & es4 & d4 & -> & Hd4 & Hp & Ha & Hlo).
  destruct (trace_command _ _ _ _ c peer (Request.Unlock x u p) w Ht) as (k & Hk & -> & Hin); [set_solver|].
  exists c, k, u, p, w, l3, l4, (es1 ++ es4), d4. split; [done|].
  split; [rewrite (handle_all_app _ l3 _ _ _ Hd1), Hd4; done|]. by split_and!.
Qed.

(** C19. Every request is answered.  Over any run of the whole server from its
    start, of fewer than [2^32 - 1] events: the replies that a connection in the
    registry was sent and the prompts it is still waiting for are together as many
    as the requests of it that the loop has taken; when the channel is empty these
    are all the requests parsed from its socket; and when its writer has emptied
    its outbox without a failure, the frames of all its messages are on the
    socket, in the order sent. *)
Theorem requests_are_answered path udev w0 d0 l es s c k :
  Daemon.start path udev w0 = Ok d0 → (N.of_nat (length l) < 2 ^ 32 - 1)%N →
  server_trace (Server.start d0) l es s → Server.conns s !! c = Some k → Server.registered c s →
  (answered c es + owed c (Daemon.elevation (Server.daemon s)) = asked c (taken_msgs s))%nat ∧
  (Server.channel s = [] → asked c (taken_msgs s) = length (Conn.received k)) ∧
  (Conn.writer k = Conn.Draining → Conn.outbox k = [] →
   ∃ before ps, Forall2 (λ m p, serialize m = Ok p) (to_conn c es) ps ∧
     Writer.out (Conn.output k) = before ++ concat (frame <$> ps)).
Proof.
  intros Hs Hl Ht Hk Hreg. destruct (start_wf _ _ _ _ Hs) as [Hwf Hroom].
  destruct (start_owes _ _ _ _ Hs) as [Ho Hr0].
  destruct (trace_books c d0 l es s Hwf (Hroom _ Hl) Ho Hr0 Ht) as [Hswf Hb].
  split_and!; [by apply Hb| |].
  - intros Hch. assert (taken_msgs s = Server.posted s) as Htk.
    { pose proof (take_drop (Server.taken s) (Server.posted s)) as Htd. unfold Server.channel in Hch.
      by rewrite Hch, app_nil_r in Htd. }
    rewrite Htk, <- asked_about, (proj1 Hswf c), Hk. simpl. rewrite asked_history.
    destruct (Conn.reader k) eqn:Hrd; try done; exfalso.
    all: assert (about c (taken_msgs s) = []) as Ha
      by (rewrite Htk, (proj1 Hswf c), Hk; simpl; unfold conn_history; by rewrite Hrd).
    all: by destruct (books_sent _ _ _ Hb Ha).
  - intros Hw Hq. destruct (books_flow _ _ _ Hb k Hk) as [before Hf]. exists before. by apply flows_all.
Qed.

(** C35. The server comes to rest.  From any reachable state, however its threads
    and the loop are scheduled, only finitely many steps can be taken before a new
    client connects or another event source fires.  In a state where no more can
    be taken, and the loop would not overflow the clock: the channel is empty; and
    every connection was refused, or is over and was reported, or is past its read
    loop with every message for it written and waits for the daemon to let go of
    it; and every request that its peer sent has been parsed. *)
Theorem server_comes_to_rest d s :
  rtc server_moves (Server.start d) s →
  sn server_works s ∧
  ∀ s', rtc server_works s s' → nf server_works s' → loop_ready s' →
    Server.channel s' = [] ∧
    ∀ c k, Server.conns s' !! c = Some k →
      conn_rests c k s' ∧
      (Conn.reader k ≠ Conn.Refused → Conn.received k = (Connection.forwarded (Conn.arrived k)).1).
Proof.
  intros Hr. split; [apply server_works_sn|]. intros s' Hs' Hnf Hready. split; [by apply rest_channel|].
  assert (rtc server_moves (Server.start d) s') as Hr'.
  { etrans; [exact Hr|]. eapply (rtc_congruence (λ x, x)); [|exact Hs']. apply server_works_moves. }
  pose proof (server_reachable_wf _ _ Hr') as Hwf. pose proof (server_reachable_joined _ _ Hr') as Hj.
  intros c k Hk. assert (conn_rests c k s') as Hrest by (apply rest_conn; try done; by apply (Hj c)).
  split; [done|]. intros Hne. eapply rest_parsed; [done..|].
  destruct Hrest as [?|[[? _]|(? & ? & _)]]; [done|auto..].
Qed.
End run_properties.

(** ** Instances *)

Import Ex.

(** Alice's session is locked, given a wrong password, and a second goes by. *)
Definition ex_locking : list (Daemon.input * World) :=
  [(connect 1 root, world); (connect 2 user, world);
   (from 1 root (Request.CreateSession "alice" None None), world);
   (from 2 user (Request.LockSession 1), world);
   (from 2 user (Request.Unlock 1 "alice" "guess"), world); (Daemon.IdleTick, world_at 1001)].

(** The end of a run that does not panic. *)
Definition ended (l : list (Daemon.input * World)) (d : Daemon.t) : list Effect.t * Daemon.t :=
  match Daemon.handle_all l d with Done x => x | Panicked => ([], d) end.

Lemma ended_eq l d :
  match Daemon.handle_all l d with Done _ => true | Panicked => false end = true →
  Daemon.handle_all l d = Done ((ended l d).1, (ended l d).2).
Proof. unfold ended. by destruct (Daemon.handle_all l d) as [[]|]. Qed.

Lemma locks_refine_machine_witness :
  LockSpec.history 1 ex_locking booted =
    [LockSpec.Lock; LockSpec.Password false 3 (from_secs 1030); LockSpec.Clock (from_secs 1001)] ∧
  LockSpec.of_daemon 1 (ended ex_locking booted).2 = LockSpec.mk LockState.Locked 1 None.
Proof.
  destruct (locks_refine_machine None udev world booted ex_locking (ended ex_locking booted).1
    (ended ex_locking booted).2 1 start_ok) as [Hm _].
  - apply ended_eq. vm_compute. reflexivity.
  - split; [vm_compute; reflexivity|]. rewrite Hm. vm_compute. reflexivity.
Defined.



(** The elevation service asks for prompts of alice's session on connection 3, and
    her compositor answers on connection 2. *)
Definition ex_prompts (n : nat) (guesses : list ElevationRequestId) : list (Daemon.input * World) :=
  [(connect 1 root, world); (connect 2 user, world); (connect 3 asker, world);
   (from 1 root (Request.CreateSession "alice" None None), world);
   (from 2 user (Request.RegisterCompositor 1), world)] ++
  replicate n (from 3 asker (Request.RequestElevation 1 action), world) ++
  map (λ id, (from 2 user (Request.RespondElevation id (ElevationResponse.Password "guess")), world)) guesses.

(** One prompt is answered wrongly and then forgotten. *)
Definition ex_forgotten : list (Daemon.input * World) := ex_prompts 1 [1%N] ++ [(Daemon.IdleTick, world_at 1120)].

Lemma prompts_refine_machine_witness :
  PromptSpec.history 1 ex_forgotten booted =
    [PromptSpec.Ask 1 (Prompt.mk 2 3 (from_secs 1120)) 3;
     PromptSpec.Answer 1 false 3 (from_secs 1000) (from_secs 30); PromptSpec.Clock (from_secs 1120)] ∧
  PromptSpec.of_daemon 1 (ended (ex_prompts 1 [1%N]) booted).2 =
    PromptSpec.mk 1 false None {[ 1%N := Prompt.mk 2 3 (from_secs 1120) ]} ∧
  PromptSpec.of_daemon 1 (ended ex_forgotten booted).2 = PromptSpec.mk 1 false None ∅.
Proof.
  split; [vm_compute; reflexivity|]. split.
  - destruct (prompts_refine_machine None udev world booted (ex_prompts 1 [1%N]) (ended (ex_prompts 1 [1%N]) booted).1
      (ended (ex_prompts 1 [1%N]) booted).2 1 start_ok) as [Hm _].
    + reflexivity.
    + apply ended_eq. vm_compute. reflexivity.
    + rewrite Hm. vm_compute. reflexivity.
  - destruct (prompts_refine_machine None udev world booted ex_forgotten (ended ex_forgotten booted).1
      (ended ex_forgotten booted).2 1 start_ok) as [Hm _].
    + reflexivity.
    + apply ended_eq. vm_compute. reflexivity.
    + rewrite Hm. vm_compute. reflexivity.
Defined.



(** Alice is active at second 1000, and her player inhibits [what]. *)
Definition ex_playing (what : InhibitWhat.t) : Daemon.t :=
  play [from 2 user (Request.ReportActivity "seat0");
        from 2 user (Request.Inhibit what "player" "video" InhibitMode.Block)] logged_in.

(** Five minutes later the lock is due and inhibited; then the film is over. *)
Definition ex_over : Daemon.t :=
  (after (from 2 user (Request.ReleaseInhibit 1)) (world_at 1300)
    (after Daemon.IdleTick (world_at 1300) (ex_playing InhibitWhat.Lock)).2).2.

Lemma idle_lock_happens_once_witness :
  LockManager.is_locked 1 (Daemon.locks (after Daemon.IdleTick (world_at 1300) (ex_playing InhibitWhat.Idle)).2) = true ∧
  InhibitorRegistry.inhibitors (LockManager.inhibitors (Daemon.locks ex_over)) = ∅ ∧
  LockManager.is_locked 1 (Daemon.locks (after Daemon.IdleTick (world_at 1301) ex_over).2) = false.
Proof.
  split; [|split; [vm_compute; reflexivity|]].
  - destruct (idle_lock_happens_once (world_at 1300) (ex_playing InhibitWhat.Idle)
      (after Daemon.IdleTick (world_at 1300) (ex_playing InhibitWhat.Idle)).1
      (after Daemon.IdleTick (world_at 1300) (ex_playing InhibitWhat.Idle)).2 1) as [Hl _].
    { apply after_step. vm_compute. reflexivity. }
    destruct (SessionManager.sessions (Daemon.sessions (ex_playing InhibitWhat.Idle)) !! 1%N) as [ctx|] eqn:Hs;
      [|exfalso; revert Hs; vm_compute; discriminate].
    apply (Hl "seat0" ctx).
    + split; [apply not_eq_None_Some; vm_compute; discriminate|]. split; [vm_compute; reflexivity|vm_compute; discriminate].
    + vm_compute. reflexivity.
    + vm_compute. reflexivity.
    + vm_compute. reflexivity.
    + vm_compute. reflexivity.
    + reflexivity.
    + revert Hs. vm_compute. intros [= <-]. reflexivity.
  - destruct (idle_lock_happens_once (world_at 1301) ex_over (after Daemon.IdleTick (world_at 1301) ex_over).1
      (after Daemon.IdleTick (world_at 1301) ex_over).2 1) as [_ Hl].
    { apply after_step. vm_compute. reflexivity. }
    assert (∀ seat g, turns ex_over (world_at 1301) seat g → g ≠ IdleStage.LockRequested ∧ g ≠ IdleStage.SuspendRequested)
      as Hno.
    { intros seat g (Ht & <- & Hg).
      assert (seat = "seat0") as ->.
      { eapply only_key; [|exact Ht|]; [vm_compute; reflexivity|]. apply not_eq_None_Some. vm_compute. discriminate. }
      exfalso. apply Hg. vm_compute. reflexivity. }
    rewrite Hl; [vm_compute; reflexivity| |].
    + intros seat _ Ht. exact (proj1 (Hno _ _ Ht) eq_refl).
    + intros seat Ht. exact (proj2 (Hno _ _ Ht) eq_refl).
Defined.

(** Alice's compositor registers; then she locks her session. *)
Definition ex_registered : list (Daemon.input * World) :=
  [(connect 1 root, world); (connect 2 user, world);
   (from 1 root (Request.CreateSession "alice" None None), world);
   (from 2 user (Request.RegisterCompositor 1), world)].

Lemma events_reach_their_display_witness :
  let d := (ended ex_registered booted).2 in
  let i := from 2 user (Request.LockSession 1) in
  Effect.Sent 2 (Message.Event (Event.ShowLockScreen 1 LockReason.Manual)) ∈ (after i world d).1 ∧
  (2%N, 1%N) ∈ grants (ex_registered ++ [(i, world)]) booted.
Proof.
  intros d i.
  assert (Effect.Sent 2 (Message.Event (Event.ShowLockScreen 1 LockReason.Manual)) ∈ (after i world d).1) as Hin
    by (vm_compute; apply list_elem_of_here).
  split; [exact Hin|].
  destruct (events_reach_their_display None udev world booted ex_registered (ended ex_registered booted).1 d
    i world (after i world d).1 (after i world d).2 2 (Event.ShowLockScreen 1 LockReason.Manual)) as (s & Hg & Hs).
  - apply start_ok.
  - apply ended_eq. vm_compute. reflexivity.
  - apply after_step. vm_compute. reflexivity.
  - exact Hin.
  - simpl in Hs. subst s. exact Hg.
Defined.

(** The other way round. *)
Definition reverse_order : HashOrder :=
  {| hash_entries K V _ _ m := reverse (map_to_list m);
     hash_entries_perm K V _ _ m := reverse_Permutation (map_to_list m) |}.

(** Alice's compositor exits, she asks for the sessions, and a second goes by. *)
Definition ex_visits : list (Daemon.input * World) :=
  [(Daemon.Signalled Signal.SIGCHLD [(WaitStatus.Reaped 4242, world)], world);
   (from 2 user Request.ListSessions, world); (Daemon.IdleTick, world_at 1001)].

(** Her session is the only one. *)
Lemma ex_one : one_compositor 4242 logged_in.
Proof.
  intros k1 k2 c1 c2 H1 _ H2 _. eapply only_key; [|by eexists..]. vm_compute. reflexivity.
Qed.

Lemma hash_order_irrelevant_witness :
  same_outcome eq (Daemon.handle_all (H := trie_order) ex_visits logged_in)
                  (Daemon.handle_all (H := reverse_order) ex_visits logged_in).
Proof.
  apply (hash_order_irrelevant trie_order reverse_order ex_visits logged_in).
  split; [split; [exact ex_one|exact I]|].
  destruct (Daemon.handle _ world logged_in) as [[es1 d1]|]; [|exact I]. split; [exact I|].
  destruct (Daemon.handle _ world d1) as [[es2 d2]|]; [|exact I]. split; [exact I|].
  destruct (Daemon.handle _ _ d2) as [[es3 d3]|]; exact I.
Defined.

(** A client of root's connects and asks for a suspend, and its answer is written. *)
Definition ex_trace : list (Daemon.input * World) :=
  [(connect 1 root, world); (from 1 root Request.Suspend, world)].

Lemma ex_answered_trace : server_trace (Server.start booted) ex_trace (ex_known.1 ++ ex_handled.1) ex_answered.
Proof.
  assert (server_trace (Server.start booted) [] [] ex_announced) as H1.
  { apply (trace_thread _ [] [] ex_accepted); [apply (trace_thread _ [] [] (Server.start booted)); [constructor|]|].
    - by apply thread_accept.
    - apply (thread_announce _ 1 true). apply ex_some. vm_compute. reflexivity. }
  assert (server_trace (Server.start booted) [(connect 1 root, world)] ex_known.1 ex_known.2) as H2.
  { apply (trace_loop _ [] [] _ _ _ ex_known.1 _ H1). apply loop_receive; [vm_compute; reflexivity|].
    apply ex_some_pair. vm_compute. reflexivity. }
  apply (trace_thread _ _ _ ex_handled.2).
  2: { apply (thread_write _ 1). apply ex_some. vm_compute. reflexivity. }
  apply (trace_loop _ [(connect 1 root, world)] ex_known.1 ex_asked _ _ ex_handled.1).
  - apply (trace_thread _ _ _ _ _ H2), (thread_read _ 1). apply ex_some. vm_compute. reflexivity.
  - apply loop_receive; [vm_compute; reflexivity|].
    apply ex_some_pair. vm_compute. reflexivity.
Qed.

Lemma requests_are_answered_witness :
  ∃ k, Server.conns ex_answered !! 1%N = Some k ∧
    answered 1 (ex_known.1 ++ ex_handled.1) = length (Conn.received k) ∧ length (Conn.received k) = 1%nat ∧
    ∃ before, Writer.out (Conn.output k) = before ++ frame [x00].
Proof.
  destruct (Server.conns ex_answered !! 1%N) as [k|] eqn:Hk; [|exfalso; revert Hk; vm_compute; discriminate].
  assert (Conn.writer k = Conn.Draining ∧ Conn.outbox k = [] ∧ length (Conn.received k) = 1%nat) as (Hw & Hq & Hn).
  { revert Hk. vm_compute. intros [= <-]. auto. }
  destruct (requests_are_answered None udev world booted ex_trace (ex_known.1 ++ ex_handled.1) ex_answered 1 k)
    as (Ha & Hc & Hf).
  - apply start_ok.
  - reflexivity.
  - apply ex_answered_trace.
  - exact Hk.
  - apply not_eq_None_Some. vm_compute. discriminate.
  - exists k. split; [done|]. rewrite <- (Hc eq_refl), <- Ha. split; [vm_compute; reflexivity|].
    split; [vm_compute; reflexivity|]. destruct (Hf Hw Hq) as (before & ps & Hps & Hout). exists before.
    rewrite Hout. f_equal. replace (to_conn 1 _) with [Message.Response Response.Ok] in Hps by (vm_compute; reflexivity).
    inversion Hps as [|? p ? ? Hp Hr]; subst. inversion Hr; subst. injection Hp as <-. reflexivity.
Defined.

(** Alice's session is locked; she connects and sends her password. *)
Definition ex_back : Server.t :=
  default (Server.start locked) (Server.announce 1 true
    (Server.accept user (Reader.mk (frame [x03]) None) (Writer.mk [] None) (Server.start locked))).
Definition ex_back_known : list Effect.t * Server.t := default ([], ex_back) (Server.receive world ex_back).
Definition ex_back_asked : Server.t := default ex_back_known.2 (Server.read 1 ex_back_known.2).
Definition ex_back_in : list Effect.t * Server.t := default ([], ex_back_asked) (Server.receive world ex_back_asked).
Definition ex_back_events : list (Daemon.input * World) :=
  [(connect 1 user, world); (from 1 user (Request.Unlock 1 "alice" "secret"), world)].

Lemma ex_back_trace :
  server_trace (Server.start locked) ex_back_events (ex_back_known.1 ++ ex_back_in.1) ex_back_in.2.
Proof.
  assert (server_trace (Server.start locked) [] [] ex_back) as Ha.
  { eapply trace_thread; [eapply trace_thread; [constructor|]|].
    - by apply (thread_accept _ user (Reader.mk (frame [x03]) None) (Writer.mk [] None)).
    - apply (thread_announce _ 1 true). apply ex_some. vm_compute. reflexivity. }
  apply (trace_loop _ [(connect 1 user, world)] ex_back_known.1 ex_back_asked _ _ ex_back_in.1).
  - apply (trace_thread _ _ _ ex_back_known.2); [|apply (thread_read _ 1); apply ex_some; vm_compute; reflexivity].
    apply (trace_loop _ [] [] _ _ _ ex_back_known.1 _ Ha). apply loop_receive; [vm_compute; reflexivity|].
    apply ex_some_pair. vm_compute. reflexivity.
  - apply loop_receive; [vm_compute; reflexivity|].
    refine (ex_some_pair (Server.receive world ex_back_asked) ([], ex_back_asked) _). vm_compute. reflexivity.
Qed.

Lemma unlocking_takes_a_password_witness :
  LockManager.is_locked 1 (Daemon.locks locked) = true ∧
  ∃ c k u p, Server.conns ex_back_in.2 !! c = Some k ∧
    Request.Unlock 1 u p ∈ (Connection.forwarded (Conn.arrived k)).1.
Proof.
  split; [vm_compute; reflexivity|].
  destruct (unlocking_takes_a_password locked [] [] locked ex_back_events (ex_back_known.1 ++ ex_back_in.1)
    ex_back_in.2 1) as (c & k & u & p & w & l3 & l4 & es2 & d2 & _ & _ & Hk & Hin & _).
  - apply ex_back_trace.
  - reflexivity.
  - vm_compute. reflexivity.
  - vm_compute. reflexivity.
  - exists c, k, u, p. split; [exact Hk|exact Hin].
Defined.

(** The client of root has sent all it will: nothing is left to do for anybody. *)
Lemma ex_rest_reachable : rtc server_moves (Server.start booted) ex_rest.
Proof.
  eapply rtc_r; [eapply server_trace_moves, ex_answered_trace|]. exists []. apply (server_read [] _ 1); [done|].
  apply ex_some. vm_compute. reflexivity.
Qed.

Lemma ex_rest_nf : nf server_works ex_rest.
Proof.
  assert (∀ c, is_Some (Server.conns ex_rest !! c) → c = 1%N) as Hone.
  { intros c Hc. eapply (only_key (Server.conns ex_rest)); [vm_compute; reflexivity|done|].
    apply not_eq_None_Some. vm_compute. discriminate. }
  intros [s' Hs]. destruct Hs as [c u s1 Hs|c s1 Hs|c s1 Hs|c s1 Hs|w es s1 Hs].
  1-4: assert (c = 1%N) as -> by (apply Hone; by (destruct (Server.conns ex_rest !! c) eqn:Hc;
         [eexists|exfalso; revert Hs; unfold Server.announce, Server.read, Server.write, Server.join; by rewrite Hc])).
  1-4: revert Hs; vm_compute; discriminate.
  apply bind_Some in Hs as (m & Hm & _). revert Hm. vm_compute. discriminate.
Qed.

Lemma server_comes_to_rest_witness :
  nf server_works ex_rest ∧
  ∃ k, Server.conns ex_rest !! 1%N = Some k ∧ hung 1 k ex_rest.
Proof.
  destruct (server_comes_to_rest booted ex_rest ex_rest_reachable) as [_ Hrest].
  destruct (Hrest ex_rest) as [_ Hc].
  - apply rtc_refl.
  - apply ex_rest_nf.
  - exists world. vm_compute. tauto.
  - split; [apply ex_rest_nf|].
    destruct (Server.conns ex_rest !! 1%N) as [k|] eqn:Hk; [|exfalso; revert Hk; vm_compute; discriminate].
    exists k. split; [done|].
    assert (Conn.reader k = Conn.Closing) as Hr by (revert Hk; vm_compute; by intros [= <-]).
    destruct (Hc _ _ Hk) as [[Hx|[[Hx _]|Hx]] _]; [congruence..|done].
Defined.
